(* ===== verification/_CoqProject ===== *)
-Q . S2P
Prelude.v
Globals.v
Machine.v
Utils.v
Uart.v
Heap.v
HeapSpec.v
Paging.v
PagingSpec.v
KernelMap.v
Packet.v
Virtio.v
VirtioSpec.v
DeviceIo.v
Virtq.v
VirtioNet.v
VirtioRx.v
VirtioTx.v
VirtioStart.v
VirtioSplit.v
Dtb.v
DtbSpec.v
DtbTermination.v
Process.v
Trap.v
Asm.v
TrapVector.v
Sched.v
Finish.v
Interrupts.v
MTrap.v
Swtch.v
Main.v
Boot.v
Start.v
Testbench.v
TestbenchSched.v
TestbenchAsm.v
TestbenchNet.v
TestbenchSplit.v
TestbenchBoot.v
