(* ===== verification/Prelude.v ===== *)
(** * A verified model of the riscv-bare-metal-network-stack kernel

    The repository is a kernel for the QEMU [virt] machine (RV64, supervisor
    mode, Sv39): a page allocator and page tables, a console, traps and a timer,
    round-robin processes, a device tree reader and a driver for a virtio
    network card.  This library translates its C functions to executable Rocq
    definitions with the names of the sources and proves what they do.

    ** The parts of the kernel and where they are

    - Prelude.v: machine-width integers ([u8] to [u64], [i32]), C notations,
      hint databases, tactics, list and bit lemmas.
    - Globals.v: the structs of the headers and the static variables, one record
      per translation unit ([heap_vars], [virtio_net_queue], [sched_vars]).
    - Machine.v: byte-addressed RAM, the device window, control registers, the
      trace of device accesses, and the monad [M] all functions live in.  A
      function returns [Ok] or [Stop]s with a fault, undefined behaviour, an
      endless loop, a context switch, or the end of the model's fuel.  [wp] is
      total correctness ([Ok] is reached), [stops] says how a run ends.
    - Utils.v: src/kernel/utils.c.  Uart.v: src/kernel/uart.c.
    - Heap.v, HeapSpec.v: the allocator and byte routines of src/kernel/mem.c,
      and the abstract allocator (a list of free pages) they refine.
    - Paging.v, PagingSpec.v, KernelMap.v: the page tables of mem.c, the
      hardware's translation [sv39] (from the privileged specification, not from
      the code's macros), and the address space [kernel_map].
    - Packet.v, Virtio.v: src/driver/virt_mmio.c, all functions.  VirtioSpec.v:
      the virtio initialisation protocol as an automaton over the trace.
      DeviceIo.v: code that only talks to devices.  Virtq.v: the virtqueues in
      memory.  VirtioNet.v, VirtioRx.v, VirtioTx.v, VirtioStart.v: sending,
      receiving, [virt_mmio_net_tx], and a card from discovery to its first frame.
      VirtioSplit.v: the same with a card that follows the split-virtqueue rules.
    - Dtb.v, DtbSpec.v, DtbTermination.v: src/kernel/dtb.c, the encoding of
      device trees, and termination on arbitrary memory.
    - Process.v: src/kernel/process.c.  Trap.v: trap.c, trap.h, timer.h.
      Sched.v: [scheduler], [swtch] and preemption as a transition system.
      Finish.v: how it ends, how it can lose a process, and the run in which no
      process is disturbed.
    - Main.v: src/kernel/main.c and the whole boot as one function [_start].
      Interrupts.v: sequences of C calls with interrupts between them, as a
      transition system ([istep]).  Boot.v: the boot, with and without interrupts.
    - Asm.v: the instructions the files under src/asm use, and how they run.
      TrapVector.v: trap.S.  MTrap.v: mtrap.S.  Swtch.v: process.S.  Start.v:
      Start.S.  Each file is translated instruction by instruction; the C side of
      the model uses a function for it ([mtrap_set_timer], [switched], [_start]),
      and a theorem says that the instructions are that; trap.S itself runs in the
      steps of Sched.v and Interrupts.v ([run_vector], [trap_restore]).
    - Testbench.v, TestbenchSched.v, TestbenchAsm.v, TestbenchNet.v,
      TestbenchSplit.v, TestbenchBoot.v: concrete platforms and the theorems
      applied to them.

    ** How the parts interact, and the interfaces

    [_start] clears [.bss], calls [relocate_kernel] (which initialises the
    allocator and takes pages for tables) and [main]; [main] calls [mem_init],
    the console, traps and timer, the device tree, the driver and the process
    table, and ends in [scheduler].  What is not in the sources is a class:
    [Platform] (devices, DMA at fences, the clock, the fuel), [UartTx] (the
    transmitter becomes ready), [DmaWithin] (which addresses a device writes),
    [OnlyCard] (which slot may hold a network card), [SplitDevice] (it follows the
    rules of virtqueues), [Image], [ImageOk], [BootTableOk], [StartSyms] (symbols
    of linker.ld), [Code], [CodeRet] (code addresses).
    Clients use the allocator through [heap_inv] and the lemmas of HeapSpec.v, the console through [prints] and
    [says], the page tables through [pg_inv] and [grown], a queue through
    [queue_ok], a card through [card_ok] and [spares], and the scheduler needs
    [fresh_table] of the process table.  The boot passes from call to call by
    [boundary], which no interrupt makes false ([stable]); [safe] is correctness of
    a sequence of calls under all interleavings with interrupts, [wp_or] that of a
    call which returns or waits for a device until the fuel is used up.

    ** What the theorems show

    - Allocator: [mem_alloc_refines], [mem_free_refines], [allocator_safety],
      [page_allocator_init_ok]; the byte loops: [mem_routines_correct].
    - Address spaces: [map_page_correct], [va2pa_correct], [relocate_kernel_ok],
      [mem_init_cases]; and where they go wrong: [map_page_out_of_memory] and, for
      superpages, [va2pa_correct].
    - Processes: [proc_create_cases], and over the runs of the transition system
      [scheduler_safety], [scheduler_progress], [round_robin], [switch_roundtrip].
      These four are about runs in which the timer does not interrupt [scheduler]
      between process.c:100 and the end of the [swtch] on line 103, nor [yield]
      between lines 136 and 138 ([orderly_run]); [scheduler_race] and
      [lost_yielder] show what such an interrupt does.  [fresh_not_preemptible] is
      a defect of runs without one.
    - Traps: [trap_handler_interrupt], [handle_exception_halts],
      [handle_exception_unknown].
    - Assembly: [trap_vector_roundtrip] (all registers survive a trap, however
      late the handler returns), [interrupt_transparent] (an interrupt while no
      process runs, for example during [main], disturbs nothing),
      [mtrap_vector_cases], [swtch_refines], [start_refines].
    - Network: [net_device_starts], [negotiation_protocol], [virtq_init_correct],
      [send_correct], [poll_rx_correct], [build_eth_frame_correct], [arp_roundtrip];
      [tx_sends_payload], [rx_descriptors_misplaced] and [split_card_hangs] show
      defects.  [poll_rx_correct] and [tx_sends_payload] have the hypothesis that
      the device answers within the bound of the loop.  [net_device_starts] has
      not: it says what happens when the card returns a buffer and when it does
      not, and with a card that follows the rules it does not ([split_card_hangs]).
    - Device tree: [fdt_traverse_visits], [fdt_traverse_ends],
      [dtb_callback_cases], [unit_name_value].
    - Strings and numbers: [string_comp_zero],
      [hex_roundtrip], [uart_dec_correct].
    - The whole: [kernel_boots], from the first instruction to the scheduler or,
      with a silent network card, to the driver that polls it, and on to the end of
      both tasks and of [main] when nothing interrupts them; and
      [kernel_boots_interrupted], the same with interrupts between the calls of
      [main].

    ** Bounds and fuel

    Loops without a bound in the code (strings, polling, waiting, the device
    tree) run for at most [fuel] iterations, a field of [Platform] that is at
    least 2^13, more than any string literal or wait in a proof needs; a theorem
    with [wp] shows that the fuel is not used up, under a hypothesis where the
    input decides (the length of a string, how soon a device answers).
    [fdt_traverse_ends] has no such hypothesis: with fuel above the number of
    readable addresses no loop of the traversal is cut off.  All other loops are
    bounded by their counters.

    ** Not modelled, and why

    - Loads and stores go to physical addresses: the kernel's map translates
      every address it uses to itself or to RAM ([relocate_kernel_ok]), and the
      model does not translate again.  Local variables are not in memory, so
      stack overflow is out of reach.
    - Interrupts are interleaved with processes and with [scheduler], [yield] and
      [forkret] between their assignments to shared variables, as steps of the
      transition system of Sched.v, and with the calls of [main] as steps of
      [istep], each device slot a call.  Inside another C function they are not
      interleaved; [interrupt_transparent] shows for a single interrupt at any
      instruction that the interrupted code cannot tell, and they do not arise
      inside the trap vector or the allocator, where interrupts are off.  [swtch]
      is one step of the transition system; of an interrupt inside the one the
      scheduler calls nothing is assumed ([torn]: any state may follow).
    - A process does not write to the scheduler's variables, to the control
      registers or to a frame of trap.S that is in use ([step_run]), and an
      interrupt does not come with a stack pointer inside such a frame ([irq]).
    - The C functions are not compiled: a call from assembly runs the function of
      the model and gives arbitrary values to the registers the calling convention
      does not preserve.  That compiled code preserves the others is assumed.
    - [interrupt_names] of trap.c, the type [virt_mmio_device_t] and constants of
      the headers, which no code uses; prototypes.
    - Device behaviour beyond what the classes state.
    - A card that raises interrupts: the driver polls, and
      [handle_external_interrupt] only prints.

    All C functions and all assembly are modelled. *)

From Stdlib Require Export ZArith Lia.
From stdpp Require Export base gmap list strings.
Global Open Scope Z_scope.
Coercion Z.of_nat : nat >-> Z.

(** ** Machine-width integers

    A C value of an unsigned w-bit type is a [Z] in [0, 2^w); a conversion to
    the type keeps the low w bits.  Plain [char] is unsigned on RISC-V. *)

Definition u8 (z : Z) : Z := z mod 2 ^ 8.
Definition u16 (z : Z) : Z := z mod 2 ^ 16.
Definition u32 (z : Z) : Z := z mod 2 ^ 32.
Definition u64 (z : Z) : Z := z mod 2 ^ 64.

(** Conversion to [int]: the representative in [-2^31, 2^31). *)
Definition i32 (z : Z) : Z := (z + 2 ^ 31) mod 2 ^ 32 - 2 ^ 31.

Declare Scope c_scope.
Delimit Scope c_scope with c.
Notation "x & y" := (Z.land x y) (at level 43, left associativity) : c_scope.
Notation "x .| y" := (Z.lor x y) (at level 44, left associativity) : c_scope.
Notation "x << n" := (Z.shiftl x n) (at level 42, left associativity) : c_scope.
Notation "x >> n" := (Z.shiftr x n) (at level 42, left associativity) : c_scope.
Global Open Scope c_scope.

Create HintDb bits.
Create HintDb cint.
Create Rewrite HintDb cint.

Lemma u8_range z : 0 <= u8 z < 2 ^ 8.
Proof. apply Z.mod_pos_bound. lia. Qed.
Lemma u16_range z : 0 <= u16 z < 2 ^ 16.
Proof. apply Z.mod_pos_bound. lia. Qed.
Lemma u32_range z : 0 <= u32 z < 2 ^ 32.
Proof. apply Z.mod_pos_bound. lia. Qed.
Lemma u64_range z : 0 <= u64 z < 2 ^ 64.
Proof. apply Z.mod_pos_bound. lia. Qed.

Lemma u8_small z : 0 <= z < 2 ^ 8 → u8 z = z.
Proof. apply Z.mod_small. Qed.
Lemma u16_small z : 0 <= z < 2 ^ 16 → u16 z = z.
Proof. apply Z.mod_small. Qed.
Lemma u32_small z : 0 <= z < 2 ^ 32 → u32 z = z.
Proof. apply Z.mod_small. Qed.
Lemma u64_small z : 0 <= z < 2 ^ 64 → u64 z = z.
Proof. apply Z.mod_small. Qed.
Lemma i32_small z : - 2 ^ 31 <= z < 2 ^ 31 → i32 z = z.
Proof. intros. unfold i32. rewrite Z.mod_small; lia. Qed.

#[export] Hint Rewrite u8_small u16_small u32_small u64_small i32_small
  using lia : cint.
#[export] Hint Resolve u8_range u16_range u32_range u64_range : cint.

(** Drop every conversion whose argument already fits. *)
Ltac cint := autorewrite with cint.
Tactic Notation "cint" "in" hyp(H) := autorewrite with cint in H.

(** ** Bits *)

Lemma testbit_high n z i : 0 <= n → 0 <= z < 2 ^ n → n <= i → Z.testbit z i = false.
Proof.
  intros Hn Hz Hi. rewrite <- (Z.mod_small z (2 ^ n)) by done.
  by apply Z.mod_pow2_bits_high.
Qed.

Lemma testbit_mod_pow2 z n i :
  0 <= i → 0 <= n → Z.testbit (z mod 2 ^ n) i = (i <? n) && Z.testbit z i.
Proof.
  intros Hi Hn. destruct (Z.ltb_spec i n).
  - by rewrite Z.mod_pow2_bits_low.
  - by rewrite Z.mod_pow2_bits_high by lia.
Qed.

(** Values are equal when they agree on every bit. *)
Ltac bitwise i :=
  apply Z.bits_inj'; intros i ?;
  repeat first
    [ rewrite Z.lor_spec | rewrite Z.land_spec | rewrite Z.lxor_spec
    | rewrite Z.shiftl_spec by lia | rewrite Z.shiftr_spec by lia
    | rewrite testbit_mod_pow2 by lia | rewrite Z.testbit_0_l ].

(** Setting and clearing one bit. *)
Lemma testbit_one_bit k i : 0 <= k → 0 <= i → Z.testbit (1 << k) i = (i =? k).
Proof.
  intros Hk Hi. rewrite Z.shiftl_1_l, Z.pow2_bits_eqb by done. apply Z.eqb_sym.
Qed.
Lemma testbit_set_bit x k i :
  0 <= k → 0 <= i → Z.testbit (x .| (1 << k)) i = Z.testbit x i || (i =? k).
Proof. intros. by rewrite Z.lor_spec, testbit_one_bit. Qed.
Lemma testbit_clear_bit x k i :
  0 <= k → 0 <= i → Z.testbit (x & Z.lnot (1 << k)) i = Z.testbit x i && negb (i =? k).
Proof. intros. by rewrite Z.land_spec, Z.lnot_spec, testbit_one_bit. Qed.

(** A low part and a high part that do not overlap. *)
Lemma land_low_high n x y : 0 <= n → 0 <= x < 2 ^ n → Z.land x (y << n) = 0.
Proof.
  intros Hn Hx. bitwise i. destruct (Z.ltb_spec i n).
  - by rewrite (Z.testbit_neg_r y) by lia; rewrite andb_false_r.
  - by rewrite (testbit_high n) by lia.
Qed.

Lemma lor_low_high n x y : 0 <= n → 0 <= x < 2 ^ n → x .| (y << n) = x + y * 2 ^ n.
Proof.
  intros Hn Hx. pose proof (Z.add_lor_land x (y << n)) as E.
  rewrite land_low_high in E by done. rewrite Z.shiftl_mul_pow2 in * by done. lia.
Qed.

Lemma shiftr_div n x : 0 <= n → x >> n = x / 2 ^ n.
Proof. apply Z.shiftr_div_pow2. Qed.
Lemma shiftl_mul n x : 0 <= n → x << n = x * 2 ^ n.
Proof. apply Z.shiftl_mul_pow2. Qed.
Lemma land_mask n x : 0 <= n → x & (2 ^ n - 1) = x mod 2 ^ n.
Proof. intros. rewrite <- Z.land_ones, Z.ones_equiv by done. done. Qed.

Lemma lor_range n x y : 0 <= n → 0 <= x < 2 ^ n → 0 <= y < 2 ^ n → 0 <= x .| y < 2 ^ n.
Proof.
  intros Hn Hx Hy. replace (x .| y) with ((x .| y) mod 2 ^ n); [apply Z.mod_pos_bound; lia|].
  bitwise i. destruct (Z.ltb_spec i n); [done|].
  by rewrite !(testbit_high n) by done.
Qed.

(** Linear arithmetic with division and remainder by constants. *)
Ltac dlia := Z.div_mod_to_equations; lia.

(** Evaluate the powers of two of the goal. *)
Ltac pow2 :=
  repeat match goal with
  | |- context [2 ^ ?n] => let v := eval vm_compute in (2 ^ n) in
      lazymatch v with Zpos _ => change (2 ^ n) with v end
  end.

(** ** Lists *)

Section filters.
Context {A : Type}.

Lemma filter_ext_Forall (P Q : A → Prop) `{∀ x, Decision (P x), ∀ x, Decision (Q x)} l :
  Forall (λ x, P x ↔ Q x) l → filter P l = filter Q l.
Proof.
  induction 1 as [|x l Hx _ IH]; [done|]. rewrite !filter_cons, IH.
  by destruct (decide (P x)), (decide (Q x)); try tauto.
Qed.

Lemma filter_all (P : A → Prop) `{∀ x, Decision (P x)} l : Forall P l → filter P l = l.
Proof. induction 1; [done|]. rewrite filter_cons_True by done. by f_equal. Qed.

Lemma filter_split_length (P : A → Prop) `{∀ x, Decision (P x)} l :
  (length (filter P l) + length (filter (λ x, ¬ P x) l))%nat = length l.
Proof. rewrite <- length_app. by rewrite filter_app_complement. Qed.
End filters.

(** Updating one element of a list. *)
Section updates.
Context {A : Type}.
Implicit Types (f : A → A) (l : list A) (x : A).

Lemma alter_lookup f i l x : l !! i = Some x → alter f i l = <[i := f x]> l.
Proof.
  revert i. induction l as [|y l IH]; intros [|i] Hx; simplify_eq/=; [done|]. f_equal. by apply IH.
Qed.

Lemma alter_inserted f i l x : (i < length l)%nat → alter f i (<[i := x]> l) = <[i := f x]> l.
Proof.
  intros Hi. rewrite (alter_lookup f i _ x) by (by apply list_lookup_insert_eq).
  apply list_insert_insert_eq.
Qed.
End updates.
