(* ===== verification/Globals.v ===== *)
(** * The kernel's data types and static variables

    The structs and enums of the headers, and one record per translation unit
    for its file-scope variables.  Pointers are addresses ([Z], 0 is [NULL]);
    a pointer into a static array is an index. *)

From S2P Require Import Prelude.

(** ** mem.c *)

(** The file-scope variables of the page allocator. *)
Record heap_vars := HeapVars {
  free_list : Z;          (* struct free_page *, 0 when empty *)
  heap_start : Z;
  heap_end : Z;
  free_page_count : Z;    (* uint32_t *)
}.

(** ** virt_mmio.c *)

(** [struct virtio_net_queue]: the driver-owned state of a split virtqueue. *)
Record virtio_net_queue := NetQueue {
  q_ring : Z;             (* struct virtq * *)
  q_buffers : Z;          (* uint8_t * *)
  q_size : Z;             (* uint16_t *)
  q_last_used_idx : Z;    (* uint16_t *)
  q_next_desc : Z;        (* uint16_t *)
  q_in_use : list Z;      (* uint8_t[DESC_QUEUE_SIZE] *)
}.

(** ** process.h and process.c *)

Inductive proc_state := PROC_UNUSED | PROC_RUNNABLE | PROC_RUNNING | PROC_ZOMBIE.

#[global] Instance proc_state_eq_dec : EqDecision proc_state.
Proof. solve_decision. Defined.

(** [struct context]: the registers [swtch] saves and restores. *)
Record context := Context_ {
  c_ra : Z; c_sp : Z;
  c_s0 : Z; c_s1 : Z; c_s2 : Z; c_s3 : Z; c_s4 : Z; c_s5 : Z;
  c_s6 : Z; c_s7 : Z; c_s8 : Z; c_s9 : Z; c_s10 : Z; c_s11 : Z;
}.

(** [struct process]. *)
Record process := Process {
  p_pid : Z;
  p_state : proc_state;
  p_stack : Z;
  p_context : context;
  p_entry : Z;            (* address of the entry function, 0 is NULL *)
  p_name : list Z;        (* char[16] *)
}.

(** The file-scope variables of process.c: [procs], [current_process] (an index
    into [procs], [None] is [NULL]) and [sched_context]. *)
Record sched_vars := SchedVars {
  procs : list process;
  current_process : option nat;
  sched_context : context;
}.
