(* ===== verification/Machine.v ===== *)
(** * The machine the kernel runs on, and the monad its functions live in

    RAM is byte addressed.  A load or store goes to RAM, to the device window
    of QEMU's virt machine (UART and the VirtIO slots), or faults.  Devices are
    not part of the sources: they are the fields of the class [Platform], and
    what the kernel does to them is recorded in a trace. *)

From S2P Require Import Prelude Globals.

(** ** Byte-addressed little-endian memory *)

Definition byte_at (r : gmap Z Z) (a : Z) : Z := default 0 (r !! a) mod 2 ^ 8.

Fixpoint ram_load (n : nat) (a : Z) (r : gmap Z Z) : Z :=
  match n with
  | O => 0
  | S n' => byte_at r a + 2 ^ 8 * ram_load n' (a + 1) r
  end.

Fixpoint ram_store (n : nat) (a v : Z) (r : gmap Z Z) : gmap Z Z :=
  match n with
  | O => r
  | S n' => ram_store n' (a + 1) (v / 2 ^ 8) (<[a := v mod 2 ^ 8]> r)
  end.

(** The bytes of [n] consecutive addresses. *)
Fixpoint ram_bytes (n : nat) (a : Z) (r : gmap Z Z) : list Z :=
  match n with
  | O => []
  | S n' => byte_at r a :: ram_bytes n' (a + 1) r
  end.

(** Write a list of bytes at consecutive addresses. *)
Fixpoint ram_write (a : Z) (bs : list Z) (r : gmap Z Z) : gmap Z Z :=
  match bs with
  | [] => r
  | b :: bs' => ram_write (a + 1) bs' (<[a := b mod 2 ^ 8]> r)
  end.

(** *** Bytes, loads and stores of memory *)

Section memory.
Implicit Types (n m : nat) (a b v x : Z) (r : gmap Z Z) (bs : list Z).

Lemma byte_at_range r a : 0 <= byte_at r a < 2 ^ 8.
Proof. apply Z.mod_pos_bound. lia. Qed.

Lemma byte_at_insert_eq r a v : byte_at (<[a := v]> r) a = v mod 2 ^ 8.
Proof. unfold byte_at. by rewrite lookup_insert_eq. Qed.

Lemma byte_at_insert_ne r a b v : a ≠ b → byte_at (<[a := v]> r) b = byte_at r b.
Proof. intros. unfold byte_at. by rewrite lookup_insert_ne. Qed.

Lemma byte_at_store_out n a v r x :
  x < a ∨ a + n <= x → byte_at (ram_store n a v r) x = byte_at r x.
Proof.
  revert a v r. induction n as [|n IH]; intros a v r Hx; simpl; [done|].
  rewrite IH by lia. apply byte_at_insert_ne. lia.
Qed.

Lemma byte_at_store_in n a v r (k : nat) :
  (k < n)%nat → byte_at (ram_store n a v r) (a + k) = v / 2 ^ (8 * k) mod 2 ^ 8.
Proof.
  revert a v r k. induction n as [|n IH]; intros a v r k Hk; [lia|]. simpl ram_store.
  destruct k as [|k].
  - rewrite Z.add_0_r, byte_at_store_out by lia. rewrite byte_at_insert_eq, Z.mod_mod by lia.
    by rewrite Z.div_1_r.
  - replace (a + S k) with (a + 1 + k) by lia. rewrite IH by lia.
    replace (8 * S k) with (8 + 8 * k) by lia. by rewrite Z.pow_add_r, Z.div_div by lia.
Qed.

Lemma ram_load_ext n a r r' :
  (∀ x, a <= x < a + n → byte_at r' x = byte_at r x) → ram_load n a r' = ram_load n a r.
Proof.
  revert a. induction n as [|n IH]; intros a Hx; simpl; [done|].
  rewrite Hx by lia. f_equal. rewrite IH; [done|]. intros. apply Hx. lia.
Qed.

Lemma ram_load_range n a r : 0 <= ram_load n a r < 2 ^ (8 * n).
Proof.
  revert a. induction n as [|n IH]; intros a; simpl ram_load; [done|].
  replace (8 * S n) with (8 + 8 * n) by lia. rewrite Z.pow_add_r by lia.
  pose proof (byte_at_range r a). specialize (IH (a + 1)). nia.
Qed.

Lemma ram_load_store_eq n a v r : ram_load n a (ram_store n a v r) = v mod 2 ^ (8 * n).
Proof.
  revert a v r. induction n as [|n IH]; intros a v r; simpl ram_load; simpl ram_store.
  - by rewrite Z.mod_1_r.
  - rewrite IH, byte_at_store_out by lia. rewrite byte_at_insert_eq, Z.mod_mod by lia.
    replace (8 * S n) with (8 + 8 * n) by lia.
    rewrite Z.pow_add_r by lia. by rewrite Z.rem_mul_r by lia.
Qed.

Lemma ram_load_store_ne n m a b v r :
  a + n <= b ∨ b + m <= a → ram_load m b (ram_store n a v r) = ram_load m b r.
Proof. intros Hd. apply ram_load_ext. intros x Hx. apply byte_at_store_out. lia. Qed.

Lemma ram_load_zero n a r : (∀ x, a <= x < a + n → byte_at r x = 0) → ram_load n a r = 0.
Proof.
  revert a. induction n as [|n IH]; intros a Hx; simpl; [done|].
  rewrite Hx, IH by (intros; try apply Hx; lia). done.
Qed.

Lemma byte_at_write_out a bs r x :
  x < a ∨ a + length bs <= x → byte_at (ram_write a bs r) x = byte_at r x.
Proof.
  revert a r. induction bs as [|b bs IH]; intros a r Hx; simpl in *; [done|].
  rewrite IH by lia. apply byte_at_insert_ne. lia.
Qed.

Lemma byte_at_write_in a bs r (i : nat) b :
  bs !! i = Some b → byte_at (ram_write a bs r) (a + i) = b mod 2 ^ 8.
Proof.
  revert a r i. induction bs as [|c bs IH]; intros a r i Hi; simpl in *; [done|].
  destruct i as [|i]; simplify_eq/=.
  - rewrite byte_at_write_out by lia. rewrite Z.add_0_r, byte_at_insert_eq.
    by rewrite Z.mod_mod by lia.
  - rewrite <- (IH (a + 1) (<[a := c mod 2 ^ 8]> r) i) by done. f_equal. lia.
Qed.

Lemma ram_write_snoc a bs b r :
  ram_write a (bs ++ [b]) r = ram_store 1 (a + length bs) b (ram_write a bs r).
Proof.
  revert a r. induction bs as [|c bs IH]; intros a r; cbn [app ram_write length].
  - by rewrite Z.add_0_r.
  - rewrite IH. f_equal. lia.
Qed.

Lemma ram_bytes_app n m a r : ram_bytes (n + m) a r = ram_bytes n a r ++ ram_bytes m (a + n) r.
Proof.
  revert a. induction n as [|n IH]; intros a; simpl; [by rewrite Z.add_0_r|].
  rewrite IH. do 2 f_equal. f_equal. lia.
Qed.

Lemma ram_load_write_out n a b bs r :
  b + n <= a ∨ a + length bs <= b → ram_load n b (ram_write a bs r) = ram_load n b r.
Proof. intros Hd. apply ram_load_ext. intros x Hx. apply byte_at_write_out. lia. Qed.

Lemma ram_write_app a bs bs' r :
  ram_write a (bs ++ bs') r = ram_write (a + length bs) bs' (ram_write a bs r).
Proof.
  revert a r. induction bs as [|b bs IH]; intros a r; cbn [app ram_write length].
  - by rewrite Z.add_0_r.
  - rewrite IH. f_equal. lia.
Qed.

(** Writes to disjoint ranges commute. *)
Lemma ram_write_insert a bs r x v :
  x < a ∨ a + length bs <= x → ram_write a bs (<[x := v]> r) = <[x := v]> (ram_write a bs r).
Proof.
  revert a r. induction bs as [|b bs IH]; intros a r Hx; simpl in *; [done|].
  rewrite <- IH by lia. by rewrite insert_insert_ne by lia.
Qed.

Lemma ram_write_comm a bs b bs' r :
  a + length bs <= b ∨ b + length bs' <= a →
  ram_write a bs (ram_write b bs' r) = ram_write b bs' (ram_write a bs r).
Proof.
  revert b r. induction bs' as [|c bs' IH]; intros b r Hd; simpl in *; [done|].
  rewrite IH by lia. by rewrite ram_write_insert by lia.
Qed.

(** A store is a write of the bytes of the value, low byte first. *)
Fixpoint le_bytes n v : list Z :=
  match n with O => [] | S n' => v mod 2 ^ 8 :: le_bytes n' (v / 2 ^ 8) end.

Lemma ram_store_write n a v r : ram_store n a v r = ram_write a (le_bytes n v) r.
Proof.
  revert a v r. induction n as [|n IH]; intros a v r; simpl; [done|].
  rewrite IH. by rewrite Z.mod_mod by lia.
Qed.

Lemma length_le_bytes n v : length (le_bytes n v) = n.
Proof. revert v. induction n; intros; simpl; auto. Qed.

Lemma ram_load_write_mid n a b pre v post r :
  b = a + length pre → ram_load n b (ram_write a (pre ++ le_bytes n v ++ post) r) = v mod 2 ^ (8 * n).
Proof.
  intros ->. rewrite !ram_write_app, length_le_bytes.
  rewrite ram_load_write_out by lia. rewrite <- ram_store_write. apply ram_load_store_eq.
Qed.

Lemma ram_bytes_ext n a r r' :
  (∀ x, a <= x < a + n → byte_at r' x = byte_at r x) → ram_bytes n a r' = ram_bytes n a r.
Proof.
  revert a. induction n as [|n IH]; intros a Hx; simpl; [done|].
  rewrite Hx by lia. f_equal. apply IH. intros. apply Hx. lia.
Qed.

Lemma length_ram_bytes n a r : length (ram_bytes n a r) = n.
Proof. revert a. induction n; intros; simpl; auto. Qed.

Lemma lookup_ram_bytes n a r (i : nat) :
  (i < n)%nat → ram_bytes n a r !! i = Some (byte_at r (a + i)).
Proof.
  revert a i. induction n as [|n IH]; intros a i Hi; [lia|]. simpl.
  destruct i as [|i]; simpl; [by rewrite Z.add_0_r|].
  rewrite IH by lia. do 2 f_equal. lia.
Qed.

(** [r'] keeps every byte of [r] whose address satisfies [P]. *)
Definition same_on (P : Z → Prop) (r r' : gmap Z Z) : Prop :=
  ∀ x, P x → byte_at r' x = byte_at r x.

#[global] Instance same_on_refl P : Reflexive (same_on P).
Proof. by intros r x. Qed.
#[global] Instance same_on_trans P : Transitive (same_on P).
Proof. intros r1 r2 r3 H1 H2 x Hx. rewrite H2 by done. auto. Qed.

Lemma same_on_weaken (P P' : Z → Prop) r r' :
  same_on P r r' → (∀ x, P' x → P x) → same_on P' r r'.
Proof. unfold same_on. auto. Qed.

Lemma same_on_load P n a r r' :
  same_on P r r' → (∀ x, a <= x < a + n → P x) → ram_load n a r' = ram_load n a r.
Proof. intros Hs Hx. apply ram_load_ext. auto. Qed.

Lemma same_on_store (P : Z → Prop) n a v r :
  (∀ x, P x → x < a ∨ a + n <= x) → same_on P r (ram_store n a v r).
Proof. intros Hd x Hx. apply byte_at_store_out. auto. Qed.

Lemma ram_load_1 a r : ram_load 1 a r = byte_at r a.
Proof. unfold ram_load. lia. Qed.
End memory.

#[global] Arguments ram_load : simpl never.
#[global] Arguments ram_store : simpl never.

(** ** Devices *)

(** What the kernel does to the outside world, in order. *)
Inductive event :=
  | ERead (a : Z) (w : nat) (v : Z)
  | EWrite (a : Z) (w : nat) (v : Z)
  | EFence.

(** The hardware outside the sources.  [dev_sync] is the progress devices make
    at a [fence]: the DMA writes they perform.  [fuel] bounds the iterations the
    model follows a loop whose bound is not in the code. *)
Class Platform := {
  dev : Type;
  dev_read : dev → Z → nat → Z * dev;
  dev_write : dev → Z → nat → Z → dev;
  dev_sync : dev → gmap Z Z → list (Z * Z) * dev;
  dev_time : dev → Z * dev;
  fuel : nat;
  fuel_min : 2 ^ 13 <= fuel;
}.

(** Control and status registers the kernel uses. *)
Record csrs := Csrs {
  sstatus : Z; sie : Z; mip : Z; mie : Z; stvec : Z; satp : Z;
  sepc : Z; scause : Z; stval : Z;
}.

(** ** The machine state *)

Record machine `{Platform} := Machine {
  m_ram : gmap Z Z;
  m_dev : dev;
  m_trace : list event;
  m_csr : csrs;
  m_heap : heap_vars;
  m_net : list virtio_net_queue;
  m_sched : sched_vars;
}.

(** Physical memory map: 128 MiB of RAM (linker.ld) and the device window. *)
Definition RAM_BASE : Z := 0x80000000.
Definition RAM_END : Z := 0x88000000.
Definition MMIO_BASE : Z := 0x10000000.
Definition MMIO_END : Z := 0x10009000.

Definition in_ram (a : Z) (n : nat) : bool := (RAM_BASE <=? a) && (a + n <=? RAM_END).
Definition in_mmio (a : Z) (n : nat) : bool := (MMIO_BASE <=? a) && (a + n <=? MMIO_END).

(** A saved register context: the scheduler's, or that of a process. *)
Inductive ctx_ref := SchedCtx | ProcCtx (i : nat).

(** Ways a function does not return: an access outside the memory map, a C
    operation without defined behaviour, a deliberate endless loop, a loop the
    model stopped following, and a switch to another context ([swtch]), after
    which the function goes on only when someone switches back. *)
Inductive stop := Fault (a : Z) | Undefined | Spin | OutOfFuel | Switch (old new : ctx_ref).

Section machine.
Context `{Platform}.

Definition set_ram (r : gmap Z Z) (s : machine) : machine :=
  Machine _ r (m_dev s) (m_trace s) (m_csr s) (m_heap s) (m_net s) (m_sched s).
Definition set_dev (d : dev) (s : machine) : machine :=
  Machine _ (m_ram s) d (m_trace s) (m_csr s) (m_heap s) (m_net s) (m_sched s).
Definition set_trace (t : list event) (s : machine) : machine :=
  Machine _ (m_ram s) (m_dev s) t (m_csr s) (m_heap s) (m_net s) (m_sched s).
Definition set_csr (c : csrs) (s : machine) : machine :=
  Machine _ (m_ram s) (m_dev s) (m_trace s) c (m_heap s) (m_net s) (m_sched s).
Definition set_heap (h : heap_vars) (s : machine) : machine :=
  Machine _ (m_ram s) (m_dev s) (m_trace s) (m_csr s) h (m_net s) (m_sched s).
Definition set_net (n : list virtio_net_queue) (s : machine) : machine :=
  Machine _ (m_ram s) (m_dev s) (m_trace s) (m_csr s) (m_heap s) n (m_sched s).
Definition set_sched (v : sched_vars) (s : machine) : machine :=
  Machine _ (m_ram s) (m_dev s) (m_trace s) (m_csr s) (m_heap s) (m_net s) v.

Lemma ram_set_ram r s : m_ram (set_ram r s) = r.
Proof. done. Qed.
Lemma ram_set_heap h s : m_ram (set_heap h s) = m_ram s.
Proof. done. Qed.
Lemma set_ram_ram r r' s : set_ram r (set_ram r' s) = set_ram r s.
Proof. done. Qed.

(** ** The state and error monad *)

Inductive res (A : Type) := Ok (a : A) (s : machine) | Stop (e : stop) (s : machine).
Arguments Ok {A} a s.
Arguments Stop {A} e s.

Definition M (A : Type) : Type := machine → res A.

Definition ret {A} (a : A) : M A := λ s, Ok a s.
Definition bind {A B} (m : M A) (k : A → M B) : M B := λ s,
  match m s with Ok a s' => k a s' | Stop e s' => Stop e s' end.
Definition halt {A} (e : stop) : M A := λ s, Stop e s.
Definition get {A} (f : machine → A) : M A := λ s, Ok (f s) s.
Definition modify (f : machine → machine) : M unit := λ s, Ok tt (f s).
End machine.

Arguments Ok {_ A} a s.
Arguments Stop {_ A} e s.

Declare Scope monad_scope.
Delimit Scope monad_scope with M.
Global Open Scope monad_scope.
Notation "x <- m ; k" := (bind m (λ x, k))
  (at level 100, m at next level, right associativity) : monad_scope.
Notation "' x <- m ; k" := (bind m (λ x : _, k))
  (at level 20, x pattern, m at level 100, k at level 200) : monad_scope.
Notation "m ;; k" := (bind m (λ _, k))
  (at level 100, right associativity) : monad_scope.
Notation "'when' b 'then' m 'end'" := (if b then m else ret tt)
  (at level 0, b at level 99, m at level 100) : monad_scope.

Section operations.
Context `{Platform}.

(** ** Loads, stores and fences *)

Definition io_read (a : Z) (n : nat) : M Z := λ s,
  let '(v, d) := dev_read (m_dev s) a n in
  let v := v mod 2 ^ (8 * n) in
  Ok v (set_trace (m_trace s ++ [ERead a n v]) (set_dev d s)).

Definition io_write (a : Z) (n : nat) (v : Z) : M unit := λ s,
  Ok tt (set_trace (m_trace s ++ [EWrite a n v]) (set_dev (dev_write (m_dev s) a n v) s)).

Definition load (n : nat) (a : Z) : M Z := λ s,
  if in_ram a n then Ok (ram_load n a (m_ram s)) s
  else if in_mmio a n then io_read a n s
  else Stop (Fault a) s.

Definition store (n : nat) (a v : Z) : M unit := λ s,
  if in_ram a n then Ok tt (set_ram (ram_store n a v (m_ram s)) s)
  else if in_mmio a n then io_write a n (v mod 2 ^ (8 * n)) s
  else Stop (Fault a) s.

(** [mem_barrier()]: a full fence; devices make progress. *)
Definition mem_barrier : M unit := λ s,
  let '(ws, d) := dev_sync (m_dev s) (m_ram s) in
  Ok tt (set_trace (m_trace s ++ [EFence])
        (set_dev d (set_ram (foldl (λ r w, <[w.1 := w.2]> r) (m_ram s) ws) s))).

(** ** Loops *)

(** [for (i = i0; i < i0 + n; i++) body(i)]. *)
Fixpoint for_from (i0 : Z) (n : nat) (body : Z → M unit) : M unit :=
  match n with
  | O => ret tt
  | S n' => body i0 ;; for_from (i0 + 1) n' body
  end.

(** A loop whose body either continues with a new loop state or leaves. *)
Fixpoint loop {A B} (n : nat) (body : A → M (A + B)) (a : A) : M B :=
  match n with
  | O => halt OutOfFuel
  | S n' =>
      r <- body a;
      match r with
      | inl a' => loop n' body a'
      | inr b => ret b
      end
  end.
End operations.

(** ** C string pointers

    A [const char *] is an address, or points into a string literal; reading a
    literal past its terminator has no defined behaviour. *)

Inductive cptr := PMem (a : Z) | PLit (l : list Z) (off : Z).

Definition char_code (c : Ascii.ascii) : Z := Z.of_nat (Ascii.nat_of_ascii c).
Fixpoint chars (s : String.string) : list Z :=
  match s with
  | EmptyString => []
  | String c s' => char_code c :: chars s'
  end.
Definition lit (s : String.string) : cptr := PLit (chars s) 0.

(** The newline that ends most messages. *)
Definition nl : String.string := String (Ascii.ascii_of_nat 10) EmptyString.

Definition cadd (p : cptr) (i : Z) : cptr :=
  match p with
  | PMem a => PMem (a + i)
  | PLit l off => PLit l (off + i)
  end.

Definition lit_char (l : list Z) (off : Z) : option Z :=
  if (off <? 0) then None
  else if off =? Z.of_nat (length l) then Some 0
  else l !! Z.to_nat off.

Definition deref `{Platform} (p : cptr) : M Z :=
  match p with
  | PMem a => load 1 a
  | PLit l off => match lit_char l off with
                  | Some c => ret c
                  | None => halt Undefined
                  end
  end.

(** ** Total correctness

    [wp m s Q]: run from [s], [m] returns and the result satisfies [Q].
    [stops m s e Q]: [m] ends in the stop [e], in a state satisfying [Q]. *)

Section wp.
Context `{Platform}.

Definition wp {A} (m : M A) (s : machine) (Q : A → machine → Prop) : Prop :=
  ∃ a s', m s = Ok a s' ∧ Q a s'.

Definition stops {A} (m : M A) (s : machine) (e : stop) (Q : machine → Prop) : Prop :=
  ∃ s', m s = Stop e s' ∧ Q s'.

Lemma wp_intro {A} (m : M A) s a s' (Q : A → machine → Prop) :
  m s = Ok a s' → Q a s' → wp m s Q.
Proof. unfold wp. eauto. Qed.

Lemma wp_ret {A} (a : A) s (Q : A → machine → Prop) : Q a s → wp (ret a) s Q.
Proof. by apply wp_intro. Qed.

Lemma wp_get {A} (f : machine → A) s (Q : A → machine → Prop) : Q (f s) s → wp (get f) s Q.
Proof. by apply wp_intro. Qed.

Lemma wp_modify f s (Q : unit → machine → Prop) : Q tt (f s) → wp (modify f) s Q.
Proof. by apply wp_intro. Qed.

Lemma wp_bind {A B} (m : M A) (k : A → M B) s Q :
  wp m s (λ a s', wp (k a) s' Q) → wp (bind m k) s Q.
Proof. intros (a & s' & E & b & s'' & E' & HQ). exists b, s''. unfold bind. by rewrite E. Qed.

Lemma wp_assoc {A B C} (m : M A) (f : A → M B) (g : B → M C) s Q :
  wp (a <- m; b <- f a; g b) s Q → wp (b <- (a <- m; f a); g b) s Q.
Proof. unfold wp, bind. by destruct (m s). Qed.

Lemma wp_mono {A} (m : M A) s (Q Q' : A → machine → Prop) :
  wp m s Q → (∀ a s', Q a s' → Q' a s') → wp m s Q'.
Proof. intros (a & s' & E & HQ) Hi. exists a, s'. auto. Qed.

Lemma wp_Ok {A} (m : M A) s (Q : A → machine → Prop) a s' : m s = Ok a s' → wp m s Q → Q a s'.
Proof. intros E (a' & s'' & E' & HQ). congruence. Qed.

Lemma stops_halt {A} e s (Q : machine → Prop) : Q s → stops (halt e : M A) s e Q.
Proof. unfold stops, halt. eauto. Qed.

Lemma stops_bind_l {A B} (m : M A) (k : A → M B) s e Q :
  stops m s e Q → stops (bind m k) s e Q.
Proof. intros (s' & E & HQ). exists s'. unfold bind. by rewrite E. Qed.

Lemma stops_bind_r {A B} (m : M A) (k : A → M B) s e Q :
  wp m s (λ a s', stops (k a) s' e Q) → stops (bind m k) s e Q.
Proof. intros (a & s' & E & s'' & E' & HQ). exists s''. unfold bind. by rewrite E. Qed.

Lemma stops_mono {A} (m : M A) s e (Q Q' : machine → Prop) :
  stops m s e Q → (∀ s', Q s' → Q' s') → stops m s e Q'.
Proof. intros (s' & E & HQ) Hi. exists s'. auto. Qed.

(** A run that returns as in [Q], or in which a loop without a bound in the code
    uses up the fuel in a state with [R]. *)
Definition wp_or {A} (m : M A) (s : machine) (Q : A → machine → Prop) (R : machine → Prop) : Prop :=
  wp m s Q ∨ stops m s OutOfFuel R.

Lemma wp_or_bind {A B} (m : M A) (k : A → M B) s Q R :
  wp_or m s (λ a s', wp_or (k a) s' Q R) R → wp_or (bind m k) s Q R.
Proof.
  intros [(a & s' & E & [Hk|Hk])|Hs]; [left; apply wp_bind|right; apply stops_bind_r|right; by apply stops_bind_l];
    by exists a, s'.
Qed.

Lemma wp_or_step {A B} (m : M A) (k : A → M B) s Q R :
  wp m s (λ a s', wp_or (k a) s' Q R) → wp_or (bind m k) s Q R.
Proof. intros Hm. apply wp_or_bind. by left. Qed.

Lemma wp_or_mono {A} (m : M A) s (Q Q' : A → machine → Prop) (R R' : machine → Prop) :
  wp_or m s Q R → (∀ a s', Q a s' → Q' a s') → (∀ s', R s' → R' s') → wp_or m s Q' R'.
Proof. intros [Hw|Hs] HQ HR; [left; by eapply wp_mono|right; by eapply stops_mono]. Qed.

Lemma wp_or_wp {A} (m : M A) s (Q : A → machine → Prop) (R : machine → Prop) :
  wp_or m s Q R → (∀ s', ¬ R s') → wp m s Q.
Proof. intros [Hw|(s' & _ & Hs)] HR; [done|]. by destruct (HR s'). Qed.

Lemma bind_Ok {A B} (m : M A) (k : A → M B) s a s' :
  m s = Ok a s' → bind m k s = k a s'.
Proof. unfold bind. by intros ->. Qed.

(** Loads and stores that hit RAM. *)
Lemma in_ram_spec (a : Z) (n : nat) : in_ram a n = true ↔ RAM_BASE <= a ∧ a + n <= RAM_END.
Proof. unfold in_ram. rewrite andb_true_iff, !Z.leb_le. done. Qed.

Lemma in_ram_true (a : Z) (n : nat) : RAM_BASE <= a → a + n <= RAM_END → in_ram a n = true.
Proof. intros. by apply in_ram_spec. Qed.

Lemma in_ram_sub (a b : Z) (n m : nat) :
  in_ram a n = true → a <= b → b + m <= a + n → in_ram b m = true.
Proof. rewrite !in_ram_spec. lia. Qed.

Lemma wp_load (n : nat) a s (Q : Z → machine → Prop) :
  in_ram a n = true → Q (ram_load n a (m_ram s)) s → wp (load n a) s Q.
Proof. intros E. unfold load. apply wp_intro. by rewrite E. Qed.

Lemma wp_store (n : nat) a v s (Q : unit → machine → Prop) :
  in_ram a n = true → Q tt (set_ram (ram_store n a v (m_ram s)) s) → wp (store n a v) s Q.
Proof. intros E. unfold store. apply wp_intro. by rewrite E. Qed.

(** An access outside the memory map faults. *)
Lemma load_fault (n : nat) a s (Q : machine → Prop) :
  in_ram a n = false → in_mmio a n = false → Q s → stops (load n a) s (Fault a) Q.
Proof. intros E E' HQ. exists s. unfold load. by rewrite E, E'. Qed.

Lemma store_fault (n : nat) a v s (Q : machine → Prop) :
  in_ram a n = false → in_mmio a n = false → Q s → stops (store n a v) s (Fault a) Q.
Proof. intros E E' HQ. exists s. unfold store. by rewrite E, E'. Qed.

(** A counted loop keeps an invariant of its index. *)
Lemma wp_for (I : Z → machine → Prop) i0 (n : nat) body s (Q : unit → machine → Prop) :
  I i0 s →
  (∀ i s', i0 <= i < i0 + n → I i s' → wp (body i) s' (λ _, I (i + 1))) →
  (∀ s', I (i0 + n) s' → Q tt s') →
  wp (for_from i0 n body) s Q.
Proof.
  revert i0 s. induction n as [|n IH]; intros i0 s HI Hbody HQ; simpl.
  - apply wp_ret, HQ. by rewrite Z.add_0_r.
  - apply wp_bind. eapply wp_mono; [apply Hbody; [lia|done]|].
    intros [] s' HI'. apply IH; [done| |].
    + intros i s'' Hi. apply Hbody. lia.
    + intros s'' HI''. apply HQ. by replace (i0 + S n) with (i0 + 1 + n) by lia.
Qed.

(** A loop leaves when a measure of the ghost state of its invariant decreases
    and starts below the fuel. *)
Lemma wp_loop_ghost {A B G} (I : G → A → machine → Prop) (mu : G → nat) n
    (body : A → M (A + B)) g a s (Q : B → machine → Prop) :
  (mu g < n)%nat → I g a s →
  (∀ g a s, I g a s → wp (body a) s (λ r s',
     match r with
     | inl a' => ∃ g', I g' a' s' ∧ (mu g' < mu g)%nat
     | inr b => Q b s'
     end)) →
  wp (loop n body a) s Q.
Proof.
  revert g a s. induction n as [|n IH]; intros g a s Hmu HI Hb; [lia|]. simpl.
  apply wp_bind. eapply wp_mono; [by apply Hb|].
  intros [a'|b] s'; simpl.
  - intros (g' & HI' & Hlt). eapply (IH g'); [lia|done|done].
  - intros HQ. by apply wp_ret.
Qed.

(** The same with a measure of the loop state. *)
Lemma wp_loop {A B} (I : A → machine → Prop) (mu : A → machine → nat) n
    (body : A → M (A + B)) a s (Q : B → machine → Prop) :
  (mu a s < n)%nat → I a s →
  (∀ a s, I a s → wp (body a) s (λ r s',
     match r with
     | inl a' => I a' s' ∧ (mu a' s' < mu a s)%nat
     | inr b => Q b s'
     end)) →
  wp (loop n body a) s Q.
Proof.
  intros Hmu HI Hb. eapply (wp_loop_ghost (λ g a s, I a s ∧ g = mu a s) id); [done|done|].
  intros g a' s' [HI' ->]. eapply wp_mono; [by apply Hb|]. intros [a''|b] s''; [|done].
  intros [? ?]. by exists (mu a'' s'').
Qed.
End wp.
