(* ===== verification/Utils.v ===== *)
(** * utils.c: strings, alignment, byte order, register access *)

From S2P Require Import Prelude Globals Machine.

Definition CR : Z := 13.
Definition BIT_MASK (n : Z) : Z := 1 << n.

(** Characters the code compares with. *)
Definition ch_nl : Z := 10.
Definition ch_0 : Z := 48.
Definition ch_9 : Z := 57.
Definition ch_A : Z := 65.
Definition ch_F : Z := 70.
Definition ch_a : Z := 97.
Definition ch_f : Z := 102.

Definition parse (c : Z) : Z := if c =? CR then ch_nl else c.

(** [return ((align - (i % align)) % align)]; [%] by zero is undefined. *)
Definition align_pad (i align : Z) : Z := (align - i mod align) mod align.

(** Bytes of a 32-bit word in reverse order. *)
Definition BE2LE (BE : Z) : Z :=
  foldl (λ LE i, LE .| u32 (((BE >> i) & 0xFF) << (24 - i))) 0 [24; 16; 8; 0].

Section utils.
Context `{Platform}.

(** [int i = 0; while (1) { if (str[i] == 0 || str[i] == newline) break; i++; }] *)
Definition string_len (str : cptr) : M Z :=
  loop fuel (λ i,
    c <- deref (cadd str i);
    if (c =? 0) || (c =? ch_nl) then ret (inr i) else ret (inl (i + 1))) 0.

(** One iteration of the comparison loop of [string_comp], which asks for the
    length of [str1] again every time. *)
Definition string_comp_body (str1 str2 : cptr) (i : Z) : M (Z + Z) :=
  n <- string_len str1;
  if i <? n then
    c1 <- deref (cadd str1 i);
    c2 <- deref (cadd str2 i);
    if c2 <? c1 then ret (inr 1)
    else if c1 <? c2 then ret (inr (-1))
    else ret (inl (i + 1))
  else ret (inr 0).

Definition string_comp (str1 str2 : cptr) : M Z :=
  n1 <- string_len str1;
  n2 <- string_len str2;
  if negb (n1 =? n2) then ret 1
  else loop fuel (string_comp_body str1 str2) 0.

Fixpoint string_comp_l_from (n : nat) (str1 str2 : cptr) (i : Z) : M Z :=
  match n with
  | O => ret 0
  | S n' =>
      c1 <- deref (cadd str1 i);
      c2 <- deref (cadd str2 i);
      if c2 <? c1 then ret 1
      else if c1 <? c2 then ret (-1)
      else string_comp_l_from n' str1 str2 (i + 1)
  end.

(** [for (i = 0; i < len; i++)] runs not at all for a negative [len]. *)
Definition string_comp_l (str1 str2 : cptr) (len : Z) : M Z :=
  string_comp_l_from (Z.to_nat len) str1 str2 0.

Definition string_set (str n size : Z) : M unit :=
  for_from 0 (Z.to_nat size) (λ i, store 1 (str + i) (u8 n)).

(** Addition of two [int]s; overflow has no defined behaviour. *)
Definition add_int (x y : Z) : M Z :=
  if (- 2 ^ 31 <=? x + y) && (x + y <? 2 ^ 31) then ret (x + y) else halt Undefined.

Definition hex_digit_value (c : Z) : Z :=
  if (ch_A <=? c) && (c <=? ch_F) then c - ch_A + 10
  else if (ch_a <=? c) && (c <=? ch_f) then c - ch_a + 10
  else c - ch_0.

Fixpoint h2i_from (n : nat) (str : cptr) (i res : Z) : M Z :=
  match n with
  | O => ret res
  | S n' =>
      let res := i32 (res << 4) in
      c <- deref (cadd str i);
      res <- add_int res (hex_digit_value c);
      h2i_from n' str (i + 1) res
  end.

Definition h2i (str : cptr) (len : Z) : M Z := h2i_from (Z.to_nat len) str 0 0.

Definition align_offset (i align : Z) : M Z :=
  if align =? 0 then halt Undefined else ret (i32 (align_pad i align)).

Definition align_mem_offset (l align : Z) : M Z :=
  if align =? 0 then halt Undefined else ret (i32 (align_pad l align)).

Definition w32 (addr val : Z) : M unit := store 4 addr val.
Definition r32 (addr : Z) : M Z := load 4 addr.

Definition wait_cycles (cycles : Z) : M unit :=
  for_from 0 (Z.to_nat cycles) (λ _, ret tt).

(** ** Reading strings *)

(** The character a pointer points to, when reading it has no effect. *)
Definition peek (s : machine) (p : cptr) : option Z :=
  match p with
  | PMem a => if in_ram a 1 then Some (byte_at (m_ram s) a) else None
  | PLit l off => lit_char l off
  end.

(** The characters [l] start at [p]. *)
Definition chars_at (s : machine) (p : cptr) (l : list Z) : Prop :=
  ∀ (i : nat) c, l !! i = Some c → peek s (cadd p i) = Some c.

(** The string [l] starts at [p]: its characters are not terminators, and a
    terminator for [string_len] follows. *)
Definition line_at (s : machine) (p : cptr) (l : list Z) : Prop :=
  chars_at s p l ∧ Forall (λ c, c ≠ 0 ∧ c ≠ ch_nl) l ∧
  (peek s (cadd p (length l)) = Some 0 ∨ peek s (cadd p (length l)) = Some ch_nl).

Lemma wp_deref p s c (Q : Z → machine → Prop) : peek s p = Some c → Q c s → wp (deref p) s Q.
Proof.
  intros Hp HQ. destruct p as [a|l off]; simpl in *.
  - destruct (in_ram a 1) eqn:E; simplify_eq. apply wp_load; [done|].
    by rewrite ram_load_1.
  - rewrite Hp. by apply wp_ret.
Qed.

Lemma chars_at_peek s p l (i : nat) c : chars_at s p l → l !! i = Some c → peek s (cadd p i) = Some c.
Proof. unfold chars_at. auto. Qed.

(** [string_len] counts the characters before the terminator. *)
Lemma wp_string_len s p l (Q : Z → machine → Prop) :
  line_at s p l → length l < fuel → Q (length l) s → wp (string_len p) s Q.
Proof.
  intros (Hc & Hf & Ht) Hn HQ. unfold string_len.
  eapply (wp_loop (λ i s', s' = s ∧ 0 <= i <= length l) (λ i _, Z.to_nat (length l - i)));
    [lia|split; [done|lia]|].
  intros i s' [-> Hi]. apply wp_bind.
  destruct (decide (i = length l)) as [->|Hne].
  - destruct Ht as [Ht|Ht]; (eapply wp_deref; [exact Ht|]); by apply wp_ret.
  - destruct (lookup_lt_is_Some_2 l (Z.to_nat i)) as [c Hlc]; [lia|].
    eapply wp_deref.
    { replace i with (Z.of_nat (Z.to_nat i)) by lia. by eapply chars_at_peek. }
    destruct (Forall_lookup_1 _ _ _ _ Hf Hlc) as [H0 H1].
    rewrite (proj2 (Z.eqb_neq c 0)), (proj2 (Z.eqb_neq c ch_nl)) by done. simpl.
    apply wp_ret. split; [split; [done|lia]|lia].
Qed.
End utils.

(** ** Comparing strings *)

(** The first difference decides; strings that agree compare equal. *)
Fixpoint cmp_chars (l1 l2 : list Z) : Z :=
  match l1, l2 with
  | c1 :: l1', c2 :: l2' =>
      if c2 <? c1 then 1 else if c1 <? c2 then -1 else cmp_chars l1' l2'
  | _, _ => 0
  end.

Lemma cmp_chars_0 l1 l2 : length l1 = length l2 → cmp_chars l1 l2 = 0 ↔ l1 = l2.
Proof.
  revert l2. induction l1 as [|c1 l1 IH]; intros [|c2 l2] Hl; simpl in *; try done.
  destruct (Z.ltb_spec c2 c1); [split; [done|intros; simplify_eq; lia]|].
  destruct (Z.ltb_spec c1 c2); [split; [done|intros; simplify_eq; lia]|].
  rewrite IH by lia. assert (c1 = c2) as -> by lia. split; intros; simplify_eq; done.
Qed.

Lemma cadd_0 p : cadd p 0 = p.
Proof. destruct p; simpl; f_equal; lia. Qed.

Lemma cadd_add p i j : cadd (cadd p i) j = cadd p (i + j).
Proof. destruct p; simpl; f_equal; lia. Qed.

Section compare.
Context `{Platform}.

Lemma chars_at_cons s p c l :
  chars_at s p (c :: l) → peek s p = Some c ∧ chars_at s (cadd p 1) l.
Proof.
  intros Hc. split.
  - rewrite <- (cadd_0 p). by apply (Hc 0%nat).
  - intros i d Hd. rewrite cadd_add. replace (1 + i) with (Z.of_nat (S i)) by lia.
    by apply (Hc (S i)).
Qed.

Lemma chars_at_drop s p l (i : nat) :
  chars_at s p l → chars_at s (cadd p i) (drop i l).
Proof.
  intros Hc j d Hd. rewrite cadd_add. rewrite lookup_drop in Hd.
  replace (i + j) with (Z.of_nat (i + j)) by lia. by apply Hc.
Qed.

Lemma wp_string_comp_l_from s p1 p2 i l1 l2 (Q : Z → machine → Prop) :
  chars_at s (cadd p1 i) l1 → chars_at s (cadd p2 i) l2 → length l1 = length l2 →
  Q (cmp_chars l1 l2) s → wp (string_comp_l_from (length l1) p1 p2 i) s Q.
Proof.
  revert i l2. induction l1 as [|c1 l1 IH]; intros i [|c2 l2] H1 H2 Hl HQ;
    simpl in *; try done; [by apply wp_ret|].
  apply chars_at_cons in H1 as [Hp1 H1], H2 as [Hp2 H2]. rewrite cadd_add in H1, H2.
  apply wp_bind; eapply wp_deref; [done|]. apply wp_bind; eapply wp_deref; [done|].
  destruct (c2 <? c1); [by apply wp_ret|]. destruct (c1 <? c2); [by apply wp_ret|].
  apply (IH _ l2); auto.
Qed.

(** [string_comp_l] compares exactly [len] characters. *)
Lemma wp_string_comp_l s p1 p2 l1 l2 (Q : Z → machine → Prop) :
  chars_at s p1 l1 → chars_at s p2 l2 → length l1 = length l2 →
  Q (cmp_chars l1 l2) s → wp (string_comp_l p1 p2 (length l1)) s Q.
Proof.
  intros. unfold string_comp_l. rewrite Nat2Z.id.
  eapply wp_string_comp_l_from; rewrite ?cadd_0; eauto.
Qed.

Lemma wp_string_comp_loop s p1 p2 l1 l2 (Q : Z → machine → Prop) :
  line_at s p1 l1 → line_at s p2 l2 → length l1 = length l2 → length l1 < fuel →
  Q (cmp_chars l1 l2) s →
  wp (loop fuel (string_comp_body p1 p2) 0) s Q.
Proof.
  intros L1 L2 Hl Hf HQ.
  eapply (wp_loop (λ (i : Z) s', s' = s ∧ ∃ k : nat, i = k ∧ (k <= length l1)%nat ∧
      cmp_chars l1 l2 = cmp_chars (drop k l1) (drop k l2))
    (λ i _, Z.to_nat (length l1 - i))); [lia| |].
  { split; [done|]. exists 0%nat. split_and!; [done|lia|done]. }
  intros i s' (-> & k & -> & Hk & E). unfold string_comp_body. apply wp_bind.
  eapply wp_string_len; [done|done|].
  destruct (Z.ltb_spec k (length l1)).
  - destruct (lookup_lt_is_Some_2 l1 k) as [c1 Hc1]; [lia|].
    destruct (lookup_lt_is_Some_2 l2 k) as [c2 Hc2]; [lia|].
    rewrite (drop_S _ _ _ Hc1), (drop_S _ _ _ Hc2) in E. simpl in E.
    apply wp_bind; eapply wp_deref; [by eapply chars_at_peek; [apply L1|]|].
    apply wp_bind; eapply wp_deref; [by eapply chars_at_peek; [apply L2|]|].
    destruct (c2 <? c1); [apply wp_ret; by rewrite <- E|].
    destruct (c1 <? c2); [apply wp_ret; by rewrite <- E|].
    apply wp_ret. split; [|lia]. split; [done|]. exists (S k). split_and!; [lia|lia|done].
  - apply wp_ret. assert (k = length l1) as -> by lia.
    rewrite drop_all in E. simpl in E. by rewrite E in HQ.
Qed.

Lemma wp_string_comp s p1 p2 l1 l2 (Q : Z → machine → Prop) :
  line_at s p1 l1 → line_at s p2 l2 → length l1 < fuel → length l2 < fuel →
  Q (if decide (length l1 = length l2) then cmp_chars l1 l2 else 1) s →
  wp (string_comp p1 p2) s Q.
Proof.
  intros L1 L2 F1 F2 HQ. unfold string_comp.
  apply wp_bind; eapply wp_string_len; [done|done|].
  apply wp_bind; eapply wp_string_len; [done|done|].
  case_decide as Hd.
  - rewrite Hd, Z.eqb_refl. simpl. by eapply wp_string_comp_loop.
  - rewrite (proj2 (Z.eqb_neq _ _)) by lia. by apply wp_ret.
Qed.

(** [string_comp] returns 0 exactly for equal strings: run on two
    terminated strings it returns (without changing anything) 0 if and only if
    they have the same characters. *)
Theorem string_comp_zero s p1 p2 l1 l2 :
  line_at s p1 l1 → line_at s p2 l2 → length l1 < fuel → length l2 < fuel →
  wp (string_comp p1 p2) s (λ v s', s' = s ∧ (v = 0 ↔ l1 = l2)).
Proof.
  intros. eapply wp_string_comp; [done..|]. split; [done|]. case_decide as Hd.
  - by apply cmp_chars_0.
  - split; [done|intros ->; done].
Qed.
End compare.

(** ** Byte order *)

Lemma BE2LE_bytes (b0 b1 b2 b3 : Z) :
  0 <= b0 < 2 ^ 8 → 0 <= b1 < 2 ^ 8 → 0 <= b2 < 2 ^ 8 → 0 <= b3 < 2 ^ 8 →
  BE2LE (b0 + 2 ^ 8 * (b1 + 2 ^ 8 * (b2 + 2 ^ 8 * b3))) =
  b3 + 2 ^ 8 * (b2 + 2 ^ 8 * (b1 + 2 ^ 8 * b0)).
Proof.
  intros. unfold BE2LE. simpl foldl. change 0xFF with (2 ^ 8 - 1).
  set (w := b0 + 2 ^ 8 * (b1 + 2 ^ 8 * (b2 + 2 ^ 8 * b3))).
  rewrite !land_mask, !shiftr_div by lia.
  replace (w / 2 ^ 24 mod 2 ^ 8) with b3 by (unfold w; dlia).
  replace (w / 2 ^ 16 mod 2 ^ 8) with b2 by (unfold w; dlia).
  replace (w / 2 ^ 8 mod 2 ^ 8) with b1 by (unfold w; dlia).
  replace (w / 2 ^ 0 mod 2 ^ 8) with b0 by (unfold w; dlia).
  rewrite !u32_small by (rewrite shiftl_mul by lia; lia).
  rewrite Z.lor_0_l, Z.shiftl_0_r.
  rewrite (lor_low_high 8), (lor_low_high 16), (lor_low_high 24) by lia. lia.
Qed.

