(* ===== verification/Uart.v ===== *)
(** * uart.c: the NS16550A console

    The registers are bytes of the device window.  The transmitter becoming
    ready is documented behaviour of the device and is the class [UartTx]. *)

From S2P Require Import Prelude Globals Machine Utils.

Definition UART0_BASE : Z := 0x10000000.
Definition UART_REG (offset : Z) : Z := UART0_BASE + offset.
Definition UART_THR : Z := UART_REG 0x00.
Definition UART_RHR : Z := UART_REG 0x00.
Definition UART_LSB : Z := UART_REG 0x00.
Definition UART_MSB : Z := UART_REG 0x01.
Definition UART_FCR : Z := UART_REG 0x02.
Definition UART_LCR : Z := UART_REG 0x03.
Definition UART_LSR : Z := UART_REG 0x05.

Definition FCR_FIFO_ENABLE : Z := 1 << 0.
Definition FCR_FIFO_CLEAR : Z := 3 << 1.
Definition LCR_DLAB : Z := 1 << 7.

Section uart.
Context `{Platform}.

(** [unsigned int divisor = clock_freq / baudrate]; division by zero is
    undefined. *)
Definition uart_init (baudrate clock_freq : Z) : M unit :=
  if baudrate =? 0 then halt Undefined else
  let divisor := u32 (clock_freq / baudrate) in
  lcr <- load 1 UART_LCR;
  store 1 UART_LCR (u8 (lcr .| LCR_DLAB)) ;;
  store 1 UART_LSB (u8 (divisor & 0xFF)) ;;
  store 1 UART_MSB (u8 ((divisor >> 8) & 0xFF)) ;;
  lcr <- load 1 UART_LCR;
  store 1 UART_LCR (u8 (lcr & Z.lnot LCR_DLAB)) ;;
  store 1 UART_LCR 0x03 ;;
  store 1 UART_FCR (FCR_FIFO_ENABLE .| FCR_FIFO_CLEAR).

(** [while (!(UART_LSR & (1 << bit))) nop;] *)
Definition wait_lsr (bit : Z) : M unit :=
  loop fuel (λ _ : unit,
    lsr <- load 1 UART_LSR;
    if (lsr & (1 << bit)) =? 0 then ret (inl tt) else ret (inr tt)) tt.

Definition uart_putc (c : Z) : M unit :=
  wait_lsr 5 ;;
  store 1 UART_THR (u8 c).

Definition uart_getc : M Z :=
  wait_lsr 0 ;;
  c <- load 1 UART_RHR;
  ret (u8 (c & 0xFF)).

Definition uart_puts (str : cptr) : M unit :=
  loop fuel (λ str,
    c <- deref str;
    if c =? 0 then ret (inr tt)
    else uart_putc c ;; ret (inl (cadd str 1))) str.

(** The loop runs at most [maxlen - 1] times. *)
Fixpoint uart_gets_from (n : nat) (buf i : Z) : M Z :=
  match n with
  | O => ret i
  | S n' =>
      c <- uart_getc;
      if (c =? ch_nl) || (c =? CR) then ret i
      else store 1 (buf + i) c ;; uart_gets_from n' buf (i + 1)
  end.

Definition uart_gets (buf maxlen : Z) : M Z :=
  i <- uart_gets_from (Z.to_nat (maxlen - 1)) buf 0;
  store 1 (buf + i) 0 ;;
  ret i.

(** A write to a local array of [length b] characters. *)
Definition buf_write (b : list Z) (i : nat) (c : Z) : M (list Z) :=
  if decide (i < length b)%nat then ret (<[i := c]> b) else halt Undefined.

(** [while (num > 0) { buffer[i++] = '0' + (num % 10); num /= 10; }] *)
Definition dec_fill (cap : nat) (num : Z) : M (list Z * nat) :=
  loop fuel (λ '(num, b, i),
    if 0 <? num then
      b <- buf_write b i (ch_0 + num mod 10);
      ret (inl (num / 10, b, S i))
    else ret (inr (b, i))) (num, replicate cap 0, O).

(** [for (int j = i - 1; j >= 0; j--) uart_putc(buffer[j]);] *)
Fixpoint print_down (b : list Z) (i : nat) : M unit :=
  match i with
  | O => ret tt
  | S j =>
      match b !! j with
      | Some c => uart_putc c ;; print_down b j
      | None => halt Undefined
      end
  end.

Definition uart_dec (num : Z) : M unit :=
  if num =? 0 then uart_putc ch_0
  else '(b, i) <- dec_fill 10 num; print_down b i.

Definition uart_dec64 (num : Z) : M unit :=
  if num =? 0 then uart_putc ch_0
  else '(b, i) <- dec_fill 20 num; print_down b i.

(** [t = (b >> i) & 0xF; t += (t > 9 ? 0x37 : 0x30);] *)
Definition hex_char (b i : Z) : Z :=
  let t := (b >> i) & 0xF in t + (if 9 <? t then 0x37 else 0x30).

(** Print the digits at the bit positions [i = 4 * (n - 1), ..., 4, 0]. *)
Fixpoint hex_from (n : nat) (b : Z) : M unit :=
  match n with
  | O => ret tt
  | S n' => uart_putc (hex_char b (4 * n')) ;; hex_from n' b
  end.

(** [for (i = 28; i >= 0; i -= 4)] *)
Definition uart_b2x (b : Z) : M unit :=
  uart_puts (lit "0x") ;; hex_from 8 b.

Definition uart_puts_fixed (str : cptr) (len : Z) : M unit :=
  for_from 0 (Z.to_nat len) (λ i, c <- deref (cadd str i); uart_putc c).

(** [for (int i = 60; i >= 0; i -= 4)] *)
Definition print_hex64 (val : Z) : M unit :=
  uart_puts (lit "0x") ;; hex_from 16 val.

(** ** What reaches the console *)

Definition uart_event (e : event) : Prop :=
  match e with
  | ERead a _ _ | EWrite a _ _ => UART0_BASE <= a < UART0_BASE + 8
  | EFence => False
  end.

(** The bytes written to the transmit register. *)
Definition console (t : list event) : list Z :=
  omap (λ e, match e with
             | EWrite a _ v => if a =? UART_THR then Some v else None
             | _ => None
             end) t.

(** [s'] is [s] after a device interaction that appended [evs] to the trace and
    touched neither memory nor kernel variables. *)
Definition io_ext (s s' : machine) (evs : list event) : Prop :=
  ∃ d, s' = set_trace (m_trace s ++ evs) (set_dev d s).

(** [s'] is [s] after printing exactly [out], using only UART registers. *)
Definition prints (s s' : machine) (out : list Z) : Prop :=
  ∃ evs, io_ext s s' evs ∧ Forall uart_event evs ∧ console evs = out.

(** Bit [bit] of the line status register is set on one of the next [n] reads. *)
Fixpoint lsr_within (bit : Z) (n : nat) (d : dev) : Prop :=
  match n with
  | O => False
  | S n' => let '(v, d') := dev_read d UART_LSR 1 in
            Z.testbit v bit = true ∨ lsr_within bit n' d'
  end.
End uart.

(** Documented behaviour of the transmitter: it empties its holding register. *)
Class UartTx `{Platform} : Prop := uart_tx_ready : ∀ d, lsr_within 5 fuel d.

(** ** Printing *)

Section printing.
Context `{Platform}.

Lemma io_ext_trans s1 s2 s3 e1 e2 :
  io_ext s1 s2 e1 → io_ext s2 s3 e2 → io_ext s1 s3 (e1 ++ e2).
Proof. intros [d1 ->] [d2 ->]. exists d2. destruct s1; simpl. by rewrite app_assoc. Qed.

Lemma io_ext_nil s : io_ext s s [].
Proof. exists (m_dev s). destruct s; simpl. by rewrite app_nil_r. Qed.

Lemma prints_nil s : prints s s [].
Proof. exists []. split_and!; [apply io_ext_nil|done|done]. Qed.

Lemma prints_app s1 s2 s3 o1 o2 : prints s1 s2 o1 → prints s2 s3 o2 → prints s1 s3 (o1 ++ o2).
Proof.
  intros (e1 & X1 & F1 & <-) (e2 & X2 & F2 & <-). exists (e1 ++ e2). split_and!.
  - by eapply io_ext_trans.
  - by apply Forall_app.
  - unfold console. by rewrite omap_app.
Qed.

(** Printing changes nothing but the devices and the trace. *)
Lemma prints_ram s s' o : prints s s' o → m_ram s' = m_ram s.
Proof. by intros (? & [? ->] & _). Qed.
Lemma prints_heap s s' o : prints s s' o → m_heap s' = m_heap s.
Proof. by intros (? & [? ->] & _). Qed.
Lemma prints_csr s s' o : prints s s' o → m_csr s' = m_csr s.
Proof. by intros (? & [? ->] & _). Qed.
Lemma prints_net s s' o : prints s s' o → m_net s' = m_net s.
Proof. by intros (? & [? ->] & _). Qed.
Lemma prints_sched s s' o : prints s s' o → m_sched s' = m_sched s.
Proof. by intros (? & [? ->] & _). Qed.

Lemma prints_peek s s' o p : prints s s' o → peek s' p = peek s p.
Proof. intros Hp. destruct p; simpl; [|done]. by rewrite (prints_ram _ _ _ Hp). Qed.

Lemma wp_io_read a n s (Q : Z → machine → Prop) :
  in_ram a n = false → in_mmio a n = true →
  (let '(v, d) := dev_read (m_dev s) a n in
   let v := v mod 2 ^ (8 * n) in
   Q v (set_trace (m_trace s ++ [ERead a n v]) (set_dev d s))) →
  wp (load n a) s Q.
Proof.
  intros E E'. unfold load, io_read, wp. rewrite E, E'.
  destruct (dev_read (m_dev s) a n) as [v d]. eauto.
Qed.

Lemma wp_io_write a n v s (Q : unit → machine → Prop) :
  in_ram a n = false → in_mmio a n = true →
  (∀ s', io_ext s s' [EWrite a n (v mod 2 ^ (8 * n))] → Q tt s') →
  wp (store n a v) s Q.
Proof.
  intros E E' HQ. unfold store, io_write, wp. rewrite E, E'.
  do 2 eexists. split; [done|]. apply HQ. by eexists.
Qed.

Lemma land_bit v i : 0 <= i → ((v & (1 << i)) =? 0) = negb (Z.testbit v i).
Proof.
  intros Hi. destruct (Z.testbit v i) eqn:E; simpl.
  - apply Z.eqb_neq. intros Hz. assert (Z.testbit (v & (1 << i)) i = false) as F.
    { rewrite Hz. apply Z.testbit_0_l. }
    rewrite Z.land_spec, E, Z.shiftl_spec, Z.sub_diag in F by lia. done.
  - apply Z.eqb_eq. bitwise j. destruct (decide (j = i)) as [->|]; [by rewrite E|].
    replace (Z.testbit 1 (j - i)) with false; [by rewrite andb_false_r|].
    symmetry. destruct (decide (j < i)); [by apply Z.testbit_neg_r; lia|].
    apply (testbit_high 1); lia.
Qed.

Lemma wait_lsr_loop bit n s (Q : unit → machine → Prop) :
  0 <= bit < 8 →
  lsr_within bit n (m_dev s) → (∀ s', prints s s' [] → Q tt s') →
  wp (loop n (λ _ : unit,
    lsr <- load 1 UART_LSR;
    if (lsr & (1 << bit)) =? 0 then ret (inl tt) else ret (inr tt)) tt) s Q.
Proof.
  intros Hbit. revert s. induction n as [|n IH]; intros s Hw HQ; [done|].
  cbn [loop]. apply wp_bind, wp_bind, wp_io_read; [done..|]. simpl in Hw.
  destruct (dev_read (m_dev s) UART_LSR 1) as [v d] eqn:E.
  cbv zeta. set (s1 := set_trace (_ ++ _) _).
  assert (prints s s1 []) as Hp.
  { eexists. split; [by eexists|]. split; [|done].
    apply Forall_singleton. simpl. unfold UART_LSR, UART_REG. lia. }
  rewrite land_bit, testbit_mod_pow2 by lia.
  rewrite (proj2 (Z.ltb_lt bit _)) by lia. rewrite andb_true_l.
  destruct (Z.testbit v bit); simpl.
  - apply wp_ret, wp_ret. auto.
  - apply wp_ret, IH; [by destruct Hw|].
    intros s' Hp'. apply HQ. by eapply (prints_app _ _ _ [] []).
Qed.

Section tx.
Context {TX : UartTx}.

Lemma wp_putc c s (Q : unit → machine → Prop) :
  (∀ s', prints s s' [u8 c] → Q tt s') → wp (uart_putc c) s Q.
Proof.
  intros HQ. unfold uart_putc. apply wp_bind, wait_lsr_loop; [lia|apply uart_tx_ready|].
  intros s1 H1. apply wp_io_write; [done..|]. intros s2 X2. apply HQ.
  apply (prints_app _ s1 _ [] [u8 c]); [done|]. eexists. split; [done|]. split.
  - apply Forall_singleton. simpl. unfold UART_THR, UART_REG. lia.
  - simpl. f_equal. rewrite Z.mod_small; [done|]. apply u8_range.
Qed.

(** A zero-terminated string of bytes at [p]. *)
Definition cstr_at (s : machine) (p : cptr) (l : list Z) : Prop :=
  chars_at s p l ∧ Forall (λ c, 0 < c < 2 ^ 8) l ∧ peek s (cadd p (length l)) = Some 0.

Lemma cstr_at_prints s s' o p l : prints s s' o → cstr_at s p l → cstr_at s' p l.
Proof.
  intros Hp (Hc & Hf & Ht). split_and!; [|done|by rewrite (prints_peek _ _ _ _ Hp)].
  intros i c Hi. rewrite (prints_peek _ _ _ _ Hp). auto.
Qed.

Lemma wp_puts_loop n s p l (Q : unit → machine → Prop) :
  cstr_at s p l → (length l < n)%nat → (∀ s', prints s s' l → Q tt s') →
  wp (loop n (λ str,
    c <- deref str;
    if c =? 0 then ret (inr tt)
    else uart_putc c ;; ret (inl (cadd str 1))) p) s Q.
Proof.
  revert s p l. induction n as [|n IH]; intros s p l (Hc & Hf & Ht) Hn HQ; [lia|].
  cbn [loop]. apply wp_bind, wp_bind. destruct l as [|c l]; simpl in Hn.
  - rewrite cadd_0 in Ht. eapply wp_deref; [done|]. apply wp_ret, wp_ret, HQ, prints_nil.
  - pose proof (chars_at_cons _ _ _ _ Hc) as [Hp Hc']. eapply wp_deref; [done|].
    apply Forall_cons in Hf as [Hr Hf].
    rewrite (proj2 (Z.eqb_neq c 0)) by lia. apply wp_bind, wp_putc. intros s1 H1.
    apply wp_ret. eapply (IH _ _ l); [|lia|].
    + eapply cstr_at_prints; [done|]. split_and!; [done..|].
      rewrite cadd_add. rewrite <- Ht. f_equal. f_equal. simpl. lia.
    + intros s2 H2. apply HQ. rewrite u8_small in H1 by lia.
      by apply (prints_app _ s1 _ [c] l).
Qed.

Lemma wp_puts s p l (Q : unit → machine → Prop) :
  cstr_at s p l → length l < fuel → (∀ s', prints s s' l → Q tt s') → wp (uart_puts p) s Q.
Proof. intros. eapply wp_puts_loop; [done|lia|done]. Qed.

Lemma chars_at_lit s l : chars_at s (PLit l 0) l.
Proof.
  intros i c Hi. change (lit_char l (0 + i) = Some c). rewrite Z.add_0_l.
  unfold lit_char. pose proof (lookup_lt_Some _ _ _ Hi).
  rewrite (proj2 (Z.ltb_ge _ _)), (proj2 (Z.eqb_neq _ _)) by lia.
  by rewrite Nat2Z.id.
Qed.

(** Literals: their bytes are nonzero and few. *)
Definition printable (l : list Z) : bool :=
  forallb (λ c, (0 <? c) && (c <? 2 ^ 8)) l && (length l <? 2 ^ 13).

Lemma cstr_at_lit s l : Forall (λ c, 0 < c < 2 ^ 8) l → cstr_at s (PLit l 0) l.
Proof.
  intros Hf. split_and!; [apply chars_at_lit|done|].
  change (lit_char l (0 + length l) = Some 0). rewrite Z.add_0_l.
  unfold lit_char. rewrite (proj2 (Z.ltb_ge _ _)) by lia. by rewrite Z.eqb_refl.
Qed.

Lemma wp_puts_lit s str (Q : unit → machine → Prop) :
  printable (chars str) = true → (∀ s', prints s s' (chars str) → Q tt s') →
  wp (uart_puts (lit str)) s Q.
Proof.
  intros Hp HQ. apply andb_prop in Hp as [Hf Hl].
  apply (wp_puts _ _ (chars str)); [|pose proof fuel_min; lia|done].
  apply cstr_at_lit, Forall_forall. intros c Hc. apply list_elem_of_In in Hc.
  rewrite forallb_forall in Hf. specialize (Hf c Hc). lia.
Qed.
End tx.
End printing.

(** ** Hexadecimal *)

Fixpoint hex_digits (n : nat) (b : Z) : list Z :=
  match n with
  | O => []
  | S n' => hex_char b (4 * n') :: hex_digits n' b
  end.

(** The number a string of hexadecimal digits denotes. *)
Definition hex_value_from (acc : Z) (l : list Z) : Z :=
  foldl (λ acc c, 16 * acc + hex_digit_value c) acc l.

Definition hex_value (l : list Z) : Z := hex_value_from 0 l.

Lemma hex_nibble b i : 0 <= i → (b >> i) & 0xF = b / 2 ^ i mod 2 ^ 4.
Proof. intros. change 0xF with (2 ^ 4 - 1). by rewrite land_mask, shiftr_div by lia. Qed.

Lemma hex_char_range b i : 0 <= i → 0x30 <= hex_char b i <= 0x46.
Proof.
  intros. unfold hex_char. rewrite hex_nibble by done.
  pose proof (Z.mod_pos_bound (b / 2 ^ i) (2 ^ 4)).
  destruct (Z.ltb_spec 9 (b / 2 ^ i mod 2 ^ 4)); lia.
Qed.

Lemma hex_digit_value_char b i : 0 <= i → hex_digit_value (hex_char b i) = b / 2 ^ i mod 2 ^ 4.
Proof.
  intros. unfold hex_char. rewrite hex_nibble by done.
  pose proof (Z.mod_pos_bound (b / 2 ^ i) (2 ^ 4)).
  unfold hex_digit_value, ch_A, ch_F, ch_a, ch_f, ch_0.
  destruct (Z.ltb_spec 9 (b / 2 ^ i mod 2 ^ 4)); repeat case_match; lia.
Qed.

Lemma hex_value_digits (n : nat) b : hex_value_from (b / 2 ^ (4 * n)) (hex_digits n b) = b.
Proof.
  induction n as [|n IH]; [apply Z.div_1_r|]. cbn [hex_digits hex_value_from foldl].
  rewrite hex_digit_value_char by lia. etrans; [|exact IH]. unfold hex_value_from. f_equal.
  replace (4 * S n) with (4 * n + 4) by lia.
  rewrite Z.pow_add_r, <- Z.div_div by lia. dlia.
Qed.

Lemma hex_value_from_ge acc l :
  0 <= acc → Forall (λ c, 0 <= hex_digit_value c) l → acc <= hex_value_from acc l.
Proof.
  revert acc. induction l as [|c l IH]; intros acc Ha Hl; simpl; [done|].
  apply Forall_cons in Hl as [Hc Hl]. etrans; [|apply IH; [lia|done]]. lia.
Qed.

Lemma hex_digits_nonneg (n : nat) b : Forall (λ c, 0 <= hex_digit_value c) (hex_digits n b).
Proof.
  induction n; simpl; constructor; [|done]. rewrite hex_digit_value_char by lia.
  apply Z.mod_pos_bound. lia.
Qed.

Section hex.
Context `{Platform}.

(** [h2i] computes the value of its digits while it fits an [int]. *)
Lemma wp_h2i_from s str i l acc (Q : Z → machine → Prop) :
  chars_at s (cadd str i) l → Forall (λ c, 0 <= hex_digit_value c) l → 0 <= acc →
  hex_value_from acc l < 2 ^ 31 → Q (hex_value_from acc l) s →
  wp (h2i_from (length l) str i acc) s Q.
Proof.
  revert i acc. induction l as [|c l IH]; intros i acc Hc Hf Ha Hv HQ; simpl;
    [by apply wp_ret|].
  apply chars_at_cons in Hc as [Hp Hc]. rewrite cadd_add in Hc.
  apply Forall_cons in Hf as [Hd Hf].
  assert (16 * acc + hex_digit_value c <= hex_value_from acc (c :: l)).
  { apply (hex_value_from_ge (16 * acc + hex_digit_value c)); [lia|done]. }
  rewrite shiftl_mul, i32_small by lia.
  apply wp_bind; eapply wp_deref; [done|]. apply wp_bind. unfold add_int.
  case_match; [|lia]. apply wp_ret. apply IH; [done|done|lia| |];
    by replace (acc * 2 ^ 4) with (16 * acc) by lia.
Qed.

Lemma wp_h2i s str l (Q : Z → machine → Prop) :
  chars_at s str l → Forall (λ c, 0 <= hex_digit_value c) l → hex_value l < 2 ^ 31 →
  Q (hex_value l) s → wp (h2i str (length l)) s Q.
Proof.
  intros. unfold h2i. rewrite Nat2Z.id. eapply wp_h2i_from; rewrite ?cadd_0; eauto. lia.
Qed.

Context {TX : UartTx}.

Lemma wp_hex_from n b s (Q : unit → machine → Prop) :
  (∀ s', prints s s' (hex_digits n b) → Q tt s') → wp (hex_from n b) s Q.
Proof.
  revert s. induction n as [|n IH]; intros s HQ; simpl; [apply wp_ret, HQ, prints_nil|].
  apply wp_bind, wp_putc. intros s1 H1. apply IH. intros s2 H2. apply HQ.
  pose proof (hex_char_range b (4 * n) ltac:(lia)). rewrite u8_small in H1 by lia.
  by apply (prints_app _ s1 _ [_]).
Qed.

Lemma wp_b2x b s (Q : unit → machine → Prop) :
  (∀ s', prints s s' (chars "0x" ++ hex_digits 8 b) → Q tt s') → wp (uart_b2x b) s Q.
Proof.
  intros HQ. unfold uart_b2x. apply wp_bind, wp_puts_lit; [done|]. intros s1 H1.
  apply wp_hex_from. intros s2 H2. apply HQ. by eapply prints_app.
Qed.

Lemma wp_print_hex64 b s (Q : unit → machine → Prop) :
  (∀ s', prints s s' (chars "0x" ++ hex_digits 16 b) → Q tt s') → wp (print_hex64 b) s Q.
Proof.
  intros HQ. unfold print_hex64. apply wp_bind, wp_puts_lit; [done|]. intros s1 H1.
  apply wp_hex_from. intros s2 H2. apply HQ. by eapply prints_app.
Qed.

(** Hexadecimal round trip.  [uart_b2x] prints [0x] and eight digits for a
    32-bit value, and [h2i] reads any copy of these digits back to the value
    when it fits an [int]. *)
Theorem hex_roundtrip b s :
  0 <= b < 2 ^ 31 →
  wp (uart_b2x b) s (λ _ s', ∃ ds,
    prints s s' (chars "0x" ++ ds) ∧ length ds = 8%nat ∧
    ∀ t p, chars_at t p ds → wp (h2i p 8) t (λ v t', v = b ∧ t' = t)).
Proof.
  intros Hb. apply wp_b2x. intros s' Hp. exists (hex_digits 8 b). split_and!; [done|done|].
  assert (hex_value (hex_digits 8 b) = b) as Hv.
  { rewrite <- (hex_value_digits 8 b) at 2. unfold hex_value. f_equal.
    symmetry. apply Z.div_small. lia. }
  intros t p Hc. eapply (wp_h2i _ _ (hex_digits 8 b)); [done|apply hex_digits_nonneg|lia|done].
Qed.
End hex.

(** ** Decimal *)

(** The number a string of decimal digits denotes. *)
Definition dec_value (l : list Z) : Z := foldl (λ acc c, 10 * acc + (c - ch_0)) 0 l.

(** The same for digits stored least significant first. *)
Definition le_dec_value (l : list Z) : Z := foldr (λ c acc, (c - ch_0) + 10 * acc) 0 l.

Definition is_digit (c : Z) : Prop := ch_0 <= c <= ch_9.

Lemma dec_value_rev l : dec_value (rev l) = le_dec_value l.
Proof.
  induction l as [|c l IH]; [done|]. simpl. unfold dec_value in *.
  rewrite foldl_snoc, IH. lia.
Qed.

Lemma le_dec_value_snoc l c :
  le_dec_value (l ++ [c]) = le_dec_value l + 10 ^ length l * (c - ch_0).
Proof.
  induction l as [|d l IH]; simpl le_dec_value; simpl length; [lia|].
  rewrite IH, Nat2Z.inj_succ, Z.pow_succ_r by lia. lia.
Qed.

Section dec.
Context `{Platform}.

(** What [dec_fill] keeps: [i] digits are stored, and together with the rest
    [num'] they make up [num]. *)
Definition dec_inv (cap : nat) (num num' : Z) (b : list Z) (i : nat) : Prop :=
  length b = cap ∧ (i <= cap)%nat ∧ 0 <= num' < 10 ^ (cap - i) ∧
  Forall is_digit (take i b) ∧
  num = le_dec_value (take i b) + 10 ^ i * num' ∧
  (num' = 0 → ∃ l c, take i b = l ++ [c] ∧ c ≠ ch_0).

Lemma dec_inv_step cap num num' b i :
  dec_inv cap num num' b i → 0 < num' →
  (i < cap)%nat ∧ dec_inv cap num (num' / 10) (<[i := ch_0 + num' mod 10]> b) (S i).
Proof.
  intros (Hlen & Hi & Hn & Hd & Hv & _) Hpos.
  assert (i < cap)%nat as Hlt.
  { destruct (decide (i = cap)) as [->|]; [|lia]. rewrite Z.sub_diag in Hn. lia. }
  split; [done|].
  assert (take (S i) (<[i := ch_0 + num' mod 10]> b) = take i b ++ [ch_0 + num' mod 10]) as Et.
  { erewrite take_S_r by (apply list_lookup_insert_eq; lia). by rewrite take_insert_ge. }
  assert (length (take i b) = i) as Hti by (rewrite length_take; lia).
  unfold dec_inv. rewrite Et, length_insert. split_and!; [done|lia|dlia| | | |].
  - replace (cap - i) with (Z.succ (cap - S i)) in Hn by lia.
    rewrite Z.pow_succ_r in Hn by lia. apply Z.div_lt_upper_bound; lia.
  - apply Forall_app. split; [done|]. apply Forall_singleton. unfold is_digit, ch_0, ch_9. dlia.
  - rewrite le_dec_value_snoc, Hti, Hv, Nat2Z.inj_succ, Z.pow_succ_r by lia.
    replace (ch_0 + num' mod 10 - ch_0) with (num' mod 10) by lia.
    rewrite (Z.div_mod num' 10) at 1 by lia. lia.
  - intros Hz. do 2 eexists. split; [done|]. dlia.
Qed.

Lemma wp_dec_fill (cap : nat) num s (Q : list Z * nat → machine → Prop) :
  0 < num < 10 ^ cap → cap < fuel →
  (∀ b i, dec_inv cap num 0 b i → Q (b, i) s) → wp (dec_fill cap num) s Q.
Proof.
  intros Hn Hf HQ. unfold dec_fill.
  eapply (wp_loop (λ '(num', b, i) s', s' = s ∧ dec_inv cap num num' b i)
    (λ '(_, _, i) _, (cap - i)%nat)); [lia| |].
  - split; [done|]. unfold dec_inv. rewrite length_replicate, Z.sub_0_r. simpl.
    split_and!; [done|lia|lia|lia|by constructor|lia|lia].
  - intros [[num' b] i] s' [-> Hinv]. destruct (Z.ltb_spec 0 num').
    + destruct (dec_inv_step _ _ _ _ _ Hinv) as [Hlt Hs]; [done|].
      apply wp_bind. unfold buf_write. destruct Hinv as [Hlen _].
      rewrite decide_True by lia. apply wp_ret, wp_ret. split; [done|lia].
    + assert (num' = 0) as -> by (destruct Hinv as (_ & _ & ? & _); lia).
      apply wp_ret. by apply HQ.
Qed.

Context {TX : UartTx}.

Lemma wp_print_down b i s (Q : unit → machine → Prop) :
  (i <= length b)%nat → Forall is_digit (take i b) →
  (∀ s', prints s s' (rev (take i b)) → Q tt s') → wp (print_down b i) s Q.
Proof.
  revert s Q. induction i as [|j IH]; intros s Q Hi Hf HQ; simpl;
    [apply wp_ret, HQ, prints_nil|].
  destruct (lookup_lt_is_Some_2 b j) as [c Hc]; [lia|]. rewrite Hc.
  erewrite take_S_r in Hf, HQ by done. apply Forall_app in Hf as [Hf Hd].
  rewrite Forall_singleton in Hd. unfold is_digit, ch_0, ch_9 in Hd.
  apply wp_bind, wp_putc. intros s1 H1. rewrite u8_small in H1 by lia.
  apply IH; [lia|done|]. intros s2 H2. apply HQ. rewrite rev_app_distr.
  by apply (prints_app _ s1 _ [c]).
Qed.

(** The output of the decimal printers: the digits of [num], without leading
    zeros. *)
Definition decimal_of (num : Z) (ds : list Z) : Prop :=
  Forall is_digit ds ∧ dec_value ds = num ∧
  (num = 0 ∧ ds = [ch_0] ∨ ∃ c ds', ds = c :: ds' ∧ c ≠ ch_0).

Lemma wp_dec_print (cap : nat) num s (Q : unit → machine → Prop) :
  0 < num < 10 ^ cap → cap < fuel →
  (∀ s' ds, decimal_of num ds → prints s s' ds → Q tt s') →
  wp ('(b, i) <- dec_fill cap num; print_down b i) s Q.
Proof.
  intros Hn Hf HQ. apply wp_bind, wp_dec_fill; [done..|].
  intros b i (Hlen & Hi & _ & Hd & Hv & Hlast). apply wp_print_down; [lia|done|].
  intros s' Hp. eapply HQ; [|done]. split_and!.
  - by apply Forall_rev.
  - rewrite dec_value_rev. lia.
  - right. destruct Hlast as (l & c & -> & Hc); [done|]. rewrite rev_app_distr. simpl. eauto.
Qed.

Lemma decimal_of_0 : decimal_of 0 [ch_0].
Proof.
  split_and!; [|done|by left]. apply Forall_singleton. unfold is_digit, ch_0, ch_9. lia.
Qed.

Lemma wp_uart_dec num s :
  0 <= num < 2 ^ 32 → wp (uart_dec num) s (λ _ s', ∃ ds, decimal_of num ds ∧ prints s s' ds).
Proof.
  pose proof fuel_min. intros Hn. unfold uart_dec. destruct (Z.eqb_spec num 0) as [->|].
  - apply wp_putc. eauto using decimal_of_0.
  - apply wp_dec_print; [change (10 ^ 10%nat) with 10000000000; lia|lia|]. eauto.
Qed.

Lemma wp_uart_dec64 num s :
  0 <= num < 2 ^ 64 → wp (uart_dec64 num) s (λ _ s', ∃ ds, decimal_of num ds ∧ prints s s' ds).
Proof.
  pose proof fuel_min. intros Hn. unfold uart_dec64. destruct (Z.eqb_spec num 0) as [->|].
  - apply wp_putc. eauto using decimal_of_0.
  - apply wp_dec_print; [change (10 ^ 20%nat) with 100000000000000000000; lia|lia|]. eauto.
Qed.

(** C40: the decimal printers print the decimal representation of every value
    of their type: [uart_dec] of every 32-bit and [uart_dec64] of every 64-bit
    value returns, having printed digits that denote the value and do not start
    with a superfluous zero; the 10 and 20 byte buffers never overflow. *)
Theorem uart_dec_correct num s :
  (0 <= num < 2 ^ 32 →
   wp (uart_dec num) s (λ _ s', ∃ ds, decimal_of num ds ∧ prints s s' ds)) ∧
  (0 <= num < 2 ^ 64 →
   wp (uart_dec64 num) s (λ _ s', ∃ ds, decimal_of num ds ∧ prints s s' ds)).
Proof. split; [apply wp_uart_dec|apply wp_uart_dec64]. Qed.
End dec.

(** ** Code that prints

    [says r m out]: in every state with memory [r], [m] returns having printed
    [out] and done nothing else. *)

Section says.
Context `{Platform} {TX : UartTx}.
Implicit Types (r : gmap Z Z) (m : M unit) (out : list Z).

Definition says r m out : Prop :=
  ∀ s, m_ram s = r → wp m s (λ _ s', prints s s' out).

Lemma says_bind r m k o1 o2 : says r m o1 → says r k o2 → says r (m ;; k) (o1 ++ o2).
Proof.
  intros H1 H2 s Hs. apply wp_bind. eapply wp_mono; [by apply H1|]. intros [] s1 P1.
  eapply wp_mono; [apply H2|]; [by rewrite (prints_ram _ _ _ P1)|].
  intros [] s2 P2. by eapply prints_app.
Qed.

Lemma says_ret r : says r (ret tt) [].
Proof. intros s _. apply wp_ret, prints_nil. Qed.

Lemma says_load r n a (k : Z → M unit) out :
  in_ram a n = true → says r (k (ram_load n a r)) out → says r (x <- load n a; k x) out.
Proof. intros Ha Hk s <-. apply wp_bind, wp_load; [done|]. by apply Hk. Qed.

Lemma says_if r (b : bool) m1 m2 o1 o2 :
  says r m1 o1 → says r m2 o2 → says r (if b then m1 else m2) (if b then o1 else o2).
Proof. by destruct b. Qed.

Lemma says_putc r c : says r (uart_putc c) [u8 c].
Proof. intros s _. by apply wp_putc. Qed.

Lemma says_lit r str : printable (chars str) = true → says r (uart_puts (lit str)) (chars str).
Proof. intros Hp s _. by apply wp_puts_lit. Qed.

Lemma says_hex64 r v : says r (print_hex64 v) (chars "0x" ++ hex_digits 16 v).
Proof. intros s _. by apply wp_print_hex64. Qed.

Lemma says_for r (f : Z → list Z) i0 (n : nat) body :
  (∀ i, i0 <= i < i0 + n → says r (body i) (f i)) →
  says r (for_from i0 n body) (concat (f <$> seqZ i0 n)).
Proof.
  revert i0. induction n as [|n IH]; intros i0 Hb; [apply says_ret|].
  rewrite seqZ_cons by lia. cbn [for_from fmap list_fmap concat]. apply says_bind; [apply Hb; lia|].
  replace (Z.pred (S n)) with (Z.of_nat n) by lia. rewrite <- Z.add_1_r. apply IH. intros. apply Hb. lia.
Qed.

(** A computation that only reads. *)
Lemma says_pure {A} r (m : M A) v (k : A → M unit) out :
  (∀ s, m_ram s = r → wp m s (λ a s', a = v ∧ s' = s)) → says r (k v) out →
  says r (x <- m; k x) out.
Proof.
  intros Hm Hk s Hs. apply wp_bind. eapply wp_mono; [by apply Hm|]. intros a s' [-> ->]. by apply Hk.
Qed.

Lemma says_wp r m out s (Q : unit → machine → Prop) :
  says r m out → m_ram s = r → (∀ s', prints s s' out → Q tt s') → wp m s Q.
Proof. intros Hm Hs HQ. eapply wp_mono; [by apply Hm|]. intros []. apply HQ. Qed.
End says.

(** Find what a sequence of prints prints. *)
Ltac says :=
  repeat lazymatch goal with
  | |- says _ (ret _) _ => apply says_ret
  | |- says _ (uart_putc _) _ => apply says_putc
  | |- says _ (uart_puts (lit _)) _ => apply says_lit; reflexivity
  | |- says _ (print_hex64 _) _ => apply says_hex64
  | |- says _ (bind (load _ _) _) _ => eapply says_load
  | |- says _ (bind _ _) _ => eapply says_bind
  end.
