(* ===== verification/Heap.v ===== *)
(** * mem.c, first half: the page allocator and the byte-wise memory routines

    The free list lives in the free pages: the first word of a free page is the
    address of the next one.  [Section alloc] translates the code over the byte
    memory of [Machine]; HeapSpec.v relates it to the list of free pages. *)

From S2P Require Import Prelude Globals Machine Utils.

Definition BASE_ADDR : Z := 0x80000000.
Definition VIRT_OFFSET : Z := 0xFFFFFFC000000000.
Definition KERNEL_BASE_VA : Z := BASE_ADDR + VIRT_OFFSET.
Definition MAX_HEAP_SIZE : Z := 0x1000000.
Definition PGSHIFT : Z := 12.
Definition PAGE_SIZE : Z := 1 << PGSHIFT.

(** Addresses chosen by the linker. *)
Class Image := {
  __heap_start : Z;
  __stack_limit : Z;
  boot_page_table : Z;
}.

Definition virt_to_phys (addr : Z) : Z :=
  if KERNEL_BASE_VA <=? addr then addr - VIRT_OFFSET else addr.

(** Assignments to the variables of the allocator. *)
Definition with_free_list (p : Z) (h : heap_vars) : heap_vars :=
  HeapVars p (heap_start h) (heap_end h) (free_page_count h).
Definition with_count (n : Z) (h : heap_vars) : heap_vars :=
  HeapVars (free_list h) (heap_start h) (heap_end h) n.
Definition with_bounds (lo hi : Z) (h : heap_vars) : heap_vars :=
  HeapVars (free_list h) lo hi (free_page_count h).

Section alloc.
Context `{Platform}.

Definition upd_heap (f : heap_vars → heap_vars) : M unit :=
  modify (λ s, set_heap (f (m_heap s)) s).

(** [page->next]. *)
Definition load_next (page : Z) : M Z := load 8 page.
Definition store_next (page next : Z) : M unit := store 8 page next.

(** [page->next = free_list; free_list = page; free_page_count++;] *)
Definition push_page (page : Z) : M unit :=
  h <- get m_heap;
  store_next page (free_list h) ;;
  upd_heap (with_free_list page) ;;
  upd_heap (with_count (u32 (free_page_count h + 1))).

Definition page_allocator_init `{Image} : M unit :=
  let heap_start := u64 (virt_to_phys __heap_start + PAGE_SIZE - 1) & Z.lnot (PAGE_SIZE - 1) in
  let heap_end := u64 (heap_start + MAX_HEAP_SIZE) in
  let stack_limit := virt_to_phys __stack_limit in
  let heap_end := if stack_limit <? heap_end then stack_limit else heap_end in
  let heap_end := heap_end & Z.lnot (PAGE_SIZE - 1) in
  upd_heap (λ _, HeapVars 0 heap_start heap_end 0) ;;
  loop fuel (λ addr,
    if heap_start <? addr then
      let addr := addr - PAGE_SIZE in
      push_page addr ;; ret (inl addr)
    else ret (inr tt)) heap_end.

(** [csrrc status, sstatus, 1 << 1] *)
Definition with_sstatus (v : Z) (c : csrs) : csrs :=
  Csrs v (sie c) (mip c) (mie c) (stvec c) (satp c) (sepc c) (scause c) (stval c).

Definition allocator_intr_off : M Z :=
  c <- get m_csr;
  modify (set_csr (with_sstatus (sstatus c & Z.lnot (1 << 1)) c)) ;;
  ret (sstatus c).

Definition allocator_intr_restore (status : Z) : M unit :=
  if (status & (1 << 1)) =? 0 then ret tt
  else c <- get m_csr; modify (set_csr (with_sstatus (sstatus c .| (1 << 1)) c)).

(** [start <= page < end] *)
Definition in_range (start end_ page : Z) : bool := (start <=? page) && (page <? end_).

(** The inner loop that counts the free pages of a range. *)
Definition count_range (start end_ : Z) : M Z :=
  h <- get m_heap;
  loop fuel (λ '(page, found),
    if page =? 0 then ret (inr found)
    else
      let found := if in_range start end_ page then u32 (found + 1) else found in
      next <- load_next page;
      ret (inl (next, found))) (free_list h, 0).

(** [struct free_page **link]: the head of the list, or the link of a page. *)
Definition read_link (link : option Z) : M Z :=
  match link with
  | None => get (λ s, free_list (m_heap s))
  | Some page => load_next page
  end.

Definition write_link (link : option Z) (p : Z) : M unit :=
  match link with
  | None => upd_heap (with_free_list p)
  | Some page => store_next page p
  end.

(** The loop that removes the pages of a range from the list. *)
Definition unlink_range (start end_ : Z) : M unit :=
  loop fuel (λ link,
    addr <- read_link link;
    if addr =? 0 then ret (inr tt)
    else if in_range start end_ addr then
      next <- load_next addr;
      write_link link next ;;
      ret (inl link)
    else ret (inl (Some addr))) None.

(** One iteration of the search for a run of [count] free pages at [first]. *)
Definition alloc_try (count bytes status first : Z) : M (Z + Z) :=
  if first =? 0 then
    allocator_intr_restore status ;; ret (inr 0)
  else
    let start := first in
    let end_ := u64 (start + bytes) in
    h <- get m_heap;
    if heap_end h <? end_ then
      next <- load_next first; ret (inl next)
    else
      found <- count_range start end_;
      if negb (found =? count) then
        next <- load_next first; ret (inl next)
      else
        unlink_range start end_ ;;
        h <- get m_heap;
        upd_heap (with_count (u32 (free_page_count h - count))) ;;
        allocator_intr_restore status ;;
        ret (inr start).

Definition mem_alloc (size : Z) : M Z :=
  if size =? 0 then ret 0
  else
    let count := u32 (u64 (size + PAGE_SIZE - 1) >> PGSHIFT) in
    status <- allocator_intr_off;
    h <- get m_heap;
    if free_page_count h <? count then
      allocator_intr_restore status ;; ret 0
    else if count =? 1 then
      let page := free_list h in
      next <- load_next page;
      upd_heap (with_free_list next) ;;
      upd_heap (with_count (u32 (free_page_count h - 1))) ;;
      allocator_intr_restore status ;;
      ret page
    else
      let bytes := u64 (count * PAGE_SIZE) in
      loop fuel (alloc_try count bytes status) (free_list h).

Definition mem_free (page : Z) : M unit :=
  let addr := virt_to_phys page in
  h <- get m_heap;
  if (page =? 0) || (addr <? heap_start h) || (heap_end h <=? addr)
     || negb ((addr & (PAGE_SIZE - 1)) =? 0)
  then ret tt
  else
    status <- allocator_intr_off;
    push_page addr ;;
    allocator_intr_restore status.

Definition mem_alloc_page : M Z := mem_alloc PAGE_SIZE.
Definition mem_free_page (page : Z) : M unit := mem_free page.

(** [memset] and [mem_set] have the same body. *)
Definition memset (dest value size : Z) : M unit :=
  for_from 0 (Z.to_nat size) (λ i, store 1 (dest + i) value).
Definition mem_set (dest value size : Z) : M unit :=
  for_from 0 (Z.to_nat size) (λ i, store 1 (dest + i) value).

Definition mem_copy (dest src size : Z) : M unit :=
  for_from 0 (Z.to_nat size) (λ i, b <- load 1 (src + i); store 1 (dest + i) b).

Fixpoint mem_compare_from (n : nat) (buf1 buf2 i : Z) : M Z :=
  match n with
  | O => ret 0
  | S n' =>
      b1 <- load 1 (buf1 + i);
      b2 <- load 1 (buf2 + i);
      if negb (b1 =? b2) then ret (if b1 <? b2 then -1 else 1)
      else mem_compare_from n' buf1 buf2 (i + 1)
  end.

Definition mem_compare (buf1 buf2 size : Z) : M Z :=
  mem_compare_from (Z.to_nat size) buf1 buf2 0.
End alloc.

(** ** The byte-wise routines *)

Section bytes.
Context `{Platform}.

(** A loop that stores the bytes [bs] one by one at [dest] writes exactly them. *)
Lemma wp_store_bytes dest (bs : list Z) (body : Z → M unit) s (Q : unit → machine → Prop) :
  in_ram dest (length bs) = true →
  (∀ (i : nat) b, bs !! i = Some b →
     body i (set_ram (ram_write dest (take i bs) (m_ram s)) s) =
     store 1 (dest + i) b (set_ram (ram_write dest (take i bs) (m_ram s)) s)) →
  Q tt (set_ram (ram_write dest bs (m_ram s)) s) →
  wp (for_from 0 (length bs) body) s Q.
Proof.
  intros Hr Hb HQ.
  eapply (wp_for (λ i s', ∃ k : nat, i = k ∧ (k <= length bs)%nat ∧
    s' = set_ram (ram_write dest (take k bs) (m_ram s)) s)).
  - exists 0%nat. split_and!; [done|lia|]. simpl. by destruct s.
  - intros i s' Hi (k & -> & Hk & ->). unfold wp.
    destruct (lookup_lt_is_Some_2 bs k) as [b Hbk]; [lia|]. rewrite (Hb k b Hbk).
    apply wp_store; [eapply in_ram_sub; [exact Hr|lia..]|]. exists (S k). split_and!; [lia|lia|].
    erewrite take_S_r by done. rewrite ram_write_snoc, length_take, Nat.min_l by lia.
    by destruct s.
  - intros s' (k & Hk & _ & ->). assert (k = length bs) as -> by lia. by rewrite firstn_all.
Qed.

Lemma wp_memset dest value size s (Q : unit → machine → Prop) :
  in_ram dest (Z.to_nat size) = true →
  Q tt (set_ram (ram_write dest (replicate (Z.to_nat size) value) (m_ram s)) s) →
  wp (memset dest value size) s Q.
Proof.
  intros Hr HQ. unfold memset.
  rewrite <- (length_replicate (Z.to_nat size) value) at 1.
  apply (wp_store_bytes dest); rewrite ?length_replicate; [done| |done].
  intros i b Hi. by apply lookup_replicate in Hi as [-> _].
Qed.

Lemma wp_mem_set dest value size s (Q : unit → machine → Prop) :
  in_ram dest (Z.to_nat size) = true →
  Q tt (set_ram (ram_write dest (replicate (Z.to_nat size) value) (m_ram s)) s) →
  wp (mem_set dest value size) s Q.
Proof. apply wp_memset. Qed.

(** [mem_copy] copies forwards: the result is the original source as long as no
    byte is overwritten before it is read. *)
Lemma wp_mem_copy dest src size s (Q : unit → machine → Prop) :
  in_ram dest (Z.to_nat size) = true → in_ram src (Z.to_nat size) = true →
  dest <= src ∨ src + Z.to_nat size <= dest →
  Q tt (set_ram (ram_write dest (ram_bytes (Z.to_nat size) src (m_ram s)) (m_ram s)) s) →
  wp (mem_copy dest src size) s Q.
Proof.
  intros Hd Hs Ho HQ. unfold mem_copy. set (n := Z.to_nat size) in *.
  rewrite <- (length_ram_bytes n src (m_ram s)) at 1.
  apply (wp_store_bytes dest); rewrite ?length_ram_bytes; [done| |done].
  intros i b Hi. pose proof (lookup_lt_Some _ _ _ Hi) as Hlt. rewrite length_ram_bytes in Hlt.
  rewrite lookup_ram_bytes in Hi by done. injection Hi as <-.
  apply bind_Ok. unfold load.
  rewrite (in_ram_sub src (src + i) n 1) by (done || lia).
  simpl. rewrite ram_load_1, byte_at_write_out; [done|].
  rewrite length_take, length_ram_bytes. lia.
Qed.

Lemma wp_load_byte a s (Q : Z → machine → Prop) :
  in_ram a 1 = true → Q (byte_at (m_ram s) a) s → wp (load 1 a) s Q.
Proof. intros Hr HQ. apply wp_load; [done|]. by rewrite ram_load_1. Qed.

Lemma wp_mem_compare_from n b1 b2 i s (Q : Z → machine → Prop) :
  in_ram (b1 + i) n = true → in_ram (b2 + i) n = true →
  Q (cmp_chars (ram_bytes n (b1 + i) (m_ram s)) (ram_bytes n (b2 + i) (m_ram s))) s →
  wp (mem_compare_from n b1 b2 i) s Q.
Proof.
  revert i. induction n as [|n IH]; intros i R1 R2 HQ; simpl in *; [by apply wp_ret|].
  apply wp_bind, wp_load_byte; [eapply in_ram_sub; [exact R1|lia..]|].
  apply wp_bind, wp_load_byte; [eapply in_ram_sub; [exact R2|lia..]|].
  set (x := byte_at (m_ram s) (b1 + i)) in *. set (y := byte_at (m_ram s) (b2 + i)) in *.
  destruct (Z.ltb_spec y x), (Z.ltb_spec x y); try lia.
  - rewrite (proj2 (Z.eqb_neq x y)) by lia. by apply wp_ret.
  - rewrite (proj2 (Z.eqb_neq x y)) by lia. by apply wp_ret.
  - assert (x = y) as -> by lia. rewrite Z.eqb_refl. simpl.
    apply IH; [eapply in_ram_sub; [exact R1|lia..]|eapply in_ram_sub; [exact R2|lia..]|]. by rewrite !Z.add_assoc.
Qed.

(** The memory routines.  On ranges inside RAM, [memset] and [mem_set] fill
    exactly [size] bytes, [mem_copy] makes the destination equal to what the
    source held (source and destination disjoint, or the destination first), and
    [mem_compare] returns 0 exactly when the ranges hold the same bytes; none of
    them touches any other byte or variable. *)
Theorem mem_routines_correct dest src value size s :
  in_ram dest (Z.to_nat size) = true → in_ram src (Z.to_nat size) = true →
  dest <= src ∨ src + Z.to_nat size <= dest →
  let fill := set_ram (ram_write dest (replicate (Z.to_nat size) value) (m_ram s)) s in
  let src_bytes := ram_bytes (Z.to_nat size) src (m_ram s) in
  wp (memset dest value size) s (λ _ s', s' = fill) ∧
  wp (mem_set dest value size) s (λ _ s', s' = fill) ∧
  wp (mem_copy dest src size) s (λ _ s', s' = set_ram (ram_write dest src_bytes (m_ram s)) s) ∧
  wp (mem_compare dest src size) s (λ v s', s' = s ∧
    (v = 0 ↔ ram_bytes (Z.to_nat size) dest (m_ram s) = src_bytes)).
Proof.
  intros Hd Hs Ho. cbv zeta. split_and!.
  - by apply wp_memset.
  - by apply wp_mem_set.
  - by apply wp_mem_copy.
  - apply wp_mem_compare_from; rewrite ?Z.add_0_r; [done..|]. split; [done|].
    apply cmp_chars_0. by rewrite !length_ram_bytes.
Qed.
End bytes.
