(* ===== verification/HeapSpec.v ===== *)
(** * The page allocator implements a list of free pages

    The abstract allocator is a list of page addresses, most recently freed
    first: allocating [n] pages takes the first address of the list from which
    [n] consecutive pages are free, freeing a page puts it in front.  [heap_inv]
    relates such a list to the free list in memory, and the theorems show that
    [mem_alloc], [mem_free] and [page_allocator_init] refine the abstract
    operations and write nothing but links of free pages. *)

From S2P Require Import Prelude Globals Machine Heap.

(** ** Runs of pages *)

Definition pages (a : Z) (n : nat) : list Z := (λ i : nat, a + PAGE_SIZE * i) <$> seq 0 n.

Definition aligned (a : Z) : Prop := a mod PAGE_SIZE = 0.

Lemma PAGE_SIZE_eq : PAGE_SIZE = 4096.
Proof. done. Qed.

Lemma length_pages a n : length (pages a n) = n.
Proof. unfold pages. by rewrite length_fmap, length_seq. Qed.

Lemma elem_of_pages a n p : p ∈ pages a n ↔ ∃ i : nat, (i < n)%nat ∧ p = a + PAGE_SIZE * i.
Proof.
  unfold pages. rewrite list_elem_of_fmap. split.
  - intros (i & -> & Hi). apply elem_of_seq in Hi. exists i. split; [lia|done].
  - intros (i & Hi & ->). exists i. split; [done|]. apply elem_of_seq. lia.
Qed.

Lemma pages_aligned a n p : aligned a → p ∈ pages a n → aligned p.
Proof.
  unfold aligned. rewrite elem_of_pages, PAGE_SIZE_eq. intros Ha (i & _ & ->). dlia.
Qed.

(** The aligned addresses of a range are its pages. *)
Lemma elem_of_pages_range a n p :
  aligned a → aligned p → p ∈ pages a n ↔ a <= p < a + PAGE_SIZE * n.
Proof.
  unfold aligned. rewrite elem_of_pages, PAGE_SIZE_eq. intros Ha Hp. split.
  - intros (i & Hi & ->). lia.
  - intros Hr. exists (Z.to_nat ((p - a) / 4096)). split; dlia.
Qed.

Lemma NoDup_pages a n : NoDup (pages a n).
Proof.
  unfold pages. apply NoDup_fmap_2; [|apply NoDup_seq].
  intros i j. rewrite PAGE_SIZE_eq. lia.
Qed.

Lemma pages_S a n : pages a (S n) = a :: pages (a + PAGE_SIZE) n.
Proof.
  unfold pages. cbn [seq fmap list_fmap]. f_equal; [lia|].
  rewrite <- fmap_S_seq, <- list_fmap_compose. apply list_fmap_ext. intros ? i _. simpl. lia.
Qed.

(** Distinct aligned addresses are at least a page apart. *)
Lemma aligned_apart a b : aligned a → aligned b → a ≠ b → a + PAGE_SIZE <= b ∨ b + PAGE_SIZE <= a.
Proof. unfold aligned. rewrite PAGE_SIZE_eq. intros. dlia. Qed.

(** ** The abstract allocator *)

Definition npages (size : Z) : nat := Z.to_nat ((size + PAGE_SIZE - 1) / PAGE_SIZE).

(** All pages of the run of [n] pages at [a] are free. *)
Definition run_free (l : list Z) (n : nat) (a : Z) : Prop := Forall (.∈ l) (pages a n).
#[global] Instance run_free_dec l n a : Decision (run_free l n a).
Proof. unfold run_free. apply _. Defined.

Definition alloc_spec (n : nat) (l : list Z) : option (Z * list Z) :=
  match list_find (run_free l n) l with
  | Some (_, a) => Some (a, filter (.∉ pages a n) l)
  | None => None
  end.

(** ** The free list in memory *)

Fixpoint chain (r : gmap Z Z) (p : Z) (l : list Z) : Prop :=
  match l with
  | [] => p = 0
  | a :: l' => p = a ∧ a ≠ 0 ∧ chain r (ram_load 8 a r) l'
  end.

(** A page of the heap. *)
Definition heap_page (h : heap_vars) (a : Z) : Prop :=
  aligned a ∧ heap_start h <= a ∧ a + PAGE_SIZE <= heap_end h.

(** Where the heap may lie: inside RAM, page aligned, at most [MAX_HEAP_SIZE]. *)
Definition heap_bounds (h : heap_vars) : Prop :=
  RAM_BASE <= heap_start h ∧ heap_end h <= RAM_END ∧
  aligned (heap_start h) ∧ aligned (heap_end h) ∧
  heap_end h <= heap_start h + MAX_HEAP_SIZE.

(** The allocator's memory and variables represent the free pages [l]. *)
Record heap_inv `{Platform} (s : machine) (l : list Z) : Prop := {
  hi_bounds : heap_bounds (m_heap s);
  hi_chain : chain (m_ram s) (free_list (m_heap s)) l;
  hi_nodup : NoDup l;
  hi_pages : Forall (heap_page (m_heap s)) l;
  hi_count : free_page_count (m_heap s) = length l;
}.

(** The link words of the pages [l]: all the memory the allocator writes. *)
Definition links (l : list Z) (x : Z) : Prop := ∃ a, a ∈ l ∧ a <= x < a + 8.

(** The bytes of the pages [l]. *)
Definition in_pages (l : list Z) (x : Z) : Prop := ∃ a, a ∈ l ∧ a <= x < a + PAGE_SIZE.

Lemma links_in_pages l x : links l x → in_pages l x.
Proof. intros (a & Ha & Hx). exists a. rewrite PAGE_SIZE_eq. split; [done|lia]. Qed.

Lemma chain_nil r l : chain r 0 l → l = [].
Proof. destruct l; [done|]. intros (? & ? & _). congruence. Qed.

Lemma chain_cons r p l : chain r p l → p ≠ 0 → ∃ l', l = p :: l' ∧ chain r (ram_load 8 p r) l'.
Proof. destruct l as [|a l]; [done|]. intros (-> & _ & Hc) _. eauto. Qed.

Lemma chain_head r p l : chain r p l → p = default 0 (head l).
Proof. destruct l; [done|]. by intros [-> _]. Qed.

Lemma chain_ext r r' p l :
  chain r p l → (∀ a, a ∈ l → ram_load 8 a r' = ram_load 8 a r) → chain r' p l.
Proof.
  revert p. induction l as [|a l IH]; intros p; simpl; [done|]. intros (-> & Ha & Hc) He.
  split_and!; [done..|]. rewrite He by set_solver. apply IH; [done|]. set_solver.
Qed.

Section pages_in_ram.
Context (h : heap_vars) (HB : heap_bounds h).

Lemma heap_page_in_ram a (n : nat) : heap_page h a → n <= PAGE_SIZE → in_ram a n = true.
Proof.
  destruct HB as (? & ? & _). intros (_ & ? & ?) ?. apply in_ram_true; lia.
Qed.

Lemma heap_page_nonzero a : heap_page h a → a ≠ 0.
Proof. destruct HB as (? & _). intros (_ & ? & _). unfold RAM_BASE in *. lia. Qed.

(** At most 4096 pages fit the heap. *)
Lemma heap_pages_length l : NoDup l → Forall (heap_page h) l → length l <= 4096.
Proof.
  intros Hd Hp. assert (length l <= 4096)%nat as Hl; [|lia].
  rewrite <- (length_pages (heap_start h) 4096).
  apply NoDup_incl_length; [by apply NoDup_ListNoDup|].
  intros a Ha. apply list_elem_of_In in Ha. apply list_elem_of_In.
  rewrite Forall_forall in Hp. destruct (Hp a Ha) as (Hal & ? & ?).
  destruct HB as (_ & _ & ? & _ & Hm). apply elem_of_pages_range; [done..|].
  unfold MAX_HEAP_SIZE in Hm. rewrite PAGE_SIZE_eq in *. lia.
Qed.
End pages_in_ram.

(** ** Searching the list *)

Section search.
Context `{Platform}.
Implicit Types (s : machine) (l : list Z) (n : nat).

Lemma wp_load_next s a (Q : Z → machine → Prop) :
  heap_bounds (m_heap s) → heap_page (m_heap s) a →
  Q (ram_load 8 a (m_ram s)) s → wp (load_next a) s Q.
Proof.
  intros HB Hp HQ. apply wp_load; [|done]. eapply heap_page_in_ram; [done..|].
  rewrite PAGE_SIZE_eq. lia.
Qed.

Lemma heap_inv_length s l : heap_inv s l → length l <= 4096.
Proof. intros [HB _ Hd Hp _]. by eapply heap_pages_length. Qed.

Lemma wp_count_range s l start end_ (Q : Z → machine → Prop) :
  heap_inv s l → Q (length (filter (λ p, start <= p < end_) l)) s →
  wp (count_range start end_) s Q.
Proof.
  intros HI HQ. pose proof (heap_inv_length _ _ HI) as Hlen. pose proof fuel_min as Hfm.
  destruct HI as [HB Hc _ Hp _]. unfold count_range. apply wp_bind, wp_get.
  eapply (wp_loop_ghost (λ rem '(page, found) s', s' = s ∧ ∃ pre, l = pre ++ rem ∧
      chain (m_ram s) page rem ∧ found =@{Z} length (filter (λ p, start <= p < end_) pre))
    length _ _ l); [lia| |].
  { split; [done|]. exists []. by split_and!. }
  intros rem [page found] s' (-> & pre & -> & Hch & Hf).
  destruct (Z.eqb_spec page 0) as [->|Hne].
  { apply chain_nil in Hch as ->. rewrite app_nil_r in HQ. apply wp_ret. by rewrite Hf. }
  apply chain_cons in Hch as (rem' & -> & Hch); [|done].
  apply Forall_app in Hp as [_ Hp]. apply Forall_cons in Hp as [Hp _].
  apply wp_bind, wp_load_next; [done..|]. apply wp_ret. exists rem'. split; [|simpl; lia].
  split; [done|]. exists (pre ++ [page]). rewrite <- app_assoc. split_and!; [done..|].
  rewrite filter_app, length_app, filter_cons, filter_nil. rewrite length_app in Hlen.
  pose proof (length_filter (λ p, start <= p < end_) pre).
  unfold in_range. case_decide; case_match; simpl; rewrite ?u32_small; lia.
Qed.

(** As many free pages in a range as it has pages: the whole run is free. *)
Lemma count_run h l n a :
  NoDup l → Forall (heap_page h) l → aligned a →
  length (filter (λ p, a <= p < a + PAGE_SIZE * n) l) = n ↔ run_free l n a.
Proof.
  intros Hd Hp Ha. set (f := filter _ l).
  assert (NoDup f) as Hdf by (by apply NoDup_filter).
  assert (∀ p, p ∈ f ↔ p ∈ pages a n ∧ p ∈ l) as Hf.
  { intros p. unfold f. rewrite list_elem_of_filter. rewrite Forall_forall in Hp.
    split; intros [H1 H2]; (split; [|done]); eapply elem_of_pages_range; eauto;
      by apply Hp. }
  apply NoDup_ListNoDup in Hdf. unfold run_free. rewrite Forall_forall. split.
  - intros Hl p Hpn. apply Hf. apply list_elem_of_In.
    eapply NoDup_length_incl; [done| | |by apply list_elem_of_In].
    + rewrite length_pages. lia.
    + intros q Hq. apply list_elem_of_In in Hq. apply list_elem_of_In. by apply Hf.
  - intros Hr. rewrite <- (length_pages a n). apply Nat.le_antisymm.
    + apply NoDup_incl_length; [done|].
      intros q Hq. apply list_elem_of_In in Hq. apply list_elem_of_In. by apply Hf.
    + apply NoDup_incl_length; [apply NoDup_ListNoDup, NoDup_pages|].
      intros q Hq. apply list_elem_of_In in Hq. apply list_elem_of_In.
      apply Hf. split; [done|]. by apply Hr.
Qed.

(** A free run ends inside the heap and is no longer than the list. *)
Lemma run_free_bounds h l n a :
  Forall (heap_page h) l → run_free l n a → (0 < n)%nat → a + PAGE_SIZE * n <= heap_end h.
Proof.
  intros Hp Hr Hn. unfold run_free in Hr. rewrite Forall_forall in Hp, Hr.
  destruct (Hp (a + PAGE_SIZE * (n - 1)%nat)) as (_ & _ & He);
    [|rewrite PAGE_SIZE_eq in *; lia].
  apply Hr, elem_of_pages. exists (n - 1)%nat. split; [lia|done].
Qed.

Lemma run_free_length l n a : run_free l n a → (n <= length l)%nat.
Proof.
  unfold run_free. rewrite Forall_forall. intros Hr. rewrite <- (length_pages a n).
  apply NoDup_incl_length; [apply NoDup_ListNoDup, NoDup_pages|].
  intros q Hq. apply list_elem_of_In. apply Hr. by apply list_elem_of_In.
Qed.
End search.

(** ** Removing pages from the list *)

Section unlink.
Context `{Platform}.
Implicit Types (s : machine) (l pre rem : list Z) (n : nat) (r : gmap Z Z).

(** The value of the link that follows the pages [pre]. *)
Definition link_value r (fl : Z) (link : option Z) : Z :=
  match link with None => fl | Some a => ram_load 8 a r end.

Lemma chain_suffix r fl pre rem :
  chain r fl (pre ++ rem) → chain r (link_value r fl (last pre)) rem.
Proof.
  revert fl. induction pre as [|a pre IH]; intros fl; [done|]. simpl app.
  intros (-> & _ & Hc). specialize (IH _ Hc). destruct pre as [|b pre]; [done|].
  rewrite last_cons. by destruct (last (b :: pre)).
Qed.

(** Two link words of different pages do not overlap. *)
Lemma links_apart r a b v :
  aligned a → aligned b → a ≠ b → ram_load 8 b (ram_store 8 a v r) = ram_load 8 b r.
Proof.
  intros Ha Hb Hne. apply ram_load_store_ne.
  destruct (aligned_apart a b Ha Hb Hne); rewrite PAGE_SIZE_eq in *; lia.
Qed.

Lemma chain_store r p l a v :
  chain r p l → Forall aligned l → aligned a → a ∉ l → chain (ram_store 8 a v r) p l.
Proof.
  intros Hc Hal Ha Hn. eapply chain_ext; [done|]. intros b Hb. rewrite Forall_forall in Hal.
  apply links_apart; [done|by apply Hal|]. intros ->. done.
Qed.

(** Storing the link of [p] in the link before it drops [p] from the list. *)
Lemma chain_drop r fl pre a p rem :
  chain r fl (pre ++ a :: p :: rem) → NoDup (pre ++ a :: p :: rem) →
  Forall aligned (pre ++ a :: p :: rem) →
  chain (ram_store 8 a (ram_load 8 p r) r) fl (pre ++ a :: rem).
Proof.
  revert fl. induction pre as [|b pre IH]; intros fl Hc Hd Hal; simpl in *.
  - destruct Hc as (-> & Ha0 & _ & _ & Hc). split_and!; [done..|].
    rewrite ram_load_store_eq, Z.mod_small by (apply (ram_load_range 8)).
    apply Forall_cons in Hal as [Ha Hal]. apply Forall_cons in Hal as [_ Hal].
    apply chain_store; [done..|]. apply NoDup_cons in Hd as [Hd _]. set_solver.
  - destruct Hc as (-> & Hb0 & Hc). apply Forall_cons in Hal as [Hb Hal].
    apply NoDup_cons in Hd as [Hnb Hd]. split_and!; [done..|].
    assert (aligned a) by (by apply Forall_app in Hal as [_ [??]%Forall_cons]).
    rewrite links_apart; [by apply IH|done|done|]. intros ->. apply Hnb. set_solver.
Qed.

Definition with_list (fl : Z) (r : gmap Z Z) (s : machine) : machine :=
  set_ram r (set_heap (with_free_list fl (m_heap s)) s).

Lemma with_list_id s : with_list (free_list (m_heap s)) (m_ram s) s = s.
Proof. destruct s as [? ? ? ? []]. done. Qed.

(** The state while [unlink_range] runs: it has passed the pages [pre], which
    stay, and has yet to see [rem]. *)
Definition unlink_inv s l (out : Z → Prop) `{∀ p, Decision (out p)}
    (g : list Z * list Z) (link : option Z) (s' : machine) : Prop :=
  let '(pre, rem) := g in
  link = last pre ∧ ∃ fl r, s' = with_list fl r s ∧ chain r fl (pre ++ rem) ∧
  NoDup (pre ++ rem) ∧ Forall (heap_page (m_heap s)) (pre ++ rem) ∧
  filter out l = pre ++ filter out rem ∧
  same_on (λ x, ¬ links (filter out l) x) (m_ram s) r.

Lemma heap_pages_aligned h l : Forall (heap_page h) l → Forall aligned l.
Proof. intros Hp. eapply Forall_impl; [done|]. by intros ? [? _]. Qed.

Lemma wp_read_link s l out `{∀ p, Decision (out p)} g link s' (Q : Z → machine → Prop) :
  heap_bounds (m_heap s) → unlink_inv s l out g link s' →
  (∀ v, chain (m_ram s') v g.2 → Q v s') → wp (read_link link) s' Q.
Proof.
  destruct g as [pre rem]. intros HB (-> & fl & r & -> & Hc & _ & Hp & _) HQ.
  pose proof (chain_suffix _ _ _ _ Hc) as Hs. destruct (last pre) as [a|] eqn:E; simpl in *.
  - apply wp_load_next; [done| |by apply HQ].
    apply last_Some_elem_of in E. apply Forall_app in Hp as [Hp _].
    rewrite Forall_forall in Hp. by apply Hp.
  - apply wp_get. by apply HQ.
Qed.

Lemma unlink_drop s l out `{∀ p, Decision (out p)} pre p rem link s' (Q : unit → machine → Prop) :
  heap_bounds (m_heap s) → unlink_inv s l out (pre, p :: rem) link s' → ¬ out p →
  (∀ s'', unlink_inv s l out (pre, rem) link s'' → Q tt s'') →
  wp (write_link link (ram_load 8 p (m_ram s'))) s' Q.
Proof.
  intros HB (-> & fl & r & -> & Hc & Hd & Hp & Hf & Hs) Hout HQ.
  rewrite filter_cons_False in Hf by done.
  assert (NoDup (pre ++ rem) ∧ Forall (heap_page (m_heap s)) (pre ++ rem)) as [Hd' Hp'].
  { assert (pre ++ rem `sublist_of` pre ++ p :: rem) as Hsub
      by (apply sublist_app; [done|by constructor]).
    split; [by eapply sublist_NoDup|]. rewrite Forall_forall in *.
    intros x Hx. apply Hp. by eapply elem_of_sublist. }
  destruct (last pre) as [a|] eqn:E; simpl.
  - apply last_Some in E as [pre' ->]. rewrite <- !app_assoc in *. simpl in *.
    assert (a ∈ filter out l) as Ha by (rewrite Hf; set_solver).
    assert (heap_page (m_heap s) a) as Hpa by (rewrite Forall_forall in Hp'; apply Hp'; set_solver).
    apply wp_store; [eapply heap_page_in_ram; [done..|]; rewrite PAGE_SIZE_eq; lia|].
    apply HQ. split; [by rewrite last_snoc|].
    exists fl, (ram_store 8 a (ram_load 8 p r) r). rewrite <- !app_assoc. simpl. split_and!; try done.
    + eapply chain_drop; [done..|]. by eapply heap_pages_aligned.
    + etrans; [done|]. apply same_on_store. intros x Hx.
      destruct (decide (a <= x < a + 8)); [|lia]. exfalso. apply Hx. by exists a.
  - apply last_None in E as ->. simpl in *. apply wp_modify, HQ. split; [done|].
    exists (ram_load 8 p r), r. split_and!; try done. by destruct Hc as (-> & _ & Hc).
Qed.

Lemma unlink_keep s l out `{∀ p, Decision (out p)} pre p rem link s' :
  unlink_inv s l out (pre, p :: rem) link s' → out p →
  unlink_inv s l out (pre ++ [p], rem) (Some p) s'.
Proof.
  intros (-> & fl & r & -> & Hc & Hd & Hp & Hf & Hs) Hout.
  rewrite filter_cons_True in Hf by done. split; [by rewrite last_snoc|].
  exists fl, r. rewrite <- !app_assoc. by split_and!.
Qed.

Lemma wp_unlink_range s l start end_ (Q : unit → machine → Prop) :
  heap_inv s l →
  (∀ fl r, chain r fl (filter (λ p, ¬ (start <= p < end_)) l) →
     same_on (λ x, ¬ links (filter (λ p, ¬ (start <= p < end_)) l) x) (m_ram s) r →
     Q tt (with_list fl r s)) →
  wp (unlink_range start end_) s Q.
Proof.
  intros HI HQ. pose proof (heap_inv_length _ _ HI) as Hlen. pose proof fuel_min as Hfm.
  destruct HI as [HB Hc Hd Hp _]. unfold unlink_range.
  eapply (wp_loop_ghost (unlink_inv s l (λ p, ¬ (start <= p < end_))) (λ g, length g.2) _ _ ([], l));
    [simpl; lia| |].
  { split; [done|]. exists (free_list (m_heap s)), (m_ram s).
    rewrite with_list_id. by split_and!. }
  intros [pre rem] link s' Hinv. apply wp_bind. eapply wp_read_link; [done..|].
  intros v Hv. simpl in Hv. destruct (Z.eqb_spec v 0) as [->|Hne].
  - apply chain_nil in Hv as ->. apply wp_ret.
    destruct Hinv as (_ & fl & r & -> & Hch & _ & _ & Hf & Hs).
    rewrite filter_nil, app_nil_r in *. rewrite <- Hf in Hch. by apply HQ.
  - apply chain_cons in Hv as (rem' & -> & Hv); [|done].
    assert (heap_bounds (m_heap s') ∧ heap_page (m_heap s') v) as [HB' Hpv].
    { destruct Hinv as (_ & fl & r & -> & _ & _ & Hp' & _). split; [done|].
      rewrite Forall_forall in Hp'. apply Hp'. set_solver. }
    unfold in_range. destruct (decide (start <= v < end_)) as [Hr|Hr].
    + rewrite (proj2 (Z.leb_le _ _)), (proj2 (Z.ltb_lt _ _)) by lia. simpl.
      apply wp_bind, wp_load_next; [done..|]. apply wp_bind.
      eapply unlink_drop; [exact HB|exact Hinv|tauto|]. intros s'' Hinv'. apply wp_ret.
      exists (pre, rem'). split; [done|simpl; lia].
    + replace ((start <=? v) && (v <? end_)) with false by lia. apply wp_ret.
      exists (pre ++ [v], rem'). split; [by eapply unlink_keep|simpl; lia].
Qed.
End unlink.

(** ** Interrupt masking *)

Section masking.
Context `{Platform}.

Lemma clear_set_bit st :
  (if (st & (1 << 1)) =? 0 then st & Z.lnot (1 << 1)
   else (st & Z.lnot (1 << 1)) .| (1 << 1)) = st.
Proof.
  assert (∀ i, 0 <= i → Z.testbit (1 << 1) i = (i =? 1)) as Hb.
  { intros i Hi. change (1 << 1) with (2 ^ 1). rewrite Z.pow2_bits_eqb by lia.
    apply Z.eqb_sym. }
  destruct (Z.eqb_spec (st & (1 << 1)) 0) as [E|E].
  - apply Z.bits_inj'. intros i Hi. rewrite Z.land_spec, Z.lnot_spec, Hb by done.
    assert (Z.testbit (st & (1 << 1)) i = false) as Hz by (rewrite E; apply Z.testbit_0_l).
    rewrite Z.land_spec, Hb in Hz by done.
    destruct (i =? 1), (Z.testbit st i); done.
  - apply Z.bits_inj'. intros i Hi. rewrite Z.lor_spec, Z.land_spec, Z.lnot_spec, Hb by done.
    destruct (Z.eqb_spec i 1) as [->|]; [|by destruct (Z.testbit st i)].
    destruct (Z.testbit st 1) eqn:Ht; [done|]. exfalso. apply E. bitwise j.
    rewrite <- Z.shiftl_spec, Hb by lia. destruct (Z.eqb_spec j 1) as [->|]; [by rewrite Ht|].
    by rewrite andb_false_r.
Qed.

Definition masked (c : csrs) : csrs := with_sstatus (sstatus c & Z.lnot (1 << 1)) c.

Lemma wp_intr_off s (Q : Z → machine → Prop) :
  Q (sstatus (m_csr s)) (set_csr (masked (m_csr s)) s) → wp allocator_intr_off s Q.
Proof. intros. unfold allocator_intr_off. by apply wp_bind, wp_get, wp_bind, wp_modify, wp_ret. Qed.

(** Restoring the saved status after masking gives back the original CSRs. *)
Lemma wp_intr_restore s c (Q : unit → machine → Prop) :
  m_csr s = masked c → Q tt (set_csr c s) → wp (allocator_intr_restore (sstatus c)) s Q.
Proof.
  intros Hm HQ. unfold allocator_intr_restore. pose proof (clear_set_bit (sstatus c)) as Hs.
  destruct ((sstatus c & (1 << 1)) =? 0).
  - apply wp_ret. unfold masked in Hm. rewrite Hs in Hm.
    replace s with (set_csr c s); [done|]. destruct s, c. simpl in *. by subst.
  - apply wp_bind, wp_get, wp_modify. rewrite Hm. unfold masked, with_sstatus in *. simpl.
    rewrite Hs. by destruct c.
Qed.
End masking.

(** ** Allocation *)

Section allocation.
Context `{Platform}.
Implicit Types (s : machine) (l : list Z) (n : nat).

Lemma heap_inv_ext s s' l :
  m_ram s' = m_ram s → m_heap s' = m_heap s → heap_inv s l → heap_inv s' l.
Proof. intros Hr Hh [? ? ? ? ?]. split; rewrite ?Hr, ?Hh; done. Qed.

(** What [mem_alloc] promises of a request for [n] pages. *)
Definition alloc_post (n : nat) s l (p : Z) (s' : machine) : Prop :=
  match alloc_spec n l with
  | None => p = 0 ∧ s' = s
  | Some (a, l') =>
      p = a ∧ heap_inv s' l' ∧ ∃ fl r,
      s' = set_ram r (set_heap (with_count (length l') (with_free_list fl (m_heap s))) s) ∧
      same_on (λ x, ¬ links l' x) (m_ram s) r
  end.

Lemma filter_pages_range h l a n :
  Forall (heap_page h) l → aligned a →
  filter (.∉ pages a n) l = filter (λ p, ¬ (a <= p < a + PAGE_SIZE * n)) l.
Proof.
  intros Hp Ha. apply filter_ext_Forall. eapply Forall_impl; [done|].
  intros p [Hpa _]. by rewrite elem_of_pages_range.
Qed.

Lemma filter_pages_length h l a n :
  NoDup l → Forall (heap_page h) l → aligned a → run_free l n a →
  length (filter (.∉ pages a n) l) = (length l - n)%nat.
Proof.
  intros Hd Hp Ha Hr. pose proof (proj2 (count_run h l n a Hd Hp Ha) Hr).
  erewrite filter_pages_range by done.
  pose proof (filter_split_length (λ p, a <= p < a + PAGE_SIZE * n) l). lia.
Qed.

(** Dropping a run of free pages keeps the invariant. *)
Lemma heap_inv_remove s l a n fl r :
  heap_inv s l → aligned a → run_free l n a →
  chain r fl (filter (.∉ pages a n) l) →
  heap_inv (set_ram r (set_heap (with_count (length (filter (.∉ pages a n) l))
                                   (with_free_list fl (m_heap s))) s))
           (filter (.∉ pages a n) l).
Proof.
  intros [HB Hc Hd Hp Hn] Ha Hr Hch. split; simpl; [done|done|by apply NoDup_filter| |done].
  rewrite Forall_forall in *. intros x [_ Hx]%list_elem_of_filter. exact (Hp x Hx).
Qed.

Lemma alloc_spec_1 a l : NoDup (a :: l) → alloc_spec 1 (a :: l) = Some (a, l).
Proof.
  intros Hd. apply NoDup_cons in Hd as [Ha Hd]. unfold alloc_spec.
  assert (pages a 1 = [a]) as E by (unfold pages; simpl; f_equal; lia).
  assert (run_free (a :: l) 1 a) as Hr.
  { unfold run_free. rewrite E. apply Forall_singleton. set_solver. }
  simpl list_find. rewrite decide_True by done. rewrite E. do 2 f_equal.
  rewrite filter_cons_False by set_solver. apply filter_all.
  apply Forall_forall. intros x Hx. set_solver.
Qed.

(** The search finds the first run of the list, and only that. *)
Lemma alloc_spec_found l n pre a rem :
  l = pre ++ a :: rem → Forall (λ p, ¬ run_free l n p) pre → run_free l n a →
  alloc_spec n l = Some (a, filter (.∉ pages a n) l).
Proof.
  intros Hl Hpre Hr. unfold alloc_spec.
  rewrite (proj2 (list_find_Some (run_free l n) l (length pre) a)); [done|].
  split_and!; [by rewrite Hl, list_lookup_middle|done|].
  intros j y Hj Hlt. rewrite Hl, lookup_app_l in Hj by done.
  by eapply (Forall_lookup_1 (λ p, ¬ run_free l n p)).
Qed.

Lemma pages_app a n m : pages a (n + m) = pages a n ++ pages (a + PAGE_SIZE * n) m.
Proof.
  revert a. induction n as [|n IH]; intros a; [by rewrite Nat.add_0_l, Z.mul_0_r, Z.add_0_r|].
  rewrite Nat.add_succ_l, !pages_S, IH. replace (a + PAGE_SIZE + PAGE_SIZE * n) with (a + PAGE_SIZE * S n); [done|].
  rewrite PAGE_SIZE_eq. lia.
Qed.

(** On one run of pages the allocator takes the pages from the front. *)
Lemma alloc_spec_pages a n m : (0 < n)%nat →
  alloc_spec n (pages a (n + m)) = Some (a, pages (a + PAGE_SIZE * n) m).
Proof.
  intros Hn. rewrite pages_app. set (l := pages a n ++ _).
  rewrite (alloc_spec_found l n [] a (tail l)); [|unfold l; destruct n; [lia|by rewrite pages_S]|constructor|].
  2:{ apply Forall_forall. intros p Hp. apply elem_of_app. by left. }
  do 2 f_equal. unfold l. rewrite filter_app, (filter_all _ (pages _ m)).
  - rewrite (elem_of_nil_inv (filter _ (pages a n))); [done|]. intros p [Hno Hp]%list_elem_of_filter. by apply Hno.
  - apply Forall_forall. intros p (j & Hj & ->)%elem_of_pages (i & Hi & E)%elem_of_pages. rewrite PAGE_SIZE_eq in *. lia.
Qed.

Lemma alloc_spec_none l n : Forall (λ p, ¬ run_free l n p) l → alloc_spec n l = None.
Proof. intros Hf. unfold alloc_spec. by rewrite (proj2 (list_find_None _ _)). Qed.

(** A request for more pages than are free finds no run. *)
Lemma alloc_spec_short l n : (length l < n)%nat → alloc_spec n l = None.
Proof.
  intros Hn. apply alloc_spec_none, Forall_forall. intros p _ Hr.
  apply run_free_length in Hr. lia.
Qed.

(** The successful end of an iteration: remove the run and return it. *)
Lemma wp_alloc_take s l n a (Q : Z + Z → machine → Prop) :
  heap_inv s l → run_free l n a → aligned a → n <= 4096 →
  (∀ s', alloc_spec n l = Some (a, filter (.∉ pages a n) l) → alloc_post n s l a s' → Q (inr a) s') →
  alloc_spec n l = Some (a, filter (.∉ pages a n) l) →
  wp (unlink_range a (a + PAGE_SIZE * n) ;;
      h <- get m_heap;
      upd_heap (with_count (u32 (free_page_count h - n))) ;;
      allocator_intr_restore (sstatus (m_csr s)) ;;
      ret (inr a : Z + Z)) (set_csr (masked (m_csr s)) s) Q.
Proof.
  intros HI Hr Ha Hn HQ Hsp.
  assert (heap_inv (set_csr (masked (m_csr s)) s) l) as HI1 by (by apply (heap_inv_ext s)).
  pose proof (heap_inv_length _ _ HI) as Hlen. destruct (HI) as [HB Hc Hd Hp Hcnt].
  pose proof (filter_pages_length _ _ _ _ Hd Hp Ha Hr) as Hfl.
  pose proof (run_free_length _ _ _ Hr) as Hrl.
  apply wp_bind. eapply wp_unlink_range; [exact HI1|].
  rewrite <- (filter_pages_range _ _ _ _ Hp Ha). intros fl r Hch Hs.
  apply wp_bind, wp_get, wp_bind, wp_modify, wp_bind. apply wp_intr_restore; [done|].
  apply wp_ret, HQ; [done|]. unfold alloc_post. rewrite Hsp. simpl.
  replace (u32 _) with (Z.of_nat (length (filter (.∉ pages a n) l)))
    by (rewrite Hcnt, Hfl, u32_small; lia).
  split; [done|]. split; [|exists fl, r; split; [by destruct s|done]].
  eapply (heap_inv_ext (set_ram r (set_heap (with_count (length (filter (.∉ pages a n) l))
    (with_free_list fl (m_heap s))) s))); [done|done|]. by apply heap_inv_remove.
Qed.

Lemma wp_alloc_search s l n :
  heap_inv s l → (0 < n <= length l)%nat →
  wp (loop fuel (alloc_try n (PAGE_SIZE * n) (sstatus (m_csr s))) (free_list (m_heap s)))
     (set_csr (masked (m_csr s)) s) (alloc_post n s l).
Proof.
  intros HI Hn. pose proof (heap_inv_length _ _ HI) as Hlen. pose proof fuel_min as Hfm.
  set (s1 := set_csr _ s). assert (heap_inv s1 l) as HI1 by (by apply (heap_inv_ext s)).
  destruct (HI) as [HB Hc Hd Hp Hcnt].
  eapply (wp_loop_ghost (λ rem first s', s' = s1 ∧ ∃ pre, l = pre ++ rem ∧
      Forall (λ p, ¬ run_free l n p) pre ∧ chain (m_ram s) first rem) length _ _ l); [lia| |].
  { split; [done|]. exists []. by split_and!. }
  intros rem first s' (-> & pre & Hl & Hpre & Hch). unfold alloc_try.
  destruct (Z.eqb_spec first 0) as [->|Hne].
  { apply chain_nil in Hch as ->. rewrite app_nil_r in Hl. subst pre.
    apply wp_bind, wp_intr_restore; [done|]. apply wp_ret. unfold alloc_post.
    rewrite alloc_spec_none by done. split; [done|]. by destruct s. }
  apply chain_cons in Hch as (rem' & -> & Hch); [|done].
  assert (heap_page (m_heap s) first) as Hpf by (rewrite Forall_forall in Hp; apply Hp; set_solver).
  assert (¬ run_free l n first → wp (next <- load_next first; ret (inl next)) s1
    (λ (r : Z + Z) s', match r with
       | inl next => ∃ rem, (s' = s1 ∧ ∃ pre, l = pre ++ rem ∧
           Forall (λ p, ¬ run_free l n p) pre ∧ chain (m_ram s) next rem) ∧
           (length rem < length (first :: rem'))%nat
       | inr p => alloc_post n s l p s' end)) as Hskip.
  { intros Hno. apply wp_bind, wp_load_next; [done..|]. apply wp_ret.
    exists rem'. split; [|simpl; lia]. split; [done|]. exists (pre ++ [first]).
    rewrite <- app_assoc. split_and!; [done| |done].
    apply Forall_app. split; [done|by apply Forall_singleton]. }
  rewrite (u64_small (first + _))
    by (destruct Hpf as (_ & ? & ?), HB as (? & ? & _);
        rewrite PAGE_SIZE_eq in *; unfold RAM_BASE, RAM_END in *; lia).
  apply wp_bind, wp_get. destruct (Z.ltb_spec (heap_end (m_heap s1)) (first + PAGE_SIZE * n)) as [Hlt|Hge].
  - assert (¬ run_free l n first) as Hno.
    { intros Hr. pose proof (run_free_bounds _ _ _ _ Hp Hr ltac:(lia)). simpl in Hlt. lia. }
    by apply Hskip.
  - apply wp_bind. eapply wp_count_range; [exact HI1|].
    pose proof (count_run _ _ n first Hd Hp (proj1 Hpf)) as Hcr.
    set (found := length (filter _ _)) in *. destruct (Z.eqb_spec found n) as [Heq|Hneq]; cbn [negb].
    + assert (run_free l n first) as Hr by (apply Hcr; lia).
      eapply wp_alloc_take; [done|done|apply Hpf|lia| |by eapply alloc_spec_found].
      intros s' _ Hpost. done.
    + apply Hskip. rewrite <- Hcr. lia.
Qed.

Lemma npages_count size :
  0 < size < 2 ^ 32 → u32 (u64 (size + PAGE_SIZE - 1) >> PGSHIFT) = npages size.
Proof.
  intros Hs. unfold npages, PGSHIFT. rewrite PAGE_SIZE_eq.
  rewrite u64_small, shiftr_div, u32_small; [|dlia..]. change (2 ^ 12) with 4096. dlia.
Qed.

(** A single page is popped from the list without a write to memory. *)
Lemma wp_mem_alloc_1 s a l size (Q : Z → machine → Prop) :
  heap_inv s (a :: l) → 0 < size < 2 ^ 32 → npages size = 1%nat →
  (∀ fl, let s' := set_heap (with_count (length l) (with_free_list fl (m_heap s))) s in
     heap_inv s' l → Q a s') →
  wp (mem_alloc size) s Q.
Proof.
  intros HI Hs Hn HQ. pose proof (heap_inv_length _ _ HI) as Hlen.
  destruct HI as [HB (Hfl & Ha0 & Hc) Hd Hp Hcnt]. unfold mem_alloc.
  rewrite (proj2 (Z.eqb_neq size 0)), npages_count, Hn by (done || lia).
  apply wp_bind, wp_intr_off, wp_bind, wp_get. simpl. rewrite Hcnt, Hfl.
  rewrite (proj2 (Z.ltb_ge _ _)) by (simpl; lia). simpl.
  apply Forall_cons in Hp as [Hpa Hp]. apply NoDup_cons in Hd as [_ Hd].
  apply wp_bind, wp_load_next; [done..|].
  apply wp_bind, wp_modify, wp_bind, wp_modify, wp_bind, wp_intr_restore; [done|].
  apply wp_ret. rewrite u32_small by (simpl in *; lia).
  replace (S (length l) - 1) with (Z.of_nat (length l)) by lia.
  specialize (HQ (ram_load 8 a (m_ram s))). destruct s. apply HQ. by split.
Qed.

Lemma wp_mem_alloc s l size :
  heap_inv s l → 0 < size < 2 ^ 32 →
  wp (mem_alloc size) s (alloc_post (npages size) s l).
Proof.
  intros HI Hs. set (n := npages size). pose proof (heap_inv_length _ _ HI) as Hlen.
  assert (0 < n)%nat as Hn by (unfold n, npages; rewrite PAGE_SIZE_eq; dlia).
  destruct (decide (n = 1%nat ∧ l ≠ [])) as [[H1 Hl]|H1].
  { destruct l as [|a l]; [done|]. apply (wp_mem_alloc_1 s a l); [done..|]. intros fl s' HI'.
    unfold alloc_post. rewrite H1, alloc_spec_1 by apply HI. split_and!; [done..|].
    exists fl, (m_ram s). split; [by destruct s|done]. }
  destruct (HI) as [HB Hc Hd Hp Hcnt]. unfold mem_alloc.
  rewrite (proj2 (Z.eqb_neq size 0)), npages_count by lia. fold n.
  apply wp_bind, wp_intr_off, wp_bind, wp_get. simpl. rewrite Hcnt.
  destruct (Z.ltb_spec (length l) n) as [Hlt|Hge].
  { apply wp_bind, wp_intr_restore; [done|]. apply wp_ret. unfold alloc_post.
    rewrite alloc_spec_short by lia. split; [done|]. by destruct s. }
  assert (n ≠ 1%nat) by (intros E; apply H1; split; [done|]; destruct l; simpl in *; [lia|done]).
  rewrite (proj2 (Z.eqb_neq n 1)) by lia.
  replace (u64 (n * PAGE_SIZE)) with (PAGE_SIZE * n)
    by (rewrite PAGE_SIZE_eq, u64_small; lia).
  apply wp_alloc_search; [done|lia].
Qed.

(** Whatever [mem_alloc] returns is a run of pages of the heap that were free. *)
Lemma alloc_spec_some l n a l' :
  alloc_spec n l = Some (a, l') → a ∈ l ∧ run_free l n a ∧ l' = filter (.∉ pages a n) l.
Proof.
  unfold alloc_spec. destruct (list_find _ l) as [[i b]|] eqn:E; [|done]. intros; simplify_eq.
  apply list_find_Some in E as (Hi & Hr & _). split_and!; [|done|done].
  by eapply list_elem_of_lookup_2.
Qed.

(** NULL means that no run of the requested length is free at all. *)
Lemma alloc_spec_complete l n : (0 < n)%nat → alloc_spec n l = None → ∀ a, ¬ run_free l n a.
Proof.
  intros Hn Hs a Hr. unfold alloc_spec in Hs. destruct (list_find _ l) as [[]|] eqn:E; [done|].
  apply list_find_None in E. rewrite Forall_forall in E. apply (E a); [|done].
  unfold run_free in Hr. rewrite Forall_forall in Hr. apply Hr, elem_of_pages.
  exists 0%nat. split; [done|lia].
Qed.
End allocation.

(** ** Freeing and initialisation *)

Section freeing.
Context `{Platform}.
Implicit Types (s : machine) (l : list Z) (n : nat).

(** The state after [a] was put in front of the list. *)
Definition pushed (a : Z) s : machine :=
  set_ram (ram_store 8 a (free_list (m_heap s)) (m_ram s))
    (set_heap (with_count (free_page_count (m_heap s) + 1) (with_free_list a (m_heap s))) s).

Lemma wp_push_page s l a (Q : unit → machine → Prop) :
  heap_inv s l → heap_page (m_heap s) a → a ∉ l →
  (heap_inv (pushed a s) (a :: l) → Q tt (pushed a s)) → wp (push_page a) s Q.
Proof.
  intros HI Hpa Ha HQ. pose proof (heap_inv_length _ _ HI) as Hlen. destruct HI as [HB Hc Hd Hp Hn].
  assert (a ≠ 0) by (by eapply heap_page_nonzero).
  assert (0 <= free_list (m_heap s) < 2 ^ 64).
  { rewrite (chain_head _ _ _ Hc). destruct l as [|b l]; simpl; [lia|].
    apply Forall_cons in Hp as [(_ & ? & ?) _]. destruct HB as (? & ? & _).
    rewrite PAGE_SIZE_eq in *. unfold RAM_BASE, RAM_END in *. lia. }
  unfold push_page. apply wp_bind, wp_get, wp_bind, wp_store.
  { eapply heap_page_in_ram; [done..|]. rewrite PAGE_SIZE_eq. lia. }
  apply wp_bind, wp_modify, wp_modify. rewrite u32_small by lia.
  match goal with |- Q tt ?t => replace t with (pushed a s) by (by destruct s as [? ? ? ? []]) end.
  apply HQ. split; simpl; [done| |by constructor|by constructor|lia].
  split_and!; [done..|]. rewrite ram_load_store_eq, Z.mod_small by done.
  apply chain_store; [done|by eapply heap_pages_aligned|apply Hpa|done].
Qed.

Lemma wp_mem_free s l page :
  let a := virt_to_phys page in
  heap_inv s l → page ≠ 0 → heap_page (m_heap s) a → a ∉ l →
  wp (mem_free page) s (λ _ s', heap_inv s' (a :: l) ∧ s' = pushed a s).
Proof.
  intros a HI Hz Hpa Ha. unfold mem_free. fold a. apply wp_bind, wp_get.
  rewrite (proj2 (Z.eqb_neq page 0)) by done. destruct (Hpa) as (Hal & Hlo & Hhi).
  rewrite (proj2 (Z.ltb_ge _ _)), (proj2 (Z.leb_gt _ _)) by (rewrite PAGE_SIZE_eq in *; lia).
  change (PAGE_SIZE - 1) with (2 ^ 12 - 1). rewrite land_mask by lia.
  change (2 ^ 12) with PAGE_SIZE. rewrite Hal. simpl.
  apply wp_bind, wp_intr_off, wp_bind.
  eapply wp_push_page; [by apply (heap_inv_ext s)|done|done|]. intros HI'.
  apply wp_intr_restore; [done|]. split.
  - by eapply heap_inv_ext; [| |exact HI'].
  - by destruct s.
Qed.

(** [mem_free] ignores NULL and every address that is not a page of the
    heap: the machine does not change at all. *)
Theorem mem_free_ignores s page :
  (page = 0 ∨ ¬ (heap_start (m_heap s) <= virt_to_phys page < heap_end (m_heap s)) ∨
   ¬ aligned (virt_to_phys page)) →
  wp (mem_free page) s (λ _ s', s' = s).
Proof.
  intros Hno. unfold mem_free. apply wp_bind, wp_get.
  match goal with |- context [if ?b then _ else _] => replace b with true; [by apply wp_ret|] end.
  change (PAGE_SIZE - 1) with (2 ^ 12 - 1). rewrite land_mask by lia.
  change (2 ^ 12) with PAGE_SIZE. unfold aligned in Hno.
  destruct (Z.eqb_spec page 0); [done|]. destruct (Z.ltb_spec (virt_to_phys page) (heap_start (m_heap s))); [done|].
  destruct (Z.leb_spec (heap_end (m_heap s)) (virt_to_phys page)); [done|].
  destruct (Z.eqb_spec (virt_to_phys page mod PAGE_SIZE) 0); [|done]. naive_solver lia.
Qed.

(** Rounding to pages. *)
Definition page_down (a : Z) : Z := PAGE_SIZE * (a / PAGE_SIZE).

Lemma land_page_down a : a & Z.lnot (PAGE_SIZE - 1) = page_down a.
Proof.
  unfold page_down. change (PAGE_SIZE - 1) with (Z.ones 12).
  rewrite <- Z.ldiff_land, Z.ldiff_ones_r, Z.shiftr_div_pow2, Z.shiftl_mul_pow2 by lia.
  change (2 ^ 12) with PAGE_SIZE. lia.
Qed.
End freeing.

(** What the linker script guarantees of the symbols. *)
Class ImageOk `{Image} : Prop := {
  image_heap : RAM_BASE <= virt_to_phys __heap_start <= RAM_END;
  image_stack : virt_to_phys __stack_limit = RAM_END - 0x4000;
}.

Section init.
Context `{Platform} `{ImageOk}.
Implicit Types (s : machine).

Definition init_heap_start : Z := page_down (virt_to_phys __heap_start + PAGE_SIZE - 1).
Definition init_heap_end : Z :=
  page_down (Z.min (init_heap_start + MAX_HEAP_SIZE) (virt_to_phys __stack_limit)).
(** All pages of the heap, in ascending order. *)
Definition init_pages : list Z :=
  pages init_heap_start (Z.to_nat ((init_heap_end - init_heap_start) / PAGE_SIZE)).

Lemma init_bounds : heap_bounds (HeapVars 0 init_heap_start init_heap_end 0).
Proof.
  pose proof image_heap. pose proof image_stack as E.
  unfold heap_bounds, aligned, init_heap_end, init_heap_start, page_down. simpl. rewrite E.
  unfold RAM_BASE, RAM_END, MAX_HEAP_SIZE in *. rewrite PAGE_SIZE_eq. split_and!; dlia.
Qed.

Lemma init_loop_step h (k : nat) :
  heap_bounds h → heap_start h < heap_end h - PAGE_SIZE * k →
  let a := heap_end h - PAGE_SIZE * k - PAGE_SIZE in
  heap_page h a ∧ (a ∉ pages (heap_end h - PAGE_SIZE * k) k) ∧
  a :: pages (heap_end h - PAGE_SIZE * k) k =@{list Z} pages (heap_end h - PAGE_SIZE * S k) (S k).
Proof.
  intros (_ & _ & Hs & He & _) Hlt a. unfold aligned in *. split_and!.
  - unfold a, heap_page, aligned. rewrite PAGE_SIZE_eq in *. split_and!; dlia.
  - rewrite elem_of_pages. unfold a. rewrite PAGE_SIZE_eq. intros (i & ? & ?). lia.
  - rewrite pages_S. unfold a. rewrite PAGE_SIZE_eq. f_equal; [lia|]. f_equal. lia.
Qed.

(** The initialisation loop after [k] pages: they are free, and [addr] is the
    lowest of them. *)
Definition init_inv s (k : nat) (addr : Z) (s' : machine) : Prop :=
  addr = init_heap_end - PAGE_SIZE * k ∧ (k = 0%nat ∨ init_heap_start <= addr) ∧
  heap_inv s' (pages addr k) ∧ ∃ fl c r,
  s' = set_ram r (set_heap (HeapVars fl init_heap_start init_heap_end c) s) ∧
  same_on (λ x, ¬ links (pages addr k) x) (m_ram s) r.

Lemma wp_init_step s k addr s' :
  init_inv s k addr s' → init_heap_start < addr →
  wp (push_page (addr - PAGE_SIZE)) s' (λ _ s'', init_inv s (S k) (addr - PAGE_SIZE) s'').
Proof.
  intros (-> & _ & HI & fl & c & r & -> & Hs) Hlt.
  destruct (init_loop_step (HeapVars fl init_heap_start init_heap_end c) k) as (Hp & Hn & E);
    [apply init_bounds|done|]. simpl in *.
  eapply wp_push_page; [done|done|done|]. rewrite E. intros HI'.
  assert (init_heap_end - PAGE_SIZE * k - PAGE_SIZE = init_heap_end - PAGE_SIZE * S k) as Ea by lia.
  rewrite Ea in *. split_and!; [done| |done|].
  { right. destruct Hp as (_ & ? & _). simpl in *. lia. }
  eexists _, _, _. split; [by destruct s|].
  etrans; [eapply same_on_weaken; [exact Hs|]|apply same_on_store]; simpl.
  - intros x Hx (b & Hb & ?). apply Hx. exists b. split; [|done]. rewrite <- E. set_solver.
  - intros x Hx. destruct (decide (init_heap_end - PAGE_SIZE * S k <= x < init_heap_end - PAGE_SIZE * S k + 8)); [|lia].
    exfalso. apply Hx. eexists. split; [|done]. rewrite <- E. set_solver.
Qed.

Lemma init_inv_done s k addr s' :
  init_inv s k addr s' → addr <= init_heap_start → pages addr k = init_pages.
Proof.
  intros (-> & Hk & _) Hle. pose proof init_bounds as (_ & _ & Hs & He & _). simpl in *.
  unfold aligned, init_pages in *. rewrite PAGE_SIZE_eq in *. destruct Hk as [->|Hk].
  - replace (Z.to_nat _) with 0%nat; [done|]. dlia.
  - replace (Z.to_nat _) with k by dlia. f_equal. lia.
Qed.

Lemma init_between :
  virt_to_phys __heap_start <= init_heap_start ∧ init_heap_end <= virt_to_phys __stack_limit.
Proof.
  unfold init_heap_end, init_heap_start, page_down. rewrite PAGE_SIZE_eq. dlia.
Qed.

Lemma wp_page_allocator_init s :
  wp page_allocator_init s (λ _ s', heap_inv s' init_pages ∧
    heap_start (m_heap s') = init_heap_start ∧ heap_end (m_heap s') = init_heap_end ∧
    virt_to_phys __heap_start <= init_heap_start ∧ init_heap_end <= virt_to_phys __stack_limit ∧
    ∃ h r, s' = set_ram r (set_heap h s) ∧ same_on (λ x, ¬ links init_pages x) (m_ram s) r).
Proof.
  pose proof init_bounds as HB. pose proof image_heap as Hih. pose proof image_stack as His.
  pose proof fuel_min as Hfm. unfold page_allocator_init. rewrite !land_page_down.
  rewrite (u64_small (virt_to_phys __heap_start + _ - _))
    by (unfold RAM_BASE, RAM_END in *; rewrite PAGE_SIZE_eq; lia).
  fold init_heap_start. rewrite (u64_small (init_heap_start + _))
    by (destruct HB as (? & _); simpl in *; unfold init_heap_start, page_down, MAX_HEAP_SIZE in *;
        unfold RAM_BASE, RAM_END in *; rewrite PAGE_SIZE_eq in *; dlia).
  replace (if virt_to_phys __stack_limit <? init_heap_start + MAX_HEAP_SIZE
           then virt_to_phys __stack_limit else init_heap_start + MAX_HEAP_SIZE)
    with (Z.min (init_heap_start + MAX_HEAP_SIZE) (virt_to_phys __stack_limit))
    by (case_match; lia).
  fold init_heap_end. apply wp_bind, wp_modify.
  assert (init_heap_end <= init_heap_start + MAX_HEAP_SIZE) as Hmax by apply HB.
  eapply (wp_loop_ghost (init_inv s) (λ k, 4097 - k)%nat _ _ 0%nat); [lia| |].
  { split_and!; [lia|by left|by split; [..|apply NoDup_nil_2|apply Forall_nil_2|]|].
    do 3 eexists. split; [by destruct s|done]. }
  intros k addr s' Hinv. destruct (Z.ltb_spec init_heap_start addr).
  - apply wp_bind. eapply wp_mono; [by apply wp_init_step|]. intros [] s'' Hinv'.
    apply wp_ret. exists (S k). split; [done|]. destruct Hinv as (Ha & _).
    unfold MAX_HEAP_SIZE in *. rewrite PAGE_SIZE_eq in *. lia.
  - apply wp_ret. rewrite <- (init_inv_done _ _ _ _ Hinv) by done.
    destruct Hinv as (_ & _ & HI & fl & c & r & -> & Hs). simpl.
    destruct init_between. split_and!; [done..|]. eauto.
Qed.
End init.

(** ** Clients of the allocator

    A client owns the pages it was given and has not freed.  It may allocate,
    free a page it owns, and write anything into its pages. *)

Section clients.
Context `{Platform} `{ImageOk}.
Implicit Types (s : machine) (l own : list Z).

Inductive client_step : machine * list Z → machine * list Z → Prop :=
  | step_alloc s own size p s' :
      0 < size < 2 ^ 32 → mem_alloc size s = Ok p s' → p ≠ 0 →
      client_step (s, own) (s', pages p (npages size) ++ own)
  | step_alloc_null s own size s' :
      0 < size < 2 ^ 32 → mem_alloc size s = Ok 0 s' → client_step (s, own) (s', own)
  | step_free s own page s' :
      virt_to_phys page ∈ own → mem_free page s = Ok tt s' →
      client_step (s, own) (s', filter (.≠ virt_to_phys page) own)
  | step_write s own r :
      same_on (λ x, ∀ a, a ∈ own → ¬ (a <= x < a + PAGE_SIZE)) (m_ram s) r →
      client_step (s, own) (set_ram r s, own).

(** Every page of the heap is either free or owned, and not both. *)
Definition client_inv (c : machine * list Z) : Prop :=
  heap_start (m_heap c.1) = init_heap_start ∧ heap_end (m_heap c.1) = init_heap_end ∧
  ∃ l, heap_inv c.1 l ∧ l ++ c.2 ≡ₚ init_pages.

Lemma init_pages_heap h a :
  heap_start h = init_heap_start → heap_end h = init_heap_end → a ∈ init_pages → heap_page h a.
Proof.
  intros Hs He Ha. pose proof init_bounds as (_ & _ & Hal & Hel & _). simpl in *.
  unfold heap_page. rewrite Hs, He. split; [exact (pages_aligned _ _ _ Hal Ha)|].
  apply elem_of_pages in Ha as (i & Hi & ->). unfold aligned in *. rewrite PAGE_SIZE_eq in *. dlia.
Qed.

(** Moving a free run to the owner keeps the pages together. *)
Lemma alloc_perm l n a : NoDup l → run_free l n a → filter (.∉ pages a n) l ++ pages a n ≡ₚ l.
Proof.
  intros Hd Hr. unfold run_free in Hr. rewrite Forall_forall in Hr. apply NoDup_Permutation.
  - apply NoDup_app. split_and!; [by apply NoDup_filter| |apply NoDup_pages].
    intros x [Hx _]%list_elem_of_filter. exact Hx.
  - done.
  - intros x. rewrite elem_of_app, list_elem_of_filter.
    destruct (decide (x ∈ pages a n)); [|tauto]. split; [|tauto]. auto.
Qed.

Lemma free_perm own a : NoDup own → a ∈ own → own ≡ₚ a :: filter (.≠ a) own.
Proof.
  intros Hd Ha. apply NoDup_Permutation; [done| |].
  - constructor; [|by apply NoDup_filter]. rewrite list_elem_of_filter. by intros [? _].
  - intros x. rewrite elem_of_cons, list_elem_of_filter.
    destruct (decide (x = a)) as [->|]; tauto.
Qed.

(** A client's writes to its own pages do not disturb the free list. *)
Lemma heap_inv_write s l own r :
  heap_inv s l → (∀ a, a ∈ l → a ∉ own) → Forall aligned own →
  same_on (λ x, ∀ a, a ∈ own → ¬ (a <= x < a + PAGE_SIZE)) (m_ram s) r →
  heap_inv (set_ram r s) l.
Proof.
  intros [HB Hc Hd Hp Hn] Hdis Hown Hs. split; [done| |done..]. simpl.
  eapply chain_ext; [done|]. intros a Ha. eapply same_on_load; [done|].
  intros x Hx b Hb Hbx. rewrite Forall_forall in Hp, Hown.
  destruct (aligned_apart a b) as [?|?]; [by apply Hp|by apply Hown| | |];
    [intros ->; by eapply Hdis|rewrite PAGE_SIZE_eq in *; lia..].
Qed.

Lemma client_inv_step c c' : client_inv c → client_step c c' → client_inv c'.
Proof.
  intros (Hs & He & l & HI & Hperm) Hstep.
  assert (NoDup (l ++ c.2)) as Hd by (rewrite Hperm; apply NoDup_pages).
  apply NoDup_app in Hd as (Hdl & Hdis & Hdo).
  assert (∀ a, a ∈ c.2 → heap_page (m_heap c.1) a) as Hown.
  { intros a Ha. apply init_pages_heap; [done..|]. rewrite <- Hperm. set_solver. }
  destruct Hstep as [s own size p s' Hsz Hrun Hp|s own size s' Hsz Hrun|s own page s' Hin Hrun|s own r Hr];
    simpl in *.
  - pose proof (wp_Ok _ _ _ _ _ Hrun (wp_mem_alloc _ _ _ HI Hsz)) as Hpost.
    unfold alloc_post in Hpost. destruct (alloc_spec _ l) as [[a l']|] eqn:E; [|naive_solver].
    apply alloc_spec_some in E as (_ & Hrf & ->). destruct Hpost as (-> & HI' & fl & r & -> & _).
    split_and!; [done..|]. eexists. split; [done|]. simpl.
    by rewrite app_assoc, alloc_perm.
  - pose proof (wp_Ok _ _ _ _ _ Hrun (wp_mem_alloc _ _ _ HI Hsz)) as Hpost.
    unfold alloc_post in Hpost. destruct (alloc_spec _ l) as [[a l']|] eqn:E.
    + destruct Hpost as (<- & HI' & _). exfalso. apply alloc_spec_some in E as (Ha & _ & _).
      destruct HI as [HB _ _ Hp _]. rewrite Forall_forall in Hp.
      by apply (heap_page_nonzero _ HB 0 (Hp _ Ha)).
    + destruct Hpost as (_ & ->). split_and!; [done..|]. eauto.
  - assert (page ≠ 0) as Hnz.
    { intros ->. apply (heap_page_nonzero _ (hi_bounds _ _ HI) (virt_to_phys 0)); [by apply Hown|done]. }
    destruct (wp_Ok _ _ _ _ _ Hrun (wp_mem_free _ _ page HI Hnz (Hown _ Hin) ltac:(set_solver)))
      as [HI' ->]. split_and!; [done..|]. eexists. split; [done|]. simpl.
    trans (l ++ virt_to_phys page :: filter (.≠ virt_to_phys page) own).
    + by rewrite <- Permutation_middle.
    + by rewrite <- Hperm, <- free_perm.
  - split_and!; [done..|]. exists l. split; [|done]. eapply heap_inv_write; [done|done| |done].
    apply Forall_forall. intros a Ha. by apply Hown.
Qed.

(** C1: [mem_alloc] refines the abstract allocator.  When the allocator's
    memory represents the free pages [l], a request for [size] bytes returns;
    if some run of [npages size] consecutive pages is free it returns the first
    page of the list that starts one, the memory then represents [l] without
    the run, and only links of pages that are still free were written; otherwise
    it returns NULL and the whole machine is as before. *)
Theorem mem_alloc_refines s l size :
  heap_inv s l → 0 < size < 2 ^ 32 →
  wp (mem_alloc size) s (λ p s',
    match alloc_spec (npages size) l with
    | None => p = 0 ∧ s' = s
    | Some (a, l') =>
        p = a ∧ heap_inv s' l' ∧ ∃ fl r,
        s' = set_ram r (set_heap (with_count (length l') (with_free_list fl (m_heap s))) s) ∧
        same_on (λ x, ¬ links l' x) (m_ram s) r
    end).
Proof. apply wp_mem_alloc. Qed.

(** C23: [mem_free] refines putting a page in front of the free list: freeing
    (through either of its addresses) a page of the heap that is not free makes
    it the first free page, writing only its own link, and leaves interrupts as
    they were; NULL and everything that is not a page of the heap is ignored, and
    the machine does not change at all. *)
Theorem mem_free_refines s l page :
  let a := virt_to_phys page in
  heap_inv s l →
  (page ≠ 0 → heap_page (m_heap s) a → a ∉ l → wp (mem_free page) s (λ _ s', heap_inv s' (a :: l) ∧ s' = pushed a s)) ∧
  (page = 0 ∨ ¬ heap_page (m_heap s) a → wp (mem_free page) s (λ _ s', s' = s)).
Proof.
  intros a HI. split; [by apply wp_mem_free|]. intros Hno. apply mem_free_ignores.
  destruct Hno as [|Hno]; [by left|right]. fold a.
  destruct (decide (aligned a)) as [Ha|]; [left|by right]. intros Hr. apply Hno.
  destruct (hi_bounds _ _ HI) as (_ & _ & _ & He & _). unfold heap_page, aligned in *. rewrite PAGE_SIZE_eq in *. dlia.
Qed.

(** C24: [page_allocator_init] makes every page of the heap free, in ascending
    order: it returns, the heap is page aligned and lies between the end of the
    kernel image and the stack, the invariant holds for the list of all its
    pages, and nothing but their links was written. *)
Theorem page_allocator_init_ok s :
  wp page_allocator_init s (λ _ s', heap_inv s' init_pages ∧
    heap_start (m_heap s') = init_heap_start ∧ heap_end (m_heap s') = init_heap_end ∧
    virt_to_phys __heap_start <= init_heap_start ∧ init_heap_end <= virt_to_phys __stack_limit ∧
    ∃ h r, s' = set_ram r (set_heap h s) ∧ same_on (λ x, ¬ links init_pages x) (m_ram s) r).
Proof. apply wp_page_allocator_init. Qed.

(** C2: no page is lost or handed out twice.  Whatever sequence of
    allocations, frees and writes to its own pages a client performs after
    [page_allocator_init], the pages it owns are distinct, none of them is on
    the free list, and free and owned pages together are all pages of the heap;
    and the next call of [mem_alloc] returns. *)
Theorem allocator_safety s0 s s' own' :
  page_allocator_init s0 = Ok tt s → rtc client_step (s, []) (s', own') →
  (∃ l, heap_inv s' l ∧ NoDup own' ∧ (∀ a, a ∈ l → a ∉ own') ∧ l ++ own' ≡ₚ init_pages) ∧
  ∀ size, 0 < size < 2 ^ 32 → ∃ p s'', mem_alloc size s' = Ok p s''.
Proof.
  intros Hinit Hsteps.
  assert (client_inv (s, [])) as Hinv.
  { destruct (wp_Ok _ _ _ _ _ Hinit (wp_page_allocator_init s0)) as (HI & ? & ? & _).
    split_and!; [done..|]. exists init_pages. simpl. by rewrite app_nil_r. }
  assert (client_inv (s', own')) as (_ & _ & l & HI & Hperm).
  { revert Hinv. induction Hsteps; [done|]. eauto using client_inv_step. }
  split.
  - exists l. assert (NoDup (l ++ own')) as Hd by (simpl in Hperm; rewrite Hperm; apply NoDup_pages).
    apply NoDup_app in Hd as (_ & ? & ?). done.
  - intros size Hsz. destruct (wp_mem_alloc _ _ _ HI Hsz) as (p & s'' & Hrun & _). eauto.
Qed.
End clients.
