(* ===== verification/Paging.v ===== *)
(** * mem.c, second half: Sv39 page tables

    [map_page] builds three-level tables in pages taken from the allocator;
    [relocate_kernel] and [mem_init] fill the boot and the kernel table and load
    [satp]. *)

From S2P Require Import Prelude Globals Machine Utils Heap.

Definition PA2PTE (pa : Z) : Z := (pa >> PGSHIFT) << 10.
Definition PTE2PA (pte : Z) : Z := u64 ((pte >> 10) << PGSHIFT).
Definition PXMASK : Z := 0x1FF.
Definition PXSHIFT (level : Z) : Z := PGSHIFT + 9 * level.
Definition PX (level va : Z) : Z := (va >> PXSHIFT level) & PXMASK.

Definition PTE_V : Z := BIT_MASK 0.
Definition PTE_R : Z := BIT_MASK 1.
Definition PTE_W : Z := BIT_MASK 2.
Definition PTE_X : Z := BIT_MASK 3.

(** From virt_mmio.h: the VirtIO slots. *)
Definition VIRTIO_SIZE : Z := 0x1000.
Definition VIRTIO_SLOTS : Z := 8.
Definition GPIO_BASE_ADDR : Z := 0x10000000.
Definition VIRT_MMIO (x : Z) : Z := GPIO_BASE_ADDR + x.

Section paging.
Context `{Platform}.

(** [&pt[vpn]] *)
Definition pte_addr (pt vpn : Z) : Z := pt + 8 * vpn.

(** One iteration of the loop of [map_page]: the table of the next level,
    allocated when there is none. *)
Definition map_level (level va pt : Z) : M Z :=
  let vpn := PX level va in
  let pte := pte_addr pt vpn in
  e <- load 8 pte;
  if negb ((e & PTE_V) =? 0) then ret (PTE2PA e)
  else
    next_pt <- mem_alloc PAGE_SIZE;
    memset next_pt 0 PAGE_SIZE ;;
    store 8 pte (PA2PTE (virt_to_phys next_pt) .| PTE_V) ;;
    ret next_pt.

(** [for (int level = 2; level > 0; level--)] *)
Definition map_page (root va pa flags : Z) : M unit :=
  pt <- map_level 2 va root;
  pt <- map_level 1 va pt;
  store 8 (pte_addr pt (PX 0 va)) (PA2PTE pa .| flags .| PTE_V).

(** [va2pa] returns what it stores through its last argument. *)
Definition va2pa (root va : Z) : M Z :=
  e2 <- load 8 (pte_addr root (PX 2 va));
  if (e2 & PTE_V) =? 0 then ret 0 else
  e1 <- load 8 (pte_addr (PTE2PA e2) (PX 1 va));
  if (e1 & PTE_V) =? 0 then ret 0 else
  e0 <- load 8 (pte_addr (PTE2PA e1) (PX 0 va));
  if (e0 & PTE_V) =? 0 then ret 0 else
  ret (PTE2PA e0 .| (va & (PAGE_SIZE - 1))).

Definition setup_uart_mapping (root : Z) : M unit :=
  let uart_va := 0x10000000 in
  let uart_pa := 0x10000000 in
  map_page root uart_va uart_pa (PTE_R .| PTE_W .| PTE_V .| PTE_X).

(** [for (uint32_t slot = 1; slot <= VIRTIO_SLOTS; slot++)] *)
Definition setup_virtio_mappings (root : Z) : M unit :=
  for_from 1 (Z.to_nat VIRTIO_SLOTS) (λ slot,
    let addr := VIRT_MMIO (slot * VIRTIO_SIZE) in
    map_page root addr addr (PTE_R .| PTE_W)).

Definition RWX : Z := PTE_R .| PTE_W .| PTE_X.

Definition setup_boot_page_table `{Image} : M unit :=
  store 8 (pte_addr boot_page_table (PX 2 BASE_ADDR))
    (PA2PTE BASE_ADDR .| PTE_V .| PTE_R .| PTE_W .| PTE_X) ;;
  store 8 (pte_addr boot_page_table (PX 2 KERNEL_BASE_VA))
    (PA2PTE BASE_ADDR .| PTE_V .| PTE_R .| PTE_W .| PTE_X).

(** [sfence.vma; csrw satp; sfence.vma]: mode 8 is Sv39. *)
Definition satp_value (root : Z) : Z := (8 << 60) .| (virt_to_phys root >> PGSHIFT).
Definition with_satp (v : Z) (c : csrs) : csrs :=
  Csrs (sstatus c) (sie c) (mip c) (mie c) (stvec c) v (sepc c) (scause c) (stval c).
Definition write_satp (v : Z) : M unit := modify (λ s, set_csr (with_satp v (m_csr s)) s).

Definition relocate_kernel `{Image} : M unit :=
  page_allocator_init ;;
  setup_boot_page_table ;;
  setup_uart_mapping boot_page_table ;;
  setup_virtio_mappings boot_page_table ;;
  write_satp (satp_value boot_page_table).

(** Returns [uint8_t]: -1 is 255. *)
Definition mem_init : M Z :=
  root_page_table <- mem_alloc PAGE_SIZE;
  if root_page_table =? 0 then ret 255
  else
    memset root_page_table 0 PAGE_SIZE ;;
    let pa := BASE_ADDR in
    store 8 (pte_addr root_page_table (PX 2 BASE_ADDR))
      (PA2PTE pa .| PTE_R .| PTE_W .| PTE_X .| PTE_V) ;;
    store 8 (pte_addr root_page_table (PX 2 KERNEL_BASE_VA))
      (PA2PTE pa .| PTE_R .| PTE_W .| PTE_X .| PTE_V) ;;
    setup_uart_mapping root_page_table ;;
    setup_virtio_mappings root_page_table ;;
    write_satp (satp_value root_page_table) ;;
    ret 0.
End paging.

(** ** The architecture: Sv39 address translation

    What the hardware does with a page table, from the RISC-V privileged
    specification, independently of the macros of the code: a valid entry with R
    or X set is a leaf at any level, one without R, W, X points to the next
    table, a leaf above level 0 maps a superpage whose frame has to be aligned to
    it, and an entry with one of its bits 54 to 63 set is reserved.  The accessed
    and dirty bits and the sign extension of addresses are not modelled. *)

Definition VPN (level va : Z) : Z := va / 2 ^ (12 + 9 * level) mod 2 ^ 9.
Definition pte_frame (e : Z) : Z := e / 2 ^ 10 * 2 ^ 12.
Definition pte_valid (e : Z) : bool :=
  Z.testbit e 0 && (Z.testbit e 1 || negb (Z.testbit e 2)) && (e / 2 ^ 54 =? 0).
Definition pte_leaf (e : Z) : bool := Z.testbit e 1 || Z.testbit e 3.

(** The leaf entry and its level. *)
Fixpoint walk (r : gmap Z Z) (level : nat) (pt va : Z) : option (Z * nat) :=
  let e := ram_load 8 (pte_addr pt (VPN level va)) r in
  if negb (pte_valid e) then None
  else if pte_leaf e then Some (e, level)
  else match level with
       | O => None
       | S l => walk r l (pte_frame e) va
       end.

(** The bits of the address below a leaf of the level. *)
Definition page_offset (level : nat) (va : Z) : Z := va mod 2 ^ (12 + 9 * level).

(** Physical address and permission bits (V, R, W, X) of a virtual address. *)
Definition sv39 (r : gmap Z Z) (root va : Z) : option (Z * Z) :=
  match walk r 2 root va with
  | None => None
  | Some (e, level) =>
      if page_offset level (pte_frame e) =? 0
      then Some (pte_frame e + page_offset level va, e mod 2 ^ 4)
      else None
  end.

(** The mode and the root table in [satp]. *)
Definition satp_mode (v : Z) : Z := v / 2 ^ 60.
Definition satp_table (v : Z) : Z := v mod 2 ^ 44 * 2 ^ 12.
