(* ===== verification/PagingSpec.v ===== *)
(** * Page tables translate what they were asked to map

    A page table in memory is described by the map from the index path of a
    table (empty for the root) to its address; [pt_inv] says that the entries
    in memory form exactly this tree.  The theorems relate [map_page] and
    [va2pa] to the hardware's translation [sv39] of the same memory. *)

From S2P Require Import Prelude Globals Machine Utils Heap HeapSpec Paging.

(** ** Entries *)

Section entries.
Implicit Types (pa f va e : Z).

Lemma PA2PTE_lor pa f : 0 <= f < 2 ^ 10 → PA2PTE pa .| f = f + pa / PAGE_SIZE * 2 ^ 10.
Proof.
  intros Hf. unfold PA2PTE. rewrite Z.lor_comm, lor_low_high by (unfold PGSHIFT; lia).
  by rewrite shiftr_div by (unfold PGSHIFT; lia).
Qed.

Lemma testbit_PA2PTE pa f i :
  0 <= f < 2 ^ 10 → 0 <= i < 10 → Z.testbit (PA2PTE pa .| f) i = Z.testbit f i.
Proof.
  intros Hf Hi. unfold PA2PTE. rewrite Z.lor_spec, Z.shiftl_spec, (Z.testbit_neg_r _ (i - 10)) by lia.
  done.
Qed.

(** The frame of an entry is the address it was built from. *)
Lemma pte_frame_PA2PTE pa f : 0 <= f < 2 ^ 10 → aligned pa → pte_frame (PA2PTE pa .| f) = pa.
Proof.
  intros Hf Ha. rewrite PA2PTE_lor by done. unfold pte_frame, aligned in *.
  rewrite PAGE_SIZE_eq in *. dlia.
Qed.

Lemma PA2PTE_range pa f : 0 <= f < 2 ^ 10 → 0 <= pa < 2 ^ 56 → 0 <= PA2PTE pa .| f < 2 ^ 54.
Proof. intros Hf Hpa. rewrite PA2PTE_lor by done. rewrite PAGE_SIZE_eq. dlia. Qed.

(** An entry built by the code is valid and a leaf when its flags are. *)
Lemma pte_valid_PA2PTE pa f :
  0 <= f < 2 ^ 10 → 0 <= pa < 2 ^ 56 → pte_valid (PA2PTE pa .| f) = pte_valid f.
Proof.
  intros Hf Hpa. unfold pte_valid. rewrite !testbit_PA2PTE by (done || lia).
  pose proof (PA2PTE_range pa f Hf Hpa). rewrite !(Z.div_small _ (2 ^ 54)) by lia. done.
Qed.

Lemma pte_leaf_PA2PTE pa f : 0 <= f < 2 ^ 10 → pte_leaf (PA2PTE pa .| f) = pte_leaf f.
Proof. intros Hf. unfold pte_leaf. by rewrite !testbit_PA2PTE by (done || lia). Qed.

(** The code's macros compute what the architecture defines. *)
Lemma PTE2PA_frame e : 0 <= e → pte_valid e = true → PTE2PA e = pte_frame e.
Proof.
  unfold pte_valid. rewrite !andb_true_iff, Z.eqb_eq. intros ? [_ He].
  unfold PTE2PA, pte_frame, PGSHIFT. rewrite shiftr_div, shiftl_mul, u64_small by dlia. done.
Qed.

Lemma PX_VPN (l : nat) va : PX l va = VPN l va.
Proof.
  unfold PX, VPN, PXSHIFT, PGSHIFT. change PXMASK with (2 ^ 9 - 1).
  rewrite land_mask, shiftr_div by lia. done.
Qed.

Lemma VPN_range l va : 0 <= VPN l va < 512.
Proof. apply Z.mod_pos_bound. lia. Qed.

Lemma land_PTE_V e : ((e & PTE_V) =? 0) = negb (Z.testbit e 0).
Proof.
  change PTE_V with (2 ^ 1 - 1). rewrite land_mask by lia. change (2 ^ 1) with 2. rewrite <- Z.bit0_mod.
  by destruct (Z.testbit e 0).
Qed.
End entries.

(** A pointer to a next table. *)
Definition pte_pointer (e : Z) : bool := pte_valid e && negb (pte_leaf e).

(** ** Tables in memory *)

Abbreviation path := (list Z).

Record pt_inv (r : gmap Z Z) (root : Z) (t : gmap path Z) : Prop := {
  pt_root : t !! [] = Some root;
  pt_page : ∀ p a, t !! p = Some a → aligned a ∧ in_ram a 4096 = true;
  pt_inj : ∀ p q a, t !! p = Some a → t !! q = Some a → p = q;
  pt_closed : ∀ p i a, t !! (p ++ [i]) = Some a → is_Some (t !! p);
  pt_entry : ∀ p a i, t !! p = Some a → (length p < 2)%nat → 0 <= i < 512 →
    let e := ram_load 8 (pte_addr a i) r in
    Z.testbit e 0 = pte_valid e ∧
    t !! (p ++ [i]) = if pte_pointer e then Some (pte_frame e) else None;
}.

(** The path of the table that holds the entry of a level for [va]. *)
Definition vpath (level : nat) (va : Z) : path :=
  match level with
  | O => [VPN 2 va; VPN 1 va]
  | S O => [VPN 2 va]
  | _ => []
  end.

Lemma vpath_S level va : (level < 2)%nat → vpath level va = vpath (S level) va ++ [VPN (S level) va].
Proof. intros Hl. destruct level as [|[|]]; [done|done|lia]. Qed.

Lemma vpath_length level va : (level <= 2)%nat → length (vpath level va) = (2 - level)%nat.
Proof. intros Hl. destruct level as [|[|[|]]]; [done|done|done|lia]. Qed.

(** Entries of different slots of page-aligned tables do not overlap. *)
Lemma slots_apart a b i j :
  aligned a → aligned b → 0 <= i < 512 → 0 <= j < 512 → (a, i) ≠ (b, j) →
  pte_addr a i + 8 <= pte_addr b j ∨ pte_addr b j + 8 <= pte_addr a i.
Proof.
  intros Ha Hb Hi Hj Hne. unfold pte_addr. destruct (decide (a = b)) as [->|Hab].
  - assert (i ≠ j) by congruence. lia.
  - destruct (aligned_apart a b Ha Hb Hab); rewrite PAGE_SIZE_eq in *; lia.
Qed.

Lemma walk_invalid r (level : nat) pt va :
  pte_valid (ram_load 8 (pte_addr pt (VPN level va)) r) = false → walk r level pt va = None.
Proof. intros E. destruct level; cbn [walk]; by rewrite E. Qed.

Lemma walk_leaf_entry r (level : nat) pt va e :
  ram_load 8 (pte_addr pt (VPN level va)) r = e → pte_valid e = true → pte_leaf e = true →
  walk r level pt va = Some (e, level).
Proof. intros E Hv Hl. destruct level; cbn [walk]; by rewrite E, Hv, Hl. Qed.

Section walks.
Context (r : gmap Z Z) (root : Z) (t : gmap path Z) (HI : pt_inv r root t).
Implicit Types (level : nat) (va : Z).

(** Down to a table on the path of [va], the walk follows the tree. *)
Lemma walk_down level va pt :
  (level <= 2)%nat → t !! vpath level va = Some pt → walk r 2 root va = walk r level pt va.
Proof.
  intros Hl. remember (2 - level)%nat as k eqn:Hk. revert level pt Hl Hk.
  induction k as [|k IH]; intros level pt Hl Hk Hpt.
  - assert (level = 2)%nat as -> by lia. simpl in Hpt. by rewrite (pt_root _ _ _ HI) in Hpt; simplify_eq.
  - assert (level < 2)%nat as Hlt by lia. rewrite vpath_S in Hpt by done.
    destruct (pt_closed _ _ _ HI _ _ _ Hpt) as [a Ha].
    rewrite (IH (S level) a) by (done || lia).
    destruct (pt_entry _ _ _ HI _ _ (VPN (S level) va) Ha) as [_ He];
      [rewrite vpath_length; lia|apply VPN_range|].
    rewrite Hpt in He. cbn [walk]. unfold pte_pointer in He.
    replace (Z.of_nat (S level)) with (S level : Z) in * by done.
    destruct (pte_valid _), (pte_leaf _); simpl in *; congruence.
Qed.

(** A walk depends only on the entries of its tables. *)
Lemma walk_ext r' va :
  (∀ level a, (level <= 2)%nat → t !! vpath level va = Some a →
     ram_load 8 (pte_addr a (VPN level va)) r' = ram_load 8 (pte_addr a (VPN level va)) r) →
  walk r' 2 root va = walk r 2 root va.
Proof.
  intros He.
  assert (∀ level pt, (level <= 2)%nat → t !! vpath level va = Some pt →
    walk r' level pt va = walk r level pt va) as Hw.
  { intros level. induction level as [|level IH]; intros pt Hl Hpt; cbn [walk];
      rewrite (He _ pt Hl Hpt); [done|].
    set (e := ram_load 8 _ r). destruct (pte_valid e) eqn:Ev; [|done].
    destruct (pte_leaf e) eqn:El; [done|]. simpl. apply IH; [lia|].
    rewrite vpath_S by lia.
    destruct (pt_entry _ _ _ HI _ _ (VPN (S level) va) Hpt) as [_ Hn];
      [rewrite vpath_length; lia|apply VPN_range|].
    rewrite Hn. fold e. unfold pte_pointer. by rewrite Ev, El. }
  apply Hw; [lia|]. apply HI.
Qed.

(** Different entries of the tree are different words of memory. *)
Lemma tree_slots p q a b i j :
  t !! p = Some a → t !! q = Some b → 0 <= i < 512 → 0 <= j < 512 → (p, i) ≠ (q, j) →
  pte_addr a i + 8 <= pte_addr b j ∨ pte_addr b j + 8 <= pte_addr a i.
Proof.
  intros Hp Hq Hi Hj Hne. apply slots_apart; [by eapply pt_page|by eapply pt_page|done|done|].
  intros E. simplify_eq. apply Hne. f_equal. by eapply pt_inj.
Qed.
End walks.

(** ** Installing a table *)

Section install.
Context (r : gmap Z Z) (root : Z) (t : gmap path Z) (HI : pt_inv r root t).
Context (l : nat) (va pt b : Z).
Context (Hl : (l < 2)%nat) (Hpt : t !! vpath (S l) va = Some pt).
Context (Hinv : Z.testbit (ram_load 8 (pte_addr pt (VPN (S l) va)) r) 0 = false).
Context (Hb : aligned b) (Hbr : in_ram b 4096 = true) (Hfresh : ∀ p, t !! p ≠ Some b).

Definition zero_page (b : Z) (r : gmap Z Z) : gmap Z Z := ram_write b (replicate (Z.to_nat PAGE_SIZE) 0) r.
Definition installed : gmap Z Z :=
  ram_store 8 (pte_addr pt (VPN (S l) va)) (PA2PTE b .| PTE_V) (zero_page b r).
Definition installed_tree : gmap path Z := <[vpath l va := b]> t.

Lemma pointer_range : 0 <= b < 2 ^ 56 ∧ 0 <= PA2PTE b .| PTE_V < 2 ^ 54.
Proof.
  assert (0 <= b < 2 ^ 56) by (apply in_ram_spec in Hbr as [? ?]; unfold RAM_BASE, RAM_END in *; lia).
  split; [done|by apply PA2PTE_range].
Qed.

Lemma pointer_pte : pte_valid (PA2PTE b .| PTE_V) = true ∧ pte_leaf (PA2PTE b .| PTE_V) = false ∧
  pte_frame (PA2PTE b .| PTE_V) = b.
Proof.
  rewrite pte_valid_PA2PTE, pte_leaf_PA2PTE, pte_frame_PA2PTE by (done || apply pointer_range).
  done.
Qed.

Lemma load_zero_page a i :
  aligned a → 0 <= i < 512 → a ≠ b →
  ram_load 8 (pte_addr a i) (zero_page b r) = ram_load 8 (pte_addr a i) r.
Proof.
  intros Ha Hi Hne. apply ram_load_ext. intros x Hx. unfold zero_page.
  rewrite byte_at_write_out; [done|]. rewrite length_replicate. unfold pte_addr in *.
  destruct (aligned_apart a b Ha Hb Hne); rewrite PAGE_SIZE_eq in *; lia.
Qed.

Lemma load_installed_old p a i :
  t !! p = Some a → 0 <= i < 512 → (p, i) ≠ (vpath (S l) va, VPN (S l) va) →
  ram_load 8 (pte_addr a i) installed = ram_load 8 (pte_addr a i) r.
Proof.
  intros Hp Hi Hne. unfold installed. rewrite ram_load_store_ne.
  - apply load_zero_page; [by eapply pt_page|done|]. intros ->. by eapply Hfresh.
  - eapply (tree_slots _ _ _ HI (vpath (S l) va) p); [done|done|apply VPN_range|done|].
    intros E. apply Hne. by rewrite E.
Qed.

Lemma load_installed_slot :
  ram_load 8 (pte_addr pt (VPN (S l) va)) installed = PA2PTE b .| PTE_V.
Proof. unfold installed. rewrite ram_load_store_eq. apply Z.mod_small. pose proof pointer_range. lia. Qed.

Lemma load_installed_new i : 0 <= i < 512 → ram_load 8 (pte_addr b i) installed = 0.
Proof.
  intros Hi. unfold installed. rewrite ram_load_store_ne.
  - apply ram_load_zero. intros x Hx. unfold pte_addr in Hx.
    replace x with (b + Z.to_nat (x - b)) by lia.
    unfold zero_page. rewrite (byte_at_write_in _ _ _ _ 0); [done|].
    apply lookup_replicate_2. rewrite PAGE_SIZE_eq. lia.
  - apply slots_apart; [by eapply pt_page|done|apply VPN_range|done|].
    intros E. simplify_eq. by eapply Hfresh.
Qed.

Lemma not_yet : t !! vpath l va = None.
Proof.
  destruct (pt_entry _ _ _ HI _ _ (VPN (S l) va) Hpt) as [Hv He];
    [rewrite vpath_length; lia|apply VPN_range|].
  rewrite vpath_S, He by done. unfold pte_pointer. by rewrite <- Hv, Hinv.
Qed.

Lemma vpath_ne p : is_Some (t !! p) → vpath l va ≠ p.
Proof. intros [a Ha] <-. by rewrite not_yet in Ha. Qed.

Lemma installed_entry p a i :
  installed_tree !! p = Some a → (length p < 2)%nat → 0 <= i < 512 →
  let e := ram_load 8 (pte_addr a i) installed in
  Z.testbit e 0 = pte_valid e ∧
  installed_tree !! (p ++ [i]) = if pte_pointer e then Some (pte_frame e) else None.
Proof.
  intros Hp Hlen Hi. cbv zeta. unfold installed_tree in *.
  destruct (decide (vpath l va = p)) as [<-|Hne].
  - rewrite lookup_insert_eq in Hp. simplify_eq. rewrite load_installed_new by done.
    split; [done|]. rewrite lookup_insert_ne.
    + apply eq_None_not_Some. intros [c Hc]. apply (pt_closed _ _ _ HI) in Hc as [? Hc].
      by rewrite not_yet in Hc.
    + intros E. apply (f_equal length) in E. rewrite length_app in E. simpl in E. lia.
  - rewrite lookup_insert_ne in Hp by done.
    destruct (decide ((p, i) = (vpath (S l) va, VPN (S l) va))) as [E|Hslot].
    + simplify_eq. rewrite load_installed_slot, <- vpath_S by done.
      destruct pointer_pte as (Hv & Hf & ->). rewrite lookup_insert_eq. unfold pte_pointer.
      rewrite Hv, Hf. split; [|done]. by rewrite testbit_PA2PTE by (done || lia).
    + rewrite load_installed_old with (p := p) by done.
      rewrite lookup_insert_ne; [by apply HI|].
      rewrite vpath_S by done. intros E. apply app_inj_tail in E as [E1 E2]. congruence.
Qed.

Lemma pt_installed : pt_inv installed root installed_tree.
Proof.
  split.
  - unfold installed_tree. rewrite lookup_insert_ne; [apply HI|].
    apply vpath_ne. exists root. apply HI.
  - intros p a. unfold installed_tree. rewrite lookup_insert. case_decide; intros; simplify_eq; [done|].
    by eapply HI.
  - intros p q a. unfold installed_tree. rewrite !lookup_insert.
    repeat case_decide; intros; simplify_eq; try done; try (by exfalso; eapply Hfresh).
    by eapply HI.
  - intros p i a. unfold installed_tree. rewrite lookup_insert. case_decide as E; intros ?.
    + rewrite vpath_S in E by done. apply app_inj_tail in E as [<- _].
      rewrite lookup_insert_ne; [eauto|]. apply vpath_ne. eauto.
    + destruct (pt_closed _ _ _ HI _ _ _ ltac:(done)) as [c Hc]. exists c.
      rewrite lookup_insert_ne; [done|]. apply vpath_ne. eauto.
  - apply installed_entry.
Qed.

(** A new, empty table maps nothing and changes no translation. *)
Lemma walk_installed va' : walk installed 2 root va' = walk r 2 root va'.
Proof.
  destruct (decide ((vpath (S l) va', VPN (S l) va') = (vpath (S l) va, VPN (S l) va))) as [E|Hne].
  - apply pair_equal_spec in E as [E1 E2].
    assert (installed_tree !! vpath l va' = Some b) as Hb'.
    { rewrite vpath_S, E1, E2, <- vpath_S by done. apply lookup_insert_eq. }
    rewrite (walk_down _ _ _ pt_installed l va' b) by (done || lia).
    rewrite (walk_down _ _ _ HI (S l) va' pt) by (rewrite ?E1; done || lia).
    rewrite !walk_invalid; [done| |].
    + rewrite E2. destruct (pt_entry _ _ _ HI _ _ (VPN (S l) va) Hpt) as [Hv _];
        [rewrite vpath_length; lia|apply VPN_range|]. by rewrite <- Hv.
    + by rewrite load_installed_new by apply VPN_range.
  - apply (walk_ext _ _ _ HI). intros level a Hlv Ha. eapply load_installed_old; [done|apply VPN_range|].
    intros [E1 E2]%pair_equal_spec. apply Hne.
    assert (level = S l) as ->; [|by rewrite E1, E2].
    apply (f_equal length) in E1. rewrite !vpath_length in E1 by lia. lia.
Qed.
End install.

(** ** Writing a leaf *)

(** The part of an address above the offset of a page of the level. *)
Definition vpn (l : nat) (va : Z) : Z := va / 2 ^ (12 + 9 * l) mod 2 ^ (27 - 9 * l).

(** Addresses of the same page are those that use the same entry. *)
Lemma vpn_slot (l : nat) va va' :
  (l <= 2)%nat →
  vpn l va' = vpn l va ↔ (vpath l va', VPN l va') = (vpath l va, VPN l va).
Proof.
  intros Hl. rewrite pair_equal_spec. unfold vpn, vpath, VPN.
  destruct l as [|[|[|]]]; [..|lia]; pow2.
  - split; [intros E; split; [f_equal; [|f_equal]|]; dlia|intros [[= E1 E2] E3]; dlia].
  - split; [intros E; split; [f_equal|]; dlia|intros [[= E1] E2]; dlia].
  - split; [done|by intros [_ ?]].
Qed.

Section leaf.
Context (r : gmap Z Z) (root : Z) (t : gmap path Z) (HI : pt_inv r root t).
Context (l : nat) (va pt e : Z) (Hl : (l <= 2)%nat) (Hpt : t !! vpath l va = Some pt).
Context (He : 0 <= e < 2 ^ 64) (Hv : pte_valid e = true) (Hleaf : pte_leaf e = true).
Context (Hnone : (0 < l)%nat → t !! (vpath l va ++ [VPN l va]) = None).

Definition leaf_written : gmap Z Z := ram_store 8 (pte_addr pt (VPN l va)) e r.

Lemma load_leaf : ram_load 8 (pte_addr pt (VPN l va)) leaf_written = e.
Proof. unfold leaf_written. rewrite ram_load_store_eq. by apply Z.mod_small. Qed.

Lemma load_leaf_other p a i :
  t !! p = Some a → 0 <= i < 512 → (p, i) ≠ (vpath l va, VPN l va) →
  ram_load 8 (pte_addr a i) leaf_written = ram_load 8 (pte_addr a i) r.
Proof.
  intros Hp Hi Hne. apply ram_load_store_ne.
  eapply (tree_slots _ _ _ HI (vpath l va) p); [done|done|apply VPN_range|done|].
  intros E. apply Hne. by rewrite E.
Qed.

Lemma pt_leaf_written : pt_inv leaf_written root t.
Proof.
  destruct HI as [H1 H2 H3 H4 H5]. split; [done..|]. intros p a i Hp Hlen Hi.
  destruct (decide ((p, i) = (vpath l va, VPN l va))) as [E|E].
  - simplify_eq. rewrite load_leaf. rewrite vpath_length in Hlen by done.
    rewrite Hnone by lia. unfold pte_pointer. rewrite Hleaf, andb_false_r. split; [|done].
    rewrite Hv. unfold pte_valid in Hv. by apply andb_true_iff in Hv as [[? _]%andb_true_iff _].
  - rewrite (load_leaf_other p); [by apply H5|done..].
Qed.

Lemma walk_leaf_at va' : vpn l va' = vpn l va → walk leaf_written 2 root va' = Some (e, l).
Proof.
  intros [E1 E2]%vpn_slot%pair_equal_spec; [|done].
  rewrite (walk_down _ _ _ pt_leaf_written l va' pt) by (rewrite ?E1; done).
  apply walk_leaf_entry; [|done|done]. rewrite E2. apply load_leaf.
Qed.

(** Only the page of [va] is remapped. *)
Lemma walk_leaf_other va' :
  vpn l va' ≠ vpn l va → walk leaf_written 2 root va' = walk r 2 root va'.
Proof.
  intros Hne. apply (walk_ext _ _ _ HI). intros level a Hlv Ha.
  eapply load_leaf_other; [done|apply VPN_range|]. intros E. apply Hne, vpn_slot; [done|].
  assert (level = l) as ->; [|done].
  apply pair_equal_spec in E as [E _]. apply (f_equal length) in E.
  rewrite !vpath_length in E by lia. lia.
Qed.
End leaf.

(** ** [map_page] *)

Section map.
Context `{Platform}.
Implicit Types (s : machine) (L : list Z) (t : gmap path Z) (va : Z).

(** The allocator owns the free pages [L], the page table the tables [t]. *)
Record pg_inv s L (root : Z) t : Prop := {
  pg_heap : heap_inv s L;
  pg_pt : pt_inv (m_ram s) root t;
  pg_sep : ∀ p a, t !! p = Some a → a ∉ L;
}.

(** No superpage covers [va]. *)
Definition no_superpage (r : gmap Z Z) (root va : Z) : Prop :=
  ∀ e lv, walk r 2 root va = Some (e, lv) → lv = 0%nat.

(** Addresses outside the tables [t]. *)
Definition off_tables t (x : Z) : Prop := ∀ p a, t !! p = Some a → ¬ (a <= x < a + PAGE_SIZE).

(** From [s] to [s'] tables were added at the paths [ps], in pages taken from
    the front of the free list; the root now translates by [T], and nothing
    outside the tables was written. *)
Record grown s L (root : Z) t (ps : list path) (T : Z → option (Z * nat)) s' L' t' : Prop := {
  gr_inv : pg_inv s' L' root t';
  gr_free : ∃ k, L = k ++ L' ∧ ∀ p a, t' !! p = Some a → t !! p = Some a ∨ a ∈ k;
  gr_walk : ∀ va', walk (m_ram s') 2 root va' = T va';
  gr_state : ∃ h r, s' = set_ram r (set_heap h s);
  gr_sub : t ⊆ t';
  gr_dom : ∀ p, is_Some (t' !! p) ↔ is_Some (t !! p) ∨ p ∈ ps;
  gr_frame : same_on (off_tables t') (m_ram s) (m_ram s');
}.

Lemma off_tables_sub t t' x : t ⊆ t' → off_tables t' x → off_tables t x.
Proof. intros Hsub Hx p a Hp. eapply Hx. by eapply lookup_weaken. Qed.

Lemma grown_trans s L root t ps T s1 L1 t1 ps' T' s2 L2 t2 :
  grown s L root t ps T s1 L1 t1 → grown s1 L1 root t1 ps' T' s2 L2 t2 →
  grown s L root t (ps ++ ps') T' s2 L2 t2.
Proof.
  intros [_ (k1 & -> & Hk1) _ (h1 & r1 & ->) Hsub1 Hd1 Hf1]
         [HI (k2 & -> & Hk2) HT (h2 & r2 & ->) Hsub2 Hd2 Hf2].
  split; [done| |done| |by etrans| |].
  - exists (k1 ++ k2). rewrite <- app_assoc. split; [done|]. intros p a Hp.
    destruct (Hk2 p a Hp) as [Hp1|]; [destruct (Hk1 p a Hp1)|]; set_solver.
  - exists h2, r2. by destruct s.
  - intros p. rewrite Hd2, Hd1. set_solver.
  - etrans; [|done]. eapply same_on_weaken; [done|]. intros x. by apply off_tables_sub.
Qed.

(** Pages of the free list are good for tables. *)
Lemma heap_page_table s L b : heap_inv s (b :: L) →
  aligned b ∧ in_ram b 4096 = true ∧ virt_to_phys b = b ∧ b ∉ L.
Proof.
  intros [HB _ Hd Hp _]. apply NoDup_cons in Hd as [Hn _]. apply Forall_cons in Hp as [Hp _].
  split_and!; [apply Hp| | |done].
  - eapply heap_page_in_ram; [done|done|]. rewrite PAGE_SIZE_eq. lia.
  - destruct Hp as (_ & _ & ?), HB as (_ & ? & _). unfold virt_to_phys, KERNEL_BASE_VA, BASE_ADDR, VIRT_OFFSET.
    rewrite PAGE_SIZE_eq in *. unfold RAM_END in *. rewrite (proj2 (Z.leb_gt _ _)) by lia. done.
Qed.

Lemma slot_in_ram r root t p a i :
  pt_inv r root t → t !! p = Some a → 0 <= i < 512 → in_ram (pte_addr a i) 8 = true.
Proof.
  intros HI Hp Hi. destruct (pt_page _ _ _ HI _ _ Hp) as [_ Hr].
  eapply in_ram_sub; [exact Hr|..]; unfold pte_addr; lia.
Qed.

#[local] Opaque ram_write ram_store replicate.

(** How many tables are missing at a path. *)
Definition need t (p : path) : nat := match t !! p with Some _ => 0 | None => 1 end.

(** An entry above level 0 is empty, or points to the table of the tree. *)
Lemma level_entry r root t va (l : nat) pt :
  pt_inv r root t → no_superpage r root va → (l < 2)%nat →
  t !! vpath (S l) va = Some pt →
  let e := ram_load 8 (pte_addr pt (VPN (S l) va)) r in
  if Z.testbit e 0 then t !! vpath l va = Some (PTE2PA e) else t !! vpath l va = None.
Proof.
  intros HI Hns Hl Hpt e. subst e. rewrite vpath_S by done.
  destruct (pt_entry _ _ _ HI _ _ (VPN (S l) va) Hpt) as [Hv He];
    [rewrite vpath_length; lia|apply VPN_range|].
  set (e := ram_load 8 _ _) in *. rewrite Hv. destruct (pte_valid e) eqn:Ev.
  - destruct (pte_leaf e) eqn:El.
    + exfalso. assert (walk r 2 root va = Some (e, S l)) as Hw.
      { rewrite (walk_down _ _ _ HI (S l) va pt) by (done || lia). by apply walk_leaf_entry. }
      apply Hns in Hw. lia.
    + rewrite He. unfold pte_pointer. rewrite Ev, El. simpl.
      rewrite PTE2PA_frame; [done| |done]. apply (ram_load_range 8).
  - rewrite He. unfold pte_pointer. by rewrite Ev.
Qed.

(** A fresh table: the state of [map_level] after it took a page. *)
Lemma grown_installed s L root t va (l : nat) pt b fl :
  pg_inv s (b :: L) root t → (l < 2)%nat → t !! vpath (S l) va = Some pt →
  Z.testbit (ram_load 8 (pte_addr pt (VPN (S l) va)) (m_ram s)) 0 = false →
  let s1 := set_heap (with_count (length L) (with_free_list fl (m_heap s))) s in
  heap_inv s1 L →
  grown s (b :: L) root t [vpath l va] (walk (m_ram s) 2 root)
    (set_ram (installed (m_ram s) l va pt b) s1) L (installed_tree t l va b).
Proof.
  intros [Hh HI Hsep] Hl Hpt Hbit s1 Hh1.
  destruct (heap_page_table _ _ _ Hh) as (Hb & Hbr & _ & HbL).
  assert (∀ p, t !! p ≠ Some b) as Hfresh by (intros p Hp; apply Hsep in Hp; set_solver).
  assert (same_on (λ x, ∀ a, a ∈ [pt; b] → ¬ (a <= x < a + PAGE_SIZE)) (m_ram s)
    (installed (m_ram s) l va pt b)) as Hsame.
  { intros x Hx. pose proof (Hx pt ltac:(set_solver)). pose proof (Hx b ltac:(set_solver)).
    pose proof (VPN_range (S l) va). unfold installed, zero_page, pte_addr.
    rewrite byte_at_store_out, byte_at_write_out; rewrite ?length_replicate, ?PAGE_SIZE_eq in *; [done|lia|lia]. }
  assert (not_yet : t !! vpath l va = None) by (eapply (not_yet (m_ram s)); done).
  split.
  - split; [| |].
    + eapply heap_inv_write; [exact Hh1| | |exact Hsame].
      * intros a Ha Hin. apply elem_of_cons in Hin as [->|Hin]; [apply Hsep in Hpt|]; set_solver.
      * repeat constructor; [|done]. by eapply pt_page.
    + by apply pt_installed.
    + intros p a. unfold installed_tree. rewrite lookup_insert. case_decide; intros; simplify_eq; [done|].
      assert (a ∉ b :: L) by (by eapply Hsep). set_solver.
  - exists [b]. split; [done|]. intros p a. unfold installed_tree. rewrite lookup_insert.
    case_decide; intros; simplify_eq; set_solver.
  - intros va'. by apply (walk_installed _ _ t).
  - eexists _, _. done.
  - by apply insert_subseteq.
  - intros p. unfold installed_tree. rewrite lookup_insert_is_Some', list_elem_of_singleton. naive_solver.
  - eapply same_on_weaken; [exact Hsame|]. intros x Hx a Ha.
    apply elem_of_cons in Ha as [->|Ha%list_elem_of_singleton]; [eapply (Hx (vpath (S l) va))|subst a; eapply (Hx (vpath l va))].
    + unfold installed_tree. rewrite lookup_insert_ne; [done|].
      eapply (vpath_ne (m_ram s)); [done..|]. eauto.
    + apply lookup_insert_eq.
Qed.

Lemma grown_refl s L root t ps :
  pg_inv s L root t → (∀ p, p ∈ ps → is_Some (t !! p)) →
  grown s L root t ps (walk (m_ram s) 2 root) s L t.
Proof.
  intros HI Hps. split; [done| |done| |done| |done].
  - exists []. split; [done|]. by left.
  - exists (m_heap s), (m_ram s). by destruct s.
  - intros p. naive_solver.
Qed.

Lemma wp_map_level s L root t va (l : nat) pt (Q : Z → machine → Prop) :
  pg_inv s L root t → no_superpage (m_ram s) root va → (l < 2)%nat →
  t !! vpath (S l) va = Some pt → (need t (vpath l va) <= length L)%nat →
  (∀ b s' L' t', grown s L root t [vpath l va] (walk (m_ram s) 2 root) s' L' t' →
     t' !! vpath l va = Some b → length L = (need t (vpath l va) + length L')%nat → Q b s') →
  wp (map_level (S l) va pt) s Q.
Proof.
  intros Hpg Hns Hl Hpt HL HQ. pose proof (pg_pt _ _ _ _ Hpg) as HI.
  pose proof (level_entry _ _ _ _ _ _ HI Hns Hl Hpt) as He. cbv zeta in He.
  assert (in_ram (pte_addr pt (VPN (S l) va)) 8 = true) as Hslot
    by (eapply slot_in_ram; [done..|apply VPN_range]).
  unfold map_level. rewrite PX_VPN. apply wp_bind, wp_load; [done|].
  rewrite land_PTE_V, negb_involutive. destruct (Z.testbit _ 0) eqn:Hbit.
  - apply wp_ret. unfold need in *. rewrite He in HQ. eapply HQ; [|done|done].
    apply grown_refl; [done|]. intros p ->%list_elem_of_singleton. eauto.
  - unfold need in *. rewrite He in HL, HQ. destruct L as [|b L]; [simpl in HL; lia|].
    destruct (heap_page_table _ _ _ (pg_heap _ _ _ _ Hpg)) as (Hb & Hbr & Hvp & HbL).
    apply wp_bind. eapply wp_mem_alloc_1; [apply Hpg|rewrite PAGE_SIZE_eq; lia|done|].
    intros fl s1 Hh1. apply wp_bind, wp_memset.
    { eapply in_ram_sub; [exact Hbr|lia|rewrite PAGE_SIZE_eq; lia]. }
    apply wp_bind. rewrite Hvp.
    apply wp_store; [done|]. apply wp_ret.
    pose proof (grown_installed _ _ _ _ _ _ _ _ _ Hpg Hl Hpt Hbit Hh1) as Hg.
    unfold installed, zero_page in Hg. unfold s1. rewrite set_ram_ram, ram_set_ram, ram_set_heap.
    eapply HQ; [exact Hg|apply lookup_insert_eq|simpl; lia].
Qed.

(** The translations after a leaf [e] of level [l] was written for [va]. *)
Definition remap (T : Z → option (Z * nat)) (l : nat) (va e : Z) (va' : Z) : option (Z * nat) :=
  if decide (vpn l va' = vpn l va) then Some (e, l) else T va'.

(** Writing a leaf into a table of the tree. *)
Lemma grown_leaf s L root t va (l : nat) pt e :
  pg_inv s L root t → (l <= 2)%nat → t !! vpath l va = Some pt →
  0 <= e < 2 ^ 64 → pte_valid e = true → pte_leaf e = true →
  ((0 < l)%nat → t !! (vpath l va ++ [VPN l va]) = None) →
  grown s L root t [] (remap (walk (m_ram s) 2 root) l va e)
    (set_ram (leaf_written (m_ram s) l va pt e) s) L t.
Proof.
  intros [Hh HI Hsep] Hl Hpt He Hv Hleaf Hnone. pose proof (VPN_range l va) as Hr.
  assert (same_on (λ x, ∀ a, a ∈ [pt] → ¬ (a <= x < a + PAGE_SIZE)) (m_ram s)
    (leaf_written (m_ram s) l va pt e)) as Hsame.
  { apply same_on_store. intros x Hx. pose proof (Hx pt ltac:(set_solver)).
    unfold pte_addr. rewrite PAGE_SIZE_eq in *. lia. }
  split.
  - split; [|by apply pt_leaf_written|done].
    eapply heap_inv_write; [done| | |exact Hsame].
    + intros a Ha ->%list_elem_of_singleton. by eapply Hsep.
    + repeat constructor. by eapply pt_page.
  - exists []. split; [done|]. by left.
  - intros va'. unfold remap. case_decide.
    + by eapply (walk_leaf_at _ _ t).
    + by apply (walk_leaf_other _ _ t).
  - exists (m_heap s), (leaf_written (m_ram s) l va pt e). by destruct s.
  - done.
  - intros p. set_solver.
  - eapply same_on_weaken; [exact Hsame|]. intros x Hx a ->%list_elem_of_singleton. by eapply Hx.
Qed.

(** What the flags of [map_page] have to be for the entry to be a leaf. *)
Definition leaf_flags (flags : Z) : Prop :=
  0 <= flags < 2 ^ 4 ∧ pte_valid (flags .| PTE_V) = true ∧ pte_leaf (flags .| PTE_V) = true.

Lemma flags_range flags : 0 <= flags < 2 ^ 4 → 0 <= flags .| PTE_V < 2 ^ 4.
Proof. intros Hf. by apply lor_range. Qed.

(** The entry [map_page] writes. *)
Lemma leaf_entry pa flags :
  aligned pa → 0 <= pa < 2 ^ 56 → leaf_flags flags →
  let e := PA2PTE pa .| flags .| PTE_V in
  0 <= e < 2 ^ 64 ∧ pte_valid e = true ∧ pte_leaf e = true ∧ pte_frame e = pa ∧
  e mod 2 ^ 4 = flags .| PTE_V.
Proof.
  intros Ha Hpa (Hf & Hv & Hl) e. subst e. pose proof (flags_range _ Hf) as Hf'.
  rewrite <- Z.lor_assoc. pose proof (PA2PTE_range pa (flags .| PTE_V)).
  rewrite pte_valid_PA2PTE, pte_leaf_PA2PTE, pte_frame_PA2PTE by (done || lia).
  split_and!; [lia..|done|done|done|]. rewrite PA2PTE_lor by lia. rewrite PAGE_SIZE_eq. dlia.
Qed.

Lemma wp_map_page s L root t va pa flags (Q : unit → machine → Prop) :
  pg_inv s L root t → no_superpage (m_ram s) root va →
  aligned pa → 0 <= pa < 2 ^ 56 → leaf_flags flags →
  (need t (vpath 1 va) + need t (vpath 0 va) <= length L)%nat →
  (∀ s' L' t',
     grown s L root t [vpath 1 va; vpath 0 va]
       (remap (walk (m_ram s) 2 root) 0 va (PA2PTE pa .| flags .| PTE_V)) s' L' t' →
     length L = (need t (vpath 1 va) + need t (vpath 0 va) + length L')%nat → Q tt s') →
  wp (map_page root va pa flags) s Q.
Proof.
  intros Hpg Hns Ha Hpa Hfl HL HQ. destruct (leaf_entry pa flags Ha Hpa Hfl) as (He & Hv & Hl & _).
  unfold map_page. apply wp_bind.
  eapply (wp_map_level _ _ _ _ va 1 root); [done|done|lia|apply Hpg|lia|].
  intros b1 s1 L1 t1 Hg1 Hb1 HL1. pose proof (gr_walk _ _ _ _ _ _ _ _ _ Hg1) as Hw1.
  assert (need t1 (vpath 0 va) = need t (vpath 0 va)) as Hneed.
  { pose proof (gr_dom _ _ _ _ _ _ _ _ _ Hg1 (vpath 0 va)) as Hd. unfold need.
    destruct (t1 !! vpath 0 va) as [a|] eqn:E1, (t !! vpath 0 va) as [c|] eqn:E; try done.
    - destruct (proj1 Hd) as [[? ?]|Hin]; [by eauto|done|]. by apply list_elem_of_singleton in Hin.
    - destruct (proj2 Hd) as [? ?]; [by eauto|done]. }
  apply wp_bind. eapply (wp_map_level _ _ _ _ va 0 b1); [apply Hg1| |lia|done|lia|].
  { intros e lv. rewrite Hw1. apply Hns. }
  intros b0 s2 L2 t2 Hg2 Hb0 HL2. pose proof (gr_walk _ _ _ _ _ _ _ _ _ Hg2) as Hw2.
  rewrite (PX_VPN 0). apply wp_store.
  { eapply slot_in_ram; [apply Hg2|done|apply VPN_range]. }
  apply (HQ _ L2 t2); [|lia]. eapply (grown_trans _ _ _ _ [_] _ _ _ _ ([_] ++ [])); [done|].
  eapply grown_trans; [done|].
  pose proof (grown_leaf _ _ _ _ va 0 b0 _ (gr_inv _ _ _ _ _ _ _ _ _ Hg2) ltac:(lia) Hb0 He Hv Hl ltac:(lia)) as Hg3.
  destruct Hg3 as [? ? HT ? ? ? ?]. split; [done|done| |done..].
  intros va'. rewrite HT. unfold remap. rewrite Hw2, Hw1. done.
Qed.

(** ** What a table translates *)

(** The translation a leaf makes, from its entry and its level. *)
Definition leaf_translation (va : Z) (leaf : option (Z * nat)) : option (Z * Z) :=
  match leaf with
  | None => None
  | Some (e, l) =>
      if page_offset l (pte_frame e) =? 0
      then Some (pte_frame e + page_offset l va, e mod 2 ^ 4)
      else None
  end.

(** The translation only depends on the tables. *)
Lemma sv39_same r r' root t va : pt_inv r root t →
  (∀ p a x, t !! p = Some a → a <= x < a + PAGE_SIZE → byte_at r' x = byte_at r x) →
  sv39 r' root va = sv39 r root va.
Proof.
  intros HI Hs. unfold sv39. rewrite (walk_ext r root t HI r' va); [done|].
  intros level a _ Ha. apply ram_load_ext. intros x Hx. eapply Hs; [exact Ha|].
  pose proof (VPN_range level va). unfold pte_addr in Hx. rewrite PAGE_SIZE_eq. lia.
Qed.

Lemma sv39_walk r root va : sv39 r root va = leaf_translation va (walk r 2 root va).
Proof. unfold sv39. by destruct (walk r 2 root va) as [[]|]. Qed.

Lemma page_offset_0 va : page_offset 0 va = va mod PAGE_SIZE.
Proof. done. Qed.

Lemma leaf_translation_0 va pa flags :
  aligned pa → 0 <= pa < 2 ^ 56 → leaf_flags flags →
  leaf_translation va (Some (PA2PTE pa .| flags .| PTE_V, 0%nat)) =
  Some (pa + va mod PAGE_SIZE, flags .| PTE_V).
Proof.
  intros Ha Hpa Hf. destruct (leaf_entry pa flags Ha Hpa Hf) as (_ & _ & _ & Hfr & Hm).
  cbn [leaf_translation]. rewrite Hfr, Hm, !page_offset_0. unfold aligned in Ha. by rewrite Ha.
Qed.

(** C3: [map_page] maps exactly one page.  On a well-formed page table in which
    no superpage covers [va], and with a free page for each table that is
    missing, it returns; the hardware then translates every address of the page
    of [va] to the same offset of the frame [pa] with the given permissions and
    every other address as before; table and allocator stay well formed and
    disjoint, exactly the missing tables were taken from the front of the free
    list, and no byte outside the tables was written. *)
Theorem map_page_correct s L root t va pa flags :
  pg_inv s L root t → no_superpage (m_ram s) root va →
  aligned pa → 0 <= pa < 2 ^ 56 → leaf_flags flags →
  (need t (vpath 1 va) + need t (vpath 0 va) <= length L)%nat →
  wp (map_page root va pa flags) s (λ _ s', ∃ k L' t',
    pg_inv s' L' root t' ∧ L = k ++ L' ∧
    length k = (need t (vpath 1 va) + need t (vpath 0 va))%nat ∧
    (∀ va', vpn 0 va' = vpn 0 va →
       sv39 (m_ram s') root va' = Some (pa + va' mod PAGE_SIZE, flags .| PTE_V)) ∧
    (∀ va', vpn 0 va' ≠ vpn 0 va → sv39 (m_ram s') root va' = sv39 (m_ram s) root va') ∧
    (∃ h r, s' = set_ram r (set_heap h s)) ∧
    same_on (off_tables t') (m_ram s) (m_ram s')).
Proof.
  intros Hpg Hns Ha Hpa Hf HL. eapply wp_map_page; [done..|].
  intros s' L' t' [HI (k & -> & _) HT Hst _ _ Hfr] Hlen. rewrite length_app in Hlen.
  exists k, L', t'. split_and!; [done|done|lia| | |done|done].
  - intros va' E. rewrite sv39_walk, HT. unfold remap. rewrite decide_True by done.
    by apply leaf_translation_0.
  - intros va' E. rewrite !sv39_walk, HT. unfold remap. by rewrite decide_False.
Qed.

Lemma memset_fault dest v size s :
  in_ram dest 1 = false → in_mmio dest 1 = false → 0 < size →
  stops (memset dest v size) s (Fault dest) (λ s', s' = s).
Proof.
  intros H1 H2 Hs. unfold memset. destruct (Z.to_nat size) as [|n] eqn:E; [lia|]. simpl.
  apply stops_bind_l. rewrite Z.add_0_r. by apply store_fault.
Qed.

Lemma map_level_oom s root t va (l : nat) pt :
  pg_inv s [] root t → no_superpage (m_ram s) root va → (l < 2)%nat →
  t !! vpath (S l) va = Some pt → t !! vpath l va = None →
  stops (map_level (S l) va pt) s (Fault 0) (λ _, True).
Proof.
  intros [Hh HI _] Hns Hl Hpt Hnone.
  pose proof (level_entry _ _ _ _ _ _ HI Hns Hl Hpt) as He. cbv zeta in He.
  unfold map_level. rewrite PX_VPN. apply stops_bind_r, wp_load.
  { eapply slot_in_ram; [done..|apply VPN_range]. }
  rewrite land_PTE_V, negb_involutive. destruct (Z.testbit _ 0); [congruence|].
  apply stops_bind_r. eapply wp_mono; [apply wp_mem_alloc; [done|rewrite PAGE_SIZE_eq; lia]|].
  intros p s' Hp. unfold alloc_post in Hp. rewrite alloc_spec_none in Hp by done.
  destruct Hp as [-> ->]. apply stops_bind_l.
  eapply stops_mono; [apply memset_fault; [done|done|rewrite PAGE_SIZE_eq; lia]|done].
Qed.

Lemma map_page_oom s L root t va pa flags :
  pg_inv s L root t → no_superpage (m_ram s) root va →
  (length L < need t (vpath 1 va) + need t (vpath 0 va))%nat →
  stops (map_page root va pa flags) s (Fault 0) (λ _, True).
Proof.
  intros Hpg Hns HL. assert (t !! vpath 2 va = Some root) as Hroot by apply Hpg.
  unfold map_page. destruct (decide (need t (vpath 1 va) <= length L)%nat) as [Hle|Hgt].
  - apply stops_bind_r. eapply (wp_map_level _ _ _ _ va 1 root); [done|done|lia|done|done|].
    intros b s' L' t' Hg Hb Hlen. apply stops_bind_l. pose proof (gr_walk _ _ _ _ _ _ _ _ _ Hg) as Hw.
    assert (need t (vpath 0 va) = 1 ∧ L' = [])%nat as [Hn ->].
    { unfold need in *. destruct (t !! vpath 0 va), L'; simpl in *; try lia; done. }
    eapply (map_level_oom _ _ t' va 0); [apply Hg| |lia|done|].
    + intros e lv. rewrite Hw. apply Hns.
    + unfold need in Hn. destruct (t !! vpath 0 va) eqn:E; [done|].
      apply eq_None_not_Some. rewrite (gr_dom _ _ _ _ _ _ _ _ _ Hg), E.
      intros [[]|Hin]; [done|]. by apply list_elem_of_singleton in Hin.
  - apply stops_bind_l. assert (L = [] ∧ t !! vpath 1 va = None) as [-> Hn].
    { unfold need in *. destruct (t !! vpath 1 va), L; simpl in *; try lia; done. }
    eapply (map_level_oom _ _ t va 1); [done|done|lia|done|done].
Qed.

(** Without enough free pages for the missing tables [map_page] does not
    fail gracefully: the NULL that [mem_alloc] returns is not checked, and
    clearing the page at address 0 faults. *)
Theorem map_page_out_of_memory s L root t va pa flags :
  pg_inv s L root t → no_superpage (m_ram s) root va →
  (length L < need t (vpath 1 va) + need t (vpath 0 va))%nat →
  stops (map_page root va pa flags) s (Fault 0) (λ _, True).
Proof. apply map_page_oom. Qed.

Lemma wp_va2pa s root t va :
  pt_inv (m_ram s) root t → no_superpage (m_ram s) root va →
  (∀ pt, t !! vpath 0 va = Some pt →
     let e := ram_load 8 (pte_addr pt (VPN 0 va)) (m_ram s) in
     Z.testbit e 0 = pte_valid e && pte_leaf e) →
  wp (va2pa root va) s (λ pa s', s' = s ∧ pa = from_option fst 0 (sv39 (m_ram s) root va)).
Proof.
  intros HI Hns Hlast. rewrite sv39_walk. unfold va2pa. rewrite (PX_VPN 2), (PX_VPN 1), (PX_VPN 0).
  assert (t !! vpath 2 va = Some root) as H2 by apply HI.
  apply wp_bind, wp_load; [eapply slot_in_ram; [done..|apply VPN_range]|]. rewrite land_PTE_V.
  pose proof (level_entry _ _ _ va 1 _ HI Hns ltac:(lia) H2) as E2. cbv zeta in E2.
  match type of E2 with if Z.testbit ?x 0 then _ else _ => set (e2 := x) in * end.
  destruct (Z.testbit e2 0) eqn:B2; cbn [negb] in *.
  2: { apply wp_ret. split; [done|]. rewrite (walk_invalid _ 2); [done|].
       unfold pte_valid. fold e2. by rewrite B2. }
  apply wp_bind, wp_load; [eapply slot_in_ram; [done..|apply VPN_range]|]. rewrite land_PTE_V.
  pose proof (level_entry _ _ _ va 0 _ HI Hns ltac:(lia) E2) as E1. cbv zeta in E1.
  match type of E1 with if Z.testbit ?x 0 then _ else _ => set (e1 := x) in * end.
  destruct (Z.testbit e1 0) eqn:B1; cbn [negb] in *.
  2: { apply wp_ret. split; [done|]. rewrite (walk_down _ _ _ HI 1 va _ ltac:(lia) E2).
       rewrite walk_invalid; [done|]. unfold pte_valid. fold e1. by rewrite B1. }
  apply wp_bind, wp_load; [eapply slot_in_ram; [done..|apply VPN_range]|]. rewrite land_PTE_V.
  rewrite (walk_down _ _ _ HI 0 va _ ltac:(lia) E1).
  specialize (Hlast _ E1). cbv zeta in Hlast. change (VPN 0%nat va) with (VPN 0 va).
  match type of Hlast with Z.testbit ?x 0 = _ => set (e := x) in * end.
  destruct (Z.testbit e 0) eqn:B0; cbn [negb]; apply wp_ret; (split; [done|]).
  - symmetry in Hlast. apply andb_true_iff in Hlast as [Hv Hl].
    rewrite (walk_leaf_entry _ 0 _ _ e) by done. cbn [leaf_translation].
    rewrite PTE2PA_frame by (done || apply (ram_load_range 8)). rewrite !page_offset_0.
    unfold pte_frame. rewrite PAGE_SIZE_eq.
    replace (e / 2 ^ 10 * 2 ^ 12 mod 4096) with 0 by dlia. simpl.
    change (4096 - 1) with (2 ^ 12 - 1). rewrite land_mask by lia.
    rewrite Z.lor_comm, <- shiftl_mul, lor_low_high by (lia || apply Z.mod_pos_bound; lia).
    rewrite ?shiftl_mul by lia. pow2. lia.
  - rewrite walk_invalid; [done|]. change (VPN 0%nat va) with (VPN 0 va). fold e.
    unfold pte_valid. by rewrite B0.
Qed.

(** Where the root entry is a leaf, [va2pa] goes on as if the mapped gigabyte began
    with a table. *)
Lemma va2pa_superpage s root t va e :
  pt_inv (m_ram s) root t → walk (m_ram s) 2 root va = Some (e, 2%nat) →
  page_offset 2 (pte_frame e) = 0 →
  in_ram (pte_addr (pte_frame e) (VPN 1 va)) 8 = true →
  Z.testbit (ram_load 8 (pte_addr (pte_frame e) (VPN 1 va)) (m_ram s)) 0 = false →
  wp (va2pa root va) s (λ pa s', pa = 0 ∧ s' = s) ∧
  sv39 (m_ram s) root va = Some (pte_frame e + page_offset 2 va, e mod 2 ^ 4).
Proof.
  intros HI Hw Hoff Hr Hbit. split; [|rewrite sv39_walk, Hw; cbn [leaf_translation]; by rewrite Hoff].
  assert (ram_load 8 (pte_addr root (VPN 2%nat va)) (m_ram s) = e ∧ pte_valid e = true) as [He Hv].
  { cbn [walk] in Hw. destruct (pte_valid _) eqn:Ev; [|done]. simpl in Hw.
    destruct (pte_leaf _); [by injection Hw as <-|]. exfalso. revert Hw. clear.
    generalize (pte_frame (ram_load 8 (pte_addr root (VPN 2%nat va)) (m_ram s))). intros a Hw.
    cbn [walk] in Hw. repeat (case_match; try done). }
  assert (Z.testbit e 0 = true) as Hb0
    by (unfold pte_valid in Hv; by apply andb_true_iff in Hv as [[? _]%andb_true_iff _]).
  unfold va2pa. rewrite (PX_VPN 2), (PX_VPN 1).
  apply wp_bind, wp_load; [eapply slot_in_ram; [done|apply HI|apply VPN_range]|].
  rewrite He, land_PTE_V, Hb0. cbn [negb]. rewrite PTE2PA_frame; [|subst e; apply (ram_load_range 8)|done].
  apply wp_bind, wp_load; [done|]. change (VPN 1%nat va) with (VPN 1 va).
  rewrite land_PTE_V, Hbit. by apply wp_ret.
Qed.

(** C36: [va2pa] and the hardware.  Where no superpage covers the address and its
    last entry is either empty or a leaf, [va2pa] returns the physical address of
    the translation, or 0 when there is none.  It does not know superpages, which
    is how the kernel maps its RAM: where the root entry is a leaf, it goes on as
    if the mapped gigabyte began with a table, and if the word of RAM it takes for
    the next entry has its lowest bit clear, it reports an address as not mapped
    that the hardware translates. *)
Theorem va2pa_correct s root t va : pt_inv (m_ram s) root t →
  (no_superpage (m_ram s) root va →
   (∀ pt, t !! vpath 0 va = Some pt →
      let e := ram_load 8 (pte_addr pt (VPN 0 va)) (m_ram s) in
      Z.testbit e 0 = pte_valid e && pte_leaf e) →
   wp (va2pa root va) s (λ pa s', s' = s ∧ pa = from_option fst 0 (sv39 (m_ram s) root va))) ∧
  (∀ e, walk (m_ram s) 2 root va = Some (e, 2%nat) → page_offset 2 (pte_frame e) = 0 →
   in_ram (pte_addr (pte_frame e) (VPN 1 va)) 8 = true →
   Z.testbit (ram_load 8 (pte_addr (pte_frame e) (VPN 1 va)) (m_ram s)) 0 = false →
   wp (va2pa root va) s (λ pa s', pa = 0 ∧ s' = s) ∧
   sv39 (m_ram s) root va = Some (pte_frame e + page_offset 2 va, e mod 2 ^ 4)).
Proof. intros HI. split; [by eapply wp_va2pa|intros e; by eapply va2pa_superpage]. Qed.
End map.
