(* ===== verification/KernelMap.v ===== *)
(** * The kernel's address space

    [relocate_kernel] fills the boot page table and [mem_init] a table in an
    allocated page; both load [satp].  The two tables translate the same way:
    [kernel_map]. *)

From S2P Require Import Prelude Globals Machine Utils Heap HeapSpec Paging PagingSpec.

(** ** What the kernel means to map *)

(** The gigabyte of RAM at its own address and in the high half, readable,
    writable and executable; the UART page; the pages of the eight VirtIO slots,
    readable and writable, all of them identity mapped; nothing else. *)
Definition kernel_map (va : Z) : option (Z * Z) :=
  if decide (vpn 2 va = 2 ∨ vpn 2 va = 258) then Some (BASE_ADDR + va mod 2 ^ 30, 15)
  else if decide (vpn 0 va = 0x10000) then Some (va mod 2 ^ 39, 15)
  else if decide (0x10001 <= vpn 0 va <= 0x10008) then Some (va mod 2 ^ 39, 7)
  else None.

Section devices.
Implicit Types (i v va : Z).

(** The leaf that maps the RAM, and the leaf of a device page. *)
Definition giga_entry : Z := PA2PTE BASE_ADDR .| RWX .| PTE_V.
Definition device_flags v : Z :=
  if v =? 0x10000 then PTE_R .| PTE_W .| PTE_V .| PTE_X else PTE_R .| PTE_W.
Definition device_entry v : Z := PA2PTE (v * PAGE_SIZE) .| device_flags v .| PTE_V.

Definition giga_walk va : option (Z * nat) :=
  if decide (vpn 2 va = 2 ∨ vpn 2 va = 258) then Some (giga_entry, 2%nat) else None.

(** The table with the first [i] device pages mapped. *)
Definition kernel_walk i va : option (Z * nat) :=
  if decide (0x10000 <= vpn 0 va < 0x10000 + i) then Some (device_entry (vpn 0 va), 0%nat)
  else giga_walk va.

Definition device_addr i : Z := GPIO_BASE_ADDR + i * VIRTIO_SIZE.

Lemma device_flags_ok v : leaf_flags (device_flags v).
Proof. unfold device_flags. destruct (v =? 0x10000); vm_compute; intuition congruence. Qed.

Lemma vpn_02 va : vpn 2 va = vpn 0 va / 2 ^ 18.
Proof. unfold vpn. pow2. dlia. Qed.

Lemma device_path i : 0 <= i <= 8 →
  vpath 1 (device_addr i) = [0] ∧ vpath 0 (device_addr i) = [0; 128] ∧
  vpn 0 (device_addr i) = 0x10000 + i.
Proof.
  intros Hi. unfold device_addr, GPIO_BASE_ADDR, VIRTIO_SIZE, vpn, vpath, VPN. pow2.
  split_and!; [f_equal; dlia|f_equal; [|f_equal]; dlia|dlia].
Qed.

Lemma device_aligned i : 0 <= i <= 8 → aligned (device_addr i) ∧ 0 <= device_addr i < 2 ^ 56.
Proof.
  intros Hi. unfold aligned, device_addr, GPIO_BASE_ADDR, VIRTIO_SIZE. rewrite PAGE_SIZE_eq.
  split; [dlia|lia].
Qed.

Lemma kernel_walk_step i va : 0 <= i <= 8 →
  remap (kernel_walk i) 0 (device_addr i)
    (PA2PTE (device_addr i) .| device_flags (0x10000 + i) .| PTE_V) va = kernel_walk (i + 1) va.
Proof.
  intros Hi. destruct (device_path i Hi) as (_ & _ & Hv). unfold remap, kernel_walk. rewrite Hv.
  destruct (decide (vpn 0 va = 0x10000 + i)) as [E|E].
  - rewrite decide_True by lia. unfold device_entry. rewrite E. do 5 f_equal.
    unfold device_addr, GPIO_BASE_ADDR, VIRTIO_SIZE. rewrite PAGE_SIZE_eq. lia.
  - destruct (decide (65536 <= vpn 0 va < 65536 + i)).
    + by rewrite decide_True by lia.
    + by rewrite decide_False by lia.
Qed.

Lemma giga_walk_step va :
  remap (remap (λ _, None) 2 BASE_ADDR giga_entry) 2 KERNEL_BASE_VA giga_entry va = giga_walk va.
Proof.
  unfold remap, giga_walk. change (vpn 2 KERNEL_BASE_VA) with 258. change (vpn 2 BASE_ADDR) with 2.
  repeat case_decide; naive_solver.
Qed.

(** The finished table translates as intended. *)
Lemma kernel_walk_map va : leaf_translation va (kernel_walk 9 va) = kernel_map va.
Proof.
  unfold kernel_walk, kernel_map, giga_walk. rewrite vpn_02.
  destruct (decide (65536 <= vpn 0 va < 65536 + 9)) as [Hd|Hd].
  - rewrite (decide_False (P := _ ∨ _)) by (pow2; dlia).
    assert (aligned (vpn 0 va * PAGE_SIZE)) by (unfold aligned; rewrite PAGE_SIZE_eq; dlia).
    unfold device_entry. rewrite leaf_translation_0; [|done|rewrite PAGE_SIZE_eq; lia|apply device_flags_ok].
    replace (vpn 0 va * PAGE_SIZE + va mod PAGE_SIZE) with (va mod 2 ^ 39)
      by (unfold vpn; rewrite PAGE_SIZE_eq; pow2; dlia).
    unfold device_flags. destruct (Z.eqb_spec (vpn 0 va) 0x10000).
    + by rewrite decide_True by done.
    + rewrite decide_False, decide_True by lia. done.
  - destruct (decide (_ ∨ _)).
    + unfold leaf_translation. change (page_offset 2 (pte_frame giga_entry)) with 0. done.
    + rewrite !decide_False by lia. done.
Qed.

Lemma kernel_walk_device i : 0 <= i <= 8 → kernel_walk i (device_addr i) = None.
Proof.
  intros Hi. destruct (device_path i Hi) as (_ & _ & Hv). unfold kernel_walk, giga_walk.
  rewrite vpn_02, Hv, !decide_False by (pow2; dlia). done.
Qed.
End devices.

(** ** Building the tables *)

Section build.
Context `{Platform}.
Implicit Types (s : machine) (L : list Z) (t : gmap path Z).

#[local] Opaque ram_write ram_store replicate.

Definition root_only (root : Z) : gmap path Z := {[ [] := root ]}.

(** A cleared page is an empty page table. *)
Lemma pt_inv_empty r root :
  aligned root → in_ram root 4096 = true →
  (∀ x, root <= x < root + PAGE_SIZE → byte_at r x = 0) → pt_inv r root (root_only root).
Proof.
  intros Ha Hr Hz. unfold root_only. split.
  - apply lookup_insert_eq.
  - intros p a [<- <-]%lookup_singleton_Some. done.
  - intros p q a [<- _]%lookup_singleton_Some [<- _]%lookup_singleton_Some. done.
  - intros p i a [E _]%lookup_singleton_Some. by destruct p.
  - intros p a i [<- <-]%lookup_singleton_Some _ Hi. cbv zeta. rewrite ram_load_zero.
    + split; [done|]. by rewrite lookup_singleton_ne.
    + intros x Hx. apply Hz. unfold pte_addr in Hx. rewrite PAGE_SIZE_eq. lia.
Qed.

Lemma empty_walk r root va :
  (∀ x, root <= x < root + PAGE_SIZE → byte_at r x = 0) → walk r 2 root va = None.
Proof.
  intros Hz. apply walk_invalid. rewrite ram_load_zero; [done|]. intros x Hx. apply Hz.
  pose proof (VPN_range 2%nat va). unfold pte_addr in Hx. rewrite PAGE_SIZE_eq. lia.
Qed.

Lemma grown_ext s L root t ps T T' s' L' t' :
  (∀ va, T va = T' va) → grown s L root t ps T s' L' t' → grown s L root t ps T' s' L' t'.
Proof. intros HT [? ? Hw ? ? ? ?]. split; try done. intros va. by rewrite Hw. Qed.

(** A gigapage entry of the root. *)
Lemma wp_gigapage s L root va e (Q : unit → machine → Prop) :
  pg_inv s L root (root_only root) → e = giga_entry →
  (∀ s', grown s L root (root_only root) [] (remap (walk (m_ram s) 2 root) 2 va giga_entry) s' L
           (root_only root) → Q tt s') →
  wp (store 8 (pte_addr root (PX 2 va)) e) s Q.
Proof.
  intros Hpg -> HQ. rewrite (PX_VPN 2). apply wp_store.
  { eapply slot_in_ram; [apply Hpg|apply lookup_singleton_eq|apply VPN_range]. }
  apply HQ. eapply (grown_leaf _ _ _ _ va 2 root giga_entry); [done|lia|apply lookup_singleton_eq|..];
    [vm_compute; intuition congruence|done|done|].
  intros _. by apply lookup_singleton_ne.
Qed.

Lemma wp_map_device s L root t i flags (Q : unit → machine → Prop) :
  pg_inv s L root t → (∀ va, walk (m_ram s) 2 root va = kernel_walk i va) → 0 <= i <= 8 →
  flags = device_flags (0x10000 + i) → (need t [0%Z] + need t [0; 128]%Z <= length L)%nat →
  (∀ s' L' t', grown s L root t [[0]; [0; 128]] (kernel_walk (i + 1)) s' L' t' →
     length L = (need t [0%Z] + need t [0; 128]%Z + length L')%nat → Q tt s') →
  wp (map_page root (device_addr i) (device_addr i) flags) s Q.
Proof.
  intros Hpg Hw Hi -> HL HQ. destruct (device_aligned i Hi) as [Ha Hr].
  destruct (device_path i Hi) as (P1 & P0 & _).
  eapply wp_map_page; [done| |done|done|apply device_flags_ok|by rewrite P1, P0|].
  { intros e lv. by rewrite Hw, kernel_walk_device. }
  rewrite P1, P0. intros s' L' t' Hg HL'. apply (HQ s' L' t'); [|done].
  eapply grown_ext; [|exact Hg].
  intros va. rewrite <- kernel_walk_step by done. unfold remap. by rewrite Hw.
Qed.

Lemma wp_setup_uart s L root (Q : unit → machine → Prop) :
  pg_inv s L root (root_only root) → (∀ va, walk (m_ram s) 2 root va = giga_walk va) →
  (2 <= length L)%nat →
  (∀ s' L' t', grown s L root (root_only root) [[0]; [0; 128]] (kernel_walk 1) s' L' t' →
     length L = S (S (length L')) → Q tt s') →
  wp (setup_uart_mapping root) s Q.
Proof.
  intros Hpg Hw HL HQ. unfold setup_uart_mapping. change 0x10000000 with (device_addr 0).
  eapply wp_map_device; [done| |lia|done|done|done]. intros va. rewrite Hw. unfold kernel_walk.
  by rewrite decide_False by lia.
Qed.

Lemma wp_setup_virtio s L root t (Q : unit → machine → Prop) :
  pg_inv s L root t → (∀ va, walk (m_ram s) 2 root va = kernel_walk 1 va) →
  is_Some (t !! [0]) → is_Some (t !! [0; 128]) →
  (∀ s' L' t', grown s L root t [[0]; [0; 128]] (kernel_walk 9) s' L' t' →
     length L = length L' → Q tt s') →
  wp (setup_virtio_mappings root) s Q.
Proof.
  intros Hpg Hw [a1 H1] [a2 H2] HQ. unfold setup_virtio_mappings.
  eapply (wp_for (λ i s', ∃ L' t', grown s L root t [[0]; [0; 128]] (kernel_walk i) s' L' t' ∧
    length L = length L')).
  - exists L, t. split; [|done]. eapply grown_ext; [exact Hw|]. apply grown_refl; [done|].
    intros p [->|[->|[]%not_elem_of_nil]%elem_of_cons]%elem_of_cons; eauto.
  - intros i s' Hi (L' & t' & Hg & HL).
    assert (need t' [0] = 0%nat ∧ need t' [0; 128] = 0%nat) as [N1 N2].
    { pose proof (gr_sub _ _ _ _ _ _ _ _ _ Hg) as Hsub. unfold need.
      by rewrite (lookup_weaken _ _ _ _ H1 Hsub), (lookup_weaken _ _ _ _ H2 Hsub). }
    change (VIRT_MMIO (i * VIRTIO_SIZE)) with (device_addr i).
    change (Z.to_nat VIRTIO_SLOTS) with 8%nat in Hi.
    eapply wp_map_device; [apply Hg|apply Hg|lia| |rewrite N1, N2; lia|].
    + unfold device_flags. by rewrite (proj2 (Z.eqb_neq _ _)) by lia.
    + intros s'' L'' t'' Hg' HL'. exists L'', t''. split; [|lia].
      pose proof (grown_trans _ _ _ _ _ _ _ _ _ _ _ _ _ _ Hg Hg') as [? ? ? ? ? Hd ?].
      split; try done. intros p. rewrite Hd. set_solver.
  - intros s' (L' & t' & Hg & HL). by eapply HQ.
Qed.

(** The two device setups on a root that holds only the gigapages. *)
Lemma wp_setup_devices {A} s L root (k : M A) (Q : A → machine → Prop) :
  pg_inv s L root (root_only root) → (∀ va, walk (m_ram s) 2 root va = giga_walk va) →
  (2 <= length L)%nat →
  (∀ s' L' t', grown s L root (root_only root) [[0]; [0; 128]] (kernel_walk 9) s' L' t' →
     length L = S (S (length L')) → wp k s' Q) →
  wp (setup_uart_mapping root ;; setup_virtio_mappings root ;; k) s Q.
Proof.
  intros Hpg Hw HL HQ. apply wp_bind. eapply wp_setup_uart; [done..|].
  intros s1 L1 t1 Hg1 HL1. pose proof (gr_dom _ _ _ _ _ _ _ _ _ Hg1) as Hd1.
  apply wp_bind. eapply wp_setup_virtio; [apply Hg1|apply Hg1|apply Hd1; right; set_solver..|].
  intros s2 L2 t2 Hg2 HL2. apply (HQ s2 L2 t2); [|rewrite HL1, HL2; done].
  pose proof (grown_trans _ _ _ _ _ _ _ _ _ _ _ _ _ _ Hg1 Hg2) as [? ? ? ? ? Hd ?].
  split; try done. intros p. rewrite Hd. set_solver.
Qed.

(** From an empty root: the gigapages and the devices, as both callers store
    them. *)
Lemma wp_kernel_tables {A} s L root e1 e2 (k : M A) (Q : A → machine → Prop) :
  pg_inv s L root (root_only root) → (∀ va, walk (m_ram s) 2 root va = None) →
  (2 <= length L)%nat → e1 = giga_entry → e2 = giga_entry →
  (∀ s' L' t', grown s L root (root_only root) [[0]; [0; 128]] (kernel_walk 9) s' L' t' →
     length L = S (S (length L')) → wp k s' Q) →
  wp (store 8 (pte_addr root (PX 2 BASE_ADDR)) e1 ;;
      store 8 (pte_addr root (PX 2 KERNEL_BASE_VA)) e2 ;;
      setup_uart_mapping root ;; setup_virtio_mappings root ;; k) s Q.
Proof.
  intros Hpg Hw HL E1 E2 HQ. apply wp_bind. eapply wp_gigapage; [done|done|]. intros s1 Hg1.
  apply wp_bind. eapply wp_gigapage; [apply Hg1|done|]. intros s2 Hg2.
  eapply wp_setup_devices; [apply Hg2| |done|].
  - intros va. rewrite (gr_walk _ _ _ _ _ _ _ _ _ Hg2), <- giga_walk_step. unfold remap.
    rewrite (gr_walk _ _ _ _ _ _ _ _ _ Hg1). unfold remap. by rewrite Hw.
  - intros s3 L3 t3 Hg3 HL3. apply (HQ s3 L3 t3); [|done]. eapply (grown_trans _ _ _ _ []); [done|].
    by eapply (grown_trans _ _ _ _ []).
Qed.

(** [satp] selects Sv39 and the table. *)
Lemma satp_value_ok root :
  aligned root → in_ram root 4096 = true →
  satp_mode (satp_value root) = 8 ∧ satp_table (satp_value root) = root.
Proof.
  intros Ha [? ?]%in_ram_spec. unfold aligned, RAM_BASE, RAM_END in *. rewrite PAGE_SIZE_eq in Ha.
  unfold satp_value, virt_to_phys, KERNEL_BASE_VA, BASE_ADDR, VIRT_OFFSET, PGSHIFT.
  rewrite (proj2 (Z.leb_gt _ _)), shiftr_div, Z.lor_comm, lor_low_high by dlia.
  unfold satp_mode, satp_table. pow2. split; dlia.
Qed.
End build.

(** ** [relocate_kernel] and [mem_init] *)

(** What the linker guarantees of the boot page table: its alignment attribute,
    and a place in [.bss], which ends where the heap may begin. *)
Class BootTableOk `{Image} : Prop := {
  boot_aligned : aligned boot_page_table;
  boot_below : RAM_BASE <= boot_page_table ∧ boot_page_table + PAGE_SIZE <= virt_to_phys __heap_start;
}.

Section boot.
Context `{Platform} `{Image} {IO : ImageOk} {BO : BootTableOk}.
Implicit Types (s : machine) (L : list Z).

#[local] Opaque ram_write ram_store replicate.

Lemma boot_in_ram : in_ram boot_page_table 4096 = true.
Proof.
  destruct boot_below. pose proof image_heap. apply in_ram_true; [done|].
  rewrite PAGE_SIZE_eq in *. lia.
Qed.

Lemma boot_not_free : ∀ a, a ∈ init_pages → boot_page_table + PAGE_SIZE <= a.
Proof.
  intros a Ha. apply elem_of_pages in Ha as (i & _ & ->). destruct boot_below.
  destruct init_between. rewrite PAGE_SIZE_eq in *. lia.
Qed.

(** The boot table is still empty when the allocator is ready. *)
Lemma boot_pg_inv s :
  (∀ x, boot_page_table <= x < boot_page_table + PAGE_SIZE → byte_at (m_ram s) x = 0) →
  heap_inv s init_pages →
  pg_inv s init_pages boot_page_table (root_only boot_page_table).
Proof.
  intros Hz HI. split; [done|apply pt_inv_empty; [apply boot_aligned|apply boot_in_ram|done]|].
  unfold root_only. intros p a [_ <-]%lookup_singleton_Some Ha. apply boot_not_free in Ha. rewrite PAGE_SIZE_eq in *. lia.
Qed.

(** What holds once a table with the kernel's mappings is loaded: [s'] is [s]
    but for memory, the allocator's variables and [satp], which selects Sv39
    with the table [root]; it translates by [kernel_map]; the free pages are
    those of [L] but for the first [n], and all tables lie in the root and in pages
    of [L]; and memory is as it was outside the root
    and the pages of [L]. *)
Definition mapped_state (n : nat) s L root s' : Prop :=
  ∃ k L' t', L = k ++ L' ∧ length k = n ∧ (pg_inv s' L' root t' ∧ ∀ p a, t' !! p = Some a → a ∈ root :: L) ∧
  (∀ va, sv39 (m_ram s') root va = kernel_map va) ∧
  satp_mode (satp (m_csr s')) = 8 ∧ satp_table (satp (m_csr s')) = root ∧
  same_on (λ x, ¬ in_pages (root :: L) x) (m_ram s) (m_ram s') ∧
  ∃ h r, s' = set_csr (with_satp (satp_value root) (m_csr s)) (set_ram r (set_heap h s)).

(** The end of both functions: load [satp]. *)
Lemma wp_load_satp s L root s' L' t' :
  grown s L root (root_only root) [[0]; [0; 128]] (kernel_walk 9) s' L' t' →
  length L = S (S (length L')) →
  wp (write_satp (satp_value root)) s' (λ _ s'', mapped_state 2 s L root s'').
Proof.
  intros [[Hh HP Hs] (k & -> & Hk) Hw (h & r & ->) _ _ Hf] HL. rewrite length_app in HL.
  apply wp_modify. exists k, L', t'. destruct (pt_page _ _ _ HP _ _ (pt_root _ _ _ HP)) as [Ha Hr].
  assert (∀ p a, t' !! p = Some a → a ∈ root :: k ++ L') as Htab.
  { unfold root_only in Hk. intros p a Hp. destruct (Hk p a Hp) as [[_ <-]%lookup_singleton_Some|]; set_solver. }
  destruct (satp_value_ok root Ha Hr). split_and!; [done|lia| |exact Htab| |done|done| |].
  - split; [|done|done]. by eapply heap_inv_ext; [| |exact Hh].
  - intros va. rewrite sv39_walk, <- kernel_walk_map. f_equal. apply Hw.
  - intros x Hx. apply Hf. intros p a Hp Hin. apply Hx. exists a. split; [by eapply Htab|done].
  - exists h, r. by destruct s.
Qed.

Lemma wp_relocate_kernel s :
  (∀ x, boot_page_table <= x < boot_page_table + PAGE_SIZE → byte_at (m_ram s) x = 0) →
  (2 <= length init_pages)%nat →
  wp relocate_kernel s (λ _ s', mapped_state 2 s init_pages boot_page_table s').
Proof.
  intros Hz HL. unfold relocate_kernel. apply wp_bind.
  eapply wp_mono; [apply wp_page_allocator_init|].
  intros [] s1 (HI & _ & _ & _ & _ & h & r & -> & Hs).
  assert (∀ x, boot_page_table <= x < boot_page_table + PAGE_SIZE → byte_at r x = 0) as Hz'.
  { intros x Hx. rewrite (Hs x); [by apply Hz|]. intros (a & Ha & ?). apply boot_not_free in Ha. lia. }
  unfold setup_boot_page_table. apply wp_assoc. eapply wp_kernel_tables; [|intros; by apply empty_walk|done|done|done|].
  { by apply boot_pg_inv. }
  intros s2 L2 t2 Hg HL2. eapply wp_mono; [by eapply wp_load_satp|].
  intros [] s' (k & L' & t' & ? & ? & [? ?] & ? & ? & ? & Hf & h' & r' & ->).
  exists k, L', t'. split_and!; try done; [|exists h', r'; by destruct s].
  etrans; [|exact Hf]. eapply same_on_weaken; [exact Hs|]. intros x Hx Hl. apply Hx.
  apply links_in_pages in Hl as (a & Ha & Hxa). exists a. split; [set_solver|done].
Qed.

(** C4: [relocate_kernel] turns paging on with the kernel's address space.
    Entered with the boot page table cleared, as [_start] leaves [.bss], and a
    heap of at least two pages, it returns with the allocator initialised, two
    pages of it used for tables, and [satp] selecting Sv39 with the boot page
    table, by which the hardware translates every address as [kernel_map]
    says: RAM at its own address and in the high half, the UART and the VirtIO
    slots, and nothing else. *)
Theorem relocate_kernel_ok s :
  (∀ x, boot_page_table <= x < boot_page_table + PAGE_SIZE → byte_at (m_ram s) x = 0) →
  (2 <= length init_pages)%nat →
  wp relocate_kernel s (λ _ s', mapped_state 2 s init_pages boot_page_table s').
Proof. apply wp_relocate_kernel. Qed.

(** [mem_init] after the page for its root was taken and cleared. *)
Lemma root_pg_inv s L b fl :
  heap_inv s (b :: L) →
  let s1 := set_heap (with_count (length L) (with_free_list fl (m_heap s))) s in
  heap_inv s1 L →
  let s2 := set_ram (zero_page b (m_ram s)) s1 in
  pg_inv s2 L b (root_only b) ∧ ∀ va, walk (m_ram s2) 2 b va = None.
Proof.
  intros HI s1 HI1 s2. destruct (heap_page_table _ _ _ HI) as (Ha & Hr & _ & HbL).
  assert (∀ x, b <= x < b + PAGE_SIZE → byte_at (m_ram s2) x = 0) as Hz.
  { intros x Hx. replace x with (b + Z.to_nat (x - b)) by lia.
    unfold s2. rewrite ram_set_ram. unfold zero_page. rewrite (byte_at_write_in _ _ _ _ 0); [done|].
    apply lookup_replicate_2. lia. }
  split; [|intros va; by apply empty_walk]. split.
  - eapply (heap_inv_write s1 L [b]); [done|set_solver|by repeat constructor|].
    intros x Hx. pose proof (Hx b ltac:(set_solver)). unfold zero_page.
    apply byte_at_write_out. rewrite length_replicate. lia.
  - by apply pt_inv_empty.
  - unfold root_only. by intros p a [_ <-]%lookup_singleton_Some.
Qed.

Lemma wp_mem_init s L :
  heap_inv s L → (3 <= length L)%nat →
  wp mem_init s (λ v s', v = 0 ∧
     ∃ root s1 L', L = root :: L' ∧ mapped_state 2 s1 L' root s' ∧
     ∃ h r, s1 = set_ram r (set_heap h s) ∧ same_on (λ x, ¬ in_pages L x) (m_ram s) r).
Proof.
  intros HI HL. unfold mem_init. destruct L as [|b L]; [simpl in HL; lia|].
  destruct (heap_page_table _ _ _ HI) as (Ha & Hr & _ & _).
  apply wp_bind. eapply wp_mem_alloc_1; [done|rewrite PAGE_SIZE_eq; lia|done|]. intros fl s1 HI1.
  destruct (root_pg_inv s L b fl HI HI1) as [Hpg Hw].
  rewrite (proj2 (Z.eqb_neq b 0)) by (apply in_ram_spec in Hr; unfold RAM_BASE in *; lia).
  apply wp_bind, wp_memset; [eapply in_ram_sub; [exact Hr|lia|rewrite PAGE_SIZE_eq; lia]|].
  eapply wp_kernel_tables; [exact Hpg|exact Hw|simpl in *; lia|done|done|].
  intros s3 L3 t3 Hg HL3. apply wp_bind. eapply wp_mono; [by eapply wp_load_satp|].
  intros [] s4 Hm. apply wp_ret. split; [done|]. eexists b, _, L. split_and!; [done|exact Hm|].
  eexists _, _. split; [done|]. intros x Hx. apply byte_at_write_out. rewrite length_replicate.
  destruct (decide (b <= x < b + PAGE_SIZE)) as [Hin|]; [|rewrite PAGE_SIZE_eq in *; lia].
  destruct Hx. exists b. split; [set_solver|done].
Qed.

(** C25: [mem_init] on every branch.  With three free pages it returns 0, having
    built the kernel's address space in the first free page, and two more for
    tables, and switched [satp] to it, and written nothing but free pages; with none it returns 255 (its -1 as a
    [uint8_t]) and leaves the machine as it was; with one or two it faults while
    mapping the UART. *)
Theorem mem_init_cases s L :
  heap_inv s L →
  ((3 <= length L)%nat → wp mem_init s (λ v s', v = 0 ∧
     ∃ root s1 L', L = root :: L' ∧ mapped_state 2 s1 L' root s' ∧
     ∃ h r, s1 = set_ram r (set_heap h s) ∧ same_on (λ x, ¬ in_pages L x) (m_ram s) r)) ∧
  (L = [] → wp mem_init s (λ v s', v = 255 ∧ s' = s)) ∧
  ((length L = 1 ∨ length L = 2)%nat → stops mem_init s (Fault 0) (λ _, True)).
Proof.
  intros HI. split_and!; [by apply wp_mem_init|unfold mem_init..].
  - intros ->. apply wp_bind. eapply wp_mono; [apply wp_mem_alloc; [done|rewrite PAGE_SIZE_eq; lia]|].
    intros p s' Hp. unfold alloc_post in Hp. rewrite alloc_spec_none in Hp by done.
    destruct Hp as [-> ->]. by apply wp_ret.
  - intros HL. destruct L as [|b L]; [simpl in HL; lia|].
    destruct (heap_page_table _ _ _ HI) as (Ha & Hr & _ & _).
    apply stops_bind_r. eapply wp_mem_alloc_1; [done|rewrite PAGE_SIZE_eq; lia|done|]. intros fl s1 HI1.
    destruct (root_pg_inv s L b fl HI HI1) as [Hpg Hw].
    rewrite (proj2 (Z.eqb_neq b 0)) by (apply in_ram_spec in Hr; unfold RAM_BASE in *; lia).
    apply stops_bind_r, wp_memset; [eapply in_ram_sub; [exact Hr|lia|rewrite PAGE_SIZE_eq; lia]|].
    apply stops_bind_r. eapply wp_gigapage; [exact Hpg|done|]. intros s2 Hg2.
    apply stops_bind_r. eapply wp_gigapage; [apply Hg2|done|]. intros s3 Hg3.
    apply stops_bind_l. unfold setup_uart_mapping.
    eapply map_page_oom; [apply Hg3| |].
    2: { change (need (root_only b) (vpath 1 268435456)) with 1%nat.
         change (need (root_only b) (vpath 0 268435456)) with 1%nat. simpl in HL. lia. }
    intros e lv. rewrite (gr_walk _ _ _ _ _ _ _ _ _ Hg3). unfold remap.
    rewrite (gr_walk _ _ _ _ _ _ _ _ _ Hg2). unfold remap. rewrite Hw.
    by rewrite !decide_False by done.
Qed.
End boot.
