(* ===== verification/Packet.v ===== *)
(** * Packets of virt_mmio.c: Ethernet, ARP and the virtio-net header

    Headers are byte ranges of memory with the offsets of the packed structs;
    fields are in network byte order. *)

From S2P Require Import Prelude Globals Machine Utils Uart Heap.

Definition ETH_P_IP : Z := 0x0800.
Definition ETH_P_ARP : Z := 0x0806.
Definition ETH_P_IPV6 : Z := 0x86DD.

(** Offsets of the fields, and sizes of the structs. *)
Definition eth_dst (eth : Z) : Z := eth.
Definition eth_src (eth : Z) : Z := eth + 6.
Definition eth_type (eth : Z) : Z := eth + 12.
Definition sizeof_eth_hdr : Z := 14.

Definition ip_proto (ip : Z) : Z := ip + 9.
Definition ip_src (ip : Z) : Z := ip + 12.
Definition ip_dst (ip : Z) : Z := ip + 16.
Definition sizeof_ipv4_hdr : Z := 20.

Definition arp_htype (arp : Z) : Z := arp.
Definition arp_ptype (arp : Z) : Z := arp + 2.
Definition arp_hlen (arp : Z) : Z := arp + 4.
Definition arp_plen (arp : Z) : Z := arp + 5.
Definition arp_oper (arp : Z) : Z := arp + 6.
Definition arp_sha (arp : Z) : Z := arp + 8.
Definition arp_spa (arp : Z) : Z := arp + 14.
Definition arp_tha (arp : Z) : Z := arp + 18.
Definition arp_tpa (arp : Z) : Z := arp + 24.
Definition sizeof_arp_hdr : Z := 28.

Definition sizeof_virtio_net_hdr : Z := 12.

Definition ntohs (n : Z) : Z := u16 ((n << 8) .| (n >> 8)).
Definition ntohl (n : Z) : Z := BE2LE n.

(** [h > 9 ? h + 'A' - 10 : h + '0'] *)
Definition nibble_char (h : Z) : Z := if 9 <? h then h + ch_A - 10 else h + ch_0.

Definition ch_colon : Z := 58.
Definition ch_dot : Z := 46.

Section packet.
Context `{Platform}.

Definition print_mac (mac : Z) : M unit :=
  for_from 0 6 (λ i,
    b <- load 1 (mac + i);
    let h := (b >> 4) & 0xF in
    let l := b & 0xF in
    uart_putc (nibble_char h) ;;
    uart_putc (nibble_char l) ;;
    when i <? 5 then uart_putc ch_colon end).

(** Decimal digits of a byte. *)
Definition print_byte (val : Z) : M unit :=
  if 100 <=? val then
    uart_putc (val / 100 + ch_0) ;;
    uart_putc ((val / 10) mod 10 + ch_0) ;;
    uart_putc (val mod 10 + ch_0)
  else if 10 <=? val then
    uart_putc (val / 10 + ch_0) ;;
    uart_putc (val mod 10 + ch_0)
  else uart_putc (val + ch_0).

(** [b[i]] of [(uint8_t * )&ip] on a little-endian machine. *)
Definition ip_byte (ip i : Z) : Z := u8 (ip >> (8 * i)).

Definition print_ip (ip : Z) : M unit :=
  for_from 0 4 (λ i,
    print_byte (ip_byte ip i) ;;
    when i <? 3 then uart_putc ch_dot end).

Definition parse_arp (arp : Z) : M unit :=
  uart_puts (lit "  ARP: ") ;;
  oper <- load 2 (arp_oper arp);
  if ntohs oper =? 1 then
    uart_puts (lit "Request for ") ;;
    tpa <- load 4 (arp_tpa arp); print_ip tpa ;;
    uart_puts (lit " from ") ;;
    spa <- load 4 (arp_spa arp); print_ip spa ;;
    uart_putc ch_nl
  else
  oper <- load 2 (arp_oper arp);
  if ntohs oper =? 2 then
    uart_puts (lit "Reply from ") ;;
    spa <- load 4 (arp_spa arp); print_ip spa ;;
    uart_puts (lit " to ") ;;
    tpa <- load 4 (arp_tpa arp); print_ip tpa ;;
    uart_putc ch_nl
  else
    uart_puts (lit "Unknown ARP operation: ") ;;
    oper <- load 2 (arp_oper arp); uart_b2x (ntohs oper) ;;
    uart_putc ch_nl.

Definition build_virtio_net_hdr (hdr flags gso_type hdr_len gso_size csum_start csum_offset : Z) : M unit :=
  store 1 hdr flags ;;
  store 1 (hdr + 1) gso_type ;;
  store 2 (hdr + 2) hdr_len ;;
  store 2 (hdr + 4) gso_size ;;
  store 2 (hdr + 6) csum_start ;;
  store 2 (hdr + 8) csum_offset.

(** An element of an array argument; the MAC addresses are compound literals. *)
Definition array_get (l : list Z) (i : Z) : M Z :=
  match l !! Z.to_nat i with Some b => ret b | None => halt Undefined end.

Definition build_eth_frame (buffer : Z) (dst_mac src_mac : list Z) (type payload payload_len : Z) : M unit :=
  for_from 0 6 (λ i,
    d <- array_get dst_mac i; store 1 (eth_dst buffer + i) d ;;
    s <- array_get src_mac i; store 1 (eth_src buffer + i) s) ;;
  store 2 (eth_type buffer) (ntohs type) ;;
  mem_copy (buffer + sizeof_eth_hdr) payload payload_len.

Definition build_arp_response (buffer : Z) (src_mac : list Z) (src_ip : Z) (dst_mac : list Z) (dst_ip : Z) : M unit :=
  store 2 (arp_htype buffer) (ntohs 1) ;;
  store 2 (arp_ptype buffer) (ntohs ETH_P_IP) ;;
  store 1 (arp_hlen buffer) 6 ;;
  store 1 (arp_plen buffer) 4 ;;
  store 2 (arp_oper buffer) (ntohs 2) ;;
  for_from 0 6 (λ i,
    s <- array_get src_mac i; store 1 (arp_sha buffer + i) s ;;
    d <- array_get dst_mac i; store 1 (arp_tha buffer + i) d) ;;
  store 4 (arp_spa buffer) src_ip ;;
  store 4 (arp_tpa buffer) dst_ip.
End packet.

(** ** Byte order *)

Lemma ntohs_swap a b : 0 <= a < 2 ^ 8 → 0 <= b < 2 ^ 8 → ntohs (a + b * 2 ^ 8) = b + a * 2 ^ 8.
Proof.
  intros Ha Hb. unfold ntohs, u16. rewrite shiftr_div by lia.
  replace ((a + b * 2 ^ 8) / 2 ^ 8) with b by dlia.
  rewrite Z.lor_comm, lor_low_high by lia. pow2. dlia.
Qed.

Lemma ntohs_involutive n : 0 <= n < 2 ^ 16 → ntohs (ntohs n) = n.
Proof.
  intros Hn. replace n with (n mod 2 ^ 8 + n / 2 ^ 8 * 2 ^ 8) by dlia.
  rewrite !ntohs_swap by dlia. done.
Qed.

Lemma ntohs_range n : 0 <= ntohs n < 2 ^ 16.
Proof. apply u16_range. Qed.

(** ** Printing addresses *)

Section printing.
Context `{Platform} {TX : UartTx}.
Implicit Types (r : gmap Z Z).

(** The decimal digits of a byte. *)
Definition byte_digits (v : Z) : list Z :=
  if 100 <=? v then [v / 100 + ch_0; (v / 10) mod 10 + ch_0; v mod 10 + ch_0]
  else if 10 <=? v then [v / 10 + ch_0; v mod 10 + ch_0]
  else [v + ch_0].

Lemma byte_digits_decimal v : 0 <= v < 2 ^ 8 → decimal_of v (byte_digits v).
Proof.
  intros Hv. unfold byte_digits, decimal_of, dec_value, is_digit, ch_0, ch_9.
  destruct (Z.leb_spec 100 v); [|destruct (Z.leb_spec 10 v)]; simpl.
  - split_and!; [repeat constructor; dlia|dlia|]. right. eexists _, _. split; [done|dlia].
  - split_and!; [repeat constructor; dlia|dlia|]. right. eexists _, _. split; [done|dlia].
  - split_and!; [repeat constructor; lia|lia|]. destruct (decide (v = 0)) as [->|]; [by left|].
    right. eexists _, _. split; [done|lia].
Qed.

Lemma says_digit r d : 0 <= d < 10 → says r (uart_putc (d + ch_0)) [d + ch_0].
Proof.
  intros Hd. pose proof (says_putc r (d + ch_0)) as Hs. unfold ch_0 in *.
  by rewrite u8_small in Hs by lia.
Qed.

Lemma says_print_byte r v : 0 <= v < 2 ^ 8 → says r (print_byte v) (byte_digits v).
Proof.
  intros Hv. unfold print_byte, byte_digits.
  destruct (Z.leb_spec 100 v); [|destruct (Z.leb_spec 10 v)]; [| |apply says_digit; lia].
  - apply (says_bind _ _ _ [_]); [apply says_digit; dlia|].
    apply (says_bind _ _ _ [_]); apply says_digit; dlia.
  - apply (says_bind _ _ _ [_]); apply says_digit; dlia.
Qed.

Lemma ip_byte_range ip i : 0 <= ip_byte ip i < 2 ^ 8.
Proof. apply u8_range. Qed.

(** The text [print_ip] prints. *)
Definition ip_text (ip : Z) : list Z :=
  concat ((λ i, byte_digits (ip_byte ip i) ++ if i <? 3 then [ch_dot] else []) <$> seqZ 0 4).

(** Dotted decimal: the bytes of the word in memory order. *)
Definition dotted (ip : Z) (t : list Z) : Prop :=
  ∃ d0 d1 d2 d3, t = d0 ++ [ch_dot] ++ d1 ++ [ch_dot] ++ d2 ++ [ch_dot] ++ d3 ∧
    decimal_of (ip mod 2 ^ 8) d0 ∧ decimal_of (ip / 2 ^ 8 mod 2 ^ 8) d1 ∧
    decimal_of (ip / 2 ^ 16 mod 2 ^ 8) d2 ∧ decimal_of (ip / 2 ^ 24 mod 2 ^ 8) d3.

Lemma ip_text_dotted ip : dotted ip (ip_text ip).
Proof.
  exists (byte_digits (ip_byte ip 0)), (byte_digits (ip_byte ip 1)),
    (byte_digits (ip_byte ip 2)), (byte_digits (ip_byte ip 3)). split.
  { unfold ip_text. change (seqZ 0 4) with [0; 1; 2; 3]. cbn [fmap list_fmap concat Z.ltb Z.compare].
    rewrite <- !app_assoc, !app_nil_r. reflexivity. }
  assert (∀ i, 0 <= i → decimal_of (ip / 2 ^ (8 * i) mod 2 ^ 8) (byte_digits (ip_byte ip i))) as Hd.
  { intros i Hi. unfold ip_byte, u8. rewrite shiftr_div by lia.
    apply byte_digits_decimal, Z.mod_pos_bound. lia. }
  pose proof (Hd 0 ltac:(lia)) as H0. rewrite Z.div_1_r in H0.
  split_and!; [exact H0|apply (Hd 1)|apply (Hd 2)|apply (Hd 3)]; lia.
Qed.

Lemma says_print_ip r ip : says r (print_ip ip) (ip_text ip).
Proof.
  apply (says_for r (λ i, byte_digits (ip_byte ip i) ++ if i <? 3 then [ch_dot] else []) 0 4).
  intros i _. apply says_bind; [apply says_print_byte, ip_byte_range|].
  apply says_if; [apply says_putc|apply says_ret].
Qed.

(** [XX:XX:XX:XX:XX:XX]. *)
Definition mac_text (bs : list Z) : list Z :=
  concat (imap (λ i b, [nibble_char (b / 2 ^ 4); nibble_char (b mod 2 ^ 4)] ++
                       if i <? 5 then [ch_colon] else []) bs).

Lemma says_nibble r h : 0 <= h < 16 → says r (uart_putc (nibble_char h)) [nibble_char h].
Proof.
  intros Hh. pose proof (says_putc r (nibble_char h)) as Hs. rewrite u8_small in Hs; [done|].
  unfold nibble_char, ch_A, ch_0. destruct (9 <? h); lia.
Qed.

Lemma nibbles b : 0 <= b < 2 ^ 8 → (b >> 4) & 0xF = b / 2 ^ 4 ∧ b & 0xF = b mod 2 ^ 4.
Proof.
  intros Hb. change 0xF with (2 ^ 4 - 1). rewrite !land_mask, shiftr_div by lia. split; dlia.
Qed.

Lemma says_print_mac r mac :
  in_ram mac 6 = true → says r (print_mac mac) (mac_text (ram_bytes 6 mac r)).
Proof.
  intros Hm. replace (mac_text (ram_bytes 6 mac r)) with
    (concat ((λ i, [nibble_char (byte_at r (mac + i) / 2 ^ 4);
       nibble_char (byte_at r (mac + i) mod 2 ^ 4)] ++ if i <? 5 then [ch_colon] else []) <$> seqZ 0 6)).
  2:{ change (seqZ 0 6) with [0; 1; 2; 3; 4; 5]. unfold mac_text, imap.
      cbn [ram_bytes fmap list_fmap concat]. rewrite <- !Z.add_assoc, Z.add_0_r. reflexivity. }
  unfold print_mac. refine (says_for r _ 0 6 _ _).
  intros i Hi. eapply says_load; [eapply in_ram_sub; [exact Hm|lia..]|]. rewrite ram_load_1.
  pose proof (byte_at_range r (mac + i)) as Hb. destruct (nibbles _ Hb) as [-> ->].
  apply (says_bind _ _ _ [_]); [apply says_nibble; dlia|].
  apply (says_bind _ _ _ [_]); [apply says_nibble; dlia|].
  apply says_if; [apply says_putc|apply says_ret].
Qed.
End printing.

(** ** Parsing ARP *)

Section arp_report.
Context `{Platform} {TX : UartTx}.

Lemma says_b2x r v : says r (uart_b2x v) (chars "0x" ++ hex_digits 8 v).
Proof. intros s _. by apply wp_b2x. Qed.

(** What [parse_arp] reports about a header with these fields. *)
Definition arp_report (oper spa tpa : Z) : list Z :=
  chars "  ARP: " ++
  (if oper =? 1 then chars "Request for " ++ ip_text tpa ++ chars " from " ++ ip_text spa
   else if oper =? 2 then chars "Reply from " ++ ip_text spa ++ chars " to " ++ ip_text tpa
   else chars "Unknown ARP operation: " ++ chars "0x" ++ hex_digits 8 oper) ++ [ch_nl].

Definition arp_text (arp : Z) (r : gmap Z Z) : list Z :=
  arp_report (ntohs (ram_load 2 (arp_oper arp) r)) (ram_load 4 (arp_spa arp) r)
    (ram_load 4 (arp_tpa arp) r).

Lemma says_parse_arp r arp : in_ram arp 28 = true → says r (parse_arp arp) (arp_text arp r).
Proof.
  intros Ha. assert (∀ (o : Z) (n : nat), 0 <= o → o + n <= 28 → in_ram (arp + o) n = true) as Hin.
  { intros. eapply in_ram_sub; [exact Ha|lia..]. }
  unfold parse_arp, arp_text, arp_report. apply says_bind; [by apply says_lit|].
  eapply says_load; [by apply Hin|].
  destruct (_ =? 1).
  { rewrite <- !app_assoc. says; try (by apply Hin); apply says_print_ip. }
  eapply says_load; [by apply Hin|]. destruct (_ =? 2).
  { rewrite <- !app_assoc. says; try (by apply Hin); apply says_print_ip. }
  rewrite <- (app_assoc (chars "Unknown ARP operation: ")).
  says; [by apply Hin|apply says_b2x].
Qed.
End arp_report.

(** ** Building packets *)

Section build.
Context `{Platform}.

Lemma wp_array_get l (i : nat) v s (Q : Z → machine → Prop) :
  l !! i = Some v → Q v s → wp (array_get l i) s Q.
Proof. intros Hl HQ. unfold array_get. rewrite Nat2Z.id, Hl. by apply wp_ret. Qed.

(** Two addresses written in one loop. *)
Lemma wp_mac_loop d1 d2 (l1 l2 : list Z) s (Q : unit → machine → Prop) :
  length l1 = 6%nat → length l2 = 6%nat → d1 + 6 <= d2 →
  in_ram d1 6 = true → in_ram d2 6 = true →
  Q tt (set_ram (ram_write d2 l2 (ram_write d1 l1 (m_ram s))) s) →
  wp (for_from 0 6 (λ i, a <- array_get l1 i; store 1 (d1 + i) a ;;
                         b <- array_get l2 i; store 1 (d2 + i) b)) s Q.
Proof.
  intros H1 H2 Hd R1 R2 HQ.
  eapply (wp_for (λ i s', ∃ (k : nat), i = k ∧ (k <= 6)%nat ∧
    s' = set_ram (ram_write d2 (take k l2) (ram_write d1 (take k l1) (m_ram s))) s)).
  - exists 0%nat. split_and!; [done|lia|by destruct s].
  - intros i s' Hi (k & -> & Hk & ->).
    destruct (lookup_lt_is_Some_2 l1 k) as [a Ha]; [lia|].
    destruct (lookup_lt_is_Some_2 l2 k) as [b Hb]; [lia|].
    apply wp_bind; eapply wp_array_get; [eassumption|].
    apply wp_bind, wp_store; [eapply in_ram_sub; [exact R1|lia..]|].
    apply wp_bind; eapply wp_array_get; [eassumption|].
    apply wp_store; [eapply in_ram_sub; [exact R2|lia..]|].
    exists (S k). split_and!; [lia|lia|]. rewrite !ram_set_ram, !set_ram_ram. f_equal.
    erewrite !take_S_r by done. rewrite !ram_write_snoc, !length_take, !Nat.min_l by lia.
    f_equal. rewrite !ram_store_write. rewrite ram_write_comm; [done|].
    rewrite length_take, length_le_bytes. lia.
  - intros s' (k & Hk & _ & ->). assert (k = 6%nat) as -> by lia.
    by rewrite !take_ge by lia.
Qed.

(** An Ethernet frame on the wire. *)
Definition eth_bytes (dst src : list Z) (type : Z) (payload : list Z) : list Z :=
  dst ++ src ++ [type / 2 ^ 8; type mod 2 ^ 8] ++ payload.

Lemma eth_bytes_split dst src type payload :
  eth_bytes dst src type payload = (dst ++ src ++ [type / 2 ^ 8; type mod 2 ^ 8]) ++ payload.
Proof. unfold eth_bytes. by rewrite <- !app_assoc. Qed.

Lemma le_bytes_ntohs n : 0 <= n < 2 ^ 16 → le_bytes 2 (ntohs n) = [n / 2 ^ 8; n mod 2 ^ 8].
Proof.
  intros Hn. replace n with (n mod 2 ^ 8 + n / 2 ^ 8 * 2 ^ 8) at 1 by dlia.
  rewrite ntohs_swap by dlia. cbn [le_bytes]. f_equal; [|f_equal]; dlia.
Qed.

Lemma wp_build_eth_frame buffer dst src type payload len s :
  length dst = 6%nat → length src = 6%nat → 0 <= type < 2 ^ 16 → 0 <= len →
  in_ram buffer (14 + Z.to_nat len) = true → in_ram payload (Z.to_nat len) = true →
  payload + len <= buffer ∨ buffer + 14 <= payload →
  wp (build_eth_frame buffer dst src type payload len) s (λ _ s',
    let bytes := ram_bytes (Z.to_nat len) payload (m_ram s) in
    s' = set_ram (ram_write buffer (eth_bytes dst src type bytes) (m_ram s)) s).
Proof.
  intros Hdst Hsrc Hty Hl Hb Hp Hd. unfold build_eth_frame.
  assert (∀ (o : Z) (n : nat), 0 <= o → o + n <= 14 + len → in_ram (buffer + o) n = true) as Hin.
  { intros. eapply in_ram_sub; [exact Hb|lia..]. }
  apply wp_bind, wp_mac_loop; [done|done|unfold eth_dst, eth_src; lia| |apply Hin; lia|].
  { eapply in_ram_sub; [exact Hb|unfold eth_dst; lia..]. }
  apply wp_bind, wp_store; [apply Hin; lia|].
  rewrite ram_set_ram, set_ram_ram, ram_store_write, le_bytes_ntohs by done.
  replace (ram_write (eth_type buffer) _ _) with
    (ram_write buffer (dst ++ src ++ [type / 2 ^ 8; type mod 2 ^ 8]) (m_ram s)).
  2:{ rewrite !ram_write_app, Hdst, Hsrc. unfold eth_type. f_equal. lia. }
  apply wp_mem_copy; [apply Hin; unfold sizeof_eth_hdr; lia|done|unfold sizeof_eth_hdr; lia|].
  cbv zeta. rewrite ram_set_ram, set_ram_ram. f_equal.
  rewrite (ram_bytes_ext _ _ (m_ram s) (ram_write _ _ _)).
  2:{ intros x Hx. apply byte_at_write_out. rewrite !length_app, Hdst, Hsrc. simpl. lia. }
  rewrite eth_bytes_split. symmetry. rewrite (ram_write_app buffer (dst ++ src ++ _)).
  f_equal. rewrite !length_app, Hdst, Hsrc. done.
Qed.

(** [build_eth_frame] lays out an Ethernet frame: destination, source, the
    type in network byte order and the payload follow each other in the buffer,
    and nothing else changes. *)
Theorem build_eth_frame_correct buffer dst src type payload len s :
  length dst = 6%nat → length src = 6%nat → 0 <= type < 2 ^ 16 → 0 <= len →
  in_ram buffer (14 + Z.to_nat len) = true → in_ram payload (Z.to_nat len) = true →
  payload + len <= buffer ∨ buffer + 14 <= payload →
  wp (build_eth_frame buffer dst src type payload len) s (λ _ s',
    let bytes := ram_bytes (Z.to_nat len) payload (m_ram s) in
    s' = set_ram (ram_write buffer (eth_bytes dst src type bytes) (m_ram s)) s).
Proof. apply wp_build_eth_frame. Qed.

(** An ARP reply for IPv4 over Ethernet on the wire: the IP words are stored
    low byte first. *)
Definition arp_reply_bytes (src_mac : list Z) (src_ip : Z) (dst_mac : list Z) (dst_ip : Z) : list Z :=
  [0; 1; 8; 0; 6; 4; 0; 2] ++ src_mac ++ le_bytes 4 src_ip ++ dst_mac ++ le_bytes 4 dst_ip.

Lemma length_arp_reply src_mac src_ip dst_mac dst_ip :
  length src_mac = 6%nat → length dst_mac = 6%nat →
  length (arp_reply_bytes src_mac src_ip dst_mac dst_ip) = 28%nat.
Proof. intros H1 H2. unfold arp_reply_bytes. rewrite !length_app, H1, H2. done. Qed.

Lemma wp_build_arp_response buffer src_mac src_ip dst_mac dst_ip s (Q : unit → machine → Prop) :
  length src_mac = 6%nat → length dst_mac = 6%nat → in_ram buffer 28 = true →
  Q tt (set_ram (ram_write buffer (arp_reply_bytes src_mac src_ip dst_mac dst_ip) (m_ram s)) s) →
  wp (build_arp_response buffer src_mac src_ip dst_mac dst_ip) s Q.
Proof.
  intros Hs Hd Hb HQ. unfold build_arp_response.
  assert (∀ (o : Z) (n : nat), 0 <= o → o + n <= 28 → in_ram (buffer + o) n = true) as Hin.
  { intros. eapply in_ram_sub; [exact Hb|lia..]. }
  apply wp_bind, wp_store; [eapply in_ram_sub; [exact Hb|unfold arp_htype; lia..]|].
  do 4 (apply wp_bind, wp_store; [apply Hin; lia|]).
  apply wp_bind, wp_mac_loop; [done|done|unfold arp_sha, arp_tha; lia|apply Hin; lia..|].
  apply wp_bind, wp_store; [apply Hin; lia|]. apply wp_store; [apply Hin; lia|].
  rewrite !ram_set_ram, !set_ram_ram. rewrite !ram_store_write, !le_bytes_ntohs by done.
  change (le_bytes 1 6) with [6]. change (le_bytes 1 4) with [4].
  rewrite (ram_write_comm (arp_spa buffer)) by (rewrite length_le_bytes, Hd; unfold arp_spa, arp_tha; lia).
  unfold arp_reply_bytes in HQ.
  change [0; 1; 8; 0; 6; 4; 0; 2] with ([0; 1] ++ [8; 0] ++ [6] ++ [4] ++ [0; 2]) in HQ.
  rewrite <- !app_assoc, !ram_write_app, Hs, Hd, length_le_bytes in HQ.
  rewrite <- !Z.add_assoc in HQ. exact HQ.
Qed.

(** The fields of the packet, as [parse_arp] reads them. *)
Lemma arp_reply_fields buffer src_mac src_ip dst_mac dst_ip r :
  length src_mac = 6%nat → length dst_mac = 6%nat →
  0 <= src_ip < 2 ^ 32 → 0 <= dst_ip < 2 ^ 32 →
  let r' := ram_write buffer (arp_reply_bytes src_mac src_ip dst_mac dst_ip) r in
  ntohs (ram_load 2 (arp_oper buffer) r') = 2 ∧
  ram_load 4 (arp_spa buffer) r' = src_ip ∧ ram_load 4 (arp_tpa buffer) r' = dst_ip.
Proof.
  intros Hs Hd Hsi Hdi r'. unfold r', arp_reply_bytes. split_and!.
  - change [0; 1; 8; 0; 6; 4; 0; 2] with ([0; 1; 8; 0; 6; 4] ++ le_bytes 2 512).
    rewrite <- app_assoc, ram_load_write_mid by done. done.
  - rewrite app_assoc, ram_load_write_mid by (rewrite length_app, Hs; done).
    apply Z.mod_small, Hsi.
  - rewrite <- (app_nil_r (le_bytes 4 dst_ip)), (app_assoc _ src_mac), (app_assoc _ (le_bytes 4 src_ip)),
      (app_assoc _ dst_mac).
    rewrite ram_load_write_mid by (rewrite !length_app, Hs, Hd; done). apply Z.mod_small, Hdi.
Qed.

Context {TX : UartTx}.

(** C31: ARP round trip.  [build_arp_response] writes exactly the 28 bytes of an
    ARP reply, and [parse_arp] run on them reports a reply from the sender's to
    the target's address, both in dotted decimal. *)
Theorem arp_roundtrip buffer src_mac src_ip dst_mac dst_ip s :
  length src_mac = 6%nat → length dst_mac = 6%nat →
  0 <= src_ip < 2 ^ 32 → 0 <= dst_ip < 2 ^ 32 → in_ram buffer 28 = true →
  wp (build_arp_response buffer src_mac src_ip dst_mac dst_ip) s (λ _ s1,
    s1 = set_ram (ram_write buffer (arp_reply_bytes src_mac src_ip dst_mac dst_ip) (m_ram s)) s ∧
    wp (parse_arp buffer) s1 (λ _ s2, ∃ t1 t2, dotted src_ip t1 ∧ dotted dst_ip t2 ∧
      prints s1 s2 (chars "  ARP: Reply from " ++ t1 ++ chars " to " ++ t2 ++ [ch_nl]))).
Proof.
  intros Hs Hd Hsi Hdi Hb. apply wp_build_arp_response; [done..|]. split; [done|].
  eapply says_wp; [by apply says_parse_arp|done|]. intros s2 Hp.
  exists (ip_text src_ip), (ip_text dst_ip). split_and!; [apply ip_text_dotted..|].
  unfold arp_text in Hp. rewrite ram_set_ram in Hp.
  destruct (arp_reply_fields buffer src_mac src_ip dst_mac dst_ip (m_ram s)) as (E1 & E2 & E3);
    [done..|]. rewrite E1, E2, E3 in Hp. unfold arp_report in Hp.
  change (2 =? 1) with false in Hp. change (2 =? 2) with true in Hp. cbv iota in Hp.
  change (chars "  ARP: Reply from ") with (chars "  ARP: " ++ chars "Reply from ").
  rewrite <- !app_assoc in Hp. rewrite <- !app_assoc. exact Hp.
Qed.
End build.
