(* ===== verification/Virtio.v ===== *)
(** * virt_mmio.c: the virtio network driver

    The device registers are words of the device window; the virtqueues live in
    memory, and the driver's own state of them is [m_net].  What devices write
    to memory happens at fences ([mem_barrier] of Machine.v). *)

From S2P Require Import Prelude Globals Machine Utils Uart Heap Paging Packet.

Definition VIRTIO_MAGIC : Z := 0x74726976.
Definition QEMU_VENDOR_ID : Z := 0x554D4551.

Definition VIRTIO_F_VERSION_1 : Z := BIT_MASK 0.
Definition VIRTIO_NET_F_MAC : Z := BIT_MASK 15.

Definition VIRTIO_MMIO_STATUS : Z := 0x070.
Definition VIRTIO_MMIO_DEVICE_FEATURES : Z := 0x010.
Definition VIRTIO_MMIO_DEVICE_FEATURES_SEL : Z := 0x014.
Definition VIRTIO_MMIO_DRIVER_FEATURES : Z := 0x020.
Definition VIRTIO_MMIO_DRIVER_FEATURES_SEL : Z := 0x024.
Definition VIRTIO_MMIO_CONFIG : Z := 0x100.
Definition VIRTIO_MMIO_QUEUE_SEL : Z := 0x030.
Definition VIRTIO_MMIO_QUEUE_NUM_MAX : Z := 0x034.
Definition VIRTIO_MMIO_QUEUE_NUM : Z := 0x038.
Definition VIRTIO_MMIO_QUEUE_READY : Z := 0x044.
Definition VIRTIO_MMIO_QUEUE_NOTIFY : Z := 0x050.
Definition VIRTIO_MMIO_QUEUE_DESC_LOW : Z := 0x080.
Definition VIRTIO_MMIO_QUEUE_DESC_HIGH : Z := 0x084.
Definition VIRTIO_MMIO_QUEUE_AVAIL_LOW : Z := 0x090.
Definition VIRTIO_MMIO_QUEUE_AVAIL_HIGH : Z := 0x094.
Definition VIRTIO_MMIO_QUEUE_USED_LOW : Z := 0x0A0.
Definition VIRTIO_MMIO_QUEUE_USED_HIGH : Z := 0x0A4.

Definition ACKNOWLEDGE : Z := BIT_MASK 0.
Definition DRIVER : Z := BIT_MASK 1.
Definition DRIVER_OK : Z := BIT_MASK 2.
Definition FEATURES_OK : Z := BIT_MASK 3.

Definition DESC_QUEUE_SIZE : Z := 256.
Definition QUEUE_BUF_SIZE : Z := 2048.
Definition VIRTQ_DESC_F_WRITE : Z := BIT_MASK 1.

(** [enum virtio_net_queue_index]. *)
Definition VIRTIO_NET_RX_QUEUE : Z := 0.
Definition VIRTIO_NET_TX_QUEUE : Z := 1.
Definition VIRTIO_NET_QUEUE_COUNT : Z := 2.

(** ** The layout of [struct virtq]

    256 descriptors of 16 bytes, the available ring, the used ring. *)
Definition virtq_desc (ring i : Z) : Z := ring + 16 * i.
Definition desc_addr (ring i : Z) : Z := virtq_desc ring i.
Definition desc_len (ring i : Z) : Z := virtq_desc ring i + 8.
Definition desc_id (ring i : Z) : Z := virtq_desc ring i + 12.
Definition desc_flags (ring i : Z) : Z := virtq_desc ring i + 14.
Definition virtq_avail (ring : Z) : Z := ring + 16 * DESC_QUEUE_SIZE.
Definition avail_idx (ring : Z) : Z := virtq_avail ring + 2.
Definition avail_ring (ring i : Z) : Z := virtq_avail ring + 4 + 2 * i.
Definition virtq_used (ring : Z) : Z := virtq_avail ring + (4 + 2 * DESC_QUEUE_SIZE).
Definition used_idx (ring : Z) : Z := virtq_used ring + 2.
Definition used_elem (ring i : Z) : Z := virtq_used ring + 4 + 8 * i.
Definition elem_id (elem : Z) : Z := elem.
Definition elem_len (elem : Z) : Z := elem + 4.
Definition sizeof_virtq : Z := 16 * DESC_QUEUE_SIZE + (4 + 2 * DESC_QUEUE_SIZE) + (4 + 8 * DESC_QUEUE_SIZE).

(** [uint8_t my_ip[4] = {10, 0, 2, 15};] and [*(uint32_t * )my_ip]. *)
Definition my_ip : list Z := [10; 0; 2; 15].
Definition my_ip_word : Z := foldr (λ b w, b + 2 ^ 8 * w) 0 my_ip.

(** ** Assignments to the fields of a queue *)

Definition with_ring (v : Z) (q : virtio_net_queue) : virtio_net_queue :=
  NetQueue v (q_buffers q) (q_size q) (q_last_used_idx q) (q_next_desc q) (q_in_use q).
Definition with_buffers (v : Z) (q : virtio_net_queue) : virtio_net_queue :=
  NetQueue (q_ring q) v (q_size q) (q_last_used_idx q) (q_next_desc q) (q_in_use q).
Definition with_size (v : Z) (q : virtio_net_queue) : virtio_net_queue :=
  NetQueue (q_ring q) (q_buffers q) v (q_last_used_idx q) (q_next_desc q) (q_in_use q).
Definition with_last_used (v : Z) (q : virtio_net_queue) : virtio_net_queue :=
  NetQueue (q_ring q) (q_buffers q) (q_size q) v (q_next_desc q) (q_in_use q).
Definition with_next_desc (v : Z) (q : virtio_net_queue) : virtio_net_queue :=
  NetQueue (q_ring q) (q_buffers q) (q_size q) (q_last_used_idx q) v (q_in_use q).
Definition with_in_use (v : list Z) (q : virtio_net_queue) : virtio_net_queue :=
  NetQueue (q_ring q) (q_buffers q) (q_size q) (q_last_used_idx q) (q_next_desc q) v.

Section virtio.
Context `{Platform}.

(** [net_queues[i]]; an index outside the array has no defined behaviour. *)
Definition get_queue (i : Z) : M virtio_net_queue := λ s,
  match m_net s !! Z.to_nat i with Some q => Ok q s | None => Stop Undefined s end.

Definition upd_queue (i : Z) (f : virtio_net_queue → virtio_net_queue) : M unit :=
  modify (λ s, set_net (alter f (Z.to_nat i) (m_net s)) s).

(** [a % b] of unsigned operands. *)
Definition umod (a b : Z) : M Z := if b =? 0 then halt Undefined else ret (a mod b).

(** [queue->in_use[d]] and the assignment to it. *)
Definition get_in_use (i d : Z) : M Z :=
  q <- get_queue i; array_get (q_in_use q) d.

Definition set_in_use (i d v : Z) : M unit :=
  q <- get_queue i;
  if decide (Z.to_nat d < length (q_in_use q))%nat
  then upd_queue i (with_in_use (<[Z.to_nat d := v]> (q_in_use q))) else halt Undefined.

(** ** Registers *)

Definition virt_mmio_read (device offset : Z) : M Z := r32 (device + 4 * (offset / 4)).

Definition virt_mmio_write (device offset value : Z) : M unit := w32 (device + 4 * (offset / 4)) value.

Definition virt_mmio_read_config (device offset buf len : Z) : M unit :=
  let config_base := device + VIRTIO_MMIO_CONFIG in
  mem_copy buf (config_base + offset) len.

Definition mem_zero (buffer length : Z) : M unit :=
  for_from 0 (Z.to_nat length) (λ i, store 1 (buffer + i) 0).

(** ** Queues *)

(** The loop that fills in the descriptors of a queue; [queue->size] is read
    again in every iteration and does not change. *)
Definition init_desc (queue_index i : Z) : M unit :=
  q <- get_queue queue_index;
  store 8 (desc_addr (q_ring q) i) (u64 (q_buffers q + u64 (i * QUEUE_BUF_SIZE))) ;;
  store 4 (desc_len (q_ring q) i) QUEUE_BUF_SIZE ;;
  store 2 (desc_flags (q_ring q) i)
    (if queue_index =? VIRTIO_NET_RX_QUEUE then VIRTQ_DESC_F_WRITE else 0).

(** One iteration of the outer loop; [false] when the memory runs out. *)
Definition init_queue (queue_index : Z) : M bool :=
  ring <- mem_alloc sizeof_virtq;
  upd_queue queue_index (with_ring ring) ;;
  buffers <- mem_alloc (QUEUE_BUF_SIZE * DESC_QUEUE_SIZE);
  upd_queue queue_index (with_buffers buffers) ;;
  if (ring =? 0) || (buffers =? 0) then
    uart_puts (lit ("Failed to allocate Virtio queue memory." ++ nl)) ;;
    ret false
  else
  mem_zero ring sizeof_virtq ;;
  mem_zero buffers (QUEUE_BUF_SIZE * DESC_QUEUE_SIZE) ;;
  upd_queue queue_index (with_size DESC_QUEUE_SIZE) ;;
  upd_queue queue_index (with_last_used 0) ;;
  upd_queue queue_index (with_next_desc 0) ;;
  q <- get_queue queue_index;
  for_from 0 (Z.to_nat (q_size q)) (init_desc queue_index) ;;
  ret true.

Definition virt_mmio_net_virtq_init (device : Z) : M Z :=
  uart_puts (lit ("Initializing Virtio Network Device Queue..." ++ nl)) ;;
  ok <- init_queue 0;
  if negb ok then ret (-1) else
  ok <- init_queue 1;
  if negb ok then ret (-1) else
  rx <- get_queue VIRTIO_NET_RX_QUEUE;
  for_from 0 (Z.to_nat (q_size rx)) (λ i, store 2 (avail_ring (q_ring rx) i) i) ;;
  store 2 (avail_idx (q_ring rx)) (q_size rx) ;;
  mem_barrier ;;
  uart_puts (lit ("Virtio Network Device Queue initialized." ++ nl)) ;;
  ret 0.

Definition virt_mmio_net_get_mac_address (device mac_buf : Z) : M unit :=
  virt_mmio_read_config device 0x0 mac_buf 6 ;;
  uart_puts (lit "MAC Address: ") ;;
  for_from 0 6 (λ i,
    b <- load 1 (mac_buf + i);
    uart_b2x b ;;
    when i <? 5 then uart_putc ch_colon end) ;;
  uart_putc ch_nl.

(** The search for a free descriptor, [n] steps from [desc_index]. *)
Fixpoint search_desc (n : nat) (desc_index : Z) : M Z :=
  match n with
  | O => ret desc_index
  | S n' =>
      u <- get_in_use VIRTIO_NET_TX_QUEUE desc_index;
      if u =? 0 then ret desc_index
      else
        tx <- get_queue VIRTIO_NET_TX_QUEUE;
        d <- umod (desc_index + 1) (q_size tx);
        search_desc n' d
  end.

(** [avail.ring[avail.idx % size] = desc_index], the part of publishing a
    descriptor that precedes the barrier. *)
Definition put_avail (ring size desc_index : Z) : M unit :=
  idx <- load 2 (avail_idx ring);
  slot <- umod idx size;
  store 2 (avail_ring ring slot) (u16 desc_index).

(** [avail.idx++] *)
Definition bump_avail (ring : Z) : M unit :=
  idx <- load 2 (avail_idx ring);
  store 2 (avail_idx ring) (u16 (idx + 1)).

Definition virt_mmio_net_send (device data length : Z) : M unit :=
  uart_puts (lit ("Sending data via Virtio Network Device..." ++ nl)) ;;
  tx <- get_queue VIRTIO_NET_TX_QUEUE;
  if QUEUE_BUF_SIZE <? length then
    uart_puts (lit ("TX packet exceeds queue buffer size." ++ nl))
  else
  desc_index <- search_desc (Z.to_nat (q_size tx)) (q_next_desc tx);
  u <- get_in_use VIRTIO_NET_TX_QUEUE desc_index;
  if negb (u =? 0) then uart_puts (lit ("No free TX descriptors." ++ nl))
  else
  addr <- load 8 (desc_addr (q_ring tx) desc_index);
  mem_copy addr data length ;;
  store 4 (desc_len (q_ring tx) desc_index) length ;;
  store 2 (desc_flags (q_ring tx) desc_index) 0 ;;
  put_avail (q_ring tx) (q_size tx) desc_index ;;
  set_in_use VIRTIO_NET_TX_QUEUE desc_index 1 ;;
  next <- umod (desc_index + 1) (q_size tx);
  upd_queue VIRTIO_NET_TX_QUEUE (with_next_desc next) ;;
  mem_barrier ;;
  bump_avail (q_ring tx) ;;
  mem_barrier ;;
  virt_mmio_write device VIRTIO_MMIO_QUEUE_NOTIFY VIRTIO_NET_TX_QUEUE.

(** ** Receiving *)

(** What [virt_mmio_net_poll_rx] prints about a frame. *)
Definition report_frame (frame : Z) : M unit :=
  type <- load 2 (eth_type frame);
  let eth_type := ntohs type in
  uart_puts (lit "Received Frame [") ;;
  print_mac (eth_src frame) ;;
  uart_puts (lit " -> ") ;;
  print_mac (eth_dst frame) ;;
  uart_puts (lit "] type=0x") ;;
  uart_b2x eth_type ;;
  uart_putc ch_nl ;;
  if eth_type =? ETH_P_IP then
    let ip := frame + sizeof_eth_hdr in
    uart_puts (lit "  IPv4: ") ;;
    src <- load 4 (ip_src ip); print_ip src ;;
    uart_puts (lit " -> ") ;;
    dst <- load 4 (ip_dst ip); print_ip dst ;;
    uart_puts (lit " proto=") ;;
    proto <- load 1 (ip_proto ip); uart_b2x proto ;;
    uart_putc ch_nl
  else if eth_type =? ETH_P_ARP then
    uart_puts (lit ("  ARP Packet detected" ++ nl)) ;;
    parse_arp (frame + sizeof_eth_hdr)
  else ret tt.

(** Handing the descriptor back to the device. *)
Definition recycle_rx (device desc_index : Z) : M unit :=
  rx <- get_queue VIRTIO_NET_RX_QUEUE;
  put_avail (q_ring rx) (q_size rx) desc_index ;;
  mem_barrier ;;
  bump_avail (q_ring rx) ;;
  upd_queue VIRTIO_NET_RX_QUEUE (with_last_used (u16 (q_last_used_idx rx + 1))) ;;
  mem_barrier ;;
  virt_mmio_write device VIRTIO_MMIO_QUEUE_NOTIFY VIRTIO_NET_RX_QUEUE.

(** The body of the polling loop: [inl] to go round again, [inr true] to jump
    to [exit], [inr false] to return from the function. *)
Definition poll_rx_body (device length : Z) : M (unit + bool) :=
  mem_barrier ;;
  rx <- get_queue VIRTIO_NET_RX_QUEUE;
  idx <- load 2 (used_idx (q_ring rx));
  if negb (q_last_used_idx rx =? idx) then
    uart_puts (lit "Device updated used index to: ") ;;
    idx <- load 2 (used_idx (q_ring rx)); uart_b2x idx ;;
    uart_putc ch_nl ;;
    slot <- umod (q_last_used_idx rx) (q_size rx);
    let elem := used_elem (q_ring rx) slot in
    desc_index <- load 4 (elem_id elem);
    len <- load 4 (elem_len elem);
    if q_size rx <=? desc_index then
      uart_puts (lit ("Device returned an invalid RX descriptor." ++ nl)) ;;
      ret (inr false)
    else
    buf_addr <- load 8 (desc_addr (q_ring rx) desc_index);
    let len := if length <? len then length else len in
    let frame := buf_addr + sizeof_virtio_net_hdr in
    let frame_len := u32 (len - sizeof_virtio_net_hdr) in
    report_frame frame ;;
    recycle_rx device desc_index ;;
    uart_puts (lit "Received data length: ") ;;
    uart_b2x frame_len ;;
    uart_putc ch_nl ;;
    ret (inr true)
  else ret (inl tt).

Definition virt_mmio_net_poll_rx (device buffer length : Z) : M unit :=
  uart_puts (lit ("Polling for received data via Virtio Network Device..." ++ nl)) ;;
  exit <- loop fuel (λ _ : unit, poll_rx_body device length) tt;
  when (exit : bool) then uart_puts (lit ("Finished polling for received data." ++ nl)) end.

(** ** Transmitting *)

Definition bcast_mac : list Z := [0xFF; 0xFF; 0xFF; 0xFF; 0xFF; 0xFF].
Definition own_mac : list Z := [0xDE; 0xAD; 0xBE; 0xEF; 0x00; 0x01].

(** The body of the loop that waits for the device. *)
Definition tx_wait_body : M (unit + unit) :=
  mem_barrier ;;
  tx <- get_queue VIRTIO_NET_TX_QUEUE;
  idx <- load 2 (used_idx (q_ring tx));
  if negb (q_last_used_idx tx =? idx) then
    uart_puts (lit ("Device processed TX descriptor." ++ nl)) ;;
    slot <- umod (q_last_used_idx tx) (q_size tx);
    let used := used_elem (q_ring tx) slot in
    id <- load 4 (elem_id used);
    (if id <? q_size tx then
       id <- load 4 (elem_id used); set_in_use VIRTIO_NET_TX_QUEUE id 0
     else ret tt) ;;
    upd_queue VIRTIO_NET_TX_QUEUE (with_last_used (u16 (q_last_used_idx tx + 1))) ;;
    ret (inr tt)
  else ret (inl tt).

Definition virt_mmio_net_tx (device data length : Z) : M Z :=
  packet <- mem_alloc (u32 (length + sizeof_arp_hdr + sizeof_eth_hdr + sizeof_virtio_net_hdr));
  if packet =? 0 then
    uart_puts (lit ("Failed to allocate memory for TX packet." ++ nl)) ;;
    ret (-1)
  else
  build_virtio_net_hdr packet 0 0 0 0 0 0 ;;
  let p := packet + sizeof_virtio_net_hdr in
  build_eth_frame p bcast_mac own_mac ETH_P_IP data (u16 length) ;;
  let p := p + sizeof_eth_hdr in
  build_arp_response p own_mac (ntohl my_ip_word) bcast_mac 0 ;;
  mem_copy (p + sizeof_arp_hdr) data length ;;
  virt_mmio_net_send device data length ;;
  uart_puts (lit ("Data sent, waiting for completion..." ++ nl)) ;;
  loop fuel (λ _ : unit, tx_wait_body) tt ;;
  ret 0.

(** ** Discovery and negotiation *)

(** [uart_puts(label); uart_b2x(virt_mmio_read(device, offset)); uart_putc(newline);] *)
Definition print_reg (label : String.string) (device offset : Z) : M unit :=
  uart_puts (lit label) ;;
  v <- virt_mmio_read device offset; uart_b2x v ;;
  uart_putc ch_nl.

Definition virt_print_device_info (device : Z) : M unit :=
  uart_puts (lit ("Virtio MMIO Device Info:" ++ nl)) ;;
  print_reg "Magic: " device 0x000 ;;
  print_reg "Version: " device 0x004 ;;
  print_reg "Device ID: " device 0x008 ;;
  print_reg "Vendor ID: " device 0x00c ;;
  print_reg "Queue Max Size: " device VIRTIO_MMIO_QUEUE_NUM_MAX ;;
  print_reg "Host feature sel: " device VIRTIO_MMIO_DEVICE_FEATURES_SEL ;;
  print_reg "Host Features Low: " device VIRTIO_MMIO_DEVICE_FEATURES ;;
  print_reg "Guest Features Low: " device VIRTIO_MMIO_DRIVER_FEATURES ;;
  virt_mmio_write device VIRTIO_MMIO_DEVICE_FEATURES_SEL 1 ;;
  print_reg "Host feature sel: " device VIRTIO_MMIO_DEVICE_FEATURES_SEL ;;
  print_reg "Host Features High: " device VIRTIO_MMIO_DEVICE_FEATURES ;;
  print_reg "Guest Features High: " device VIRTIO_MMIO_DRIVER_FEATURES.

Definition virt_mmio_setup_queue (device queue_index : Z) : M Z :=
  virt_mmio_write device VIRTIO_MMIO_QUEUE_SEL queue_index ;;
  max_size <- virt_mmio_read device VIRTIO_MMIO_QUEUE_NUM_MAX;
  queue <- get_queue queue_index;
  if max_size <? q_size queue then
    uart_puts (lit ("Virtio queue is smaller than the driver queue." ++ nl)) ;;
    ret (-1)
  else
  let desc_addr := q_ring queue in
  let avail_addr := virtq_avail (q_ring queue) in
  let used_addr := virtq_used (q_ring queue) in
  virt_mmio_write device VIRTIO_MMIO_QUEUE_NUM (q_size queue) ;;
  virt_mmio_write device VIRTIO_MMIO_QUEUE_DESC_LOW (u32 desc_addr) ;;
  virt_mmio_write device VIRTIO_MMIO_QUEUE_DESC_HIGH (u32 (desc_addr >> 32)) ;;
  virt_mmio_write device VIRTIO_MMIO_QUEUE_AVAIL_LOW (u32 avail_addr) ;;
  virt_mmio_write device VIRTIO_MMIO_QUEUE_AVAIL_HIGH (u32 (avail_addr >> 32)) ;;
  virt_mmio_write device VIRTIO_MMIO_QUEUE_USED_LOW (u32 used_addr) ;;
  virt_mmio_write device VIRTIO_MMIO_QUEUE_USED_HIGH (u32 (used_addr >> 32)) ;;
  mem_barrier ;;
  virt_mmio_write device VIRTIO_MMIO_QUEUE_READY 1 ;;
  ret 0.

Definition virt_mmio_negotiation (device : Z) : M Z :=
  uart_puts (lit ("Starting Virtio MMIO handshake..." ++ nl)) ;;
  virt_mmio_write device VIRTIO_MMIO_STATUS ACKNOWLEDGE ;;
  virt_mmio_write device VIRTIO_MMIO_STATUS (ACKNOWLEDGE .| DRIVER) ;;
  virt_mmio_write device VIRTIO_MMIO_DEVICE_FEATURES_SEL 0 ;;
  f <- virt_mmio_read device VIRTIO_MMIO_DEVICE_FEATURES;
  let feat_low := f & VIRTIO_NET_F_MAC in
  virt_mmio_write device VIRTIO_MMIO_DEVICE_FEATURES_SEL 1 ;;
  feat_high <- virt_mmio_read device VIRTIO_MMIO_DEVICE_FEATURES;
  if (feat_high & VIRTIO_F_VERSION_1) =? 0 then
    uart_puts (lit ("Virtio MMIO device does not support VERSION_1." ++ nl)) ;;
    ret (-1)
  else
  virt_mmio_write device VIRTIO_MMIO_DRIVER_FEATURES_SEL 0 ;;
  virt_mmio_write device VIRTIO_MMIO_DRIVER_FEATURES feat_low ;;
  virt_mmio_write device VIRTIO_MMIO_DRIVER_FEATURES_SEL 1 ;;
  virt_mmio_write device VIRTIO_MMIO_DRIVER_FEATURES VIRTIO_F_VERSION_1 ;;
  status <- virt_mmio_read device VIRTIO_MMIO_STATUS;
  virt_mmio_write device VIRTIO_MMIO_STATUS (status .| FEATURES_OK) ;;
  st <- virt_mmio_read device VIRTIO_MMIO_STATUS;
  if (st & FEATURES_OK) =? 0 then
    uart_puts (lit ("Virtio MMIO negotiation failed." ++ nl)) ;;
    ret (-1)
  else
  v <- virt_mmio_setup_queue device 0;
  if negb (v =? 0) then ret (-1) else
  v <- virt_mmio_setup_queue device 1;
  if negb (v =? 0) then ret (-1) else
  status <- virt_mmio_read device VIRTIO_MMIO_STATUS;
  virt_mmio_write device VIRTIO_MMIO_STATUS (status .| DRIVER_OK) ;;
  mem_barrier ;;
  virt_mmio_write device VIRTIO_MMIO_QUEUE_NOTIFY VIRTIO_NET_RX_QUEUE ;;
  uart_puts (lit ("Virtio MMIO negotiation completed." ++ nl)) ;;
  ret 0.

(** The case of a network device; [mac_buf] is the address of the local array. *)
Definition start_net_device (mac_buf device : Z) : M unit :=
  uart_puts (lit ("Found Virtio Network Device." ++ nl)) ;;
  virt_print_device_info device ;;
  virt_mmio_write device VIRTIO_MMIO_STATUS 0 ;;
  v <- virt_mmio_net_virtq_init device;
  failed <- (if negb (v =? 0) then ret true
             else v <- virt_mmio_negotiation device; ret (negb (v =? 0)));
  if (failed : bool) then uart_puts (lit ("Virtio network initialization failed." ++ nl))
  else
  virt_mmio_net_get_mac_address device mac_buf ;;
  virt_mmio_net_poll_rx device 0 2048.

Definition probe_slot (mac_buf i : Z) : M unit :=
  let device := VIRTIO_SIZE * i + GPIO_BASE_ADDR in
  magic <- virt_mmio_read device 0x000;
  if negb (magic =? VIRTIO_MAGIC) then ret tt else
  vendor <- virt_mmio_read device 0x00c;
  if negb (vendor =? QEMU_VENDOR_ID) then ret tt else
  uart_puts (lit "Slot ") ;;
  uart_b2x i ;;
  uart_puts (lit ": ") ;;
  id <- virt_mmio_read device 0x008;
  if id =? 0 then uart_puts (lit ("Found placeholder." ++ nl))
  else if id =? 1 then start_net_device mac_buf device
  else if id =? 2 then uart_puts (lit ("Found Virtio Block Device." ++ nl))
  else
    uart_puts (lit "Found Unknown Virtio Device. Device ID: ") ;;
    id <- virt_mmio_read device 0x008; uart_b2x id ;;
    uart_putc ch_nl.

Definition virt_find_all_devices (mac_buf : Z) : M unit :=
  uart_puts (lit ("Scanning for Virtio MMIO devices..." ++ nl)) ;;
  for_from 1 (Z.to_nat VIRTIO_SLOTS) (probe_slot mac_buf).
End virtio.
