(* ===== verification/VirtioSpec.v ===== *)
(** * The virtio handshake as a protocol

    [vstep] is the device side of the initialisation sequence of the virtio
    standard (driver requirements of device initialisation and of the MMIO
    transport): it follows the register accesses and fences of a driver and
    says whether the driver broke a rule, the device did, or where they are.
    It is independent of the driver, whose register accesses are the trace of
    [virt_mmio_negotiation].  Also here: fences, and the class [DmaWithin] that
    says which memory devices write. *)

From S2P Require Import Prelude Globals Machine Utils Uart Heap Paging Packet Virtio.

(** What the device knows of a queue: the registers of its configuration. *)
Record qcfg := QCfg { qc_max : Z; qc_reg : Z → option Z; qc_ready : bool }.

Record vstate := VState {
  vs_status : Z;            (* the status register *)
  vs_agreed : bool;         (* FEATURES_OK was read back *)
  vs_dsel : Z;
  vs_offered : Z → Z;       (* device features, by selector *)
  vs_gsel : Z;
  vs_accepted : Z → Z;      (* driver features, by selector *)
  vs_qsel : Z;
  vs_queue : Z → qcfg;
  vs_fence : bool;          (* no queue register was written since a fence *)
}.

Inductive verdict := Running (v : vstate) | BadDevice | BadDriver.

Definition upd {A} (k : Z) (x : A) (f : Z → A) : Z → A := λ j, if j =? k then x else f j.

Definition queue_regs : list Z :=
  [VIRTIO_MMIO_QUEUE_NUM; VIRTIO_MMIO_QUEUE_DESC_LOW; VIRTIO_MMIO_QUEUE_DESC_HIGH;
   VIRTIO_MMIO_QUEUE_AVAIL_LOW; VIRTIO_MMIO_QUEUE_AVAIL_HIGH;
   VIRTIO_MMIO_QUEUE_USED_LOW; VIRTIO_MMIO_QUEUE_USED_HIGH].

(** A 64-bit address from its two registers. *)
Definition qc_addr (q : qcfg) (lo hi : Z) : option Z :=
  match qc_reg q lo, qc_reg q hi with
  | Some l, Some h => Some (l + 2 ^ 32 * h)
  | _, _ => None
  end.
Definition qc_desc (q : qcfg) := qc_addr q VIRTIO_MMIO_QUEUE_DESC_LOW VIRTIO_MMIO_QUEUE_DESC_HIGH.
Definition qc_avail (q : qcfg) := qc_addr q VIRTIO_MMIO_QUEUE_AVAIL_LOW VIRTIO_MMIO_QUEUE_AVAIL_HIGH.
Definition qc_used (q : qcfg) := qc_addr q VIRTIO_MMIO_QUEUE_USED_LOW VIRTIO_MMIO_QUEUE_USED_HIGH.

Definition multiple_of (n : Z) (x : option Z) : bool :=
  match x with Some a => a mod n =? 0 | None => false end.

(** A queue may be made ready when its size is a power of two the device
    allows and its three parts are placed with the required alignment. *)
Definition configured (q : qcfg) : bool :=
  match qc_reg q VIRTIO_MMIO_QUEUE_NUM with
  | Some n => (0 <? n) && ((n & (n - 1)) =? 0) && (n <=? qc_max q)
  | None => false
  end && multiple_of 16 (qc_desc q) && multiple_of 2 (qc_avail q) && multiple_of 4 (qc_used q).

(** What a read of the status register may return after [c]: the device may
    refuse FEATURES_OK (once agreed it may not), and ask for a reset (bit 6). *)
Definition status_reads (agreed : bool) (c : Z) : list Z :=
  [c; c .| BIT_MASK 6] ++
  if agreed then [] else [c & Z.lnot FEATURES_OK; (c & Z.lnot FEATURES_OK) .| BIT_MASK 6].

Definition has (c b : Z) : bool := negb ((c & b) =? 0).

Definition vread (v : vstate) (o x : Z) : verdict :=
  let 'VState st ag ds off gs acc qs qu fe := v in
  if o =? VIRTIO_MMIO_STATUS then
    if bool_decide (x ∈ status_reads ag st)
    then Running (VState x (has x FEATURES_OK) ds off gs acc qs qu fe) else BadDevice
  else if o =? VIRTIO_MMIO_DEVICE_FEATURES then
    Running (VState st ag ds (upd ds x off) gs acc qs qu fe)
  else if o =? VIRTIO_MMIO_QUEUE_NUM_MAX then
    Running (VState st ag ds off gs acc qs (upd qs (QCfg x (qc_reg (qu qs)) (qc_ready (qu qs))) qu) fe)
  else Running v.

(** The rules for a new status: no bit is cleared, the bits are set in order,
    FEATURES_OK only when VERSION_1 was accepted, DRIVER_OK only when the
    features are agreed and both queues are ready. *)
Definition status_rule (v : vstate) (x : Z) : bool :=
  ((vs_status v & Z.lnot x) =? 0) &&
  implb (has x DRIVER) (has x ACKNOWLEDGE) &&
  implb (has x FEATURES_OK) (has x DRIVER && has (vs_accepted v 1) VIRTIO_F_VERSION_1) &&
  implb (has x DRIVER_OK) (vs_agreed v && qc_ready (vs_queue v 0) && qc_ready (vs_queue v 1)).

Definition vwrite (v : vstate) (o x : Z) : verdict :=
  let 'VState st ag ds off gs acc qs qu fe := v in
  let check (b : bool) (v' : vstate) := if b then Running v' else BadDriver in
  let q := qu qs in
  if o =? VIRTIO_MMIO_STATUS then
    check (status_rule v x) (VState x ag ds off gs acc qs qu fe)
  else if o =? VIRTIO_MMIO_DEVICE_FEATURES_SEL then Running (VState st ag x off gs acc qs qu fe)
  else if o =? VIRTIO_MMIO_DRIVER_FEATURES_SEL then Running (VState st ag ds off x acc qs qu fe)
  else if o =? VIRTIO_MMIO_DRIVER_FEATURES then
    check (negb (has st FEATURES_OK) && ((x & Z.lnot (off gs)) =? 0))
      (VState st ag ds off gs (upd gs x acc) qs qu fe)
  else if o =? VIRTIO_MMIO_QUEUE_SEL then Running (VState st ag ds off gs acc x qu fe)
  else if o =? VIRTIO_MMIO_QUEUE_READY then
    check (ag && configured q && fe)
      (VState st ag ds off gs acc qs (upd qs (QCfg (qc_max q) (qc_reg q) true) qu) fe)
  else if o =? VIRTIO_MMIO_QUEUE_NOTIFY then
    check (has st DRIVER_OK && qc_ready (qu x)) v
  else if bool_decide (o ∈ queue_regs) then
    check (ag && negb (qc_ready q))
      (VState st ag ds off gs acc qs (upd qs (QCfg (qc_max q) (upd o (Some x) (qc_reg q)) (qc_ready q)) qu) false)
  else BadDriver.

Definition vfence (v : vstate) : verdict :=
  let 'VState st ag ds off gs acc qs qu _ := v in
  Running (VState st ag ds off gs acc qs qu true).

Definition vbind (vd : verdict) (f : vstate → verdict) : verdict :=
  match vd with Running v => f v | _ => vd end.

(** The device at [device] follows one event. *)
Definition vstep (device : Z) (e : event) (v : vstate) : verdict :=
  match e with
  | ERead a _ x => vread v (a - device) x
  | EWrite a _ x => vwrite v (a - device) x
  | EFence => vfence v
  end.

Definition vrun (device : Z) (vd : verdict) (evs : list event) : verdict :=
  foldl (λ vd e, vbind vd (vstep device e)) vd evs.

(** A device after a reset. *)
Definition vreset : vstate :=
  VState 0 false 0 (λ _, 0) 0 (λ _, 0) 0 (λ _, QCfg 0 (λ _, None) false) false.

(** ** Fences *)

Section fences.
Context `{Platform}.
Implicit Types (s : machine).

Definition fenced s s' : Prop := mem_barrier s = Ok tt s'.

Lemma wp_fence s (Q : unit → machine → Prop) : (∀ s', fenced s s' → Q tt s') → wp mem_barrier s Q.
Proof.
  intros HQ. destruct (mem_barrier s) as [[] s'|] eqn:E; [|by unfold mem_barrier in E; case_match].
  apply (wp_intro _ _ tt s'); [done|]. by apply HQ.
Qed.

Lemma fenced_vars s s' : fenced s s' →
  m_net s' = m_net s ∧ m_heap s' = m_heap s ∧ m_csr s' = m_csr s ∧ m_sched s' = m_sched s.
Proof. unfold fenced, mem_barrier. destruct (dev_sync _ _). by intros [= <-]. Qed.

Lemma byte_at_dma ws r x :
  Forall (λ w, w.1 ≠ x) ws → byte_at (foldl (λ r w, <[w.1 := w.2]> r) r ws) x = byte_at r x.
Proof.
  intros Hw. revert r. induction Hw as [|w ws Hx _ IH]; intros r; [done|]. simpl. rewrite IH.
  by apply byte_at_insert_ne.
Qed.

(** What the writes of a device at a fence do not break. *)
Definition dma_stable (P : gmap Z Z → Prop) : Prop :=
  ∀ d r, P r → P (foldl (λ r w, <[w.1 := w.2]> r) r (dev_sync d r).1).

Lemma fenced_stable P s s' : dma_stable P → fenced s s' → P (m_ram s) → P (m_ram s').
Proof.
  intros HP. unfold fenced, mem_barrier. specialize (HP (m_dev s) (m_ram s)).
  destruct (dev_sync _ _) as [ws d]. intros [= <-]. exact HP.
Qed.
End fences.

(** Devices write only the memory [W] that they were given. *)
Class DmaWithin `{Platform} (W : Z → Prop) : Prop :=
  dma_within : ∀ d r, Forall (λ w, W w.1) (fst (dev_sync d r)).

Lemma dma_within_stable `{Platform} (W : Z → Prop) `{!DmaWithin W} r0 : dma_stable (same_on (λ x, ¬ W x) r0).
Proof.
  intros d r Hr x Hx. rewrite <- (Hr x Hx). apply byte_at_dma.
  eapply Forall_impl; [apply (dma_within (W := W))|]. intros w Hw E. simpl in *. congruence.
Qed.

Lemma fenced_same `{Platform} (W : Z → Prop) `{!DmaWithin W} s s' :
  fenced s s' → same_on (λ x, ¬ W x) (m_ram s) (m_ram s').
Proof. intros F. apply (fenced_stable _ s s' (dma_within_stable W (m_ram s)) F). done. Qed.

(** ** The accesses of the driver *)

#[global] Instance uart_event_dec e : Decision (uart_event e).
Proof. destruct e; apply _. Defined.

(** The events that are not the console's. *)
Definition bus (evs : list event) : list event := filter (λ e, ¬ uart_event e) evs.

Section acts.
Context `{Platform}.

(** [s'] is reached from [s] with the bus events [evs]; besides the devices
    only memory has changed, by what devices write at fences. *)
Definition acts (s s' : machine) (evs : list event) : Prop :=
  ∃ all r d, s' = set_trace (m_trace s ++ all) (set_dev d (set_ram r s)) ∧ bus all = evs ∧
    ∀ P, dma_stable P → P (m_ram s) → P r.

Lemma acts_nil s : acts s s [].
Proof. exists [], (m_ram s), (m_dev s). destruct s; simpl. by rewrite app_nil_r. Qed.

Lemma acts_trans s1 s2 s3 e1 e2 : acts s1 s2 e1 → acts s2 s3 e2 → acts s1 s3 (e1 ++ e2).
Proof.
  intros (a1 & r1 & d1 & -> & <- & H1) (a2 & r2 & d2 & -> & <- & H2). exists (a1 ++ a2), r2, d2.
  unfold bus. rewrite filter_app. destruct s1; simpl in *. rewrite app_assoc. split_and!; [done..|].
  intros P HP Hr. apply H2, H1; done.
Qed.

Lemma acts_prints s s' out : prints s s' out → acts s s' [].
Proof.
  intros (evs & [d ->] & Hu & _). exists evs, (m_ram s), d. split_and!; [by destruct s| |done].
  unfold bus. induction Hu; [done|]. by rewrite filter_cons_False by tauto.
Qed.

Lemma acts_net s s' evs : acts s s' evs → m_net s' = m_net s.
Proof. by intros (? & ? & ? & -> & _). Qed.
Lemma acts_heap s s' evs : acts s s' evs → m_heap s' = m_heap s.
Proof. by intros (? & ? & ? & -> & _). Qed.
Lemma acts_csr s s' evs : acts s s' evs → m_csr s' = m_csr s.
Proof. by intros (? & ? & ? & -> & _). Qed.
Lemma acts_sched s s' evs : acts s s' evs → m_sched s' = m_sched s.
Proof. by intros (? & ? & ? & -> & _). Qed.
Lemma acts_same (W : Z → Prop) `{!DmaWithin W} s s' evs :
  acts s s' evs → same_on (λ x, ¬ W x) (m_ram s) (m_ram s').
Proof. intros (? & ? & ? & -> & _ & HP). by apply (HP _ (dma_within_stable W (m_ram s))). Qed.
Lemma acts_stable P s s' evs : dma_stable P → acts s s' evs → P (m_ram s) → P (m_ram s').
Proof. intros HP (? & ? & ? & -> & _ & Hr). by apply Hr. Qed.

(** The registers of a VirtIO slot. *)
Definition slot_addr (device : Z) : Prop :=
  ∃ i, 1 <= i <= VIRTIO_SLOTS ∧ device = VIRTIO_SIZE * i + GPIO_BASE_ADDR.

Definition reg_offset (o : Z) : bool := (0 <=? o) && (o <? 0x200) && (o mod 4 =? 0).

Context (device : Z) (Hslot : slot_addr device).

Lemma slot_mmio (o : Z) : reg_offset o = true →
  device + 4 * (o / 4) = device + o ∧ in_ram (device + o) 4 = false ∧
  in_mmio (device + o) 4 = true ∧ ∀ x, ¬ uart_event (ERead (device + o) 4 x) ∧ ¬ uart_event (EWrite (device + o) 4 x).
Proof.
  intros Ho. unfold reg_offset in Ho. rewrite !andb_true_iff, Z.leb_le, Z.ltb_lt, Z.eqb_eq in Ho. destruct Hslot as (i & Hi & ->).
  unfold VIRTIO_SIZE, GPIO_BASE_ADDR, VIRTIO_SLOTS in *. simpl uart_event.
  unfold in_ram, in_mmio, RAM_BASE, MMIO_BASE, MMIO_END, UART0_BASE.
  split_and!; [dlia| | |].
  - apply andb_false_intro1, Z.leb_gt. lia.
  - apply andb_true_intro. rewrite !Z.leb_le. lia.
  - intros x. lia.
Qed.

(** The device has come to the verdict [vd] since [s0]. *)
Definition follows (s0 : machine) (vd : verdict) (s : machine) : Prop :=
  ∃ evs, acts s0 s evs ∧ vrun device (Running vreset) evs = vd.

Lemma follows_step s0 vd s s' e :
  follows s0 vd s → acts s s' [e] → follows s0 (vbind vd (vstep device e)) s'.
Proof.
  intros (evs & Ha & <-) He. exists (evs ++ [e]). split; [by eapply acts_trans|].
  unfold vrun. by rewrite foldl_app.
Qed.

Lemma vstep_write o n x : vstep device (EWrite (device + o) n x) = λ v, vwrite v o x.
Proof.
  change ((λ v, vwrite v (device + o - device) x) = λ v, vwrite v o x).
  by replace (device + o - device) with o by lia.
Qed.
Lemma vstep_read o n x : vstep device (ERead (device + o) n x) = λ v, vread v o x.
Proof.
  change ((λ v, vread v (device + o - device) x) = λ v, vread v o x).
  by replace (device + o - device) with o by lia.
Qed.

Lemma follows_net s0 vd s : follows s0 vd s → m_net s = m_net s0.
Proof. intros (evs & Ha & _). by eapply acts_net. Qed.

Lemma wp_vwrite s0 vd s o x (Q : unit → machine → Prop) :
  follows s0 vd s → reg_offset o = true →
  (∀ s', follows s0 (vbind vd (λ v, vwrite v o (u32 x))) s' → Q tt s') →
  wp (virt_mmio_write device o x) s Q.
Proof.
  intros HF Ho HQ. destruct (slot_mmio o Ho) as (E & Er & Em & Hu).
  unfold virt_mmio_write, w32. rewrite E. apply wp_io_write; [done..|].
  change (x mod _) with (u32 x). intros s' [d ->]. apply HQ. rewrite <- (vstep_write o 4).
  eapply follows_step; [done|]. eexists _, (m_ram s), d. split_and!; [by destruct s| |done]. unfold bus.
  rewrite filter_cons_True by apply Hu. done.
Qed.

Lemma wp_vread s0 vd s o (Q : Z → machine → Prop) :
  follows s0 vd s → reg_offset o = true →
  (∀ x s', 0 <= x < 2 ^ 32 → follows s0 (vbind vd (λ v, vread v o x)) s' → Q x s') →
  wp (virt_mmio_read device o) s Q.
Proof.
  intros HF Ho HQ. destruct (slot_mmio o Ho) as (E & Er & Em & Hu).
  unfold virt_mmio_read, r32. rewrite E. apply wp_io_read; [done..|].
  destruct (dev_read (m_dev s) (device + o) 4) as [v d]. cbv zeta. apply HQ.
  { apply Z.mod_pos_bound. lia. }
  rewrite <- (vstep_read o 4). eapply follows_step; [done|].
  eexists _, (m_ram s), d. split_and!; [by destruct s| |done]. unfold bus.
  rewrite filter_cons_True by apply Hu. done.
Qed.

Lemma wp_vfence s0 vd s (Q : unit → machine → Prop) :
  follows s0 vd s → (∀ s', follows s0 (vbind vd vfence) s' → Q tt s') → wp mem_barrier s Q.
Proof.
  intros HF HQ. apply wp_fence. intros s' Hs'. apply HQ. apply (follows_step _ vd s _ EFence HF).
  pose proof (λ P HP, fenced_stable P s s' HP Hs') as HW.
  unfold fenced, mem_barrier in Hs'. destruct (dev_sync _ _) as [ws d]. injection Hs' as <-.
  eexists _, _, d. split_and!; [by destruct s|done|exact HW].
Qed.

Context {TX : UartTx}.

Lemma wp_vputs s0 vd s str (Q : unit → machine → Prop) :
  follows s0 vd s → printable (chars str) = true → (∀ s', follows s0 vd s' → Q tt s') →
  wp (uart_puts (lit str)) s Q.
Proof.
  intros (evs & Ha & Hv) Hp HQ. apply wp_puts_lit; [done|]. intros s' P. apply HQ.
  exists evs. split; [|done]. rewrite <- (app_nil_r evs). eapply acts_trans; [done|by eapply acts_prints].
Qed.
End acts.

(** Step through register accesses, fences and messages. *)
Ltac vgo :=
  first
  [ apply wp_assoc
  | match goal with
    | F : follows _ _ _ _ |- wp (bind _ _) _ _ => apply wp_bind
    | F : follows ?d _ _ ?s |- wp (virt_mmio_write ?d _ _) ?s _ =>
        eapply (wp_vwrite d ltac:(eassumption) _ _ _ _ _ _ F); [reflexivity|]; clear F; intros ? F
    | F : follows ?d _ _ ?s |- wp (virt_mmio_read ?d _) ?s _ =>
        eapply (wp_vread d ltac:(eassumption) _ _ _ _ _ F); [reflexivity|]; clear F; intros ? ? ? F
    | F : follows ?d _ _ ?s |- wp mem_barrier ?s _ =>
        eapply (wp_vfence d _ _ _ _ F); clear F; intros ? F
    | F : follows ?d _ _ ?s |- wp (uart_puts _) ?s _ =>
        eapply (wp_vputs d _ _ _ _ _ F); [reflexivity|]; clear F; intros ? F
    | |- wp (ret _) _ _ => apply wp_ret
    end ].

Section negotiation.
Context `{Platform} {TX : UartTx} (device : Z) (Hslot : slot_addr device).

(** A queue the driver can offer: 256 descriptors in 16-byte aligned memory. *)
Definition queue_placed (q : virtio_net_queue) : Prop :=
  q_size q = DESC_QUEUE_SIZE ∧ q_ring q mod 16 = 0 ∧ 0 <= q_ring q < 2 ^ 63.

Lemma wp_get_queue s i q (Q : virtio_net_queue → machine → Prop) :
  m_net s !! Z.to_nat i = Some q → Q q s → wp (get_queue i) s Q.
Proof. intros Hq HQ. apply (wp_intro _ _ q s); [|done]. unfold get_queue. by rewrite Hq. Qed.

(** ** Making a queue ready *)

(** The device knows the queue where the driver has it. *)
Definition placed (c : qcfg) (q : virtio_net_queue) : Prop :=
  qc_ready c = true ∧ qc_reg c VIRTIO_MMIO_QUEUE_NUM = Some (q_size q) ∧
  qc_desc c = Some (q_ring q) ∧ qc_avail c = Some (virtq_avail (q_ring q)) ∧
  qc_used c = Some (virtq_used (q_ring q)).

(** The seven writes that describe a queue. *)
Definition queue_writes (q : virtio_net_queue) : list (Z * Z) :=
  let r := q_ring q in let a := virtq_avail r in let u := virtq_used r in
  [(VIRTIO_MMIO_QUEUE_NUM, q_size q);
   (VIRTIO_MMIO_QUEUE_DESC_LOW, u32 r); (VIRTIO_MMIO_QUEUE_DESC_HIGH, u32 (r >> 32));
   (VIRTIO_MMIO_QUEUE_AVAIL_LOW, u32 a); (VIRTIO_MMIO_QUEUE_AVAIL_HIGH, u32 (a >> 32));
   (VIRTIO_MMIO_QUEUE_USED_LOW, u32 u); (VIRTIO_MMIO_QUEUE_USED_HIGH, u32 (u >> 32))].

Definition write_regs (l : list (Z * Z)) (f : Z → option Z) : Z → option Z :=
  foldl (λ f w, upd w.1 (Some w.2) f) f l.

Lemma u32_u32 x : u32 (u32 x) = u32 x.
Proof. apply u32_small, u32_range. Qed.

Lemma split_addr a : 0 <= a < 2 ^ 64 → u32 a + 2 ^ 32 * u32 (a >> 32) = a.
Proof. intros Ha. rewrite shiftr_div by lia. unfold u32. dlia. Qed.

Lemma placed_writes q f max :
  queue_placed q → DESC_QUEUE_SIZE <= max →
  configured (QCfg max (write_regs (queue_writes q) f) false) = true ∧
  placed (QCfg max (write_regs (queue_writes q) f) true) q.
Proof.
  intros (Hn & Ha & Hr) Hmax.
  assert (qc_desc (QCfg max (write_regs (queue_writes q) f) false) = Some (q_ring q)) as E1.
  { transitivity (Some (u32 (q_ring q) + 2 ^ 32 * u32 (q_ring q >> 32))); [done|].
    by rewrite split_addr by lia. }
  assert (qc_avail (QCfg max (write_regs (queue_writes q) f) false) = Some (virtq_avail (q_ring q))) as E2.
  { transitivity (Some (u32 (virtq_avail (q_ring q)) + 2 ^ 32 * u32 (virtq_avail (q_ring q) >> 32))); [done|].
    rewrite split_addr; [done|]. unfold virtq_avail, DESC_QUEUE_SIZE. lia. }
  assert (qc_used (QCfg max (write_regs (queue_writes q) f) false) = Some (virtq_used (q_ring q))) as E3.
  { transitivity (Some (u32 (virtq_used (q_ring q)) + 2 ^ 32 * u32 (virtq_used (q_ring q) >> 32))); [done|].
    rewrite split_addr; [done|]. unfold virtq_used, virtq_avail, DESC_QUEUE_SIZE. lia. }
  split.
  - assert (qc_reg (QCfg max (write_regs (queue_writes q) f) false) VIRTIO_MMIO_QUEUE_NUM =
      Some (q_size q)) as E0 by done.
    unfold configured. rewrite E0, E1, E2, E3, Hn. unfold multiple_of, virtq_used, virtq_avail.
    cbn [qc_max]. unfold DESC_QUEUE_SIZE in *.
    rewrite !andb_true_iff, !Z.eqb_eq, Z.leb_le. split_and!; [done|done|lia|done|dlia|dlia].
  - by split_and!.
Qed.

(** The driver describes the selected queue [i]: the features are agreed, the
    device knows [c] of this queue and [qu] of the others. *)
Section describe.
Context (s0 : machine) (st ds : Z) (off : Z → Z) (gs : Z) (acc : Z → Z) (i : Z) (qu : Z → qcfg).

Definition describing (c : qcfg) (fe : bool) (s : machine) : Prop :=
  ∃ qu', follows device s0 (Running (VState st true ds off gs acc i qu' fe)) s ∧
         qu' i = c ∧ ∀ j, j ≠ i → qu' j = qu j.

Lemma upd_eq {A} k (x : A) f : upd k x f k = x.
Proof. unfold upd. by rewrite Z.eqb_refl. Qed.
Lemma upd_ne {A} k j (x : A) f : j ≠ k → upd k x f j = f j.
Proof. intros Hk%Z.eqb_neq. unfold upd. by rewrite Hk. Qed.

Lemma wp_queue_reg max f fe s o x (Q : unit → machine → Prop) :
  describing (QCfg max f false) fe s → o ∈ queue_regs →
  (∀ s', describing (QCfg max (upd o (Some (u32 x)) f) false) false s' → Q tt s') →
  wp (virt_mmio_write device o x) s Q.
Proof.
  intros (qu' & F & Hi & Hj) Ho HQ. eapply (wp_vwrite device Hslot); [exact F| |].
  { revert Ho. unfold queue_regs. rewrite !elem_of_cons, elem_of_nil. by intuition subst. }
  intros s' F'. apply HQ. exists (upd i (QCfg max (upd o (Some (u32 x)) f) false) qu'). split_and!.
  - unfold vbind, vwrite in F'. rewrite Hi in F'. cbn [qc_max qc_reg qc_ready andb negb] in F'.
    unfold queue_regs in Ho. repeat (apply elem_of_cons in Ho as [->|Ho]; [exact F'|]).
    by apply elem_of_nil in Ho.
  - apply upd_eq.
  - intros j ?. rewrite upd_ne by done. auto.
Qed.
End describe.

Lemma wp_setup_queue s0 s st ds off gs acc qs qu fe i q (Q : Z → machine → Prop) :
  follows device s0 (Running (VState st true ds off gs acc qs qu fe)) s →
  0 <= i < 2 ^ 32 → m_net s0 !! Z.to_nat i = Some q → queue_placed q → qc_ready (qu i) = false →
  (∀ s' max, follows device s0 (Running (VState st true ds off gs acc i
      (upd i (QCfg max (qc_reg (qu i)) false) qu) fe)) s' → Q (-1) s') →
  (∀ s' qu', follows device s0 (Running (VState st true ds off gs acc i qu' true)) s' →
      placed (qu' i) q → (∀ j, j ≠ i → qu' j = qu j) → Q 0 s') →
  wp (virt_mmio_setup_queue device i) s Q.
Proof.
  intros F Hi Hq Hp Hrdy Hfail Hok. unfold virt_mmio_setup_queue.
  do 4 vgo. rename x into max. rewrite u32_small in F by done.
  apply wp_bind; eapply wp_get_queue; [by rewrite (follows_net _ _ _ _ F)|].
  destruct (Z.ltb_spec max (q_size q)) as [Hlt|Hge].
  { do 3 vgo. eapply Hfail. cbn in F. by rewrite Hrdy in F. }
  assert (describing s0 st ds off gs acc i qu (QCfg max (qc_reg (qu i)) false) fe s'0) as D.
  { eexists. split_and!; [exact F|cbn; by rewrite upd_eq, Hrdy|]. intros j ?. by apply upd_ne. }
  clear F. destruct (placed_writes q (qc_reg (qu i)) max Hp) as [Hc Hpl]; [destruct Hp as [E _]; lia|].
  do 7 (apply wp_bind; eapply wp_queue_reg; [exact D|set_solver|]; clear D; intros ? D).
  rewrite !u32_u32, (u32_small (q_size q)) in D by (destruct Hp as [-> _]; done).
  destruct D as (qu' & F & E & Hj). do 2 vgo. do 2 vgo. vgo. cbn in F.
  change (upd _ _ _) with (write_regs (queue_writes q) (qc_reg (qu i))) in E.
  rewrite E, Hc in F. eapply Hok; [exact F| |]; cbn.
  - by rewrite upd_eq.
  - intros j ?. rewrite upd_ne by done. auto.
Qed.

(** After a device broke the rules the driver still returns. *)
Lemma wp_setup_queue_bad s0 s i q (Q : Z → machine → Prop) :
  follows device s0 BadDevice s → m_net s0 !! Z.to_nat i = Some q →
  (∀ v s', v = 0 ∨ v = -1 → follows device s0 BadDevice s' → Q v s') →
  wp (virt_mmio_setup_queue device i) s Q.
Proof.
  intros F Hq HQ. unfold virt_mmio_setup_queue. do 4 vgo.
  apply wp_bind; eapply wp_get_queue; [by rewrite (follows_net _ _ _ _ F)|].
  destruct (_ <? _); repeat vgo; apply HQ; auto.
Qed.

(** ** The result of the handshake *)

Definition negotiated (q0 q1 : virtio_net_queue) (s0 : machine) (ret : Z) (s : machine) : Prop :=
  ∃ vd, follows device s0 vd s ∧
  match vd with
  | BadDriver => False
  | BadDevice => ret = 0 ∨ ret = -1
  | Running v =>
      (ret = 0 ∧ has (vs_status v) DRIVER_OK = true ∧
       placed (vs_queue v 0) q0 ∧ placed (vs_queue v 1) q1) ∨
      (ret = -1 ∧ has (vs_status v) DRIVER_OK = false)
  end.

Context (q0 q1 : virtio_net_queue) (s0 : machine).
Context (Hq0 : m_net s0 !! 0%nat = Some q0) (Hq1 : m_net s0 !! 1%nat = Some q1).
Context (Hp0 : queue_placed q0) (Hp1 : queue_placed q1).

(** The last part: DRIVER_OK. *)
Definition finish_negotiation : M Z :=
  status <- virt_mmio_read device VIRTIO_MMIO_STATUS;
  virt_mmio_write device VIRTIO_MMIO_STATUS (status .| DRIVER_OK) ;;
  mem_barrier ;;
  virt_mmio_write device VIRTIO_MMIO_QUEUE_NOTIFY VIRTIO_NET_RX_QUEUE ;;
  uart_puts (lit ("Virtio MMIO negotiation completed." ++ nl)) ;;
  ret 0.

Lemma negotiated_bad s v : follows device s0 BadDevice s → v = 0 ∨ v = -1 → negotiated q0 q1 s0 v s.
Proof. intros F Hv. by exists BadDevice. Qed.

Lemma vwrite_notify st ag ds off gs acc qs qu fe :
  has st DRIVER_OK = true → qc_ready (qu 0) = true →
  vwrite (VState st ag ds off gs acc qs qu fe) VIRTIO_MMIO_QUEUE_NOTIFY 0 =
  Running (VState st ag ds off gs acc qs qu fe).
Proof. intros Hs Hr. cbn. by rewrite Hs, Hr. Qed.

Lemma wp_finish s st ds off gs acc qs qu fe :
  follows device s0 (Running (VState st true ds off gs acc qs qu fe)) s →
  st ∈ [11; 75] → acc 1 = 1 → placed (qu 0) q0 → placed (qu 1) q1 →
  wp finish_negotiation s (negotiated q0 q1 s0).
Proof.
  intros F Hst Hacc P0 P1. unfold finish_negotiation. do 2 vgo.
  unfold vbind, vread in F. cbn [Z.eqb VIRTIO_MMIO_STATUS] in F.
  destruct (bool_decide_reflect (x ∈ status_reads true st)) as [Hx|Hx].
  2:{ do 9 vgo. apply negotiated_bad; [exact F|lia]. }
  assert (x ∈ [11; 75]) as Hx'.
  { revert Hst Hx. unfold status_reads. rewrite app_nil_r.
    rewrite !elem_of_cons, !elem_of_nil. intuition subst; auto. }
  do 9 vgo. exists (Running (VState (x .| DRIVER_OK) true ds off gs acc qs qu true)).
  pose proof (proj1 P0) as R0. pose proof (proj1 P1) as R1.
  rewrite !elem_of_cons, elem_of_nil in Hx'.
  destruct Hx' as [->|[->|[]]];
    (split; [|left; by split_and!]; cbn in F; unfold status_rule in F; cbn in F;
     rewrite Hacc, R0, R1 in F; rewrite <- (vwrite_notify _ true ds off gs acc qs qu true) by done;
     exact F).
Qed.

(** The queues, then DRIVER_OK. *)
Definition setup_queues : M Z :=
  v <- virt_mmio_setup_queue device 0;
  if negb (v =? 0) then ret (-1) else
  v <- virt_mmio_setup_queue device 1;
  if negb (v =? 0) then ret (-1) else finish_negotiation.

Lemma wp_setup_queues s st ds off gs acc qs qu fe :
  follows device s0 (Running (VState st true ds off gs acc qs qu fe)) s →
  st ∈ [11; 75] → acc 1 = 1 → qc_ready (qu 0) = false → qc_ready (qu 1) = false →
  wp setup_queues s (negotiated q0 q1 s0).
Proof.
  intros F Hst Hacc R0 R1.
  assert (has st DRIVER_OK = false) as Hno.
  { rewrite !elem_of_cons, elem_of_nil in Hst. by destruct Hst as [->|[->|[]]]. }
  unfold setup_queues. apply wp_bind. eapply wp_setup_queue; [exact F|lia|done|done|done| |].
  { intros s' max F'. apply wp_ret. eexists. split; [exact F'|]. by right. }
  clear F. intros s' qu' F P0 Hj. apply wp_bind.
  eapply wp_setup_queue; [exact F|lia|done|done|by rewrite Hj by lia| |].
  { intros s'' max F'. apply wp_ret. eexists. split; [exact F'|]. by right. }
  clear F. intros s'' qu'' F P1 Hj'. eapply wp_finish; [exact F|done|done| |done].
  by rewrite Hj' by lia.
Qed.

Lemma wp_setup_queues_bad s : follows device s0 BadDevice s → wp setup_queues s (negotiated q0 q1 s0).
Proof.
  intros F. unfold setup_queues. apply wp_bind. eapply wp_setup_queue_bad; [exact F|done|].
  clear F. intros v s' Hv F. destruct Hv as [->| ->]; cbn [Z.eqb negb].
  2:{ apply wp_ret, negotiated_bad; [exact F|lia]. }
  apply wp_bind. eapply wp_setup_queue_bad; [exact F|done|].
  clear F. intros v s'' Hv F. destruct Hv as [->| ->]; cbn [Z.eqb negb].
  2:{ apply wp_ret, negotiated_bad; [exact F|lia]. }
  unfold finish_negotiation. do 9 vgo. do 2 vgo. apply negotiated_bad; [exact F|lia].
Qed.

Lemma vwrite_features st ag ds off gs acc qs qu fe x :
  has st FEATURES_OK = false → x & Z.lnot (off gs) = 0 →
  vwrite (VState st ag ds off gs acc qs qu fe) VIRTIO_MMIO_DRIVER_FEATURES x =
  Running (VState st ag ds off gs (upd gs x acc) qs qu fe).
Proof. intros Hs Hx. cbn. by rewrite Hs, Hx. Qed.

(** A masked word offers nothing new. *)
Lemma mask_subset f m : u32 (f & m) & Z.lnot f = 0.
Proof.
  unfold u32. bitwise j. rewrite Z.lnot_spec by lia.
  destruct (Z.testbit f j), (Z.testbit m j), (j <? 32); done.
Qed.

Lemma version_subset f : f & VIRTIO_F_VERSION_1 ≠ 0 → u32 VIRTIO_F_VERSION_1 & Z.lnot f = 0.
Proof.
  intros Hf. change (u32 VIRTIO_F_VERSION_1) with (1 << 0). change VIRTIO_F_VERSION_1 with (1 << 0) in Hf.
  assert (Z.testbit f 0 = true) as Ht.
  { pose proof (land_bit f 0 ltac:(lia)) as E. apply Z.eqb_neq in Hf. rewrite Hf in E. by destruct (Z.testbit f 0). }
  bitwise j. rewrite Z.lnot_spec by lia. destruct (decide (j = 0)) as [->|]; [by rewrite Ht|].
  by rewrite <- Z.shiftl_spec, testbit_one_bit, (proj2 (Z.eqb_neq j 0)) by lia.
Qed.

Lemma vread_status st ag ds off gs acc qs qu fe x :
  vread (VState st ag ds off gs acc qs qu fe) VIRTIO_MMIO_STATUS x =
  if bool_decide (x ∈ status_reads ag st)
  then Running (VState x (has x FEATURES_OK) ds off gs acc qs qu fe) else BadDevice.
Proof. done. Qed.

(** From FEATURES_OK on. *)
Definition agree_features : M Z :=
  status <- virt_mmio_read device VIRTIO_MMIO_STATUS;
  virt_mmio_write device VIRTIO_MMIO_STATUS (status .| FEATURES_OK) ;;
  st <- virt_mmio_read device VIRTIO_MMIO_STATUS;
  if (st & FEATURES_OK) =? 0 then
    uart_puts (lit ("Virtio MMIO negotiation failed." ++ nl)) ;;
    ret (-1)
  else setup_queues.

Lemma wp_agree s ds off gs acc qu fe :
  follows device s0 (Running (VState 3 false ds off gs acc 0 qu fe)) s → acc 1 = 1 →
  qc_ready (qu 0) = false → qc_ready (qu 1) = false →
  wp agree_features s (negotiated q0 q1 s0).
Proof.
  intros F Hacc R0 R1. unfold agree_features. do 2 vgo. cbn [vbind] in F. rewrite vread_status in F.
  destruct (bool_decide_reflect (x ∈ status_reads false 3)) as [Hx|Hx].
  2:{ do 4 vgo. cbn [vbind] in F. destruct (_ =? 0).
      - do 3 vgo. apply negotiated_bad; [exact F|lia].
      - apply wp_setup_queues_bad. exact F. }
  assert (x ∈ [3; 67]) as Hx'.
  { change (status_reads false 3) with [3; 67; 3; 67] in Hx. set_solver. }
  vgo. vgo. cbn [vbind] in F.
  assert (follows device s0 (Running (VState (x .| FEATURES_OK) false ds off gs acc 0 qu fe)) s'0) as F1.
  { rewrite !elem_of_cons, elem_of_nil in Hx'. unfold vwrite, status_rule in F.
    cbn [vs_accepted vs_agreed vs_queue vs_status] in F. rewrite Hacc in F.
    by destruct Hx' as [->|[->|[]]]. }
  clear F. rename F1 into F. do 2 vgo. rename x0 into y. cbn [vbind] in F. rewrite vread_status in F.
  destruct (bool_decide_reflect (y ∈ status_reads false (x .| FEATURES_OK))) as [Hy|Hy].
  2:{ destruct (_ =? 0).
      - do 3 vgo. apply negotiated_bad; [exact F|lia].
      - apply wp_setup_queues_bad. exact F. }
  assert (y ∈ [11; 75; 3; 67]) as Hy'.
  { rewrite !elem_of_cons, elem_of_nil in Hx'. destruct Hx' as [->|[->|[]]].
    - change (status_reads false (3 .| FEATURES_OK)) with [11; 75; 3; 67] in Hy. done.
    - change (status_reads false (67 .| FEATURES_OK)) with [75; 75; 67; 67] in Hy. set_solver. }
  unfold has in F. destruct (Z.eqb_spec (y & FEATURES_OK) 0) as [Hf|Hf].
  - do 3 vgo. eexists. split; [exact F|]. right. split; [done|].
    rewrite !elem_of_cons, elem_of_nil in Hy'. by destruct Hy' as [->|[->|[->|[->|[]]]]].
  - eapply wp_setup_queues; [exact F| |done..]. revert Hy' Hf.
    rewrite !elem_of_cons, !elem_of_nil. intros [->|[->|[->|[->|[]]]]]; auto; done.
Qed.

Lemma wp_negotiation : wp (virt_mmio_negotiation device) s0 (negotiated q0 q1 s0).
Proof.
  assert (follows device s0 (Running vreset) s0) as F by (exists []; split; [apply acts_nil|done]).
  unfold virt_mmio_negotiation. fold finish_negotiation.
  change (bind (virt_mmio_setup_queue device 0) _) with setup_queues.
  do 14 vgo. rename x into f0, x0 into f1.
  destruct (Z.eqb_spec (f1 & VIRTIO_F_VERSION_1) 0) as [Hv|Hv].
  { do 3 vgo. eexists. split; [exact F|]. by right. }
  set (off := upd 1 f1 (upd 0 f0 (λ _, 0))).
  change (follows device s0 (Running (VState 3 false 1 off 0 (λ _, 0) 0 (vs_queue vreset) false)) s'5) in F.
  do 4 vgo. cbn [vbind] in F.
  change (vwrite _ VIRTIO_MMIO_DRIVER_FEATURES_SEL _) with
    (Running (VState 3 false 1 off 0 (λ _, 0) 0 (vs_queue vreset) false)) in F.
  cbn [vbind] in F. rewrite vwrite_features in F by (done || apply mask_subset).
  do 4 vgo. cbn [vbind] in F.
  change (vwrite _ VIRTIO_MMIO_DRIVER_FEATURES_SEL _) with
    (Running (VState 3 false 1 off 1 (upd 0 (u32 (f0 & VIRTIO_NET_F_MAC)) (λ _, 0)) 0 (vs_queue vreset) false)) in F.
  cbn [vbind] in F. rewrite vwrite_features in F by (done || by apply version_subset).
  eapply wp_agree; [exact F|done..].
Qed.

(** C15: the driver obeys the virtio handshake.  Against any device,
    [virt_mmio_negotiation] returns and its register accesses never break a rule
    of [vstep]: status bits in order and none cleared, only offered features
    accepted, FEATURES_OK read back before queues are described, every queue a
    power-of-two size the device allows, aligned, and fenced before it is made
    ready, DRIVER_OK after both, notification last.  Unless the device itself
    misbehaves, 0 is returned with DRIVER_OK set and both queues known to the
    device at the addresses of [net_queues], or -1 with DRIVER_OK never set. *)
Theorem negotiation_protocol : wp (virt_mmio_negotiation device) s0 (negotiated q0 q1 s0).
Proof. apply wp_negotiation. Qed.
End negotiation.
