(* ===== verification/DeviceIo.v ===== *)
(** * Code that only talks to devices

    [does_io m]: [m] returns and changes nothing but devices and the trace.  The
    predicate is closed under sequencing and loops and holds of printing and of
    register accesses, so the long reports of the driver and the probing of the
    slots need no step-by-step proofs. *)

From S2P Require Import Prelude Globals Machine Utils Uart Heap HeapSpec Paging Packet Virtio VirtioSpec.

Section calm.
Context `{Platform} {TX : UartTx}.
Implicit Types (s : machine).

(** Only devices and the trace changed. *)
Definition calm s s' : Prop := ∃ evs, io_ext s s' evs.

Lemma calm_refl s : calm s s.
Proof. exists []. apply io_ext_nil. Qed.
Lemma calm_trans s1 s2 s3 : calm s1 s2 → calm s2 s3 → calm s1 s3.
Proof. intros [? ?] [? ?]. eexists. by eapply io_ext_trans. Qed.
Lemma calm_prints s s' out : prints s s' out → calm s s'.
Proof. intros (evs & X & _). by exists evs. Qed.

Lemma calm_vars s s' : calm s s' →
  m_ram s' = m_ram s ∧ m_heap s' = m_heap s ∧ m_csr s' = m_csr s ∧ m_net s' = m_net s ∧ m_sched s' = m_sched s.
Proof. by intros (? & ? & ->). Qed.

Lemma calm_heap s s' L : calm s s' → heap_inv s L → heap_inv s' L.
Proof. intros Hc HI. destruct (calm_vars _ _ Hc) as (E1 & E2 & _). by apply (heap_inv_ext s). Qed.

(** [m] returns after nothing but device interactions. *)
Definition does_io (m : M unit) : Prop := ∀ s, wp m s (λ _ s', calm s s').

Lemma wp_io m s (Q : unit → machine → Prop) : does_io m → (∀ s', calm s s' → Q tt s') → wp m s Q.
Proof. intros Hm HQ. eapply wp_mono; [apply Hm|]. intros [] s'. apply HQ. Qed.

Lemma does_bind m k : does_io m → does_io k → does_io (m ;; k).
Proof.
  intros Hm Hk s. apply wp_bind, wp_io; [done|]. intros s1 C1. apply wp_io; [done|].
  intros s2 C2. by eapply calm_trans.
Qed.

Lemma does_ret : does_io (ret tt).
Proof. intros s. apply wp_ret, calm_refl. Qed.

Lemma does_for i0 (n : nat) body :
  (∀ i, i0 <= i < i0 + n → does_io (body i)) → does_io (for_from i0 n body).
Proof.
  intros Hb s. apply (wp_for (λ _ s', calm s s')); [apply calm_refl| |done].
  intros i s' Hi Hc. apply wp_io; [by apply Hb|]. intros s2 C2. by eapply calm_trans.
Qed.

Lemma does_say m (out : gmap Z Z → list Z) : (∀ r, says r m (out r)) → does_io m.
Proof.
  intros Hs s. eapply wp_mono; [by apply (Hs (m_ram s))|]. intros [] s' P. by eapply calm_prints.
Qed.

Lemma does_puts str : printable (chars str) = true → does_io (uart_puts (lit str)).
Proof. intros Hp. eapply (does_say _ (λ _, chars str)). intros r. by apply says_lit. Qed.
Lemma does_putc c : does_io (uart_putc c).
Proof. eapply (does_say _ (λ _, [u8 c])). intros r. apply says_putc. Qed.
Lemma does_b2x v : does_io (uart_b2x v).
Proof. eapply (does_say _ (λ _, chars "0x" ++ hex_digits 8 v)). intros r. apply says_b2x. Qed.

(** Registers of a device. *)
Lemma wp_mmio_load n a s (Q : Z → machine → Prop) :
  in_ram a n = false → in_mmio a n = true →
  (∀ s', calm s s' → Q ((dev_read (m_dev s) a n).1 mod 2 ^ (8 * n)) s') → wp (load n a) s Q.
Proof.
  intros H1 H2 HQ. apply wp_io_read; [done..|]. destruct (dev_read _ _ _) as [v d]. apply HQ.
  eexists. by exists d.
Qed.

Lemma does_mmio_store n a v : in_ram a n = false → in_mmio a n = true → does_io (store n a v).
Proof. intros H1 H2 s. apply wp_io_write; [done..|]. intros s' X. by eexists. Qed.

Lemma does_uart_init : does_io (uart_init 115200 100000000).
Proof.
  intros s. unfold uart_init. cbn [Z.eqb]. apply wp_bind, wp_mmio_load; [done|done|]. intros s1 C1.
  eapply wp_io; [|intros s' C'; by eapply calm_trans]. repeat (apply does_bind; [by apply does_mmio_store|]).
  intros s2. apply wp_bind, wp_mmio_load; [done|done|]. intros s3 C3.
  eapply wp_io; [|intros s' C'; by eapply calm_trans].
  repeat (apply does_bind; [by apply does_mmio_store|]). by apply does_mmio_store.
Qed.

Lemma wp_reg_read device o s (Q : Z → machine → Prop) :
  slot_addr device → reg_offset o = true →
  (∀ s', calm s s' → Q ((dev_read (m_dev s) (device + o) 4).1 mod 2 ^ 32) s') →
  wp (virt_mmio_read device o) s Q.
Proof.
  intros Hd Ho HQ. destruct (slot_mmio device Hd o Ho) as (E & H1 & H2 & _).
  unfold virt_mmio_read, r32. rewrite E. by apply wp_mmio_load.
Qed.

Lemma does_reg_write device o v : slot_addr device → reg_offset o = true → does_io (virt_mmio_write device o v).
Proof.
  intros Hd Ho. destruct (slot_mmio device Hd o Ho) as (E & H1 & H2 & _).
  unfold virt_mmio_write, w32. rewrite E. by apply does_mmio_store.
Qed.

Lemma does_print_reg label device o : slot_addr device → reg_offset o = true → printable (chars label) = true →
  does_io (print_reg label device o).
Proof.
  intros Hd Ho Hp. apply does_bind; [by apply does_puts|]. intros s. apply wp_bind, wp_reg_read; [done|done|].
  intros s1 C1. eapply wp_io; [|intros s' C'; by eapply calm_trans]. apply does_bind; [apply does_b2x|apply does_putc].
Qed.

Lemma does_print_info device : slot_addr device → does_io (virt_print_device_info device).
Proof.
  intros Hd. unfold virt_print_device_info. apply does_bind; [by apply does_puts|].
  do 8 (apply does_bind; [by apply does_print_reg|]). apply does_bind; [by apply does_reg_write|].
  do 2 (apply does_bind; [by apply does_print_reg|]). by apply does_print_reg.
Qed.
End calm.
