(* ===== verification/Virtq.v ===== *)
(** * The virtqueues in memory

    What [virt_mmio_net_virtq_init] builds out of pages of the allocator, and
    how the descriptors look to a device. *)

From S2P Require Import Prelude Globals Machine Utils Uart Heap HeapSpec Paging Packet Virtio VirtioSpec.

(** A run of [n] pages at [a] that was taken from the free pages [l] and is not
    part of the pages [l'] that are left. *)
Record taken (l l' : list Z) (a : Z) (n : nat) : Prop := {
  tk_aligned : aligned a;
  tk_ram : RAM_BASE <= a ∧ a + PAGE_SIZE * n <= RAM_END;
  tk_from : ∀ x, a <= x < a + PAGE_SIZE * n → in_pages l x;
  tk_gone : ∀ x, a <= x < a + PAGE_SIZE * n → ¬ in_pages l' x;
  tk_rest : ∀ x, in_pages l' x → in_pages l x;
}.

(** Where the allocator puts the ring and the buffers of a queue, and of both
    queues, and what is left of the free pages. *)
Definition queue_layout (l : list Z) : option (Z * Z * list Z) :=
  match alloc_spec (npages sizeof_virtq) l with
  | Some (ring, l1) =>
      match alloc_spec (npages (QUEUE_BUF_SIZE * DESC_QUEUE_SIZE)) l1 with
      | Some (buffers, l2) => Some (ring, buffers, l2)
      | None => None
      end
  | None => None
  end.

Definition net_layout (l : list Z) : option ((Z * Z) * (Z * Z) * list Z) :=
  match queue_layout l with
  | Some (ring, buffers, l1) =>
      match queue_layout l1 with
      | Some (ring', buffers', l2) => Some ((ring, buffers), (ring', buffers'), l2)
      | None => None
      end
  | None => None
  end.

(** On one run of pages: rings and buffers one after the other. *)
Lemma net_layout_pages a m :
  net_layout (pages a (260 + m)) =
    Some ((a, a + PAGE_SIZE * 2), (a + PAGE_SIZE * 130, a + PAGE_SIZE * 132), pages (a + PAGE_SIZE * 260) m).
Proof.
  unfold net_layout, queue_layout. change (npages sizeof_virtq) with 2%nat.
  change (npages (QUEUE_BUF_SIZE * DESC_QUEUE_SIZE)) with 128%nat.
  change (260 + m)%nat with (2 + (128 + (2 + (128 + m))))%nat. rewrite PAGE_SIZE_eq.
  rewrite !alloc_spec_pages by lia. by rewrite PAGE_SIZE_eq, <- !Z.add_assoc.
Qed.

Section take_pages.
Context `{Platform}.

Lemma page_of a (n : nat) x : a <= x < a + PAGE_SIZE * n → ∃ b, b ∈ pages a n ∧ b <= x < b + PAGE_SIZE.
Proof.
  intros Hx. exists (a + PAGE_SIZE * Z.to_nat ((x - a) / PAGE_SIZE)). rewrite elem_of_pages, PAGE_SIZE_eq in *.
  split; [|dlia]. exists (Z.to_nat ((x - a) / 4096)). split; [dlia|done].
Qed.

Lemma alloc_taken s l n a l' :
  heap_inv s l → alloc_spec n l = Some (a, l') → (0 < n)%nat → taken l l' a n ∧ a ≠ 0.
Proof.
  intros [HB _ _ Hp _] Hs Hn. apply alloc_spec_some in Hs as (Ha & Hr & ->).
  pose proof (run_free_bounds _ _ _ _ Hp Hr Hn) as Hb. unfold run_free in Hr.
  rewrite Forall_forall in Hp, Hr. pose proof (Hp _ Ha) as Hpa.
  split; [|by eapply heap_page_nonzero]. destruct HB as (? & ? & _). split.
  - apply Hpa.
  - destruct Hpa as (_ & ? & _). lia.
  - intros x (b & Hb' & Hx)%page_of. exists b. auto.
  - intros x (b & Hb' & Hx)%page_of (c & [Hc Hcl]%list_elem_of_filter & Hxc).
    destruct (aligned_apart b c) as [?|?]; [eapply pages_aligned; [apply Hpa|done]|by apply Hp| |lia|lia].
    intros ->. done.
  - intros x (c & [_ Hcl]%list_elem_of_filter & Hxc). by exists c.
Qed.

(** [mem_alloc] as its clients see it. *)
Lemma wp_alloc_pages s l size (Q : Z → machine → Prop) :
  heap_inv s l → 0 < size < 2 ^ 32 → (alloc_spec (npages size) l = None → Q 0 s) →
  (∀ a l' h r, let s' := set_ram r (set_heap h s) in
     alloc_spec (npages size) l = Some (a, l') → heap_inv s' l' → taken l l' a (npages size) → a ≠ 0 →
     same_on (λ x, ¬ in_pages l x) (m_ram s) r → Q a s') →
  wp (mem_alloc size) s Q.
Proof.
  intros HI Hs H0 HQ. eapply wp_mono; [by apply wp_mem_alloc|]. intros p s'. unfold alloc_post.
  destruct (alloc_spec _ l) as [[a l']|] eqn:E; [|intros [-> ->]; auto].
  intros (-> & HI' & fl & r & -> & Hr). destruct (alloc_taken _ _ _ _ _ HI E) as [Ht Hz].
  { unfold npages. rewrite PAGE_SIZE_eq. dlia. }
  apply (HQ _ l'); [done..|]. eapply same_on_weaken; [exact Hr|].
  intros x Hx Hl. apply Hx, (tk_rest _ _ _ _ Ht). by apply links_in_pages.
Qed.

(** Writes to pages that are not free keep the allocator's invariant. *)
Lemma heap_inv_same s l r :
  heap_inv s l → same_on (in_pages l) (m_ram s) r → heap_inv (set_ram r s) l.
Proof.
  intros [HB Hc Hd Hp Hn] Hs. split; [done| |done..]. simpl. eapply chain_ext; [done|].
  intros a Ha. eapply same_on_load; [exact Hs|]. intros x Hx. exists a. rewrite PAGE_SIZE_eq.
  split; [done|lia].
Qed.

Lemma heap_inv_net s l n : heap_inv s l → heap_inv (set_net n s) l.
Proof. by apply heap_inv_ext. Qed.

(** Memory with [size] bytes cleared at [a]. *)
Definition zeroed (a size : Z) (r : gmap Z Z) : gmap Z Z :=
  ram_write a (replicate (Z.to_nat size) 0) r.

Lemma wp_mem_zero dest size s (Q : unit → machine → Prop) :
  in_ram dest (Z.to_nat size) = true → Q tt (set_ram (zeroed dest size (m_ram s)) s) →
  wp (mem_zero dest size) s Q.
Proof. apply wp_memset. Qed.

Lemma zeroed_in a size r x : a <= x < a + size → byte_at (zeroed a size r) x = 0.
Proof.
  intros Hx. replace x with (a + Z.to_nat (x - a)) by lia. unfold zeroed.
  by erewrite byte_at_write_in by (apply lookup_replicate; split; [done|lia]).
Qed.

Lemma zeroed_out a size r x : x < a ∨ a + Z.max 0 size <= x → byte_at (zeroed a size r) x = byte_at r x.
Proof. intros Hx. apply byte_at_write_out. rewrite length_replicate. lia. Qed.

Lemma same_on_write (P : Z → Prop) a bs r :
  (∀ x, P x → x < a ∨ a + length bs <= x) → same_on P r (ram_write a bs r).
Proof. intros Hd x Hx. apply byte_at_write_out. auto. Qed.
End take_pages.

#[global] Opaque zeroed.

(** ** A queue in memory *)

(** Descriptor [i] of the ring, as the driver's struct has it. *)
Record desc_at (r : gmap Z Z) (ring i addr len flags : Z) : Prop := {
  da_addr : ram_load 8 (desc_addr ring i) r = addr;
  da_len : ram_load 4 (desc_len ring i) r = len;
  da_id : ram_load 2 (desc_id ring i) r = 0;
  da_flags : ram_load 2 (desc_flags ring i) r = flags;
}.

(** The first [k] descriptors of a queue point to their buffers. *)
Definition descs (r : gmap Z Z) (ring buffers flags k : Z) : Prop :=
  ∀ i, 0 <= i < k → desc_at r ring i (buffers + QUEUE_BUF_SIZE * i) QUEUE_BUF_SIZE flags.

Definition zero_on (r : gmap Z Z) (a n : Z) : Prop := ∀ x, a <= x < a + n → byte_at r x = 0.

Lemma desc_at_same r r' ring i addr len flags :
  (∀ x, ring + 16 * i <= x < ring + 16 * i + 16 → byte_at r' x = byte_at r x) →
  desc_at r ring i addr len flags → desc_at r' ring i addr len flags.
Proof.
  unfold desc_addr, desc_len, desc_id, desc_flags, virtq_desc.
  intros Hx [? ? ? ?]. split; unfold desc_addr, desc_len, desc_id, desc_flags, virtq_desc in *;
    (erewrite ram_load_ext; [done|]); intros; apply Hx; lia.
Qed.

Lemma descs_same r r' ring buffers flags k :
  (∀ x, ring <= x < ring + 16 * k → byte_at r' x = byte_at r x) →
  descs r ring buffers flags k → descs r' ring buffers flags k.
Proof. intros Hx Hd i Hi. eapply desc_at_same; [|by apply Hd]. intros. apply Hx. lia. Qed.

Section init_queue.
Context `{Platform}.

(** The three stores of one iteration. *)
Lemma desc_stored r ring i addr len flags :
  0 <= addr < 2 ^ 64 → 0 <= len < 2 ^ 32 → 0 <= flags < 2 ^ 16 → zero_on r (ring + 16 * i) 16 →
  let r' := ram_store 2 (desc_flags ring i) flags (ram_store 4 (desc_len ring i) len
              (ram_store 8 (desc_addr ring i) addr r)) in
  desc_at r' ring i addr len flags ∧
  same_on (λ x, x < ring + 16 * i ∨ ring + 16 * i + 16 <= x) r r'.
Proof.
  intros Ha Hl Hf Hz r'. unfold r', desc_flags, desc_len, desc_addr, virtq_desc. split.
  - split; unfold desc_flags, desc_len, desc_addr, desc_id, virtq_desc.
    + rewrite !ram_load_store_ne, ram_load_store_eq by lia. by apply Z.mod_small.
    + rewrite ram_load_store_ne, ram_load_store_eq by lia. by apply Z.mod_small.
    + rewrite !ram_load_store_ne by lia. apply ram_load_zero. intros x Hx. apply Hz. lia.
    + rewrite ram_load_store_eq. by apply Z.mod_small.
  - intros x Hx. by rewrite !byte_at_store_out by lia.
Qed.

Definition rx_flags (i : Z) : Z := if i =? VIRTIO_NET_RX_QUEUE then VIRTQ_DESC_F_WRITE else 0.

Lemma wp_init_descs i q s (Q : unit → machine → Prop) :
  m_net s !! Z.to_nat i = Some q → in_ram (q_ring q) (Z.to_nat 4096) = true →
  0 <= q_buffers q < 2 ^ 63 → zero_on (m_ram s) (q_ring q) 4096 →
  (∀ r, descs r (q_ring q) (q_buffers q) (rx_flags i) 256 →
        same_on (λ x, x < q_ring q ∨ q_ring q + 4096 <= x) (m_ram s) r → Q tt (set_ram r s)) →
  wp (for_from 0 (Z.to_nat DESC_QUEUE_SIZE) (init_desc i)) s Q.
Proof.
  intros Hq Hr Hb Hz HQ. apply in_ram_spec in Hr.
  eapply (wp_for (λ k s', ∃ r, s' = set_ram r s ∧ 
    descs r (q_ring q) (q_buffers q) (rx_flags i) k ∧
    same_on (λ x, x < q_ring q ∨ q_ring q + 16 * k <= x) (m_ram s) r)).
  - exists (m_ram s). split_and!; [by destruct s|intros j ?; lia|done].
  - intros k s' Hk (r & -> & Hd & Hs). unfold DESC_QUEUE_SIZE in Hk. unfold init_desc.
    apply wp_bind; eapply wp_get_queue; [exact Hq|].
    assert (∀ (o : Z) (n : nat), 0 <= o → o + n <= 16 → in_ram (virtq_desc (q_ring q) k + o) n = true) as Hin.
    { intros. unfold virtq_desc. apply in_ram_true; lia. }
    apply wp_bind, wp_store; [unfold desc_addr; rewrite <- (Z.add_0_r (virtq_desc _ _)); apply Hin; lia|].
    apply wp_bind, wp_store; [apply Hin; lia|]. apply wp_store; [apply Hin; lia|].
    rewrite !ram_set_ram, !set_ram_ram. unfold QUEUE_BUF_SIZE.
    rewrite (u64_small (k * 2048)), u64_small by lia. fold (rx_flags i).
    assert (0 <= rx_flags i < 2 ^ 16) as Hf by (unfold rx_flags; case_match; done).
    destruct (desc_stored r (q_ring q) k (q_buffers q + k * 2048) 2048 (rx_flags i)) as [Hd' Hs']; [lia|lia|lia| |].
    { intros x Hx. rewrite Hs by lia. apply Hz. lia. }
    eexists. split; [done|]. split.
    + intros j Hj. destruct (decide (j = k)) as [->|].
      * unfold QUEUE_BUF_SIZE. by replace (2048 * k) with (k * 2048) by lia.
      * eapply desc_at_same; [|apply Hd; lia]. intros x Hx. apply Hs'. lia.
    + intros x Hx. rewrite Hs' by lia. apply Hs. lia.
  - intros s' (r & -> & Hd & Hs). apply HQ; [exact Hd|exact Hs].
Qed.

(** A queue as [init_queue] leaves it: descriptors that point to the buffers,
    both rings and all buffers zero. *)
Definition queue_built (r : gmap Z Z) (q : virtio_net_queue) (flags : Z) : Prop :=
  descs r (q_ring q) (q_buffers q) flags 256 ∧
  zero_on r (virtq_avail (q_ring q)) (sizeof_virtq - 4096) ∧
  zero_on r (q_buffers q) (QUEUE_BUF_SIZE * DESC_QUEUE_SIZE).

(** The memory of a queue: 2 pages for the ring and 128 for the buffers, taken
    from the free pages [l], which leaves [l']. *)
Definition queue_pages (l l' : list Z) (q : virtio_net_queue) : Prop :=
  ∃ l1, taken l l1 (q_ring q) 2 ∧ taken l1 l' (q_buffers q) 128.

Definition fresh_queue (ring buffers : Z) (q : virtio_net_queue) : virtio_net_queue :=
  NetQueue ring buffers DESC_QUEUE_SIZE 0 0 (q_in_use q).

Lemma queue_built_same r r' q flags l l' :
  queue_pages l l' q → (∀ x, in_pages l x → ¬ in_pages l' x → byte_at r' x = byte_at r x) →
  queue_built r q flags → queue_built r' q flags.
Proof.
  intros (l1 & T1 & T2) Hs (Hd & Ha & Hb).
  assert (∀ x, q_ring q <= x < q_ring q + 8192 → byte_at r' x = byte_at r x) as H1.
  { intros x Hx. assert (q_ring q <= x < q_ring q + PAGE_SIZE * 2%nat) as Hx' by (rewrite PAGE_SIZE_eq; lia).
    apply Hs; [by apply (tk_from _ _ _ _ T1)|]. intros Hin.
    by apply (tk_gone _ _ _ _ T1 x Hx'), (tk_rest _ _ _ _ T2). }
  assert (∀ x, q_buffers q <= x < q_buffers q + 524288 → byte_at r' x = byte_at r x) as H2.
  { intros x Hx. assert (q_buffers q <= x < q_buffers q + PAGE_SIZE * 128%nat) as Hx' by (rewrite PAGE_SIZE_eq; lia).
    apply Hs; [by apply (tk_rest _ _ _ _ T1), (tk_from _ _ _ _ T2)|by apply (tk_gone _ _ _ _ T2)]. }
  unfold queue_built, sizeof_virtq, QUEUE_BUF_SIZE, virtq_avail, DESC_QUEUE_SIZE in *. split_and!.
  - eapply descs_same; [|done]. intros. apply H1. lia.
  - intros x Hx. rewrite H1 by lia. apply Ha. lia.
  - intros x Hx. rewrite H2 by lia. apply Hb. lia.
Qed.

Lemma wp_upd_queue i f s (Q : unit → machine → Prop) :
  Q tt (set_net (alter f (Z.to_nat i) (m_net s)) s) → wp (upd_queue i f) s Q.
Proof. intros HQ. by apply wp_modify. Qed.

(** Filling in the memory of a queue. *)
Lemma wp_fill_queue i q s l l' l1 (Q : bool → machine → Prop) :
  heap_inv s l' → m_net s !! Z.to_nat i = Some q →
  taken l l1 (q_ring q) 2 → taken l1 l' (q_buffers q) 128 →
  (∀ r, let q' := fresh_queue (q_ring q) (q_buffers q) q in
     let s' := set_ram r (set_net (<[Z.to_nat i := q']> (m_net s)) s) in
     heap_inv s' l' → queue_built r q' (rx_flags i) → queue_pages l l' q' →
     same_on (λ x, ¬ in_pages l x) (m_ram s) r → Q true s') →
  wp (mem_zero (q_ring q) sizeof_virtq ;;
      mem_zero (q_buffers q) (QUEUE_BUF_SIZE * DESC_QUEUE_SIZE) ;;
      upd_queue i (with_size DESC_QUEUE_SIZE) ;;
      upd_queue i (with_last_used 0) ;;
      upd_queue i (with_next_desc 0) ;;
      q <- get_queue i;
      for_from 0 (Z.to_nat (q_size q)) (init_desc i) ;; ret true) s Q.
Proof.
  intros HI Hq T1 T2 HQ. pose proof (lookup_lt_Some _ _ _ Hq) as Hlen.
  destruct (tk_ram _ _ _ _ T1) as [R1 R1'], (tk_ram _ _ _ _ T2) as [R2 R2'].
  rewrite PAGE_SIZE_eq in R1', R2'.
  assert (∀ x, q_buffers q <= x < q_buffers q + 524288 → x < q_ring q ∨ q_ring q + 8192 <= x) as Hdis.
  { intros x Hx. destruct (decide (x < q_ring q ∨ q_ring q + 8192 <= x)); [done|]. exfalso.
    apply (tk_gone _ _ _ _ T1 x); [rewrite PAGE_SIZE_eq; lia|]. apply (tk_from _ _ _ _ T2 x).
    rewrite PAGE_SIZE_eq. lia. }
  apply wp_bind, wp_mem_zero; [apply in_ram_true; unfold sizeof_virtq, DESC_QUEUE_SIZE; lia|].
  apply wp_bind, wp_mem_zero; [apply in_ram_true; unfold QUEUE_BUF_SIZE, DESC_QUEUE_SIZE; lia|].
  do 3 apply wp_bind, wp_upd_queue.
  set (q' := fresh_queue (q_ring q) (q_buffers q) q). rewrite ram_set_ram.
  set (r := zeroed (q_buffers q) _ _). set (n' := <[Z.to_nat i := q']> (m_net s)).
  match goal with |- wp _ ?s1 _ => replace s1 with (set_ram r (set_net n' s)) end.
  2:{ cbn [m_net set_net set_ram].
      rewrite (alter_lookup _ _ _ _ Hq), !alter_inserted by (rewrite ?length_insert; done).
      by destruct s. }
  assert (m_net (set_ram r (set_net n' s)) !! Z.to_nat i = Some q') as Hq'
    by (by apply list_lookup_insert_eq).
  assert (∀ x, q_ring q <= x < q_ring q + sizeof_virtq → byte_at r x = 0) as Z1.
  { intros x Hx. unfold r, QUEUE_BUF_SIZE, sizeof_virtq, DESC_QUEUE_SIZE in *.
    destruct (decide (q_buffers q <= x < q_buffers q + 2048 * 256)); [by apply zeroed_in|].
    rewrite zeroed_out by lia. by apply zeroed_in. }
  apply wp_bind. eapply wp_get_queue; [exact Hq'|]. apply wp_bind.
  eapply wp_init_descs; [exact Hq'|apply in_ram_true; cbn [q_ring q' fresh_queue]; lia| | |].
  { cbn [q_buffers q' fresh_queue]. unfold RAM_BASE, RAM_END in *; lia. }
  { intros x Hx. apply Z1. unfold sizeof_virtq, DESC_QUEUE_SIZE. cbn [q_ring q' fresh_queue] in Hx. lia. }
  cbn [q_ring q_buffers q' fresh_queue]. rewrite ram_set_ram. intros r' Hd Hs.
  rewrite set_ram_ram. apply wp_ret.
  assert (∀ x, (x < q_ring q ∨ q_ring q + 8192 <= x) → (x < q_buffers q ∨ q_buffers q + 524288 <= x) →
    byte_at r' x = byte_at (m_ram s) x) as Hout.
  { intros x H1 H2. rewrite Hs by lia. unfold r, QUEUE_BUF_SIZE, sizeof_virtq, DESC_QUEUE_SIZE.
    by rewrite !zeroed_out by lia. }
  assert (∀ x, in_pages l' x ∨ ¬ in_pages l x → byte_at r' x = byte_at (m_ram s) x) as Hkeep.
  { intros x Hx. apply Hout; apply dec_stable; intros Hno.
    - assert (q_ring q <= x < q_ring q + PAGE_SIZE * 2%nat) as Hr by (rewrite PAGE_SIZE_eq; lia).
      destruct Hx as [Hx|Hx]; [|by apply Hx, (tk_from _ _ _ _ T1)].
      by apply (tk_gone _ _ _ _ T1 x Hr), (tk_rest _ _ _ _ T2).
    - assert (q_buffers q <= x < q_buffers q + PAGE_SIZE * 128%nat) as Hr by (rewrite PAGE_SIZE_eq; lia).
      destruct Hx as [Hx|Hx]; [by apply (tk_gone _ _ _ _ T2 x Hr)|].
      by apply Hx, (tk_rest _ _ _ _ T1), (tk_from _ _ _ _ T2). }
  apply (HQ r').
  - apply heap_inv_same; [by apply heap_inv_net|]. intros x Hx. apply Hkeep. by left.
  - split_and!; [exact Hd| |].
    + intros x Hx. cbn [q_ring fresh_queue] in Hx. unfold virtq_avail, sizeof_virtq, DESC_QUEUE_SIZE in *.
      rewrite Hs by lia. apply Z1. lia.
    + intros x Hx. cbn [q_buffers fresh_queue] in Hx. unfold QUEUE_BUF_SIZE, DESC_QUEUE_SIZE in *.
      rewrite Hs by (destruct (Hdis x); lia). by apply zeroed_in.
  - by exists l1.
  - intros x Hx. apply Hkeep. by right.
Qed.

Context {TX : UartTx}.

(** The allocator after a failed initialisation: pages may be lost, none is
    given out twice. *)
Definition still_free (l : list Z) (s : machine) : Prop :=
  ∃ l', heap_inv s l' ∧ ∀ x, in_pages l' x → in_pages l x.

Lemma wp_init_failed s l (Q : bool → machine → Prop) :
  heap_inv s l → (∀ s', heap_inv s' l → Q false s') →
  wp (uart_puts (lit ("Failed to allocate Virtio queue memory." ++ nl)) ;; ret false) s Q.
Proof.
  intros HI HQ. apply wp_bind, wp_puts_lit; [done|]. intros s' Hp. apply wp_ret, HQ.
  eapply heap_inv_ext; [by eapply prints_ram|by eapply prints_heap|done].
Qed.

Lemma wp_init_queue i q s l (Q : bool → machine → Prop) :
  heap_inv s l → m_net s !! Z.to_nat i = Some q →
  (∀ s', queue_layout l = None → still_free l s' → Q false s') →
  (∀ ring buffers l' h r, let q' := fresh_queue ring buffers q in
     let s' := set_ram r (set_net (<[Z.to_nat i := q']> (m_net s)) (set_heap h s)) in
     queue_layout l = Some (ring, buffers, l') → heap_inv s' l' → queue_built r q' (rx_flags i) → queue_pages l l' q' →
     same_on (λ x, ¬ in_pages l x) (m_ram s) r → Q true s') →
  wp (init_queue i) s Q.
Proof.
  intros HI Hq Hfail Hok. pose proof (lookup_lt_Some _ _ _ Hq) as Hlen. unfold init_queue.
  apply wp_bind, (wp_alloc_pages _ l); [done|done| |].
  { intros E1. assert (queue_layout l = None) as E by (unfold queue_layout; by rewrite E1).
    apply wp_bind, wp_upd_queue, wp_bind.
    apply (wp_alloc_pages _ l); [by apply heap_inv_net|done|intros _|].
    - apply wp_bind, wp_upd_queue. apply (wp_init_failed _ l); [by do 2 apply heap_inv_net|].
      intros s' HI'. apply Hfail; [done|]. by exists l.
    - intros a l' h r s' _ HI' Ht Ha _. apply wp_bind, wp_upd_queue.
      apply (wp_init_failed _ l'); [by apply heap_inv_net|].
      intros s'' HI''. apply Hfail; [done|]. exists l'. split; [done|]. apply Ht. }
  intros ring l1 h1 r1 s1 A1 HI1 T1 Hring S1. apply wp_bind, wp_upd_queue, wp_bind.
  apply (wp_alloc_pages _ l1); [by apply heap_inv_net|done| |].
  { intros A2. apply wp_bind, wp_upd_queue. rewrite orb_true_r.
    apply (wp_init_failed _ l1); [by do 2 apply heap_inv_net|].
    intros s' HI'. apply Hfail; [unfold queue_layout; by rewrite A1, A2|]. exists l1. split; [done|]. apply T1. }
  intros buffers l2 h2 r2 s2 A2 HI2 T2 Hbuf S2. apply wp_bind, wp_upd_queue.
  rewrite (proj2 (Z.eqb_neq ring 0)), (proj2 (Z.eqb_neq buffers 0)) by done. cbn [orb].
  set (q2 := with_buffers buffers (with_ring ring q)).
  set (s3 := set_net _ s2).
  assert (s3 = set_ram r2 (set_net (<[Z.to_nat i := q2]> (m_net s)) (set_heap h2 s))) as E3.
  { unfold s3, s2, s1. cbn [m_net set_net set_ram set_heap].
    rewrite (alter_lookup _ _ _ _ Hq), alter_inserted by done. by destruct s. }
  change ring with (q_ring q2). change buffers with (q_buffers q2).
  eapply (wp_fill_queue i q2 s3 l l2 l1); [by apply heap_inv_net| |done|done|].
  { rewrite E3. by apply list_lookup_insert_eq. }
  intros r q' s' HI' Hb Hpg Hs. unfold s' in *. rewrite E3 in *.
  cbn [m_net set_net set_ram] in *. rewrite list_insert_insert_eq in *.
  specialize (Hok ring buffers l2 h2 r). cbv zeta in Hok. apply Hok; [unfold queue_layout; by rewrite A1, A2|by destruct s|done|done|].
  etrans; [exact S1|]. etrans; [|exact Hs]. eapply same_on_weaken; [exact S2|].
  intros x Hx Hin. by apply Hx, (tk_rest _ _ _ _ T1).
Qed.
End init_queue.

(** ** Initialising both queues *)

Section virtq_init.
Context `{Platform} {TX : UartTx}.

(** The receive queue as the device first sees it: every descriptor is offered
    once, in order, and nothing is used yet. *)
Record rx_ready (r : gmap Z Z) (q : virtio_net_queue) : Prop := {
  rr_descs : descs r (q_ring q) (q_buffers q) VIRTQ_DESC_F_WRITE 256;
  rr_avail : ∀ i, 0 <= i < 256 → ram_load 2 (avail_ring (q_ring q) i) r = i;
  rr_idx : ram_load 2 (avail_idx (q_ring q)) r = 256;
  rr_used : zero_on r (virtq_used (q_ring q)) (4 + 8 * DESC_QUEUE_SIZE);
}.

Lemma wp_offer_all {A} q s (rest : M A) (Q : A → machine → Prop) :
  q_size q = DESC_QUEUE_SIZE → in_ram (q_ring q) (Z.to_nat sizeof_virtq) = true →
  queue_built (m_ram s) q VIRTQ_DESC_F_WRITE →
  (∀ r, rx_ready r q →
     same_on (λ x, x < virtq_avail (q_ring q) ∨ virtq_used (q_ring q) <= x) (m_ram s) r →
     wp rest (set_ram r s) Q) →
  wp (for_from 0 (Z.to_nat (q_size q)) (λ i, store 2 (avail_ring (q_ring q) i) i) ;;
      store 2 (avail_idx (q_ring q)) (q_size q) ;; rest) s Q.
Proof.
  intros Hn Hr (Hd & Ha & _) HQ. rewrite Hn. set (ring := q_ring q) in *. apply in_ram_spec in Hr.
  unfold sizeof_virtq, avail_ring, avail_idx, virtq_used, virtq_avail, DESC_QUEUE_SIZE in *.
  apply wp_bind. eapply (wp_for (λ k s', ∃ r, s' = set_ram r s ∧
    (∀ i, 0 <= i < k → ram_load 2 (ring + 16 * 256 + 4 + 2 * i) r = i) ∧
    same_on (λ x, x < ring + 16 * 256 + 4 ∨ ring + 16 * 256 + 4 + 2 * k <= x) (m_ram s) r)).
  - exists (m_ram s). split_and!; [by destruct s|lia|done].
  - intros k s' Hk (r & -> & Hl & Hs). apply wp_store; [apply in_ram_true; lia|].
    eexists. split; [done|]. rewrite ram_set_ram. split.
    + intros i Hi. destruct (decide (i = k)) as [->|].
      * rewrite ram_load_store_eq. apply Z.mod_small. lia.
      * rewrite ram_load_store_ne by lia. apply Hl. lia.
    + intros x Hx. rewrite byte_at_store_out by lia. apply Hs. lia.
  - intros s' (r & -> & Hl & Hs). apply wp_bind, wp_store; [apply in_ram_true; lia|].
    rewrite ram_set_ram, set_ram_ram. apply HQ.
    + split; unfold avail_ring, avail_idx, virtq_used, virtq_avail, DESC_QUEUE_SIZE; fold ring.
      * eapply descs_same; [|exact Hd]. intros x Hx. rewrite byte_at_store_out by lia. apply Hs. lia.
      * intros i Hi. rewrite ram_load_store_ne by lia. apply Hl. lia.
      * by rewrite ram_load_store_eq.
      * intros x Hx. rewrite byte_at_store_out, Hs by lia. apply Ha. lia.
    + intros x Hx. rewrite byte_at_store_out by lia. apply Hs. lia.
Qed.

(** Both queues are set up: four separate runs of pages that are not free any
    more hold the rings and buffers. *)
Record queues_ready (l : list Z) (s s1 : machine) (rx tx : virtio_net_queue) : Prop := {
  qr_net : m_net s1 = [rx; tx];
  qr_vars : ∀ i q, [rx; tx] !! i = Some q → ∃ q0, m_net s !! i = Some q0 ∧
              q = fresh_queue (q_ring q) (q_buffers q) q0;
  qr_pages : ∃ l1 l2, queue_pages l l1 rx ∧ queue_pages l1 l2 tx ∧ heap_inv s1 l2 ∧
              net_layout l = Some ((q_ring rx, q_buffers rx), (q_ring tx, q_buffers tx), l2);
  qr_rx : rx_ready (m_ram s1) rx;
  qr_tx : queue_built (m_ram s1) tx 0;
  qr_same : same_on (λ x, ¬ in_pages l x) (m_ram s) (m_ram s1);
  qr_csr : m_csr s1 = m_csr s;
  qr_sched : m_sched s1 = m_sched s;
}.

Lemma queue_ring_ram l l' q : queue_pages l l' q → in_ram (q_ring q) (Z.to_nat sizeof_virtq) = true.
Proof.
  intros (l1 & T & _). destruct (tk_ram _ _ _ _ T). rewrite PAGE_SIZE_eq in *.
  apply in_ram_true; unfold sizeof_virtq, DESC_QUEUE_SIZE; lia.
Qed.

Lemma queue_pages_in l l' q x :
  queue_pages l l' q → q_ring q <= x < q_ring q + sizeof_virtq → in_pages l x ∧ ¬ in_pages l' x.
Proof.
  intros (l1 & T1 & T2) Hx. unfold sizeof_virtq, DESC_QUEUE_SIZE in Hx.
  assert (q_ring q <= x < q_ring q + PAGE_SIZE * 2%nat) as Hx' by (rewrite PAGE_SIZE_eq; lia). split.
  - by apply (tk_from _ _ _ _ T1).
  - intros Hin. by apply (tk_gone _ _ _ _ T1 x Hx'), (tk_rest _ _ _ _ T2).
Qed.

Lemma queue_pages_rest l l' q x : queue_pages l l' q → in_pages l' x → in_pages l x.
Proof. intros (l1 & T1 & T2) Hx. by apply (tk_rest _ _ _ _ T1), (tk_rest _ _ _ _ T2). Qed.

Lemma wp_virtq_init device s l rx0 tx0 (Q : Z → machine → Prop) :
  heap_inv s l → m_net s = [rx0; tx0] →
  (∀ s', net_layout l = None → still_free l s' → Q (-1) s') →
  (∀ s1 s2 s' rx tx, queues_ready l s s1 rx tx → mem_barrier s1 = Ok tt s2 →
     prints s2 s' (chars ("Virtio Network Device Queue initialized." ++ nl)) → Q 0 s') →
  wp (virt_mmio_net_virtq_init device) s Q.
Proof.
  intros HI Hnet Hfail Hok. unfold virt_mmio_net_virtq_init.
  apply wp_bind, wp_puts_lit; [done|]. intros s0 P0. apply wp_bind.
  assert (heap_inv s0 l) as HI0
    by (eapply heap_inv_ext; [by eapply prints_ram|by eapply prints_heap|done]).
  assert (m_net s0 = [rx0; tx0]) as Hn0 by (by rewrite (prints_net _ _ _ P0)).
  eapply (wp_init_queue 0 rx0 s0 l); [done|by rewrite Hn0| |].
  { intros s' A1 Hf. apply wp_ret, Hfail; [unfold net_layout; by rewrite A1|done]. }
  intros rg1 bf1 l1 h1 r1 rx s1 A1 HI1 B1 Pg1 S1. cbn [negb]. apply wp_bind.
  assert (m_net s1 = [rx; tx0]) as Hn1.
  { unfold s1. cbn [m_net set_ram set_net set_heap]. by rewrite Hn0. }
  eapply (wp_init_queue 1 tx0 s1 l1); [done|by rewrite Hn1| |].
  { intros s' A2 (l' & ? & Hsub). apply wp_ret, Hfail; [unfold net_layout; by rewrite A1, A2|]. exists l'. split; [done|].
    intros x Hx. eapply queue_pages_rest; [done|]. auto. }
  intros rg2 bf2 l2 h2 r2 tx s2 A2 HI2 B2 Pg2 S2. cbn [negb].
  assert (m_net s2 = [rx; tx]) as Hn2.
  { unfold s2. cbn [m_net set_ram set_net set_heap]. by rewrite Hn1. }
  apply wp_bind. eapply wp_get_queue; [by rewrite Hn2|].
  apply wp_offer_all; [done|by eapply queue_ring_ram| |].
  { change (m_ram s2) with r2. eapply (queue_built_same r1); [exact Pg1|auto|exact B1]. }
  change (m_ram s2) with r2. intros r Hrx Hsame. set (s3 := set_ram r s2).
  assert (∀ x, ¬ in_pages l x ∨ in_pages l1 x → byte_at r x = byte_at r2 x) as Hkeep.
  { intros x Hx. apply Hsame. apply dec_stable. intros Hno. unfold virtq_used, virtq_avail in Hno.
    destruct (queue_pages_in _ _ _ x Pg1); [|tauto]. unfold sizeof_virtq, DESC_QUEUE_SIZE in *. lia. }
  assert (queues_ready l s s3 rx tx) as Hready.
  { split; [done| | |done| | | |].
    - intros i q Hq. rewrite Hnet. destruct i as [|[|i]]; simplify_eq/=; eauto.
    - exists l1, l2. split_and!; [done..| |unfold net_layout; by rewrite A1, A2]. apply heap_inv_same; [done|]. intros x Hx.
      apply Hkeep. right. by eapply queue_pages_rest.
    - eapply (queue_built_same r2); [exact Pg2|auto|exact B2].
    - intros x Hx. unfold s3. rewrite ram_set_ram, Hkeep by tauto. 
      rewrite S2 by (intros Hin; by apply Hx; eapply queue_pages_rest). change (m_ram s1) with r1.
      rewrite S1 by done. by rewrite (prints_ram _ _ _ P0).
    - exact (prints_csr _ _ _ P0).
    - exact (prints_sched _ _ _ P0). }
  apply wp_bind. destruct (mem_barrier s3) as [[] s4|] eqn:E4; [|by unfold mem_barrier in E4; case_match].
  apply (wp_intro _ _ tt s4); [done|]. apply wp_bind, wp_puts_lit; [done|]. intros s5 P5.
  apply wp_ret. by eapply Hok.
Qed.

(** C20: initialising the queues.  From a sound allocator
    [virt_mmio_net_virtq_init] returns 0 exactly when the allocator can serve its
    four requests, and -1 otherwise.  With 0, at the barrier it issues both
    queues lie in separate runs of pages that are no longer free, every receive
    descriptor points to its own 2048 byte buffer and is offered exactly once,
    the transmit queue offers nothing, both used rings are empty, and memory
    outside the pages that were free is untouched; with -1, the allocator is
    still sound. *)
Theorem virtq_init_correct device s l rx0 tx0 :
  heap_inv s l → m_net s = [rx0; tx0] →
  wp (virt_mmio_net_virtq_init device) s (λ v s',
    match net_layout l with
    | None => v = -1 ∧ still_free l s'
    | Some _ => v = 0 ∧ ∃ s1 s2 rx tx, queues_ready l s s1 rx tx ∧ mem_barrier s1 = Ok tt s2 ∧
        prints s2 s' (chars ("Virtio Network Device Queue initialized." ++ nl))
    end).
Proof.
  intros HI Hn. eapply wp_virtq_init; [done..| |].
  - intros s' -> Hf. done.
  - intros s1 s2 s' rx tx Hr Hb Hp. destruct (qr_pages _ _ _ _ _ Hr) as (l1 & l2 & _ & _ & _ & ->).
    split; [done|]. by exists s1, s2, rx, tx.
Qed.

(** A descriptor as a device on a split virtqueue reads it: address, length,
    flags at offset 12, next at offset 14. *)
Definition split_desc (r : gmap Z Z) (ring i : Z) : Z * Z * Z * Z :=
  let d := ring + 16 * i in (ram_load 8 d r, ram_load 4 (d + 8) r, ram_load 2 (d + 12) r, ram_load 2 (d + 14) r).

(** C35: the flags are in the wrong place.  [struct virtq_desc] has [id] where a
    split virtqueue has [flags], so when there is enough memory initialisation
    returns 0 and every receive descriptor the device reads has no flag set: none
    of the buffers is marked as writable for the device, and the flag ends up in
    [next]. *)
Theorem rx_descriptors_misplaced device s l rx0 tx0 :
  heap_inv s l → m_net s = [rx0; tx0] → net_layout l ≠ None →
  wp (virt_mmio_net_virtq_init device) s (λ v s', v = 0 ∧
    ∃ s1 s2 rx, m_net s1 !! 0%nat = Some rx ∧ mem_barrier s1 = Ok tt s2 ∧
      prints s2 s' (chars ("Virtio Network Device Queue initialized." ++ nl)) ∧
      ∀ i, 0 <= i < 256 → split_desc (m_ram s1) (q_ring rx) i =
        (q_buffers rx + QUEUE_BUF_SIZE * i, QUEUE_BUF_SIZE, 0, VIRTQ_DESC_F_WRITE)).
Proof.
  intros HI Hn Hlay. eapply wp_virtq_init; [done..|done|].
  intros s1 s2 s' rx tx [Hnet _ _ Hrx _ _ _ _] Hb Hp. split; [done|]. exists s1, s2, rx. split_and!; [by rewrite Hnet|done|done|].
  intros i Hi. destruct (rr_descs _ _ Hrx i Hi) as [Ha Hl Hid Hf]. unfold split_desc.
  unfold desc_addr, desc_len, desc_id, desc_flags, virtq_desc in *. congruence.
Qed.
End virtq_init.
