(* ===== verification/VirtioNet.v ===== *)
(** * Sending on a virtqueue

    The driver's view of a queue, and what [virt_mmio_net_send] publishes, step
    by step between the fences at which a device looks at memory. *)

From S2P Require Import Prelude Globals Machine Utils Uart Heap HeapSpec Paging Packet Virtio VirtioSpec Virtq.

(** ** The driver's view of a queue *)

(** The parts of a queue the driver owns: the descriptors and the available
    ring. *)
Definition driver_part (q : virtio_net_queue) (x : Z) : Prop := q_ring q <= x < virtq_used (q_ring q).

Definition buffer (q : virtio_net_queue) (i : Z) : Z := q_buffers q + QUEUE_BUF_SIZE * i.

Record queue_ok (r : gmap Z Z) (q : virtio_net_queue) : Prop := {
  qo_size : q_size q = DESC_QUEUE_SIZE;
  qo_ring : in_ram (q_ring q) (Z.to_nat sizeof_virtq) = true;
  qo_buffers : in_ram (q_buffers q) (Z.to_nat (QUEUE_BUF_SIZE * DESC_QUEUE_SIZE)) = true;
  qo_apart : q_ring q + sizeof_virtq <= q_buffers q ∨
             q_buffers q + QUEUE_BUF_SIZE * DESC_QUEUE_SIZE <= q_ring q;
  qo_addr : ∀ i, 0 <= i < 256 → ram_load 8 (desc_addr (q_ring q) i) r = buffer q i;
  qo_last : 0 <= q_last_used_idx q < 2 ^ 16;
  qo_next : 0 <= q_next_desc q < 256;
  qo_use : length (q_in_use q) = 256%nat;
}.

Lemma queue_ok_same r r' q :
  same_on (λ x, q_ring q <= x < virtq_avail (q_ring q)) r r' → queue_ok r q → queue_ok r' q.
Proof.
  intros Hs [? ? ? ? Ha ? ? ?]. split; try done. intros i Hi. rewrite <- Ha by done.
  eapply same_on_load; [exact Hs|]. unfold desc_addr, virtq_desc, virtq_avail, DESC_QUEUE_SIZE.
  intros x Hx. lia.
Qed.

(** Descriptor [d] is the first one from [start] on, going round, that is not
    in use. *)
Definition use_at (use : list Z) (i : Z) : Z := default 1 (use !! Z.to_nat i).
Definition first_free (use : list Z) (start d : Z) : Prop :=
  ∃ k, 0 <= k < 256 ∧ d = (start + k) mod 256 ∧ use_at use d = 0 ∧
    ∀ j, 0 <= j < k → use_at use ((start + j) mod 256) ≠ 0.
Definition all_used (use : list Z) : Prop := ∀ i, 0 <= i < 256 → use_at use i ≠ 0.

Section search.
Context `{Platform}.

Lemma wp_get_in_use s i q d (Q : Z → machine → Prop) :
  m_net s !! Z.to_nat i = Some q → length (q_in_use q) = 256%nat → 0 <= d < 256 →
  Q (use_at (q_in_use q) d) s → wp (get_in_use i d) s Q.
Proof.
  intros Hq Hl Hd HQ. unfold get_in_use. apply wp_bind. eapply wp_get_queue; [exact Hq|].
  unfold array_get. unfold use_at in HQ.
  destruct (lookup_lt_is_Some_2 (q_in_use q) (Z.to_nat d)) as [v Hv]; [lia|].
  rewrite Hv in *. by apply wp_ret.
Qed.

Lemma wp_umod a b s (Q : Z → machine → Prop) : b ≠ 0 → Q (a mod b) s → wp (umod a b) s Q.
Proof. intros Hb HQ. unfold umod. rewrite (proj2 (Z.eqb_neq b 0)) by done. by apply wp_ret. Qed.

(** The search visits the descriptors in order and stops at a free one, or
    comes back to where it started. *)
Lemma wp_search_desc s q (start : Z) (n : nat) (k : Z) (Q : Z → machine → Prop) :
  m_net s !! 1%nat = Some q → q_size q = 256 → length (q_in_use q) = 256%nat →
  0 <= start < 256 → 0 <= k → k + n = 256 →
  (∀ j, 0 <= j < k → use_at (q_in_use q) ((start + j) mod 256) ≠ 0) →
  (∀ d, first_free (q_in_use q) start d → Q d s) →
  (all_used (q_in_use q) → Q start s) →
  wp (search_desc n ((start + k) mod 256)) s Q.
Proof.
  intros Hq Hsz Hl Hst. revert k. induction n as [|n IH]; intros k Hk Hn Hused HQ HQ'; simpl.
  - apply wp_ret. assert (k = 256) as -> by lia.
    replace ((start + 256) mod 256) with start by dlia. apply HQ'. intros i Hi.
    destruct (decide (start <= i)).
    + replace i with ((start + (i - start)) mod 256) by dlia. apply Hused. lia.
    + replace i with ((start + (i + 256 - start)) mod 256) by dlia. apply Hused. lia.
  - apply wp_bind. eapply wp_get_in_use; [exact Hq|done|dlia|].
    destruct (Z.eqb_spec (use_at (q_in_use q) ((start + k) mod 256)) 0) as [Hz|Hz].
    + apply wp_ret, HQ. exists k. split_and!; [lia..|done|done|done].
    + apply wp_bind. eapply wp_get_queue; [exact Hq|]. apply wp_bind, wp_umod; [lia|]. rewrite Hsz.
      replace (((start + k) mod 256 + 1) mod 256) with ((start + (k + 1)) mod 256) by dlia.
      apply IH; [lia|lia| |done|done]. intros j Hj. destruct (decide (j = k)) as [->|]; [done|].
      apply Hused. lia.
Qed.
End search.

(** ** The available ring *)

Section avail.
Context `{Platform}.

Lemma wp_put_avail ring d s (Q : unit → machine → Prop) :
  in_ram ring (Z.to_nat sizeof_virtq) = true →
  let slot := ram_load 2 (avail_idx ring) (m_ram s) mod 256 in
  Q tt (set_ram (ram_store 2 (avail_ring ring slot) (u16 d) (m_ram s)) s) →
  wp (put_avail ring 256 d) s Q.
Proof.
  intros Hr slot HQ. apply in_ram_spec in Hr. unfold sizeof_virtq, DESC_QUEUE_SIZE in Hr. unfold put_avail.
  assert (0 <= slot < 256) by (unfold slot; dlia).
  apply wp_bind, wp_load; [apply in_ram_true; unfold avail_idx, virtq_avail, DESC_QUEUE_SIZE; lia|].
  apply wp_bind, wp_umod; [lia|]. fold slot.
  apply wp_store; [apply in_ram_true; unfold avail_ring, virtq_avail, DESC_QUEUE_SIZE; lia|done].
Qed.

Lemma wp_bump_avail ring s (Q : unit → machine → Prop) :
  in_ram ring (Z.to_nat sizeof_virtq) = true →
  Q tt (set_ram (ram_store 2 (avail_idx ring) (u16 (ram_load 2 (avail_idx ring) (m_ram s) + 1)) (m_ram s)) s) →
  wp (bump_avail ring) s Q.
Proof.
  intros Hr HQ. apply in_ram_spec in Hr. unfold sizeof_virtq, DESC_QUEUE_SIZE in Hr. unfold bump_avail.
  assert (in_ram (avail_idx ring) 2 = true)
    by (apply in_ram_true; unfold avail_idx, virtq_avail, DESC_QUEUE_SIZE; lia).
  apply wp_bind, wp_load; [done|]. by apply wp_store.
Qed.

(** Notifying the device is one write to its notification register. *)
Lemma wp_notify device v s (Q : unit → machine → Prop) :
  slot_addr device → 0 <= v < 2 ^ 32 →
  (∀ s', io_ext s s' [EWrite (device + VIRTIO_MMIO_QUEUE_NOTIFY) 4 v] → Q tt s') →
  wp (virt_mmio_write device VIRTIO_MMIO_QUEUE_NOTIFY v) s Q.
Proof.
  intros Hs Hv HQ. destruct (slot_mmio device Hs VIRTIO_MMIO_QUEUE_NOTIFY) as (E & Er & Em & _); [done|].
  unfold virt_mmio_write, w32. rewrite E. apply wp_io_write; [done..|]. intros s'.
  rewrite Z.mod_small by lia. apply HQ.
Qed.
End avail.

(** ** Sending *)

Section send.
Context `{Platform} {TX : UartTx} (device : Z) (Hslot : slot_addr device).

(** The packet [bytes] is in the buffer of descriptor [d], which describes it
    and is entered in [slot] of the available ring. *)
Record packet_ready (r : gmap Z Z) (q : virtio_net_queue) (d slot : Z) (bytes : list Z) : Prop := {
  pr_bytes : ram_bytes (length bytes) (buffer q d) r = bytes;
  pr_addr : ram_load 8 (desc_addr (q_ring q) d) r = buffer q d;
  pr_len : ram_load 4 (desc_len (q_ring q) d) r = length bytes;
  pr_flags : ram_load 2 (desc_flags (q_ring q) d) r = 0;
  pr_slot : ram_load 2 (avail_ring (q_ring q) slot) r = d;
}.

Lemma packet_ready_same r r' q d slot bytes :
  queue_ok r q → 0 <= d < 256 → 0 <= slot < 256 → length bytes <= QUEUE_BUF_SIZE →
  (∀ x, driver_part q x → x < avail_idx (q_ring q) ∨ avail_idx (q_ring q) + 2 <= x → byte_at r' x = byte_at r x) →
  (∀ x, buffer q d <= x < buffer q d + QUEUE_BUF_SIZE → byte_at r' x = byte_at r x) →
  packet_ready r q d slot bytes → packet_ready r' q d slot bytes.
Proof.
  intros Hok Hd Hs Hl H1 H2 [Hb Ha Hlen Hf Hsl].
  assert (∀ (n : nat) a, q_ring q <= a → a + n <= virtq_used (q_ring q) →
    a + n <= avail_idx (q_ring q) ∨ avail_idx (q_ring q) + 2 <= a → ram_load n a r' = ram_load n a r) as Hload.
  { intros n a Ha1 Ha2 Ha3. apply ram_load_ext. intros x Hx. apply H1; unfold driver_part; lia. }
  unfold driver_part, virtq_used, avail_idx, avail_ring, desc_addr, desc_len, desc_flags, virtq_desc, virtq_avail,
    DESC_QUEUE_SIZE in *.
  split; unfold avail_ring, desc_addr, desc_len, desc_flags, virtq_desc, virtq_avail, DESC_QUEUE_SIZE;
    rewrite ?Hload by lia; try done.
  rewrite <- Hb at 2. apply ram_bytes_ext. intros x Hx. apply H2. lia.
Qed.

(** Memory after the stores of [virt_mmio_net_send] before its first fence. *)
Definition filled (r : gmap Z Z) (q : virtio_net_queue) (d slot : Z) (bytes : list Z) : gmap Z Z :=
  ram_store 2 (avail_ring (q_ring q) slot) (u16 d)
    (ram_store 2 (desc_flags (q_ring q) d) 0
      (ram_store 4 (desc_len (q_ring q) d) (length bytes)
        (ram_write (buffer q d) bytes r))).

Lemma ram_bytes_written a bs r : Forall (λ b, 0 <= b < 2 ^ 8) bs → ram_bytes (length bs) a (ram_write a bs r) = bs.
Proof.
  intros Hb. apply list_eq. intros i. destruct (decide (i < length bs)%nat) as [Hi|Hi].
  - rewrite lookup_ram_bytes by done. destruct (lookup_lt_is_Some_2 bs i Hi) as [b E]. rewrite E.
    rewrite (byte_at_write_in _ _ _ _ _ E). f_equal. apply Z.mod_small.
    exact (Forall_lookup_1 _ _ _ _ Hb E).
  - rewrite (lookup_ge_None_2 bs) by lia. apply lookup_ge_None_2. rewrite length_ram_bytes. lia.
Qed.

Lemma filled_ready r q d slot bytes :
  queue_ok r q → 0 <= d < 256 → 0 <= slot < 256 → length bytes <= QUEUE_BUF_SIZE →
  Forall (λ b, 0 <= b < 2 ^ 8) bytes →
  let r' := filled r q d slot bytes in
  packet_ready r' q d slot bytes ∧
  ram_load 2 (avail_idx (q_ring q)) r' = ram_load 2 (avail_idx (q_ring q)) r ∧
  queue_ok r' q ∧
  same_on (λ x, ¬ driver_part q x ∧ (x < buffer q d ∨ buffer q d + QUEUE_BUF_SIZE <= x)) r r'.
Proof.
  intros Hok Hd Hs Hl Hb r'. pose proof (qo_apart _ _ Hok) as Hap. pose proof (qo_addr _ _ Hok) as Haddr.
  unfold r', filled, driver_part, buffer, sizeof_virtq, avail_idx, avail_ring, virtq_used, desc_addr,
    desc_len, desc_flags, virtq_desc, virtq_avail, QUEUE_BUF_SIZE, DESC_QUEUE_SIZE in *.
  rewrite u16_small by lia. split_and!.
  - split; unfold buffer, avail_ring, desc_addr, desc_len, desc_flags, virtq_desc, virtq_avail,
      QUEUE_BUF_SIZE, DESC_QUEUE_SIZE.
    + etrans; [|by apply (ram_bytes_written (q_buffers q + 2048 * d) bytes r)].
      apply ram_bytes_ext. intros x Hx. by rewrite !byte_at_store_out by lia.
    + rewrite !ram_load_store_ne, ram_load_write_out by lia. by apply Haddr.
    + rewrite !ram_load_store_ne, ram_load_store_eq by lia. apply Z.mod_small. lia.
    + by rewrite ram_load_store_ne, ram_load_store_eq by lia.
    + rewrite ram_load_store_eq. apply Z.mod_small. lia.
  - by rewrite !ram_load_store_ne, ram_load_write_out by lia.
  - destruct Hok as [? ? ? ? ? ? ? ?]. split; try done. intros i Hi.
    unfold desc_addr, virtq_desc, buffer, QUEUE_BUF_SIZE.
    rewrite !ram_load_store_ne, ram_load_write_out by lia. by apply Haddr.
  - intros x [H1 H2]. rewrite !byte_at_store_out, byte_at_write_out by lia. done.
Qed.

Context (W : Z → Prop) `{!DmaWithin W}.

Definition tx_queue (q : virtio_net_queue) (d : Z) : virtio_net_queue :=
  with_next_desc ((d + 1) mod 256) (with_in_use (<[Z.to_nat d := 1]> (q_in_use q)) q).

(** The course of a transmission: at the first fence the packet is in place but
    not announced, at the second it is announced as well, then the device is
    notified. *)
Definition sent (s : machine) (q : virtio_net_queue) (d : Z) (bytes : list Z) (s' : machine) : Prop :=
  let idx := ram_load 2 (avail_idx (q_ring q)) (m_ram s) in
  let slot := idx mod 256 in
  ∃ s0 s1 s2 s3 s4,
    prints s s0 (chars ("Sending data via Virtio Network Device..." ++ nl)) ∧
    s1 = set_ram (m_ram s1) (set_net (<[1%nat := tx_queue q d]> (m_net s)) s0) ∧
    packet_ready (m_ram s1) q d slot bytes ∧ ram_load 2 (avail_idx (q_ring q)) (m_ram s1) = idx ∧
    fenced s1 s2 ∧ s3 = set_ram (m_ram s3) s2 ∧
    packet_ready (m_ram s3) q d slot bytes ∧
    ram_load 2 (avail_idx (q_ring q)) (m_ram s3) = (idx + 1) mod 2 ^ 16 ∧
    fenced s3 s4 ∧ io_ext s4 s' [EWrite (device + VIRTIO_MMIO_QUEUE_NOTIFY) 4 VIRTIO_NET_TX_QUEUE] ∧
    queue_ok (m_ram s') (tx_queue q d) ∧
    same_on (λ x, ¬ driver_part q x ∧ (x < buffer q d ∨ buffer q d + QUEUE_BUF_SIZE <= x) ∧ ¬ W x)
      (m_ram s) (m_ram s').

(** The device is not given the driver's part of a queue. *)
Definition driver_owned (q : virtio_net_queue) : Prop := ∀ x, driver_part q x → ¬ W x.

(** The announcement is still there at the end. *)
Lemma sent_avail s q d bytes s' : driver_owned q → sent s q d bytes s' →
  ram_load 2 (avail_idx (q_ring q)) (m_ram s') = (ram_load 2 (avail_idx (q_ring q)) (m_ram s) + 1) mod 2 ^ 16.
Proof.
  intros Hown (s0 & s1 & s2 & s3 & s4 & _ & _ & _ & _ & _ & _ & _ & Hi3 & F4 & X & _).
  assert (m_ram s' = m_ram s4) as -> by (by destruct X as [? ->]). rewrite <- Hi3.
  eapply same_on_load; [exact (fenced_same W _ _ F4)|]. intros x Hx. apply Hown.
  unfold driver_part, virtq_used, avail_idx, virtq_avail, DESC_QUEUE_SIZE in *. lia.
Qed.

Lemma tx_queue_ok r q d : 0 <= d < 256 → queue_ok r q → queue_ok r (tx_queue q d).
Proof.
  intros Hd [? ? ? ? ? ? ? ?]. split; try done; cbn.
  - dlia.
  - by rewrite length_insert.
Qed.

(** From the first fence on. *)
Lemma wp_announce s0 s1 s q d bytes :
  let idx := ram_load 2 (avail_idx (q_ring q)) (m_ram s) in
  prints s s0 (chars ("Sending data via Virtio Network Device..." ++ nl)) →
  s1 = set_ram (filled (m_ram s) q d (idx mod 256) bytes) (set_net (<[1%nat := tx_queue q d]> (m_net s)) s0) →
  queue_ok (m_ram s) q → 0 <= d < 256 → length bytes <= QUEUE_BUF_SIZE →
  Forall (λ b, 0 <= b < 2 ^ 8) bytes → driver_owned q →
  (∀ x, buffer q d <= x < buffer q d + QUEUE_BUF_SIZE → ¬ W x) →
  wp (mem_barrier ;; bump_avail (q_ring q) ;; mem_barrier ;;
      virt_mmio_write device VIRTIO_MMIO_QUEUE_NOTIFY VIRTIO_NET_TX_QUEUE) s1 (λ _ s', sent s q d bytes s').
Proof.
  intros idx P0 E1 Hok Hd Hl Hb Hown Hbuf. set (slot := idx mod 256) in *.
  assert (0 <= slot < 256) as Hs by (unfold slot; dlia).
  destruct (filled_ready _ _ _ slot _ Hok Hd Hs Hl Hb) as (Hr1 & Hi1 & Hok1 & Hs1). fold idx in Hi1.
  set (r1 := filled (m_ram s) q d slot bytes) in *.
  assert (m_ram s1 = r1) as Er1 by (by rewrite E1).
  apply wp_bind, wp_fence. intros s2 F2. pose proof (fenced_same W _ _ F2) as D2. rewrite Er1 in D2.
  apply wp_bind, wp_bump_avail; [apply Hok|].
  assert (ram_load 2 (avail_idx (q_ring q)) (m_ram s2) = idx) as Hi2.
  { rewrite <- Hi1. eapply same_on_load; [exact D2|]. intros x Hx. apply Hown.
    unfold driver_part, virtq_used, avail_idx, virtq_avail, DESC_QUEUE_SIZE in *. lia. }
  rewrite Hi2. set (s3 := set_ram _ s2).
  assert (same_on (λ x, ¬ W x ∧ (x < avail_idx (q_ring q) ∨ avail_idx (q_ring q) + 2 <= x)) r1 (m_ram s3)) as D3.
  { intros x [Hx1 Hx2]. unfold s3. rewrite ram_set_ram, byte_at_store_out by lia. by apply D2. }
  apply wp_bind, wp_fence. intros s4 F4. pose proof (fenced_same W _ _ F4) as D4.
  apply wp_notify; [done|done|]. intros s' X. exists s0, s1, s2, s3, s4.
  assert (m_ram s' = m_ram s4) as E4 by (by destruct X as [? ->]).
  split_and!; [done|by rewrite Er1|by rewrite Er1|by rewrite Er1|done|done| | |done|done| |].
  - eapply packet_ready_same; [exact Hok1|done|done|done| | |exact Hr1]; intros x Hx; [intros Hx'|].
    + apply D3. auto.
    + apply D3. split; [auto|]. pose proof (qo_apart _ _ Hok). 
      unfold buffer, avail_idx, virtq_avail, sizeof_virtq, QUEUE_BUF_SIZE, DESC_QUEUE_SIZE in *. lia.
  - unfold s3. rewrite ram_set_ram, ram_load_store_eq. unfold u16. by rewrite Z.mod_mod by lia.
  - apply tx_queue_ok; [done|]. eapply (queue_ok_same r1); [|exact Hok1]. intros x Hx. rewrite E4.
    assert (¬ W x) by (apply Hown; unfold driver_part, virtq_used, DESC_QUEUE_SIZE; lia).
    rewrite D4 by done. apply D3. split; [done|]. left. unfold avail_idx. lia.
  - intros x (Hx1 & Hx2 & Hx3). rewrite E4, D4 by done. etrans; [apply D3|by apply Hs1].
    split; [done|]. unfold driver_part, virtq_used, avail_idx, virtq_avail, DESC_QUEUE_SIZE in *. lia.
Qed.

Lemma byte_range n a r : Forall (λ b, 0 <= b < 2 ^ 8) (ram_bytes n a r).
Proof. revert a. induction n; intros a; simpl; constructor; [apply byte_at_range|done]. Qed.

Lemma first_free_range use start d : first_free use start d → 0 <= d < 256 ∧ use_at use d = 0.
Proof. intros (k & Hk & -> & Hu & _). split; [dlia|done]. Qed.

Lemma wp_set_in_use s i q d v (Q : unit → machine → Prop) :
  m_net s !! Z.to_nat i = Some q → length (q_in_use q) = 256%nat → 0 <= d < 256 →
  Q tt (set_net (<[Z.to_nat i := with_in_use (<[Z.to_nat d := v]> (q_in_use q)) q]> (m_net s)) s) →
  wp (set_in_use i d v) s Q.
Proof.
  intros Hq Hl Hd HQ. unfold set_in_use. apply wp_bind. eapply wp_get_queue; [exact Hq|].
  rewrite decide_True by lia. apply wp_upd_queue. by rewrite (alter_lookup _ _ _ _ Hq).
Qed.

(** The part of [virt_mmio_net_send] after a free descriptor is found. *)
Lemma wp_send_packet s s0 q d data len :
  prints s s0 (chars ("Sending data via Virtio Network Device..." ++ nl)) →
  m_net s !! 1%nat = Some q → queue_ok (m_ram s) q → driver_owned q →
  (∀ x, q_buffers q <= x < q_buffers q + QUEUE_BUF_SIZE * DESC_QUEUE_SIZE → ¬ W x) →
  0 <= len <= QUEUE_BUF_SIZE → in_ram data (Z.to_nat len) = true →
  (data + len <= q_buffers q ∨ q_buffers q + QUEUE_BUF_SIZE * DESC_QUEUE_SIZE <= data) →
  0 <= d < 256 →
  wp (addr <- load 8 (desc_addr (q_ring q) d);
      mem_copy addr data len ;;
      store 4 (desc_len (q_ring q) d) len ;;
      store 2 (desc_flags (q_ring q) d) 0 ;;
      put_avail (q_ring q) DESC_QUEUE_SIZE d ;;
      set_in_use VIRTIO_NET_TX_QUEUE d 1 ;;
      next <- umod (d + 1) DESC_QUEUE_SIZE;
      upd_queue VIRTIO_NET_TX_QUEUE (with_next_desc next) ;;
      mem_barrier ;; bump_avail (q_ring q) ;; mem_barrier ;;
      virt_mmio_write device VIRTIO_MMIO_QUEUE_NOTIFY VIRTIO_NET_TX_QUEUE) s0
    (λ _ s', sent s q d (ram_bytes (Z.to_nat len) data (m_ram s)) s').
Proof.
  intros P0 Hq Hok Hown Hbuf Hl Hdata Hdis Hd.
  set (bytes := ram_bytes (Z.to_nat len) data (m_ram s)).
  assert (Z.of_nat (length bytes) = len) as Hlen by (unfold bytes; rewrite length_ram_bytes; lia).
  pose proof (proj1 (in_ram_spec _ _) (qo_ring _ _ Hok)) as Hring.
  pose proof (proj1 (in_ram_spec _ _) (qo_buffers _ _ Hok)) as Hbufs.
  pose proof (qo_apart _ _ Hok) as Hap.
  unfold sizeof_virtq, QUEUE_BUF_SIZE, DESC_QUEUE_SIZE in Hring, Hbufs, Hap.
  assert (∀ (o : Z) (n : nat), 0 <= o → o + n <= 16 → in_ram (virtq_desc (q_ring q) d + o) n = true) as Hin.
  { intros. unfold virtq_desc. apply in_ram_true; lia. }
  apply wp_bind, wp_load.
  { unfold desc_addr. rewrite <- (Z.add_0_r (virtq_desc _ _)). apply Hin; lia. }
  rewrite (prints_ram _ _ _ P0), (qo_addr _ _ Hok) by done.
  apply wp_bind, wp_mem_copy; [|done| |].
  { apply in_ram_true; unfold buffer, QUEUE_BUF_SIZE in *; lia. }
  { unfold buffer, QUEUE_BUF_SIZE, DESC_QUEUE_SIZE in *. lia. }
  rewrite (prints_ram _ _ _ P0). fold bytes.
  apply wp_bind, wp_store; [apply Hin; lia|]. apply wp_bind, wp_store; [apply Hin; lia|].
  rewrite !ram_set_ram, !set_ram_ram. apply wp_bind, wp_put_avail; [apply Hok|].
  rewrite ram_set_ram, set_ram_ram.
  rewrite !ram_load_store_ne, ram_load_write_out by
    (unfold desc_flags, desc_len, virtq_desc, avail_idx, virtq_avail, buffer, QUEUE_BUF_SIZE, DESC_QUEUE_SIZE in *; lia).
  set (idx := ram_load 2 (avail_idx (q_ring q)) (m_ram s)). rewrite <- Hlen at 1.
  change (ram_store 2 (avail_ring _ _) _ _) with (filled (m_ram s) q d (idx mod 256) bytes).
  apply wp_bind. eapply wp_set_in_use; [|apply Hok|done|].
  { simpl. by rewrite (prints_net _ _ _ P0). }
  apply wp_bind, wp_umod; [done|]. apply wp_bind, wp_upd_queue.
  eapply (wp_announce s0); [exact P0| |done|done|lia|apply byte_range|done|].
  - cbn [m_net set_net set_ram]. rewrite (prints_net _ _ _ P0).
    rewrite alter_inserted by (by eapply lookup_lt_Some). by destruct s0.
  - intros x Hx. apply Hbuf. unfold buffer, QUEUE_BUF_SIZE, DESC_QUEUE_SIZE in *. lia.
Qed.

Lemma wp_send data len s q :
  m_net s !! 1%nat = Some q → queue_ok (m_ram s) q → driver_owned q →
  (∀ x, q_buffers q <= x < q_buffers q + QUEUE_BUF_SIZE * DESC_QUEUE_SIZE → ¬ W x) →
  0 <= len → in_ram data (Z.to_nat len) = true →
  (data + len <= q_buffers q ∨ q_buffers q + QUEUE_BUF_SIZE * DESC_QUEUE_SIZE <= data) →
  wp (virt_mmio_net_send device data len) s (λ _ s',
    let hello := chars ("Sending data via Virtio Network Device..." ++ nl) in
    (QUEUE_BUF_SIZE < len ∧ prints s s' (hello ++ chars ("TX packet exceeds queue buffer size." ++ nl))) ∨
    (len <= QUEUE_BUF_SIZE ∧ all_used (q_in_use q) ∧
     prints s s' (hello ++ chars ("No free TX descriptors." ++ nl))) ∨
    (len <= QUEUE_BUF_SIZE ∧ ∃ d, first_free (q_in_use q) (q_next_desc q) d ∧
     sent s q d (ram_bytes (Z.to_nat len) data (m_ram s)) s')).
Proof.
  intros Hq Hok Hown Hbuf Hl Hdata Hdis. unfold virt_mmio_net_send.
  apply wp_bind, wp_puts_lit; [done|]. intros s0 P0.
  assert (m_net s0 !! 1%nat = Some q) as Hq0 by (by rewrite (prints_net _ _ _ P0)).
  apply wp_bind. eapply wp_get_queue; [exact Hq0|].
  destruct (Z.ltb_spec QUEUE_BUF_SIZE len) as [Hlt|Hge].
  { apply wp_puts_lit; [done|]. intros s' P'. left. split; [done|]. by eapply prints_app. }
  apply wp_bind. rewrite (qo_size _ _ Hok). pose proof (qo_next _ _ Hok) as Hnext.
  replace (q_next_desc q) with ((q_next_desc q + 0) mod 256) at 1 by dlia.
  eapply wp_search_desc; [exact Hq0|apply Hok|apply Hok|done|done|done|lia| |].
  2:{ intros Hall. apply wp_bind. eapply wp_get_in_use; [exact Hq0|apply Hok|done|].
      rewrite (proj2 (Z.eqb_neq _ 0)) by (by apply Hall). cbn [negb].
      apply wp_puts_lit; [done|]. intros s' P'. right. left. split_and!; [done|done|by eapply prints_app]. }
  intros d Hd. destruct (first_free_range _ _ _ Hd) as [Hdr Hz]. apply wp_bind.
  eapply wp_get_in_use; [exact Hq0|apply Hok|done|]. rewrite Hz. cbn [Z.eqb negb].
  eapply wp_mono; [by eapply wp_send_packet|]. intros [] s' Hsent. right. right. by eauto.
Qed.

Lemma sent_vars s q d bytes s' : sent s q d bytes s' →
  m_net s' = <[1%nat := tx_queue q d]> (m_net s) ∧ m_heap s' = m_heap s.
Proof.
  intros (s0 & s1 & s2 & s3 & s4 & P0 & E1 & _ & _ & F2 & E3 & _ & _ & F4 & [d' ->] & _).
  destruct (fenced_vars _ _ F2) as (N2 & H2 & _), (fenced_vars _ _ F4) as (N4 & H4 & _).
  assert (m_net s3 = m_net s2 ∧ m_heap s3 = m_heap s2) as [N3 H3] by (by rewrite E3).
  assert (m_net s1 = <[1%nat := tx_queue q d]> (m_net s) ∧ m_heap s1 = m_heap s0) as [N1 H1] by (by rewrite E1).
  cbn. rewrite N4, N3, N2, N1, H4, H3, H2, H1. split; [done|]. by eapply prints_heap.
Qed.

(** C18: sending.  On a sound transmit queue [virt_mmio_net_send] returns.  A
    packet longer than a buffer, or one for which no descriptor is free, is
    reported and changes nothing.  Otherwise the first free descriptor from
    [next_desc] on is used, and the device, which looks at memory at fences,
    sees the complete packet, descriptor and ring entry before the index that
    announces them; then it is notified, the descriptor is marked in use and
    the queue is still sound. *)
Theorem send_correct data len s q :
  m_net s !! 1%nat = Some q → queue_ok (m_ram s) q → driver_owned q →
  (∀ x, q_buffers q <= x < q_buffers q + QUEUE_BUF_SIZE * DESC_QUEUE_SIZE → ¬ W x) →
  0 <= len → in_ram data (Z.to_nat len) = true →
  (data + len <= q_buffers q ∨ q_buffers q + QUEUE_BUF_SIZE * DESC_QUEUE_SIZE <= data) →
  wp (virt_mmio_net_send device data len) s (λ _ s',
    let hello := chars ("Sending data via Virtio Network Device..." ++ nl) in
    (QUEUE_BUF_SIZE < len ∧ prints s s' (hello ++ chars ("TX packet exceeds queue buffer size." ++ nl))) ∨
    (len <= QUEUE_BUF_SIZE ∧ all_used (q_in_use q) ∧
     prints s s' (hello ++ chars ("No free TX descriptors." ++ nl))) ∨
    (len <= QUEUE_BUF_SIZE ∧ ∃ d, first_free (q_in_use q) (q_next_desc q) d ∧
     sent s q d (ram_bytes (Z.to_nat len) data (m_ram s)) s')).
Proof. apply wp_send. Qed.
End send.
