(* ===== verification/VirtioRx.v ===== *)
(** * Receiving from a virtqueue

    The polling loops: what [virt_mmio_net_poll_rx] reports and gives back, and
    how [virt_mmio_net_tx] waits for its packet. *)

From S2P Require Import Prelude Globals Machine Utils Uart Heap HeapSpec Paging Packet Virtio VirtioSpec Virtq VirtioNet.

(** ** Waiting for the device *)

Section wait.
Context `{Platform}.

Definition used_now (q : virtio_net_queue) (s : machine) : Z := ram_load 2 (used_idx (q_ring q)) (m_ram s).

(** Within [n] fences the device returns something on the queue. *)
Fixpoint posts (n : nat) (q : virtio_net_queue) (s : machine) : Prop :=
  match n with
  | O => False
  | S n' => ∀ s', fenced s s' → used_now q s' ≠ q_last_used_idx q ∨ posts n' q s'
  end.

(** Only fences happened, and the device has returned something. *)
Definition waited (q : virtio_net_queue) (s s1 : machine) : Prop :=
  rtc fenced s s1 ∧ used_now q s1 ≠ q_last_used_idx q.

(** A fence after which the device has still not returned anything. *)
Definition silent (q : virtio_net_queue) (s s' : machine) : Prop :=
  fenced s s' ∧ used_now q s' = q_last_used_idx q.

(** A device that [posts] is not silent for that long. *)
Lemma posts_not_silent q n s s' : posts n q s → nsteps (silent q) n s s' → False.
Proof.
  intros Hp Hst. induction Hst as [s|n s s1 s' [F Hu] _ IH]; [done|]. apply IH. by destruct (Hp s1 F).
Qed.

Lemma silent_waits q n s s' : nsteps (silent q) n s s' → rtc fenced s s'.
Proof. induction 1 as [|n s s1 s' [F _] _ IH]; [done|by eapply rtc_l]. Qed.

(** Whatever the device does, the wait ends in one of two ways: it returns
    something, or it is silent until the bound is used up. *)
Lemma wait_cases {B} (i : Z) q (work : virtio_net_queue → M (unit + B)) n s (Q : B → machine → Prop) :
  m_net s !! Z.to_nat i = Some q → in_ram (q_ring q) (Z.to_nat sizeof_virtq) = true →
  (∀ s1, waited q s s1 → wp (work q) s1 (λ v s', match v with inl _ => False | inr b => Q b s' end)) →
  wp_or (loop n (λ _ : unit,
    mem_barrier ;;
    q <- get_queue i;
    idx <- load 2 (used_idx (q_ring q));
    if negb (q_last_used_idx q =? idx) then work q else ret (inl tt)) tt) s Q (nsteps (silent q) n s).
Proof.
  intros Hq Hr. revert s Hq. induction n as [|n IH]; intros s Hq HQ; [right; apply stops_halt; constructor|]. cbn [loop].
  apply wp_or_step, wp_bind, wp_fence. intros s' F. pose proof (fenced_vars _ _ F) as (En & _).
  apply wp_bind. eapply wp_get_queue; [by rewrite En|].
  apply wp_bind, wp_load.
  { apply in_ram_spec in Hr. unfold sizeof_virtq, DESC_QUEUE_SIZE in Hr.
    apply in_ram_true; unfold used_idx, virtq_used, virtq_avail, DESC_QUEUE_SIZE; lia. }
  fold (used_now q s'). destruct (Z.eqb_spec (q_last_used_idx q) (used_now q s')) as [He|Hne]; cbn [negb].
  - apply wp_ret. eapply wp_or_mono; [apply IH; [by rewrite En|]|done|].
    + intros s1 [Hs1 Hu]. apply HQ. split; [|done]. by eapply rtc_l.
    + intros s2 Hst. by econstructor.
  - eapply wp_mono; [apply HQ|].
    + split; [by apply rtc_once|done].
    + intros [a|b] s1 Hv; [done|]. left. by apply wp_ret.
Qed.

Lemma wp_wait {B} (i : Z) q (work : virtio_net_queue → M (unit + B)) n s (Q : B → machine → Prop) :
  m_net s !! Z.to_nat i = Some q → in_ram (q_ring q) (Z.to_nat sizeof_virtq) = true → posts n q s →
  (∀ s1, waited q s s1 → wp (work q) s1 (λ v s', match v with inl _ => False | inr b => Q b s' end)) →
  wp (loop n (λ _ : unit,
    mem_barrier ;;
    q <- get_queue i;
    idx <- load 2 (used_idx (q_ring q));
    if negb (q_last_used_idx q =? idx) then work q else ret (inl tt)) tt) s Q.
Proof.
  intros Hq Hr Hp HQ. eapply wp_or_wp; [by apply wait_cases|]. intros s' Hs. by eapply posts_not_silent.
Qed.

Lemma waits_net s s1 : rtc fenced s s1 → m_net s1 = m_net s.
Proof. induction 1 as [|s s' s1 F _ IH]; [done|]. rewrite IH. apply (fenced_vars _ _ F). Qed.

Lemma waits_same (W : Z → Prop) `{!DmaWithin W} s s1 :
  rtc fenced s s1 → same_on (λ x, ¬ W x) (m_ram s) (m_ram s1).
Proof.
  induction 1 as [|s s' s1 F _ IH]; [done|]. etrans; [by apply (fenced_same W)|done].
Qed.
End wait.

(** ** Receiving *)

Section receive.
Context `{Platform} {TX : UartTx}.

(** What is reported about the frame at [frame]. *)
Definition frame_text (r : gmap Z Z) (frame : Z) : list Z :=
  let type := ntohs (ram_load 2 (eth_type frame) r) in
  let ip := frame + sizeof_eth_hdr in
  chars "Received Frame [" ++ mac_text (ram_bytes 6 (eth_src frame) r) ++
  chars " -> " ++ mac_text (ram_bytes 6 (eth_dst frame) r) ++
  chars "] type=0x" ++ (chars "0x" ++ hex_digits 8 type) ++ [ch_nl] ++
  (if type =? ETH_P_IP then
     chars "  IPv4: " ++ ip_text (ram_load 4 (ip_src ip) r) ++ chars " -> " ++
     ip_text (ram_load 4 (ip_dst ip) r) ++ chars " proto=" ++
     (chars "0x" ++ hex_digits 8 (ram_load 1 (ip_proto ip) r)) ++ [ch_nl]
   else if type =? ETH_P_ARP then
     chars ("  ARP Packet detected" ++ nl) ++ arp_text (frame + sizeof_eth_hdr) r
   else []).

Lemma says_report_frame r frame : in_ram frame 42 = true → says r (report_frame frame) (frame_text r frame).
Proof.
  intros Hf. assert (∀ (o : Z) (n : nat), 0 <= o → o + n <= 42 → in_ram (frame + o) n = true) as Hin.
  { intros. eapply in_ram_sub; [exact Hf|lia..]. }
  unfold report_frame, frame_text. cbv zeta. eapply says_load; [apply Hin; lia|].
  apply says_bind; [by apply says_lit|].
  apply says_bind; [apply says_print_mac, Hin; lia|].
  apply says_bind; [by apply says_lit|].
  apply says_bind.
  { apply says_print_mac. unfold eth_dst. rewrite <- (Z.add_0_r frame). apply Hin; lia. }
  apply says_bind; [by apply says_lit|]. apply says_bind; [apply says_b2x|].
  apply (says_bind _ _ _ [_]); [apply says_putc|].
  destruct (_ =? ETH_P_IP); [|destruct (_ =? ETH_P_ARP); [|apply says_ret]].
  - assert (∀ o (n : nat), 0 <= o → o + n <= 20 → in_ram (frame + sizeof_eth_hdr + o) n = true) as Hin'.
    { intros. rewrite <- Z.add_assoc. apply Hin; unfold sizeof_eth_hdr; lia. }
    apply says_bind; [by apply says_lit|].
    eapply says_load; [apply Hin'; lia|]. apply says_bind; [apply says_print_ip|].
    apply says_bind; [by apply says_lit|].
    eapply says_load; [apply Hin'; lia|]. apply says_bind; [apply says_print_ip|].
    apply says_bind; [by apply says_lit|].
    eapply says_load; [apply Hin'; lia|]. apply says_bind; [apply says_b2x|]. apply says_putc.
  - apply says_bind; [by apply says_lit|]. apply says_parse_arp, Hin; unfold sizeof_eth_hdr; lia.
Qed.

Context (device : Z) (Hslot : slot_addr device) (W : Z → Prop) `{!DmaWithin W}.

Definition rx_queue (q : virtio_net_queue) : virtio_net_queue :=
  with_last_used ((q_last_used_idx q + 1) mod 2 ^ 16) q.

(** Giving descriptor [id] back: it is entered in the available ring, and
    announced only after a fence. *)
Definition recycled (q : virtio_net_queue) (id : Z) (s s' : machine) : Prop :=
  let idx := ram_load 2 (avail_idx (q_ring q)) (m_ram s) in
  ∃ s1 s2 s3 s4,
    s1 = set_ram (ram_store 2 (avail_ring (q_ring q) (idx mod 256)) id (m_ram s)) s ∧ fenced s1 s2 ∧
    s3 = set_ram (ram_store 2 (avail_idx (q_ring q)) ((idx + 1) mod 2 ^ 16) (m_ram s2))
           (set_net (<[0%nat := rx_queue q]> (m_net s)) s2) ∧ fenced s3 s4 ∧
    io_ext s4 s' [EWrite (device + VIRTIO_MMIO_QUEUE_NOTIFY) 4 VIRTIO_NET_RX_QUEUE] ∧
    queue_ok (m_ram s') (rx_queue q).

Lemma rx_queue_ok r q : queue_ok r q → queue_ok r (rx_queue q).
Proof. intros [? ? ? ? ? ? ? ?]. split; try done. cbn. apply Z.mod_pos_bound. lia. Qed.

Lemma wp_recycle_rx q id s (Q : unit → machine → Prop) :
  m_net s !! 0%nat = Some q → queue_ok (m_ram s) q → driver_owned W q → 0 <= id < 256 →
  (∀ s', recycled q id s s' → Q tt s') → wp (recycle_rx device id) s Q.
Proof.
  intros Hq Hok Hown Hid HQ. unfold recycle_rx. set (idx := ram_load 2 (avail_idx (q_ring q)) (m_ram s)).
  apply wp_bind. eapply wp_get_queue; [exact Hq|]. rewrite (qo_size _ _ Hok).
  apply wp_bind, wp_put_avail; [apply Hok|]. fold idx. rewrite (u16_small id) by lia.
  set (s1 := set_ram _ s). apply wp_bind, wp_fence. intros s2 F2.
  pose proof (fenced_same W _ _ F2) as D2. pose proof (fenced_vars _ _ F2) as (N2 & _).
  assert (0 <= idx mod 256 < 256) as Hm by dlia.
  assert (same_on (λ x, q_ring q <= x < virtq_avail (q_ring q) + 4) (m_ram s) (m_ram s2)) as S2.
  { intros x Hx. rewrite D2 by (apply Hown; unfold driver_part, virtq_used, virtq_avail, DESC_QUEUE_SIZE in *; lia).
    apply byte_at_store_out. unfold avail_ring. lia. }
  apply wp_bind, wp_bump_avail; [apply Hok|].
  rewrite (same_on_load _ _ _ _ _ S2) by (unfold avail_idx; intros; unfold virtq_avail, DESC_QUEUE_SIZE in *; lia).
  fold idx. apply wp_bind, wp_upd_queue. cbn [m_net set_ram set_net]. rewrite N2.
  rewrite (alter_lookup _ _ _ _ Hq). set (s3 := set_net _ _).
  apply wp_bind, wp_fence. intros s4 F4. apply wp_notify; [done|done|]. intros s' X. apply HQ.
  exists s1, s2, s3, s4. split_and!; [done|done|by destruct s2|done|done|].
  assert (m_ram s' = m_ram s4) as -> by (by destruct X as [? ->]).
  apply rx_queue_ok. eapply (queue_ok_same (m_ram s)); [|exact Hok]. intros x Hx.
  rewrite (fenced_same W _ _ F4)
    by (apply Hown; unfold driver_part, virtq_used, virtq_avail, DESC_QUEUE_SIZE in *; lia).
  unfold s3. cbn [m_ram set_net set_ram]. rewrite byte_at_store_out by (unfold avail_idx; lia).
  apply S2. lia.
Qed.

Definition index_text (idx : Z) : list Z :=
  chars "Device updated used index to: " ++ (chars "0x" ++ hex_digits 8 idx) ++ [ch_nl].
Definition length_text (len : Z) : list Z :=
  chars "Received data length: " ++ (chars "0x" ++ hex_digits 8 len) ++ [ch_nl].

(** The used element the driver looks at next. *)
Definition next_elem (q : virtio_net_queue) : Z := used_elem (q_ring q) (q_last_used_idx q mod 256).

(** What a poll does once the device has returned a buffer (in [s1]). *)
Definition took (length : Z) (q : virtio_net_queue) (s1 : machine) (ok : bool) (s' : machine) : Prop :=
  let id := ram_load 4 (elem_id (next_elem q)) (m_ram s1) in
  let len := ram_load 4 (elem_len (next_elem q)) (m_ram s1) in
  (ok = false ∧ 256 <= id ∧
   prints s1 s' (index_text (used_now q s1) ++ chars ("Device returned an invalid RX descriptor." ++ nl))) ∨
  (ok = true ∧ id < 256 ∧ ∃ s2 s3,
   prints s1 s2 (index_text (used_now q s1) ++ frame_text (m_ram s1) (buffer q id + sizeof_virtio_net_hdr)) ∧
   recycled q id s2 s3 ∧ prints s3 s' (length_text (u32 (Z.min len length - sizeof_virtio_net_hdr)))).

Lemma queue_words r q : queue_ok r q →
  in_ram (used_idx (q_ring q)) 2 = true ∧ in_ram (elem_id (next_elem q)) 4 = true ∧
  in_ram (elem_len (next_elem q)) 4 = true ∧
  ∀ i, 0 <= i < 256 → in_ram (desc_addr (q_ring q) i) 8 = true ∧
    in_ram (buffer q i + sizeof_virtio_net_hdr) 42 = true.
Proof.
  intros Hok. pose proof (proj1 (in_ram_spec _ _) (qo_ring _ _ Hok)) as Hring.
  pose proof (proj1 (in_ram_spec _ _) (qo_buffers _ _ Hok)) as Hbufs.
  assert (0 <= q_last_used_idx q mod 256 < 256) by dlia.
  unfold elem_id, elem_len, next_elem, used_elem, used_idx, virtq_used, virtq_avail, desc_addr, virtq_desc, buffer,
    sizeof_virtio_net_hdr, sizeof_virtq, QUEUE_BUF_SIZE, DESC_QUEUE_SIZE in *.
  split_and!; [apply in_ram_true; lia..|]. intros i Hi. split; apply in_ram_true; lia.
Qed.

(** The part of the polling loop after the device returned something. *)
Definition take_rx (length : Z) (rx : virtio_net_queue) : M (unit + bool) :=
  uart_puts (lit "Device updated used index to: ") ;;
  idx <- load 2 (used_idx (q_ring rx)); uart_b2x idx ;;
  uart_putc ch_nl ;;
  slot <- umod (q_last_used_idx rx) (q_size rx);
  let elem := used_elem (q_ring rx) slot in
  desc_index <- load 4 (elem_id elem);
  len <- load 4 (elem_len elem);
  if q_size rx <=? desc_index then
    uart_puts (lit ("Device returned an invalid RX descriptor." ++ nl)) ;;
    ret (inr false)
  else
  buf_addr <- load 8 (desc_addr (q_ring rx) desc_index);
  let len := if length <? len then length else len in
  let frame := buf_addr + sizeof_virtio_net_hdr in
  let frame_len := u32 (len - sizeof_virtio_net_hdr) in
  report_frame frame ;;
  recycle_rx device desc_index ;;
  uart_puts (lit "Received data length: ") ;;
  uart_b2x frame_len ;;
  uart_putc ch_nl ;;
  ret (inr true).

Lemma wp_take_rx length q s1 :
  m_net s1 !! 0%nat = Some q → queue_ok (m_ram s1) q → driver_owned W q →
  wp (take_rx length q) s1 (λ v s', match v with inl _ => False | inr b => took length q s1 b s' end).
Proof.
  intros Hq Hok Hown. destruct (queue_words _ _ Hok) as (W1 & W2 & W3 & W4). unfold take_rx.
  apply wp_bind, wp_puts_lit; [done|]. intros t1 P1. pose proof (prints_ram _ _ _ P1) as E1.
  apply wp_bind, wp_load; [done|]. rewrite E1. fold (used_now q s1).
  apply wp_bind, wp_b2x. intros t2 P2. apply wp_bind, wp_putc. intros t3 P3.
  assert (prints s1 t3 (index_text (used_now q s1))) as P
    by (eapply prints_app; [exact P1|by eapply prints_app]). clear P1 P2 P3 E1 t1 t2.
  pose proof (prints_ram _ _ _ P) as Er. pose proof (prints_net _ _ _ P) as En.
  apply wp_bind, wp_umod; [rewrite (qo_size _ _ Hok); done|]. rewrite (qo_size _ _ Hok).
  change (used_elem (q_ring q) _) with (next_elem q). cbv zeta.
  apply wp_bind, wp_load; [done|]. apply wp_bind, wp_load; [done|]. rewrite Er.
  set (id := ram_load 4 (elem_id (next_elem q)) (m_ram s1)). set (len := ram_load 4 (elem_len (next_elem q)) (m_ram s1)).
  pose proof (ram_load_range 4 (elem_id (next_elem q)) (m_ram s1)) as Hid0. fold id in Hid0.
  unfold DESC_QUEUE_SIZE. destruct (Z.leb_spec 256 id) as [Hid|Hid].
  { apply wp_bind, wp_puts_lit; [done|]. intros s' P'. apply wp_ret. left.
    split_and!; [done|done|]. by eapply prints_app. }
  destruct (W4 id) as [W5 W6]; [lia|]. apply wp_bind, wp_load; [done|]. rewrite Er, (qo_addr _ _ Hok) by lia.
  apply wp_bind. eapply says_wp; [apply says_report_frame; exact W6|exact Er|]. intros t4 P4.
  pose proof (prints_ram _ _ _ P4) as Er4. pose proof (prints_net _ _ _ P4) as En4.
  apply wp_bind. eapply wp_recycle_rx; [by rewrite En4, En|by rewrite Er4, Er|done|lia|].
  intros t5 R5. apply wp_bind, wp_puts_lit; [done|]. intros t6 P6. apply wp_bind, wp_b2x. intros t7 P7.
  apply wp_bind, wp_putc. intros t8 P8. apply wp_ret. right. split_and!; [done|done|].
  exists t4, t5. split_and!; [by eapply prints_app|exact R5|].
  replace (Z.min (ram_load 4 _ _) length) with (if length <? len then length else len)
    by (fold len; destruct (Z.ltb_spec length len); lia).
  eapply prints_app; [exact P6|]. by eapply prints_app.
Qed.

Definition hello : list Z := chars ("Polling for received data via Virtio Network Device..." ++ nl).
Definition bye : list Z := chars ("Finished polling for received data." ++ nl).

(** Polling, whatever the device does. *)
Lemma poll_rx_cases buf length s q :
  m_net s !! 0%nat = Some q → queue_ok (m_ram s) q → driver_owned W q →
  wp_or (virt_mmio_net_poll_rx device buf length) s (λ _ s', ∃ s0 s1 s2 ok,
      prints s s0 hello ∧ waited q s0 s1 ∧ took length q s1 ok s2 ∧ prints s2 s' (if ok then bye else []))
    (λ s', ∃ s0, prints s s0 hello ∧ nsteps (silent q) fuel s0 s').
Proof.
  intros Hq Hok Hown. unfold virt_mmio_net_poll_rx.
  apply wp_or_step, wp_puts_lit; [done|]. intros s0 P0. apply wp_or_bind.
  pose proof (prints_net _ _ _ P0) as En. pose proof (prints_ram _ _ _ P0) as Er.
  eapply wp_or_mono; [apply (wait_cases 0 q (take_rx length) fuel s0 (λ b s', ∃ s1, waited q s0 s1 ∧ took length q s1 b s'))| |].
  - by rewrite En.
  - apply Hok.
  - intros s1 Hw. eapply wp_mono; [eapply wp_take_rx|].
    + by rewrite (waits_net _ _ (proj1 Hw)), En.
    + eapply queue_ok_same; [|exact Hok]. intros x Hx. rewrite (waits_same W _ _ (proj1 Hw)); [by rewrite Er|].
      apply Hown. unfold driver_part, virtq_used, DESC_QUEUE_SIZE. lia.
    + done.
    + intros [|ok] s2; [done|]. intros Ht. by exists s1.
  - intros ok s2 (s1 & Hw & Ht). left. destruct ok.
    + apply wp_puts_lit; [done|]. intros s' P'. by exists s0, s1, s2, true.
    + apply wp_ret. exists s0, s1, s2, false. split_and!; [done..|apply prints_nil].
  - intros s' Hst. by exists s0.
Qed.

(** C19: receiving.  On a sound receive queue and a device that returns a buffer
    within the loop's bound, [virt_mmio_net_poll_rx] returns.  It waits with
    fences only; then it takes exactly one used element.  An index outside the
    ring is reported and the element is not consumed.  Otherwise the frame in
    the buffer of that descriptor is reported, the same descriptor is offered
    again before the index that announces it is increased, the element is
    consumed, the device is notified and the queue is still sound.  The length
    it prints is the reported one, cut to [length], less 12 modulo 2^32. *)
Theorem poll_rx_correct buf length s q :
  m_net s !! 0%nat = Some q → queue_ok (m_ram s) q → driver_owned W q →
  let hello := chars ("Polling for received data via Virtio Network Device..." ++ nl) in
  let bye := chars ("Finished polling for received data." ++ nl) in
  (∀ s0, prints s s0 hello → posts fuel q s0) →
  wp (virt_mmio_net_poll_rx device buf length) s (λ _ s', ∃ s0 s1 s2 ok,
    prints s s0 hello ∧ waited q s0 s1 ∧ took length q s1 ok s2 ∧
    prints s2 s' (if ok then bye else [])).
Proof.
  intros Hq Hok Hown hello bye Hposts. eapply wp_or_wp; [by apply poll_rx_cases|].
  intros s' (s0 & P0 & Hst). by eapply posts_not_silent; [apply Hposts|].
Qed.
End receive.
