(* ===== verification/VirtioTx.v ===== *)
(** * virt_mmio_net_tx

    The packet the driver builds, the packet it hands to the device, and the
    wait for its completion. *)

From S2P Require Import Prelude Globals Machine Utils Uart Heap HeapSpec Paging Packet Virtio VirtioSpec Virtq VirtioNet VirtioRx.

Section build.
Context `{Platform}.

Lemma wp_build_net_hdr hdr s (Q : unit → machine → Prop) :
  in_ram hdr 12 = true → Q tt (set_ram (ram_write hdr (replicate 10 0) (m_ram s)) s) →
  wp (build_virtio_net_hdr hdr 0 0 0 0 0 0) s Q.
Proof.
  intros Hr HQ. assert (∀ (o : Z) (n : nat), 0 <= o → o + n <= 12 → in_ram (hdr + o) n = true) as Hin.
  { intros. eapply in_ram_sub; [exact Hr|lia..]. }
  unfold build_virtio_net_hdr. apply wp_bind, wp_store; [eapply in_ram_sub; [exact Hr|lia..]|].
  do 4 (apply wp_bind, wp_store; [apply Hin; lia|]). apply wp_store; [apply Hin; lia|].
  rewrite !ram_set_ram, !set_ram_ram, !ram_store_write.
  change (replicate 10 0) with ([0] ++ [0] ++ [0; 0] ++ [0; 0] ++ [0; 0] ++ [0; 0]) in HQ.
  rewrite !ram_write_app in HQ. rewrite <- !Z.add_assoc in HQ. exact HQ.
Qed.

(** The frame the driver builds behind the 12 bytes of the virtio header. *)
Definition built_frame (payload : list Z) : list Z :=
  eth_bytes bcast_mac own_mac ETH_P_IP
    (arp_reply_bytes own_mac (ntohl my_ip_word) bcast_mac 0 ++ payload).

Lemma ram_bytes_write_out (n : nat) a b bs r :
  b + n <= a ∨ a + length bs <= b → ram_bytes n b (ram_write a bs r) = ram_bytes n b r.
Proof. intros Hd. apply ram_bytes_ext. intros x Hx. apply byte_at_write_out. lia. Qed.

Lemma built_frame_bytes (n : nat) p payload r :
  length payload = n → Forall (λ b, 0 <= b < 2 ^ 8) payload →
  ram_bytes (42 + n) p
    (ram_write (p + 42) payload
      (ram_write (p + 14) (arp_reply_bytes own_mac (ntohl my_ip_word) bcast_mac 0)
        (ram_write p (eth_bytes bcast_mac own_mac ETH_P_IP payload) r))) = built_frame payload.
Proof.
  intros <- Hb. set (arp := arp_reply_bytes _ _ _ _).
  assert (length arp = 28%nat) as Harp by done.
  unfold built_frame. rewrite !eth_bytes_split. set (hdr := bcast_mac ++ own_mac ++ _).
  assert (length hdr = 14%nat) as Hhdr by done.
  replace (42 + length payload)%nat with (14 + (28 + length payload))%nat by lia.
  rewrite !ram_bytes_app. f_equal; [|f_equal].
  - rewrite !ram_bytes_write_out by lia. rewrite ram_write_app, ram_bytes_write_out by lia.
    rewrite <- Hhdr. apply ram_bytes_written. by repeat constructor.
  - rewrite ram_bytes_write_out by lia. rewrite <- Harp. apply ram_bytes_written. by repeat constructor.
  - replace (p + 14%nat + 28%nat) with (p + 42) by lia. by apply ram_bytes_written.
Qed.

(** [virt_mmio_net_tx] up to the call of [virt_mmio_net_send]. *)
Lemma wp_build_packet {A} packet data length s (rest : M A) (Q : A → machine → Prop) :
  0 <= length <= QUEUE_BUF_SIZE → in_ram packet (Z.to_nat (length + 54)) = true →
  in_ram data (Z.to_nat length) = true →
  data + length <= packet ∨ packet + length + 54 <= data →
  (∀ r, let payload := ram_bytes (Z.to_nat length) data (m_ram s) in
     ram_bytes (42 + Z.to_nat length) (packet + 12) r = built_frame payload →
     same_on (λ x, x < packet ∨ packet + length + 54 <= x) (m_ram s) r → wp rest (set_ram r s) Q) →
  wp (build_virtio_net_hdr packet 0 0 0 0 0 0 ;;
      build_eth_frame (packet + sizeof_virtio_net_hdr) bcast_mac own_mac ETH_P_IP data (u16 length) ;;
      build_arp_response (packet + sizeof_virtio_net_hdr + sizeof_eth_hdr) own_mac (ntohl my_ip_word) bcast_mac 0 ;;
      mem_copy (packet + sizeof_virtio_net_hdr + sizeof_eth_hdr + sizeof_arp_hdr) data length ;;
      rest) s Q.
Proof.
  intros Hl Hp Hd Hdis HQ. unfold QUEUE_BUF_SIZE in Hl.
  assert (∀ (o : Z) (n : nat), 0 <= o → o + n <= length + 54 → in_ram (packet + o) n = true) as Hin.
  { intros. eapply in_ram_sub; [exact Hp|lia..]. }
  unfold sizeof_virtio_net_hdr, sizeof_eth_hdr, sizeof_arp_hdr. rewrite <- !Z.add_assoc.
  set (payload := ram_bytes (Z.to_nat length) data (m_ram s)) in *.
  assert (Z.of_nat (List.length payload) = length) as Hplen by (unfold payload; rewrite length_ram_bytes; lia).
  assert (Z.of_nat (List.length (eth_bytes bcast_mac own_mac ETH_P_IP payload)) = length + 14) as Hleth.
  { unfold eth_bytes. rewrite !length_app. simpl. lia. }
  assert (∀ a bs r, packet <= a → a + List.length bs <= packet + length + 54 →
    ram_bytes (Z.to_nat length) data (ram_write a bs r) = ram_bytes (Z.to_nat length) data r) as Hkeep.
  { intros a bs r Ha Hb. apply ram_bytes_write_out. lia. }
  apply wp_bind, wp_build_net_hdr; [eapply in_ram_sub; [exact Hp|lia..]|].
  rewrite u16_small by lia.
  apply wp_bind. eapply wp_mono.
  { apply wp_build_eth_frame; [done|done|done|lia| |done|lia].
    apply Hin; lia. }
  intros [] s1 ->. cbv zeta. rewrite ram_set_ram, set_ram_ram, Hkeep by (rewrite ?length_replicate; lia).
  fold payload. apply wp_bind, wp_build_arp_response; [done|done|apply Hin; lia|].
  rewrite ram_set_ram, set_ram_ram. apply wp_bind, wp_mem_copy; [apply Hin; lia|done|lia|].
  rewrite ram_set_ram, set_ram_ram. rewrite !Hkeep by (rewrite ?Hleth, ?length_arp_reply by done; rewrite ?length_replicate; lia).
  fold payload. apply HQ.
  - replace (packet + (12 + (14 + 28))) with (packet + 12 + 42) by lia.
    replace (packet + (12 + 14)) with (packet + 12 + 14) by lia.
    apply built_frame_bytes; [by unfold payload; rewrite length_ram_bytes|apply byte_range].
  - intros x Hx. rewrite !byte_at_write_out; [done|..].
    all: rewrite ?length_replicate, ?Hleth, ?length_arp_reply, ?Hplen by done; lia.
Qed.
End build.

Section tx.
Context `{Platform} {TX : UartTx} (device : Z) (Hslot : slot_addr device) (W : Z → Prop) `{!DmaWithin W}.

(** The device returned a buffer: the descriptor it names is free again, and the
    element is consumed. *)
Definition completed (q : virtio_net_queue) (s s' : machine) : Prop :=
  let id := ram_load 4 (elem_id (next_elem q)) (m_ram s) in
  let q1 := if id <? 256 then with_in_use (<[Z.to_nat id := 0]> (q_in_use q)) q else q in
  ∃ s0, prints s s0 (chars ("Device processed TX descriptor." ++ nl)) ∧
        s' = set_net (<[1%nat := with_last_used ((q_last_used_idx q + 1) mod 2 ^ 16) q1]> (m_net s)) s0.

(** The part of the waiting loop after the device returned something. *)
Definition take_tx (tx : virtio_net_queue) : M (unit + unit) :=
  uart_puts (lit ("Device processed TX descriptor." ++ nl)) ;;
  slot <- umod (q_last_used_idx tx) (q_size tx);
  let used := used_elem (q_ring tx) slot in
  id <- load 4 (elem_id used);
  (if id <? q_size tx then
     id <- load 4 (elem_id used); set_in_use VIRTIO_NET_TX_QUEUE id 0
   else ret tt) ;;
  upd_queue VIRTIO_NET_TX_QUEUE (with_last_used (u16 (q_last_used_idx tx + 1))) ;;
  ret (inr tt).

Lemma wp_take_tx q s1 :
  m_net s1 !! 1%nat = Some q → queue_ok (m_ram s1) q →
  wp (take_tx q) s1 (λ v s', match v with inl _ => False | inr _ => completed q s1 s' end).
Proof.
  intros Hq Hok. destruct (queue_words _ _ Hok) as (_ & W2 & _). unfold take_tx.
  apply wp_bind, wp_puts_lit; [done|]. intros t1 P1. pose proof (prints_ram _ _ _ P1) as Er.
  pose proof (prints_net _ _ _ P1) as En. pose proof (lookup_lt_Some _ _ _ Hq) as Hlen.
  apply wp_bind, wp_umod; [by rewrite (qo_size _ _ Hok)|]. rewrite (qo_size _ _ Hok).
  change (used_elem (q_ring q) _) with (next_elem q). cbv zeta. apply wp_bind, wp_load; [done|].
  rewrite Er. unfold completed. set (id := ram_load 4 (elem_id (next_elem q)) (m_ram s1)).
  pose proof (ram_load_range 4 (elem_id (next_elem q)) (m_ram s1)) as Hid. fold id in Hid.
  unfold DESC_QUEUE_SIZE. destruct (Z.ltb_spec id 256) as [Hlt|Hge]; apply wp_bind.
  - apply wp_bind, wp_load; [done|]. rewrite Er. fold id.
    eapply wp_set_in_use; [by rewrite En|apply Hok|lia|]. apply wp_bind, wp_upd_queue, wp_ret.
    exists t1. split; [done|]. cbn [m_net set_net]. rewrite En, alter_inserted by done. by destruct t1.
  - apply wp_ret. apply wp_bind, wp_upd_queue, wp_ret. exists t1. split; [done|].
    by rewrite En, (alter_lookup _ _ _ _ Hq).
Qed.

Lemma wp_tx_wait q s n (Q : unit → machine → Prop) :
  m_net s !! 1%nat = Some q → queue_ok (m_ram s) q → driver_owned W q → posts n q s →
  (∀ s1 s', waited q s s1 → completed q s1 s' → Q tt s') →
  wp (loop n (λ _ : unit, tx_wait_body) tt) s Q.
Proof.
  intros Hq Hok Hown Hp HQ. eapply (wp_wait 1 q take_tx); [done|apply Hok|done|].
  intros s1 Hw. eapply wp_mono; [apply wp_take_tx|].
  - by rewrite (waits_net _ _ (proj1 Hw)).
  - eapply queue_ok_same; [|exact Hok]. intros x Hx. apply (waits_same W _ _ (proj1 Hw)).
    apply Hown. unfold driver_part, virtq_used, DESC_QUEUE_SIZE. lia.
  - intros [|[]] s'; [done|]. by apply HQ.
Qed.

Definition sent_text : list Z := chars ("Data sent, waiting for completion..." ++ nl).

Lemma prints_waits_ok q s s' out : prints s s' out → queue_ok (m_ram s) q → queue_ok (m_ram s') q.
Proof. intros P. by rewrite (prints_ram _ _ _ P). Qed.

(** The call of [virt_mmio_net_send] and the wait, when a descriptor is free. *)
Lemma wp_send_and_wait data len s q :
  m_net s !! 1%nat = Some q → queue_ok (m_ram s) q → driver_owned W q →
  (∀ x, q_buffers q <= x < q_buffers q + QUEUE_BUF_SIZE * DESC_QUEUE_SIZE → ¬ W x) →
  (∃ i, 0 <= i < 256 ∧ use_at (q_in_use q) i = 0) →
  0 <= len <= QUEUE_BUF_SIZE → in_ram data (Z.to_nat len) = true →
  (data + len <= q_buffers q ∨ q_buffers q + QUEUE_BUF_SIZE * DESC_QUEUE_SIZE <= data) →
  let payload := ram_bytes (Z.to_nat len) data (m_ram s) in
  (∀ d s2 s3, sent device W s q d payload s2 → prints s2 s3 sent_text → posts fuel (tx_queue q d) s3) →
  wp (virt_mmio_net_send device data len ;;
      uart_puts (lit ("Data sent, waiting for completion..." ++ nl)) ;;
      loop fuel (λ _ : unit, tx_wait_body) tt ;; ret 0) s (λ v s',
    v = 0 ∧ m_heap s' = m_heap s ∧ ∃ d s2 s3 s4,
      first_free (q_in_use q) (q_next_desc q) d ∧ sent device W s q d payload s2 ∧
      prints s2 s3 sent_text ∧ waited (tx_queue q d) s3 s4 ∧ completed (tx_queue q d) s4 s').
Proof.
  intros Hq Hok Hown Hbuf (i & Hi & Hfree) Hl Hdata Hdis payload Hposts.
  apply wp_bind. eapply wp_mono; [eapply (wp_send device Hslot W); [done..|lia|done|done]|].
  intros [] s2 [[? _]|[(_ & Hall & _)|(_ & d & Hd & Hsent)]]; [lia|by destruct (Hall i)|].
  fold payload in Hsent. destruct (sent_vars _ _ _ _ _ _ _ Hsent) as [N2 H2].
  apply wp_bind, wp_puts_lit; [done|]. intros s3 P3. apply wp_bind.
  assert (queue_ok (m_ram s2) (tx_queue q d)) as Hok2.
  { by destruct Hsent as (s0' & s1' & s2' & s3' & s4' & _ & _ & _ & _ & _ & _ & _ & _ & _ & _ & ? & _). }
  eapply (wp_tx_wait (tx_queue q d)).
  - rewrite (prints_net _ _ _ P3), N2. apply list_lookup_insert_eq. by eapply lookup_lt_Some.
  - by eapply prints_waits_ok.
  - done.
  - by eapply Hposts.
  - intros s4 s' Hw Hc. apply wp_ret. split_and!; [done| |by exists d, s2, s3, s4].
    destruct Hc as (t0 & Pt & ->). cbn. rewrite (prints_heap _ _ _ Pt), <- H2, <- (prints_heap _ _ _ P3).
    clear -Hw. destruct Hw as [Hw _]. induction Hw as [|x y z F _ IH]; [done|].
    rewrite IH. apply (fenced_vars _ _ F).
Qed.

(** C34: what [virt_mmio_net_tx] transmits.  With a free descriptor and a device
    that completes it, the function returns 0 (or -1 with a message when no
    memory is left).  It builds a frame behind a virtio header in a fresh
    packet, but the descriptor it publishes holds the bare payload: the frame
    is never handed to the device.  And the pages of the packet stay allocated:
    the allocator's variables at the end are those right after the allocation. *)
Theorem tx_sends_payload data len s l q :
  heap_inv s l → m_net s !! 1%nat = Some q → queue_ok (m_ram s) q → driver_owned W q →
  (∀ x, q_buffers q <= x < q_buffers q + QUEUE_BUF_SIZE * DESC_QUEUE_SIZE → ¬ W x) →
  (∃ i, 0 <= i < 256 ∧ use_at (q_in_use q) i = 0) →
  0 < len <= QUEUE_BUF_SIZE → in_ram data (Z.to_nat len) = true →
  (data + len <= q_buffers q ∨ q_buffers q + QUEUE_BUF_SIZE * DESC_QUEUE_SIZE <= data) →
  (∀ x, data <= x < data + len ∨ driver_part q x → ¬ in_pages l x) →
  let payload := ram_bytes (Z.to_nat len) data (m_ram s) in
  (∀ d s1 s2 s3, same_on (λ x, ¬ in_pages l x) (m_ram s) (m_ram s1) → sent device W s1 q d payload s2 →
    prints s2 s3 sent_text → posts fuel (tx_queue q d) s3) →
  wp (virt_mmio_net_tx device data len) s (λ v s',
    (v = -1 ∧ alloc_spec (npages (len + 54)) l = None ∧
      prints s s' (chars ("Failed to allocate memory for TX packet." ++ nl))) ∨
    (v = 0 ∧ ∃ packet l' s1, alloc_spec (npages (len + 54)) l = Some (packet, l') ∧ heap_inv s1 l' ∧
      ram_bytes (42 + Z.to_nat len) (packet + 12) (m_ram s1) = built_frame payload ∧
      m_heap s' = m_heap s1 ∧ ∃ d s2 s3 s4,
      first_free (q_in_use q) (q_next_desc q) d ∧ sent device W s1 q d payload s2 ∧
      prints s2 s3 sent_text ∧ waited (tx_queue q d) s3 s4 ∧ completed (tx_queue q d) s4 s')).
Proof.
  intros HI Hq Hok Hown Hbuf Hfree Hl Hdata Hdis Hout payload Hposts. unfold virt_mmio_net_tx.
  unfold QUEUE_BUF_SIZE in Hl. unfold sizeof_arp_hdr, sizeof_eth_hdr, sizeof_virtio_net_hdr at 1.
  replace (len + 28 + 14 + 12) with (len + 54) by lia. rewrite u32_small by lia.
  apply wp_bind, (wp_alloc_pages _ l); [done|lia| |].
  { intros A. apply wp_bind, wp_puts_lit; [done|]. intros s' P. apply wp_ret. by left. }
  intros packet l' h r s0 A HI0 Ht Hz Hs0. rewrite (proj2 (Z.eqb_neq packet 0)) by done.
  assert (len + 54 <= PAGE_SIZE * npages (len + 54)) as Hsize
    by (unfold npages; rewrite PAGE_SIZE_eq; dlia).
  destruct (tk_ram _ _ _ _ Ht) as [Hr1 Hr2].
  assert (∀ x, packet <= x < packet + len + 54 → in_pages l x) as Hpk
    by (intros; apply (tk_from _ _ _ _ Ht); lia).
  assert (data + len <= packet ∨ packet + len + 54 <= data) as Hap.
  { destruct (decide (data + len <= packet ∨ packet + len + 54 <= data)) as [|Hno]; [done|]. exfalso.
    apply (Hout (Z.max data packet)); [left; lia|]. apply Hpk. lia. }
  apply wp_build_packet; [unfold QUEUE_BUF_SIZE; lia|apply in_ram_true; lia|done|done|].
  change (m_ram s0) with r. rewrite (ram_bytes_ext _ _ (m_ram s) r) by (intros x Hx; apply Hs0, Hout; left; lia).
  fold payload. intros r1 pl Hframe Hs1. unfold pl in Hframe. clear pl.
  assert (same_on (λ x, ¬ in_pages l x) (m_ram s) r1) as Hsame.
  { intros x Hx. rewrite Hs1; [by apply Hs0|]. apply dec_stable. intros Hno. apply Hx, Hpk. lia. }
  set (s1 := set_ram r1 s0).
  assert (ram_bytes (Z.to_nat len) data (m_ram s1) = payload) as Epl.
  { apply ram_bytes_ext. intros x Hx. apply Hsame, Hout. left. lia. }
  eapply wp_mono; [apply (wp_send_and_wait data len s1 q)|].
  - done.
  - eapply queue_ok_same; [|exact Hok]. intros x Hx. apply Hsame, Hout. right.
    unfold driver_part, virtq_used, DESC_QUEUE_SIZE. lia.
  - done.
  - done.
  - done.
  - unfold QUEUE_BUF_SIZE. lia.
  - done.
  - done.
  - rewrite Epl. intros d s2 s3. by apply Hposts.
  - rewrite Epl. intros v s' (-> & Hh & d & s2 & s3 & s4 & Hd). right. split; [done|].
    exists packet, l', s1. split_and!; [done| |done|done|by exists d, s2, s3, s4].
    apply heap_inv_same; [done|]. intros x Hx. change (m_ram s0) with r. apply Hs1.
    apply dec_stable. intros Hno. apply (tk_gone _ _ _ _ Ht x); [lia|done].
Qed.
End tx.
