(* ===== verification/VirtioStart.v ===== *)
(** * Starting a network card

    [virt_find_all_devices] on a slot with a network card: queues, handshake,
    MAC address and the first poll, composed from what the other files show of
    each of them.  Nothing is assumed of the card but that it writes only into its
    queues, so the poll may not come to an end. *)

From S2P Require Import Prelude Globals Machine Utils Uart Heap HeapSpec Paging Packet.
From S2P Require Import Virtio VirtioSpec DeviceIo Virtq VirtioNet VirtioRx.

(** ** The MAC address *)

Section mac.
Context `{Platform} {TX : UartTx} (device : Z) (Hslot : slot_addr device).
Implicit Types (s : machine).

(** The reads of the device's configuration space that return [bs]. *)
Definition config_reads (bs : list Z) : list event :=
  imap (λ i b, ERead (device + VIRTIO_MMIO_CONFIG + i) 1 b) bs.

(** The bytes [bs] of the configuration space were copied to [buf]. *)
Definition config_read (buf : Z) (bs : list Z) s s' : Prop :=
  ∃ d, s' = set_trace (m_trace s ++ config_reads bs) (set_dev d (set_ram (ram_write buf bs (m_ram s)) s)).

Lemma config_byte (i : Z) : 0 <= i < 6 →
  in_ram (device + VIRTIO_MMIO_CONFIG + i) 1 = false ∧ in_mmio (device + VIRTIO_MMIO_CONFIG + i) 1 = true.
Proof.
  destruct Hslot as (k & Hk & ->). unfold VIRTIO_MMIO_CONFIG, VIRTIO_SIZE, GPIO_BASE_ADDR, VIRTIO_SLOTS in *.
  unfold in_ram, in_mmio, RAM_BASE, MMIO_BASE, MMIO_END. intros Hi.
  split; [apply andb_false_intro1, Z.leb_gt; lia|apply andb_true_intro; rewrite !Z.leb_le; lia].
Qed.

Lemma wp_read_config buf s (Q : unit → machine → Prop) :
  in_ram buf 6 = true →
  (∀ bs s', length bs = 6%nat → Forall (λ b, 0 <= b < 2 ^ 8) bs → config_read buf bs s s' → Q tt s') →
  wp (virt_mmio_read_config device 0 buf 6) s Q.
Proof.
  intros Hb HQ. unfold virt_mmio_read_config, mem_copy. cbv zeta.
  apply (wp_for (λ k s', ∃ bs, length bs = Z.to_nat k ∧ Forall (λ b, 0 <= b < 2 ^ 8) bs ∧ config_read buf bs s s')).
  - exists []. split_and!; [done|constructor|]. exists (m_dev s). destruct s; simpl. by rewrite app_nil_r.
  - intros i s' Hi (bs & Hl & Hf & d & ->). destruct (config_byte i Hi) as [E1 E2].
    rewrite Z.add_0_r. apply wp_bind, wp_io_read; [done..|]. destruct (dev_read _ _ _) as [v d']. cbv zeta.
    apply wp_store; [eapply in_ram_sub; [exact Hb|lia..]|].
    exists (bs ++ [v mod 2 ^ 8]). split_and!.
    + rewrite length_app. simpl. lia.
    + apply Forall_app. split; [done|]. constructor; [apply Z.mod_pos_bound; lia|constructor].
    + exists d'. unfold config_reads. rewrite imap_app, ram_write_snoc, Hl. cbn [imap].
      rewrite Z2Nat.id by lia. destruct s; simpl. rewrite app_assoc. unfold compose. cbn.
      by replace (Z.of_nat (Z.to_nat i + 0)) with i by lia.
  - intros s' (bs & Hl & Hf & Hr). by eapply HQ.
Qed.

Definition mac_report (bs : list Z) : list Z :=
  chars "MAC Address: " ++
  concat ((λ i, (chars "0x" ++ hex_digits 8 (default 0 (bs !! Z.to_nat i))) ++ if i <? 5 then [ch_colon] else [])
    <$> seqZ 0 6) ++ [ch_nl].

(** The address is read into the buffer and printed. *)
Definition mac_shown (buf : Z) (bs : list Z) s s' : Prop :=
  length bs = 6%nat ∧ ∃ s1, config_read buf bs s s1 ∧ prints s1 s' (mac_report bs).

Lemma wp_get_mac buf s (Q : unit → machine → Prop) :
  in_ram buf 6 = true → (∀ bs s', mac_shown buf bs s s' → Q tt s') →
  wp (virt_mmio_net_get_mac_address device buf) s Q.
Proof.
  intros Hb HQ. apply wp_bind, wp_read_config; [done|]. intros bs s1 Hl Hf Hr.
  pose proof Hr as [d Er]. set (r := ram_write buf bs (m_ram s)).
  eapply (says_wp r _ (mac_report bs)); [|by rewrite Er|].
  2:{ intros s' P. apply (HQ bs). split; [done|]. by exists s1. }
  unfold mac_report. apply says_bind; [by apply says_lit|].
  apply says_bind; [|apply says_putc].
  refine (says_for r _ 0 6 _ _). intros i Hi.
  destruct (lookup_lt_is_Some_2 bs (Z.to_nat i)) as [b Eb]; [lia|]. rewrite Eb.
  eapply says_load; [eapply in_ram_sub; [exact Hb|lia..]|]. rewrite ram_load_1.
  unfold r. replace (buf + i) with (buf + Z.to_nat i) by lia. rewrite (byte_at_write_in _ _ _ _ _ Eb).
  rewrite Z.mod_small by (by apply (Forall_lookup_1 _ _ _ _ Hf Eb)).
  apply says_bind; [apply says_b2x|]. apply says_if; [apply says_putc|apply says_ret].
Qed.
End mac.

(** ** The queues after initialisation *)

Section queues.
Context `{Platform}.
Implicit Types (s : machine).

Lemma queue_buffers_ram l l' q :
  queue_pages l l' q → in_ram (q_buffers q) (Z.to_nat (QUEUE_BUF_SIZE * DESC_QUEUE_SIZE)) = true.
Proof.
  intros (l1 & _ & T). destruct (tk_ram _ _ _ _ T). rewrite PAGE_SIZE_eq in *.
  apply in_ram_true; unfold QUEUE_BUF_SIZE, DESC_QUEUE_SIZE; lia.
Qed.

(** Ring and buffers are separate. *)
Lemma queue_pages_apart l l' q : queue_pages l l' q →
  q_ring q + sizeof_virtq <= q_buffers q ∨ q_buffers q + QUEUE_BUF_SIZE * DESC_QUEUE_SIZE <= q_ring q.
Proof.
  intros (l1 & T1 & T2). unfold sizeof_virtq, QUEUE_BUF_SIZE, DESC_QUEUE_SIZE.
  destruct (decide (q_ring q + 8192 <= q_buffers q ∨ q_buffers q + 524288 <= q_ring q)) as [|Hno]; [lia|]. exfalso.
  apply (tk_gone _ _ _ _ T1 (Z.max (q_ring q) (q_buffers q))); [rewrite PAGE_SIZE_eq; lia|].
  apply (tk_from _ _ _ _ T2). rewrite PAGE_SIZE_eq. lia.
Qed.

Lemma built_queue_ok r l l' ring buffers q0 flags :
  let q := fresh_queue ring buffers q0 in
  length (q_in_use q0) = 256%nat → queue_pages l l' q → descs r (q_ring q) (q_buffers q) flags 256 → queue_ok r q.
Proof.
  intros q Hu Hp Hd. split; [done|by eapply queue_ring_ram|by eapply queue_buffers_ram|by eapply queue_pages_apart|
    |simpl; lia|simpl; lia|done].
  intros i Hi. by destruct (Hd i Hi) as [Ha _ _ _].
Qed.

Lemma built_queue_placed l l' ring buffers q0 :
  queue_pages l l' (fresh_queue ring buffers q0) → queue_placed (fresh_queue ring buffers q0).
Proof.
  intros (l1 & T & _). pose proof (tk_aligned _ _ _ _ T) as Ha. destruct (tk_ram _ _ _ _ T).
  unfold aligned, RAM_BASE, RAM_END in *. rewrite PAGE_SIZE_eq in *. split_and!; [done|dlia|lia|lia].
Qed.
End queues.

(** ** The case of a network card in [virt_find_all_devices] *)

Section start.
Context `{Platform} {TX : UartTx} (device : Z) (Hslot : slot_addr device) (W : Z → Prop) `{!DmaWithin W}.
Implicit Types (s : machine).

(** Both queues as the driver relies on them, nothing received yet. *)
Record queues_live (rx tx : virtio_net_queue) (L : list Z) s : Prop := {
  ql_net : m_net s = [rx; tx];
  ql_rx : queue_ok (m_ram s) rx;
  ql_tx : queue_ok (m_ram s) tx;
  ql_offered : ram_load 2 (avail_idx (q_ring rx)) (m_ram s) = 256;
  ql_heap : heap_inv s L;
}.

(** The memory a queue's device side may write. *)
Definition device_part (q : virtio_net_queue) (x : Z) : Prop :=
  virtq_used (q_ring q) <= x < q_ring q + sizeof_virtq ∨
  q_buffers q <= x < q_buffers q + QUEUE_BUF_SIZE * DESC_QUEUE_SIZE.

(** They survive whatever leaves the driver's part and the free pages alone. *)
Lemma queues_live_same rx tx L s s' :
  m_net s' = m_net s → m_heap s' = m_heap s →
  same_on (λ x, driver_part rx x ∨ driver_part tx x ∨ in_pages L x) (m_ram s) (m_ram s') →
  queues_live rx tx L s → queues_live rx tx L s'.
Proof.
  intros En Eh Hs [Hn Hr Ht Ho Hh].
  assert (∀ q, (∀ x, driver_part q x → driver_part rx x ∨ driver_part tx x ∨ in_pages L x) →
    queue_ok (m_ram s) q → queue_ok (m_ram s') q) as Hok.
  { intros q Hq. apply queue_ok_same. intros x Hx. apply Hs, Hq.
    unfold driver_part, virtq_used, DESC_QUEUE_SIZE. lia. }
  split; [by rewrite En|apply Hok; auto|apply Hok; auto| |].
  - rewrite <- Ho. eapply same_on_load; [exact Hs|]. intros x Hx. left.
    unfold driver_part, virtq_used, avail_idx, virtq_avail, DESC_QUEUE_SIZE in *. lia.
  - apply (heap_inv_ext (set_ram (m_ram s') s)); [done|done|].
    apply heap_inv_same; [done|]. intros x Hx. apply Hs. auto.
Qed.

Lemma queues_live_calm rx tx L s s' : calm s s' → queues_live rx tx L s → queues_live rx tx L s'.
Proof.
  intros (Er & Eh & _ & En & _)%calm_vars. apply queues_live_same; [done|done|]. by rewrite Er.
Qed.

Lemma ready_live L s s1 rx tx rx0 tx0 :
  queues_ready L s s1 rx tx → m_net s = [rx0; tx0] →
  length (q_in_use rx0) = 256%nat → length (q_in_use tx0) = 256%nat →
  ∃ l1 l2, net_layout L = Some ((q_ring rx, q_buffers rx), (q_ring tx, q_buffers tx), l2) ∧
    queue_pages L l1 rx ∧ queue_pages l1 l2 tx ∧ queues_live rx tx l2 s1 ∧ queue_placed rx ∧ queue_placed tx ∧
    rx = fresh_queue (q_ring rx) (q_buffers rx) rx0 ∧ tx = fresh_queue (q_ring tx) (q_buffers tx) tx0.
Proof.
  intros [Hn Hv (l1 & l2 & P1 & P2 & HI & Hl) Hrx Htx _ _ _] En U1 U2. rewrite En in Hv.
  destruct (Hv 0%nat rx eq_refl) as (q0 & E0 & Erx). destruct (Hv 1%nat tx eq_refl) as (q1 & E1 & Etx).
  simpl in E0, E1. simplify_eq. exists l1, l2. split_and!; try done.
  - split; [done| | |by apply Hrx|done].
    + rewrite Erx in P1 |- *. eapply built_queue_ok; [done|exact P1|]. rewrite Erx in Hrx. apply Hrx.
    + rewrite Etx in P2 |- *. eapply built_queue_ok; [done|exact P2|]. rewrite Etx in Htx. apply Htx.
  - rewrite Erx in P1 |- *. by eapply built_queue_placed.
  - rewrite Etx in P2 |- *. by eapply built_queue_placed.
Qed.

Lemma queue_pages_all l l' q x :
  queue_pages l l' q → driver_part q x ∨ device_part q x → in_pages l x ∧ ¬ in_pages l' x.
Proof.
  intros P [Hx|[Hx|Hx]]; [eapply queue_pages_in; [exact P|]..|].
  - unfold driver_part, virtq_used, virtq_avail, sizeof_virtq, DESC_QUEUE_SIZE in *. lia.
  - unfold virtq_used, virtq_avail, DESC_QUEUE_SIZE in Hx. lia.
  - destruct P as (l1 & T1 & T2). unfold QUEUE_BUF_SIZE, DESC_QUEUE_SIZE in Hx.
    assert (q_buffers q <= x < q_buffers q + PAGE_SIZE * 128%nat) as Hx' by (rewrite PAGE_SIZE_eq; lia). split.
    + by apply (tk_rest _ _ _ _ T1), (tk_from _ _ _ _ T2).
    + by apply (tk_gone _ _ _ _ T2).
Qed.

Lemma part_apart q x : q_ring q + sizeof_virtq <= q_buffers q ∨
  q_buffers q + QUEUE_BUF_SIZE * DESC_QUEUE_SIZE <= q_ring q → driver_part q x → ¬ device_part q x.
Proof.
  unfold driver_part, device_part, virtq_used, virtq_avail, sizeof_virtq, QUEUE_BUF_SIZE, DESC_QUEUE_SIZE. lia.
Qed.

(** A device that stays within its parts of the queues leaves the driver's parts
    and the free pages alone. *)
Lemma dma_apart L l1 l2 rx tx x :
  queue_pages L l1 rx → queue_pages l1 l2 tx → (∀ x, W x → device_part rx x ∨ device_part tx x) →
  driver_part rx x ∨ driver_part tx x ∨ in_pages l2 x → ¬ W x.
Proof.
  intros P1 P2 HW Hx Hw. pose proof (queue_pages_all _ _ _ x P1) as A1. pose proof (queue_pages_all _ _ _ x P2) as A2.
  pose proof (part_apart rx x (queue_pages_apart _ _ _ P1)). pose proof (part_apart tx x (queue_pages_apart _ _ _ P2)).
  pose proof (queue_pages_rest _ _ _ x P2). destruct (HW x Hw); tauto.
Qed.

(** The driver's parts of the queues and the rest of the free pages lie in the
    pages that were free. *)
Lemma parts_free L l1 l2 rx tx x :
  queue_pages L l1 rx → queue_pages l1 l2 tx →
  driver_part rx x ∨ driver_part tx x ∨ in_pages l2 x → in_pages L x.
Proof.
  intros P1 P2 [Hx|Hx]; [by apply (queue_pages_all _ _ _ x P1); left|]. apply (queue_pages_rest _ _ _ _ P1).
  destruct Hx as [Hx|Hx]; [by apply (queue_pages_all _ _ _ x P2); left|by apply (queue_pages_rest _ _ _ _ P2)].
Qed.

(** What the device may write was free, too. *)
Lemma dma_free L l1 l2 rx tx x :
  queue_pages L l1 rx → queue_pages l1 l2 tx → device_part rx x ∨ device_part tx x → in_pages L x.
Proof.
  intros P1 P2 [Hx|Hx]; [by apply (queue_pages_all _ _ _ x P1); right|].
  eapply queue_pages_rest; [exact P1|]. by apply (queue_pages_all _ _ _ x P2); right.
Qed.

Definition init_failed : list Z := chars ("Virtio network initialization failed." ++ nl).

Lemma negotiated_live rx tx L s v s' :
  (∀ x, driver_part rx x ∨ driver_part tx x ∨ in_pages L x → ¬ W x) →
  negotiated device rx tx s v s' → queues_live rx tx L s → (v = 0 ∨ v = -1) ∧ queues_live rx tx L s'.
Proof.
  intros HW (vd & (evs & Ha & _) & Hv) Hl. split.
  - destruct vd; [tauto|done|done].
  - eapply queues_live_same; [by eapply acts_net|by eapply acts_heap| |exact Hl].
    eapply same_on_weaken; [by eapply (acts_same W)|]. exact HW.
Qed.

Lemma mac_live mac_buf mac rx tx L s s' :
  (∀ x, driver_part rx x ∨ driver_part tx x ∨ in_pages L x → x < mac_buf ∨ mac_buf + 6 <= x) →
  mac_shown device mac_buf mac s s' → queues_live rx tx L s → queues_live rx tx L s'.
Proof.
  intros Hout (Hlen & s1 & (d & ->) & P) Hl. eapply queues_live_calm; [by eapply calm_prints|].
  eapply (queues_live_same _ _ _ s); [done|done| |exact Hl]. simpl. apply same_on_write.
  rewrite Hlen. intros x Hx. by apply Hout.
Qed.

(** What follows a successful handshake in [s]: the address is read and printed,
    and then the first buffer is taken, or ... *)
Definition answered mac_buf rx s s' : Prop := ∃ mac s3 s4 s5 s6 ok,
  mac_shown device mac_buf mac s s3 ∧ prints s3 s4 hello ∧ waited rx s4 s5 ∧ took device 2048 rx s5 ok s6 ∧
  prints s6 s' (if ok : bool then bye else []).

(** ... the card returns none, with both queues as they should be: then the
    driver does one fence after the other until the bound is used up. *)
Definition ignored mac_buf rx tx L s s' : Prop := ∃ mac s3 s4,
  mac_shown device mac_buf mac s s3 ∧ prints s3 s4 hello ∧ queues_live rx tx L s4 ∧ nsteps (silent rx) fuel s4 s'.

Lemma first_poll_cases mac_buf rx tx L s :
  queues_live rx tx L s → in_ram mac_buf 6 = true →
  (∀ x, driver_part rx x ∨ driver_part tx x ∨ in_pages L x → ¬ W x) →
  (∀ x, driver_part rx x ∨ driver_part tx x ∨ in_pages L x → x < mac_buf ∨ mac_buf + 6 <= x) →
  wp_or (virt_mmio_net_get_mac_address device mac_buf ;; virt_mmio_net_poll_rx device 0 2048) s
    (λ _, answered mac_buf rx s) (ignored mac_buf rx tx L s).
Proof.
  intros Hl Hmac HW Hout. apply wp_or_step, (wp_get_mac device Hslot); [done|]. intros mac s3 Hm.
  pose proof (mac_live _ _ _ _ _ _ _ Hout Hm Hl) as Hl3.
  eapply wp_or_mono; [apply (poll_rx_cases device Hslot W 0 2048 s3 rx)| |].
  - by rewrite (ql_net _ _ _ _ Hl3).
  - apply Hl3.
  - intros x Hx. apply HW. by left.
  - intros [] s' (s4 & s5 & s6 & ok & P4 & Hw & Ht & P6). by exists mac, s3, s4, s5, s6, ok.
  - intros s' (s4 & P4 & Hst). exists mac, s3, s4. split_and!; [done|done| |done].
    eapply queues_live_calm; [by eapply calm_prints|done].
Qed.

(** ** What starting a card leaves alone *)

(** The allocator, the control registers and the process table are as before,
    and so is memory on [P]. *)
Record spares (P : Z → Prop) s s' : Prop := {
  sp_heap : m_heap s' = m_heap s;
  sp_csr : m_csr s' = m_csr s;
  sp_sched : m_sched s' = m_sched s;
  sp_ram : same_on P (m_ram s) (m_ram s');
}.

#[global] Instance spares_preorder P : PreOrder (spares P).
Proof.
  split.
  - intros s. by split.
  - intros s1 s2 s3 [? ? ? ?] [? ? ? ?]. split; [congruence..|by etrans].
Qed.

Lemma spares_calm P s s' : calm s s' → spares P s s'.
Proof. intros (Er & ? & ? & _ & ?)%calm_vars. split; [done..|by rewrite Er]. Qed.
Lemma spares_prints P s s' out : prints s s' out → spares P s s'.
Proof. intros Hp. eapply spares_calm, calm_prints, Hp. Qed.
Lemma spares_heap s s' L : spares (in_pages L) s s' → heap_inv s L → heap_inv s' L.
Proof.
  intros [Eh _ _ Hs] HI. apply (heap_inv_ext (set_ram (m_ram s') s)); [done|done|]. by apply heap_inv_same.
Qed.

Section sparing.
Context (P : Z → Prop) (HP : ∀ x, P x → ¬ W x).

Lemma spares_fenced s s' : fenced s s' → spares P s s'.
Proof.
  intros F. destruct (fenced_vars _ _ F) as (_ & ? & ? & ?). split; [done..|].
  eapply same_on_weaken; [by eapply (fenced_same W)|exact HP].
Qed.
Lemma spares_waits s s' : rtc fenced s s' → spares P s s'.
Proof. induction 1 as [|s s1 s' F%spares_fenced _ IH]; [done|by etrans]. Qed.
Lemma spares_acts s s' evs : acts s s' evs → spares P s s'.
Proof.
  intros Ha. split; [by eapply acts_heap|by eapply acts_csr|by eapply acts_sched|].
  eapply same_on_weaken; [by eapply (acts_same W)|exact HP].
Qed.

Lemma spares_mac mac_buf mac s s' : (∀ x, P x → x < mac_buf ∨ mac_buf + 6 <= x) →
  mac_shown device mac_buf mac s s' → spares P s s'.
Proof.
  intros Hout (Hlen & s1 & (d & ->) & Hp). etrans; [|by eapply spares_prints].
  split; [done..|]. simpl. apply same_on_write. by rewrite Hlen.
Qed.

Lemma spares_took length q s ok s' : (∀ x, P x → x < q_ring q ∨ q_ring q + sizeof_virtq <= x) →
  took device length q s ok s' → spares P s s'.
Proof.
  intros Hout [(_ & _ & Hp)|(_ & _ & s2 & s3 & Hp & (s4 & s5 & s6 & s7 & E4 & F5 & E6 & F7 & X & _) & Hp')];
    [by eapply spares_prints|].
  assert (∀ a (n : nat) v r, q_ring q <= a → a + n <= q_ring q + sizeof_virtq → same_on P r (ram_store n a v r)) as Hst.
  { intros a n v r Ha Hn x Hx%Hout. apply byte_at_store_out. lia. }
  etrans; [by eapply spares_prints|]. etrans; [|by eapply spares_prints].
  trans s4; [|trans s5; [by apply spares_fenced|trans s6; [|trans s7; [by apply spares_fenced|]]]].
  - rewrite E4. split; [done..|]. apply Hst; unfold avail_ring, sizeof_virtq, virtq_avail, DESC_QUEUE_SIZE; dlia.
  - rewrite E6. split; [done..|]. apply Hst; unfold avail_idx, sizeof_virtq, virtq_avail, DESC_QUEUE_SIZE; lia.
  - apply spares_calm. by eexists.
Qed.
End sparing.

(** ** From discovery to the first frame *)

(** The card suits the kernel: it writes only what the queues [rx] and [tx] give
    it, and the buffer for the MAC address is apart from the free pages [L].
    Whether it ever returns a buffer is left open. *)
Record card_ok (mac_buf : Z) (rx tx : virtio_net_queue) (L : list Z) : Prop := {
  co_dma : ∀ x, W x → device_part rx x ∨ device_part tx x;
  co_mac : in_ram mac_buf 6 = true;
  co_apart : ∀ x, mac_buf <= x < mac_buf + 6 → ¬ in_pages L x;
}.

(** From the beginning of the handshake in [s1] to [s'], when the driver goes on: *)
Definition contacted mac_buf rx tx s1 s' : Prop := ∃ s2 v, negotiated device rx tx s1 v s2 ∧
  ((v = -1 ∧ prints s2 s' init_failed) ∨ (v = 0 ∧ answered mac_buf rx s2 s')).

(** and when it does not. *)
Definition unanswered mac_buf rx tx L s1 s' : Prop := ∃ s2, negotiated device rx tx s1 0 s2 ∧
  ignored mac_buf rx tx L s2 s'.

(** From the handshake on. *)
Lemma contact_cases mac_buf rx tx L s1 :
  queues_live rx tx L s1 → queue_placed rx → queue_placed tx → in_ram mac_buf 6 = true →
  (∀ x, driver_part rx x ∨ driver_part tx x ∨ in_pages L x → ¬ W x) →
  (∀ x, driver_part rx x ∨ driver_part tx x ∨ in_pages L x → x < mac_buf ∨ mac_buf + 6 <= x) →
  wp_or (
    failed <- (v <- virt_mmio_negotiation device; ret (negb (v =? 0)));
    if (failed : bool) then uart_puts (lit ("Virtio network initialization failed." ++ nl))
    else virt_mmio_net_get_mac_address device mac_buf ;; virt_mmio_net_poll_rx device 0 2048) s1
    (λ _, contacted mac_buf rx tx s1) (unanswered mac_buf rx tx L s1).
Proof.
  intros Hl Prx Ptx Hmac Hdma Hbuf. apply wp_or_step, wp_bind.
  eapply wp_mono; [apply (wp_negotiation device Hslot rx tx s1); by rewrite ?(ql_net _ _ _ _ Hl)|].
  intros v s2 Hneg. destruct (negotiated_live _ _ _ _ _ _ Hdma Hneg Hl) as [Hv Hl2]. apply wp_ret.
  destruct Hv as [-> | ->]; cbn [Z.eqb negb].
  2:{ left. apply wp_puts_lit; [done|]. intros s' P. exists s2, (-1). split; [done|by left]. }
  eapply wp_or_mono; [by apply (first_poll_cases mac_buf rx tx L s2)| |].
  - intros [] s' Ha. exists s2, 0. split; [done|by right].
  - intros s' Hi. by exists s2.
Qed.

Lemma contacted_spares P mac_buf rx tx s1 s' :
  (∀ x, P x → ¬ W x) → (∀ x, P x → x < mac_buf ∨ mac_buf + 6 <= x) →
  (∀ x, P x → x < q_ring rx ∨ q_ring rx + sizeof_virtq <= x) →
  contacted mac_buf rx tx s1 s' → spares P s1 s'.
Proof.
  intros HW Hmac Hring (s2 & v & (vd & (evs & Ha & _) & _) & Hend). unfold answered in Hend. trans s2; [by eapply spares_acts|].
  destruct Hend as [[_ Hp]|(_ & mac & s3 & s4 & s5 & s6 & ok & Hm & P4 & [Hw _] & Ht & P6)]; [by eapply spares_prints|].
  etrans; [by eapply spares_mac|]. etrans; [by eapply spares_prints|]. etrans; [by eapply spares_waits|].
  etrans; [by eapply spares_took|]. by eapply spares_prints.
Qed.

Lemma unanswered_spares P mac_buf rx tx L s1 s' :
  (∀ x, P x → ¬ W x) → (∀ x, P x → x < mac_buf ∨ mac_buf + 6 <= x) →
  unanswered mac_buf rx tx L s1 s' → spares P s1 s'.
Proof.
  intros HW Hmac (s2 & (vd & (evs & Ha & _) & _) & mac & s3 & s4 & Hm & P4 & _ & Hst%silent_waits).
  trans s2; [by eapply spares_acts|]. etrans; [by eapply spares_mac|].
  etrans; [by eapply spares_prints|]. by eapply spares_waits.
Qed.

(** Outside the pages that were free and the buffer for the MAC address. *)
Definition untouched (mac_buf : Z) (L : list Z) (x : Z) : Prop :=
  ¬ in_pages L x ∧ (x < mac_buf ∨ mac_buf + 6 <= x).

(** All that has changed when the pages [L] were free and [l2] still are. *)
Definition confined (mac_buf : Z) (L l2 : list Z) s s' : Prop :=
  heap_inv s' l2 ∧ m_csr s' = m_csr s ∧ m_sched s' = m_sched s ∧ same_on (untouched mac_buf L) (m_ram s) (m_ram s').

(** From the initialised queues to the end, after a fence and a message. *)
Lemma spares_confined mac_buf L l2 rx tx s s0 s0' s1 s' out :
  (∀ x, W x → in_pages L x) → queues_ready L s s0 rx tx → fenced s0 s0' → prints s0' s1 out → heap_inv s1 l2 →
  spares (λ x, in_pages l2 x ∨ untouched mac_buf L x) s1 s' → confined mac_buf L l2 s s'.
Proof.
  intros Hin Hr Hb P HI [Eh' Ec' Es' Hram]. destruct (fenced_vars _ _ Hb) as (_ & _ & Ec & Es). split_and!.
  - apply (spares_heap s1); [|done]. split; [done..|]. eapply same_on_weaken; [exact Hram|]. intros x Hx. by left.
  - by rewrite Ec', (prints_csr _ _ _ P), Ec, (qr_csr _ _ _ _ _ Hr).
  - by rewrite Es', (prints_sched _ _ _ P), Es, (qr_sched _ _ _ _ _ Hr).
  - intros x Hx. rewrite Hram by (by right). rewrite (prints_ram _ _ _ P). destruct Hx as [Hx _].
    rewrite (fenced_same W _ _ Hb); [by apply (qr_same _ _ _ _ _ Hr)|]. intros Hw. by apply Hx, Hin.
Qed.

Lemma start_net_device_cases mac_buf rx0 tx0 rr rb tr tb L l2 s :
  let rx := fresh_queue rr rb rx0 in
  let tx := fresh_queue tr tb tx0 in
  heap_inv s L → m_net s = [rx0; tx0] → length (q_in_use rx0) = 256%nat → length (q_in_use tx0) = 256%nat →
  net_layout L = Some ((rr, rb), (tr, tb), l2) → card_ok mac_buf rx tx L →
  wp_or (start_net_device mac_buf device) s
    (λ _ s', (∃ s1, queues_live rx tx l2 s1 ∧ contacted mac_buf rx tx s1 s') ∧ confined mac_buf L l2 s s')
    (λ s', (∃ s1, queues_live rx tx l2 s1 ∧ unanswered mac_buf rx tx l2 s1 s') ∧ confined mac_buf L l2 s s').
Proof.
  intros rx tx HI Hn U1 U2 Hlay [HW Hmac Hout]. unfold start_net_device.
  apply wp_or_step, wp_io; [by apply does_puts|]. intros t1 C1.
  apply wp_or_step, wp_io; [by apply does_print_info|]. intros t2 C2.
  apply wp_or_step, wp_io; [by apply does_reg_write|]. intros t3 C3.
  pose proof (calm_trans _ _ _ C1 (calm_trans _ _ _ C2 C3)) as C. clear C1 C2 C3 t1 t2.
  destruct (calm_vars _ _ C) as (Er & _ & Ec & En & Es).
  apply wp_or_step. eapply (wp_virtq_init device t3 L rx0 tx0); [by eapply calm_heap|by rewrite En|by rewrite Hlay|].
  intros s0 s0' s1 rx' tx' Hr Hb P. destruct (ready_live _ _ _ _ _ rx0 tx0 Hr) as
    (l1 & l2' & Hlay' & P1 & P2 & Hlive & Q1 & Q2 & E1 & E2); [by rewrite En|done|done|].
  rewrite Hlay in Hlay'. injection Hlay' as -> -> -> -> ->.
  change (rx' = rx) in E1. change (tx' = tx) in E2. rewrite E1 in P1, Hlive, Q1. rewrite E2 in P2, Hlive, Q2.
  pose proof (λ x, dma_apart _ _ _ _ _ x P1 P2 HW) as Hdma. pose proof (λ x, parts_free _ _ _ _ _ x P1 P2) as Hfree.
  assert (queues_live rx tx l2' s1) as Hlive1.
  { eapply queues_live_calm; [by eapply calm_prints|].
    destruct (fenced_vars _ _ Hb) as (N & Hh & _). eapply queues_live_same; [done|done| |exact Hlive].
    eapply same_on_weaken; [by eapply (fenced_same W)|]. exact Hdma. }
  assert (∀ x, driver_part rx x ∨ driver_part tx x ∨ in_pages l2' x → x < mac_buf ∨ mac_buf + 6 <= x) as Hbuf.
  { intros x Hx. destruct (decide (mac_buf <= x < mac_buf + 6)) as [Hm|]; [|lia]. by destruct (Hout x Hm); apply Hfree. }
  assert (∀ x, W x → in_pages L x) as Hin by (intros x Hx; by apply (dma_free _ _ _ _ _ _ P1 P2), HW).
  set (P' x := in_pages l2' x ∨ untouched mac_buf L x).
  assert (∀ x, P' x → ¬ W x) as Hw'.
  { intros x [Hx|[Hx _]]; [by apply Hdma; auto|]. intros Hw. by apply Hx, Hin. }
  assert (∀ x, P' x → x < mac_buf ∨ mac_buf + 6 <= x) as Hm' by (intros x [Hx|[_ Hx]]; [by apply Hbuf; auto|done]).
  assert (∀ x, P' x → x < q_ring rx ∨ q_ring rx + sizeof_virtq <= x) as Hr'.
  { intros x Hx. apply dec_stable. intros Hno. destruct (queue_pages_in _ _ _ x P1); [lia|].
    destruct Hx as [Hx|[Hx _]]; [|done]. by eapply queue_pages_rest in Hx. }
  assert (∀ s', spares P' s1 s' → confined mac_buf L l2' s s') as Hkeep.
  { intros s' Hsp. rewrite E1, E2 in Hr. unfold confined. rewrite <- Ec, <- Es, <- Er.
    by eapply spares_confined; [..|by eapply ql_heap|]. }
  cbn [Z.eqb negb]. eapply wp_or_mono; [by apply (contact_cases mac_buf rx tx l2' s1)| |].
  - intros [] s' Hc. split; [by exists s1|]. apply Hkeep. by eapply contacted_spares.
  - intros s' Hu. split; [by exists s1|]. apply Hkeep. by eapply unanswered_spares.
Qed.

(** C16: a network card starts.  When the allocator can serve both queues and the
    card writes only into them, the driver prints what it found and resets the
    card; both queues are sound, 256 receive buffers are offered and the allocator
    is sound when the handshake begins.  If that fails, a message says so.
    Otherwise the six bytes of the MAC address are read and printed.  Then there
    are two outcomes, and it is the card that decides: it returns a buffer and the
    first one it returns is taken; or it stays silent and the driver waits for it
    with fences only, whatever the bound, while both queues stay as they should be
    (so it is with any card that respects the flags of the descriptors, see
    [split_card_hangs]).  In every case the allocator has given away exactly the pages of the queues, and
    nothing but those pages, the buffer for the MAC address and the driver's own
    variables has changed. *)
Theorem net_device_starts mac_buf rx0 tx0 rr rb tr tb L l2 s :
  let rx := fresh_queue rr rb rx0 in
  let tx := fresh_queue tr tb tx0 in
  heap_inv s L → m_net s = [rx0; tx0] → length (q_in_use rx0) = 256%nat → length (q_in_use tx0) = 256%nat →
  net_layout L = Some ((rr, rb), (tr, tb), l2) → card_ok mac_buf rx tx L →
  wp_or (start_net_device mac_buf device) s
    (λ _ s', (∃ s1, queues_live rx tx l2 s1 ∧ contacted mac_buf rx tx s1 s') ∧ confined mac_buf L l2 s s')
    (λ s', (∃ s1, queues_live rx tx l2 s1 ∧ unanswered mac_buf rx tx l2 s1 s') ∧ confined mac_buf L l2 s s').
Proof. apply start_net_device_cases. Qed.
End start.
