(* ===== verification/VirtioSplit.v ===== *)
(** * A card that follows the rules

    The driver's descriptors have the flags where a split virtqueue has another
    field ([rx_descriptors_misplaced]), so for the card none of the receive
    buffers is writable.  Here: what becomes of the kernel when the card keeps to
    the rules and does not use buffers it must not write. *)

From S2P Require Import Prelude Globals Machine Utils Uart Heap HeapSpec Paging Packet.
From S2P Require Import Virtio VirtioSpec DeviceIo Virtq VirtioNet VirtioRx VirtioStart.

(** ** Virtqueues as the card sees them *)

(** The flags of descriptor [i], at offset 12 of the 16 bytes. *)
Definition split_flags (r : gmap Z Z) (ring i : Z) : Z := ram_load 2 (ring + 16 * i + 12) r.

(** No descriptor of the ring is marked as writable for the device, and it has
    returned nothing. *)
Record starved (ring : Z) (r : gmap Z Z) : Prop := {
  sv_flags : ∀ i, 0 <= i < DESC_QUEUE_SIZE → Z.testbit (split_flags r ring i) 1 = false;
  sv_used : ram_load 2 (used_idx ring) r = 0;
}.

(** The card follows the rules of split virtqueues on the receive queue with this
    ring: as long as no descriptor is writable for it there is no buffer it could
    return, and it does not write to the ring. *)
Class SplitDevice `{Platform} (ring : Z) : Prop := split_device : ∀ d r,
  (∀ i, 0 <= i < DESC_QUEUE_SIZE → Z.testbit (split_flags r ring i) 1 = false) →
  Forall (λ w, w.1 < ring ∨ ring + sizeof_virtq <= w.1) (dev_sync d r).1.

Lemma starved_same ring r r' :
  same_on (λ x, ring <= x < ring + sizeof_virtq) r r' → starved ring r → starved ring r'.
Proof.
  intros Hs [Hf Hu]. unfold sizeof_virtq, DESC_QUEUE_SIZE in Hs. split.
  - intros i Hi. rewrite <- (Hf i Hi). unfold split_flags, DESC_QUEUE_SIZE in *.
    f_equal. eapply same_on_load; [exact Hs|]. simpl. lia.
  - rewrite <- Hu. eapply same_on_load; [exact Hs|]. unfold used_idx, virtq_used, virtq_avail, DESC_QUEUE_SIZE. simpl. lia.
Qed.

Lemma starved_stable `{Platform} ring `{!SplitDevice ring} : dma_stable (starved ring).
Proof.
  intros d r Hs. apply (starved_same ring r); [|done]. intros x Hx. apply byte_at_dma.
  eapply Forall_impl; [apply split_device, Hs|]. simpl. lia.
Qed.

(** An initialised receive queue is starved: all flags read as zero. *)
Lemma ready_starved r q : rx_ready r q → starved (q_ring q) r.
Proof.
  intros [Hd _ _ Hu]. split.
  - intros i Hi. destruct (Hd i) as [_ _ Hid _]; [done|]. unfold split_flags. unfold desc_id, virtq_desc in Hid.
    by rewrite Hid.
  - apply ram_load_zero. intros x Hx. apply Hu. unfold used_idx, DESC_QUEUE_SIZE in *. lia.
Qed.

(** ** Waiting forever *)

Section wait.
Context `{Platform} {TX : UartTx} (device : Z) (Hslot : slot_addr device).
Implicit Types (s : machine).

Lemma stops_wait {B} (i : Z) q (work : virtio_net_queue → M (unit + B)) `{!SplitDevice (q_ring q)} n s :
  m_net s !! Z.to_nat i = Some q → in_ram (q_ring q) (Z.to_nat sizeof_virtq) = true → q_last_used_idx q = 0 →
  starved (q_ring q) (m_ram s) →
  stops (loop n (λ _ : unit,
    mem_barrier ;;
    q <- get_queue i;
    idx <- load 2 (used_idx (q_ring q));
    if negb (q_last_used_idx q =? idx) then work q else ret (inl tt)) tt) s OutOfFuel (λ s', nsteps fenced n s s').
Proof.
  intros Hq Hr H0. revert s Hq. induction n as [|n IH]; intros s Hq Hs; [apply stops_halt; constructor|]. cbn [loop].
  apply stops_bind_r, wp_bind, wp_fence. intros s' F. pose proof (fenced_vars _ _ F) as (En & _).
  pose proof (fenced_stable _ _ _ (starved_stable (q_ring q)) F Hs) as Hs'.
  apply wp_bind. eapply wp_get_queue; [by rewrite En|]. apply wp_bind, wp_load.
  { apply in_ram_spec in Hr. unfold sizeof_virtq, DESC_QUEUE_SIZE in Hr.
    apply in_ram_true; unfold used_idx, virtq_used, virtq_avail, DESC_QUEUE_SIZE; lia. }
  rewrite H0, (sv_used _ _ Hs'). cbn [Z.eqb negb]. apply wp_ret.
  eapply stops_mono; [apply IH; [by rewrite En|done]|]. intros s2 Hst. by econstructor.
Qed.

(** Polling a starved queue does not come to an end. *)
Lemma stops_poll q `{!SplitDevice (q_ring q)} length s :
  m_net s !! 0%nat = Some q → in_ram (q_ring q) (Z.to_nat sizeof_virtq) = true → q_last_used_idx q = 0 →
  starved (q_ring q) (m_ram s) →
  stops (virt_mmio_net_poll_rx device 0 length) s OutOfFuel (λ s', ∃ s0, prints s s0 hello ∧ nsteps fenced fuel s0 s').
Proof.
  intros Hq Hr H0 Hs. apply stops_bind_r, wp_puts_lit; [done|]. intros s0 P0. apply stops_bind_l.
  eapply stops_mono; [apply (stops_wait 0 q (take_rx device length))|].
  - by rewrite (prints_net _ _ _ P0).
  - done.
  - done.
  - by rewrite (prints_ram _ _ _ P0).
  - intros s' Hst. by exists s0.
Qed.
End wait.

(** ** Starting such a card *)

Section start.
Context `{Platform} {TX : UartTx} (device : Z) (Hslot : slot_addr device).
Implicit Types (s : machine).

(** A run from [s] either returns in a state with [P] or uses up the bound of a
    loop in a state with [Q]. *)
Definition returns_or_hangs (m : M unit) s (P Q : machine → Prop) : Prop :=
  wp m s (λ _, P) ∨ stops m s OutOfFuel Q.

Lemma hangs_bind {A} (m : M A) k s P Q :
  wp m s (λ a s', returns_or_hangs (k a) s' P Q) → returns_or_hangs (bind m k) s P Q.
Proof.
  intros (a & s' & E & [Hk|Hk]); [left; apply wp_bind|right; apply stops_bind_r]; by exists a, s'.
Qed.

Lemma starved_mac mac_buf mac ring s s' : (∀ x, ring <= x < ring + sizeof_virtq → x < mac_buf ∨ mac_buf + 6 <= x) →
  mac_shown device mac_buf mac s s' → starved ring (m_ram s) → starved ring (m_ram s').
Proof.
  intros Hout (Hlen & s1 & (d & ->) & P) Hs. rewrite (prints_ram _ _ _ P). simpl. eapply starved_same; [|exact Hs].
  apply same_on_write. by rewrite Hlen.
Qed.

(** The failure is reported, or the address is read and then the driver polls
    for ever. *)
Definition card_fails rx tx s1 s' : Prop :=
  ∃ s2, negotiated device rx tx s1 (-1) s2 ∧ prints s2 s' init_failed.
Definition card_hangs mac_buf rx tx s1 s' : Prop :=
  ∃ s2 mac s3 s4, negotiated device rx tx s1 0 s2 ∧ mac_shown device mac_buf mac s2 s3 ∧ prints s3 s4 hello ∧
    nsteps fenced fuel s4 s'.

(** From the handshake on. *)
Lemma contact_hangs mac_buf rx tx `{!SplitDevice (q_ring rx)} s :
  m_net s = [rx; tx] → queue_placed rx → queue_placed tx → in_ram (q_ring rx) (Z.to_nat sizeof_virtq) = true →
  q_last_used_idx rx = 0 → starved (q_ring rx) (m_ram s) → in_ram mac_buf 6 = true →
  (∀ x, q_ring rx <= x < q_ring rx + sizeof_virtq → x < mac_buf ∨ mac_buf + 6 <= x) →
  returns_or_hangs (
    failed <- (v <- virt_mmio_negotiation device; ret (negb (v =? 0)));
    if (failed : bool) then uart_puts (lit ("Virtio network initialization failed." ++ nl))
    else virt_mmio_net_get_mac_address device mac_buf ;; virt_mmio_net_poll_rx device 0 2048) s
    (card_fails rx tx s) (card_hangs mac_buf rx tx s).
Proof.
  intros Hn Prx Ptx Hr H0 Hs Hmac Hout. apply hangs_bind, wp_bind.
  eapply wp_mono; [apply (wp_negotiation device Hslot rx tx s); by rewrite ?Hn|]. intros v s2 Hneg. apply wp_ret.
  pose proof Hneg as (vd & (evs & Ha & _) & Hv).
  pose proof (acts_stable _ _ _ _ (starved_stable (q_ring rx)) Ha Hs) as Hs2.
  assert (m_net s2 = [rx; tx]) as Hn2 by (by rewrite (acts_net _ _ _ Ha)).
  assert (v = 0 ∨ v = -1) as [-> | ->] by (destruct vd; [tauto|done|done]); cbn [Z.eqb negb].
  2:{ left. apply wp_puts_lit; [done|]. intros s' P'. by exists s2. }
  right. apply stops_bind_r, (wp_get_mac device Hslot); [done|]. intros mac s3 Hm.
  pose proof (starved_mac _ _ _ _ _ Hout Hm Hs2) as Hs3.
  eapply stops_mono; [apply (stops_poll device rx 2048 s3); [|done..]|].
  - destruct Hm as (_ & s2' & (d & ->) & P). rewrite (prints_net _ _ _ P). change (m_net s2 !! 0%nat = Some rx). by rewrite Hn2.
  - intros s' (s4 & P4 & Hst). by exists s2, mac, s3, s4.
Qed.

(** C17: a card that follows the rules stops the kernel.  When the allocator can
    serve both queues and the card keeps to the split-virtqueue format, which is
    what the driver negotiates, [start_net_device] never gets a frame: either the
    handshake fails and a message says so, or the address is printed and the
    driver then waits for a buffer for ever: whatever the bound of the loop, it is
    used up, and all that happens is one fence after the other; what [main] does
    after it looked for devices is not reached. *)
Theorem split_card_hangs mac_buf rx0 tx0 rr rb tr tb L l2 `{!SplitDevice rr} s :
  let rx := fresh_queue rr rb rx0 in
  let tx := fresh_queue tr tb tx0 in
  heap_inv s L → m_net s = [rx0; tx0] → length (q_in_use rx0) = 256%nat → length (q_in_use tx0) = 256%nat →
  net_layout L = Some ((rr, rb), (tr, tb), l2) →
  in_ram mac_buf 6 = true → (∀ x, mac_buf <= x < mac_buf + 6 → ¬ in_pages L x) →
  returns_or_hangs (start_net_device mac_buf device) s
    (λ s', ∃ s1, m_net s1 = [rx; tx] ∧ starved rr (m_ram s1) ∧ card_fails rx tx s1 s')
    (λ s', ∃ s1, m_net s1 = [rx; tx] ∧ starved rr (m_ram s1) ∧ card_hangs mac_buf rx tx s1 s').
Proof.
  intros rx tx HI Hn U1 U2 Hlay Hmac Hout. unfold start_net_device.
  apply hangs_bind, wp_io; [by apply does_puts|]. intros t1 C1.
  apply hangs_bind, wp_io; [by apply does_print_info|]. intros t2 C2.
  apply hangs_bind, wp_io; [by apply does_reg_write|]. intros t3 C3.
  pose proof (calm_trans _ _ _ C1 (calm_trans _ _ _ C2 C3)) as C. destruct (calm_vars _ _ C) as (_ & _ & _ & En & _).
  apply hangs_bind. eapply (wp_virtq_init device t3 L rx0 tx0); [by eapply calm_heap|by rewrite En|by rewrite Hlay|].
  intros s0 s0' s1 rx' tx' Hr Hb P. pose proof (ready_starved _ _ (qr_rx _ _ _ _ _ Hr)) as Hs0.
  destruct (ready_live _ _ _ _ _ rx0 tx0 Hr) as (l1 & l2' & Hlay' & P1 & _ & Hlive & Q1 & Q2 & E1 & E2);
    [by rewrite En|done|done|]. rewrite Hlay in Hlay'. injection Hlay' as -> -> -> -> ->.
  change (rx' = rx) in E1. change (tx' = tx) in E2. rewrite E1 in *. rewrite E2 in *.
  assert (m_net s1 = [rx; tx]) as Hn1.
  { rewrite (prints_net _ _ _ P), (proj1 (fenced_vars _ _ Hb)). apply (ql_net _ _ _ _ Hlive). }
  assert (starved (q_ring rx) (m_ram s1)) as Hs1.
  { rewrite (prints_ram _ _ _ P). by apply (fenced_stable _ _ _ (starved_stable (q_ring rx)) Hb). }
  cbn [Z.eqb negb]. destruct (contact_hangs mac_buf rx tx s1) as [Hw|Hh]; try done.
  - apply (qo_ring _ _ (ql_rx _ _ _ _ Hlive)).
  - intros x Hx. destruct (decide (mac_buf <= x < mac_buf + 6)) as [Hm|]; [|lia]. exfalso.
    by apply (Hout x Hm), (queue_pages_in _ _ _ x P1).
  - left. eapply wp_mono; [exact Hw|]. intros [] s' Hf. by exists s1.
  - right. eapply stops_mono; [exact Hh|]. intros s' Hf. by exists s1.
Qed.
End start.
