(* ===== verification/Dtb.v ===== *)
(** * dtb.c: the flattened device tree

    [fdt_traverse] walks the structure block and hands every non-empty property
    value to a callback.  The address of the blob comes from the boot code
    ([_dtb_addr]) and is an argument here. *)

From S2P Require Import Prelude Globals Machine Utils Uart.

Definition FDT_BEGIN_NODE : Z := 0x00000001.
Definition FDT_END_NODE : Z := 0x00000002.
Definition FDT_PROP : Z := 0x00000003.
Definition FDT_NOP : Z := 0x00000004.
Definition FDT_END : Z := 0x00000009.
Definition FDT_MAGIC : Z := 0xd00dfeed.

(** The fields of [struct fdt_header] that are read. *)
Definition fdt_magic (fdt : Z) : Z := fdt.
Definition fdt_off_dt_struct (fdt : Z) : Z := fdt + 8.
Definition fdt_size_dt_struct (fdt : Z) : Z := fdt + 36.

Definition ch_at : Z := 64.

Section dtb.
Context `{Platform}.

(** [prop_len] is converted to the [int] parameter of [string_comp_l]. *)
Definition dtb_callback (string_addr : cptr) (prop_len : Z) : M Z :=
  c <- string_comp_l string_addr (lit "ns16550a") (i32 prop_len);
  if c =? 0 then ret 1
  else
    c <- string_comp_l string_addr (lit "virtio,mmio") (i32 prop_len);
    if c =? 0 then ret 2 else ret 0.

(** [while ( *p != '@' && *p != 0 ) p++;] *)
Definition skip_to_at (p : cptr) : M cptr :=
  loop fuel (λ p,
    c <- deref p;
    if negb (c =? ch_at) && negb (c =? 0) then ret (inl (cadd p 1)) else ret (inr p)) p.

(** One iteration of the loop over the digits: the shift comes before the check
    that the character is a digit. *)
Definition unit_digit (p : cptr) (st : Z * Z) : M (Z * Z + Z) :=
  let '(i, addr) := st in
  c <- deref (cadd p i);
  if c =? 0 then ret (inr addr)
  else
    let addr := u64 (addr << 4) in
    if (ch_0 <=? c) && (c <=? ch_9) then ret (inl (i + 1, u64 (addr + (c - ch_0))))
    else if (ch_a <=? c) && (c <=? ch_f) then ret (inl (i + 1, u64 (addr + (c - ch_a + 10))))
    else if (ch_A <=? c) && (c <=? ch_F) then ret (inl (i + 1, u64 (addr + (c - ch_A + 10))))
    else ret (inr addr).

Definition parse_dtb_unit_name (unit_name : cptr) : M Z :=
  p <- skip_to_at unit_name;
  loop fuel (unit_digit (cadd p 1)) (0, 0).

(** [struct_ptr += align_mem_offset((void * )struct_ptr, 4)] *)
Definition align_ptr (struct_ptr : Z) : M Z :=
  o <- align_mem_offset struct_ptr 4; ret (struct_ptr + o).

(** The body of the traversal loop; [inl] carries the new [struct_ptr]. *)
Definition fdt_step (callback : cptr → Z → M Z) (fdt struct_size struct_ptr : Z) : M (Z + unit) :=
  off <- load 4 (fdt_off_dt_struct fdt);
  if negb (struct_ptr <? fdt + BE2LE off + struct_size) then ret (inr tt)
  else
  token <- load 4 struct_ptr;
  let struct_ptr := struct_ptr + 4 in
  let tok := BE2LE token in
  if tok =? FDT_NOP then ret (inl struct_ptr)
  else if tok =? FDT_BEGIN_NODE then
    print_len <- string_len (PMem struct_ptr);
    addr <- parse_dtb_unit_name (PMem struct_ptr);
    let struct_ptr := struct_ptr + print_len in
    let struct_ptr := struct_ptr + 1 in
    struct_ptr <- align_ptr struct_ptr;
    ret (inl struct_ptr)
  else if tok =? FDT_PROP then
    len <- load 4 struct_ptr;
    let prop_len := BE2LE len in
    let struct_ptr := struct_ptr + 4 in
    let struct_ptr := struct_ptr + 4 in
    if 0 <? prop_len then
      r <- callback (PMem struct_ptr) prop_len;
      let struct_ptr := struct_ptr + prop_len in
      struct_ptr <- align_ptr struct_ptr; ret (inl struct_ptr)
    else
      struct_ptr <- align_ptr struct_ptr; ret (inl struct_ptr)
  else if tok =? FDT_END_NODE then ret (inl struct_ptr)
  else if tok =? FDT_END then ret (inl struct_ptr)
  else ret (inr tt).

Definition fdt_traverse (_dtb_addr : Z) (callback : cptr → Z → M Z) : M unit :=
  let fdt := _dtb_addr in
  magic <- load 4 (fdt_magic fdt);
  if negb (BE2LE magic =? FDT_MAGIC) then ret tt
  else
  size <- load 4 (fdt_size_dt_struct fdt);
  let struct_size := BE2LE size in
  off <- load 4 (fdt_off_dt_struct fdt);
  loop fuel (fdt_step callback fdt struct_size) (fdt + BE2LE off).
End dtb.

(** ** Unit addresses *)

Definition is_hex (c : Z) : bool :=
  (ch_0 <=? c) && (c <=? ch_9) || (ch_a <=? c) && (c <=? ch_f) || (ch_A <=? c) && (c <=? ch_F).

Section unit_name.
Context `{Platform}.

(** The loops as functions of the number of iterations they may make. *)
Lemma wp_skip_loop (n : nat) s p name c (Q : cptr → machine → Prop) :
  chars_at s p (name ++ [c]) → Forall (λ c, c ≠ ch_at ∧ c ≠ 0) name → c = ch_at ∨ c = 0 →
  (length name < n)%nat → Q (cadd p (length name)) s →
  wp (loop n (λ p,
    c <- deref p;
    if negb (c =? ch_at) && negb (c =? 0) then ret (inl (cadd p 1)) else ret (inr p)) p) s Q.
Proof.
  revert p name. induction n as [|n IH]; intros p name Hc Hf Hend Hn HQ; [lia|]. cbn [loop].
  apply wp_bind, wp_bind. destruct name as [|d name]; simpl in Hn.
  - apply chars_at_cons in Hc as [Hp _]. eapply wp_deref; [exact Hp|].
    rewrite cadd_0 in HQ. destruct Hend as [->| ->]; by apply wp_ret, wp_ret.
  - apply chars_at_cons in Hc as [Hp Hc]. apply Forall_cons in Hf as [[H1 H2] Hf].
    eapply wp_deref; [exact Hp|].
    rewrite (proj2 (Z.eqb_neq d _)), (proj2 (Z.eqb_neq d _)) by done. cbn [negb andb].
    apply wp_ret. apply (IH _ name); [done|done|done|lia|].
    rewrite cadd_add. by replace (1 + length name) with (Z.of_nat (length (d :: name))) by (simpl; lia).
Qed.

(** The value of hexadecimal digits modulo 2^64. *)
Definition unit_value (acc : Z) (l : list Z) : Z :=
  foldl (λ acc c, (16 * acc + hex_digit_value c) mod 2 ^ 64) acc l.

Lemma unit_value_hex l : ∀ acc, unit_value (acc mod 2 ^ 64) l = hex_value_from acc l mod 2 ^ 64.
Proof.
  induction l as [|c l IH]; intros acc; [done|]. cbn. rewrite <- IH. f_equal.
  rewrite Z.add_mod, Z.mul_mod_idemp_r, <- Z.add_mod by lia. done.
Qed.

Lemma hex_digit_cases c : is_hex c = true →
  (ch_0 <= c <= ch_9 ∧ hex_digit_value c = c - ch_0) ∨
  (ch_a <= c <= ch_f ∧ hex_digit_value c = c - ch_a + 10) ∨
  (ch_A <= c <= ch_F ∧ hex_digit_value c = c - ch_A + 10).
Proof.
  unfold is_hex, hex_digit_value, ch_0, ch_9, ch_a, ch_f, ch_A, ch_F. intros Hc.
  repeat case_match; lia.
Qed.

Lemma wp_unit_step s p i acc c (Q : Z * Z + Z → machine → Prop) :
  peek s (cadd p i) = Some c → is_hex c = true → 0 <= acc < 2 ^ 64 →
  Q (inl (i + 1, (16 * acc + hex_digit_value c) mod 2 ^ 64)) s → wp (unit_digit p (i, acc)) s Q.
Proof.
  intros Hp Hh Ha HQ. unfold unit_digit. apply wp_bind. eapply wp_deref; [exact Hp|].
  assert (∀ v, u64 (u64 (acc << 4) + v) = (16 * acc + v) mod 2 ^ 64) as E.
  { intros v. unfold u64. rewrite shiftl_mul, Z.add_mod_idemp_l by lia. f_equal. lia. }
  destruct (hex_digit_cases c Hh) as [[Hr Ev]|[[Hr Ev]|[Hr Ev]]]; rewrite Ev in HQ;
    unfold ch_0, ch_9, ch_a, ch_f, ch_A, ch_F in *; rewrite (proj2 (Z.eqb_neq c 0)) by lia.
  - rewrite (proj2 (Z.leb_le _ c)), (proj2 (Z.leb_le c _)) by lia. cbn [andb]. apply wp_ret. by rewrite E.
  - rewrite (proj2 (Z.leb_gt c 57)) by lia. rewrite andb_false_r.
    rewrite (proj2 (Z.leb_le _ c)), (proj2 (Z.leb_le c _)) by lia. cbn [andb]. apply wp_ret. by rewrite E.
  - rewrite (proj2 (Z.leb_gt c 57)), (proj2 (Z.leb_gt 97 c)) by lia. rewrite andb_false_r. cbn [andb].
    rewrite (proj2 (Z.leb_le _ c)), (proj2 (Z.leb_le c _)) by lia. cbn [andb]. apply wp_ret. by rewrite E.
Qed.

(** The value after the character that ends the digits. *)
Definition unit_end (acc e : Z) : Z := if e =? 0 then acc else u64 (acc << 4).

Lemma wp_unit_loop (n : nat) s p i acc ds e (Q : Z → machine → Prop) :
  chars_at s (cadd p i) (ds ++ [e]) → Forall (λ c, is_hex c = true) ds → is_hex e = false →
  (length ds < n)%nat → 0 <= acc < 2 ^ 64 → Q (unit_end (unit_value acc ds) e) s →
  wp (loop n (unit_digit p) (i, acc)) s Q.
Proof.
  revert i acc ds. induction n as [|n IH]; intros i acc ds Hc Hf He Hn Ha HQ; [lia|]. cbn [loop].
  apply wp_bind. destruct ds as [|d ds]; simpl in Hn.
  - apply chars_at_cons in Hc as [Hp _]. unfold unit_digit. apply wp_bind. eapply wp_deref; [exact Hp|].
    unfold unit_end, is_hex in *. simpl in HQ. destruct (e =? 0); [by apply wp_ret, wp_ret|].
    destruct ((ch_0 <=? e) && (e <=? ch_9)); [done|]. destruct ((ch_a <=? e) && (e <=? ch_f)); [done|].
    destruct ((ch_A <=? e) && (e <=? ch_F)); [done|]. by apply wp_ret, wp_ret.
  - apply chars_at_cons in Hc as [Hp Hc]. rewrite cadd_add in Hc. apply Forall_cons in Hf as [Hd Hf].
    eapply wp_unit_step; [exact Hp|done|done|]. apply (IH _ _ ds); [done|done|done|lia|dlia|done].
Qed.

(** C33: unit addresses.  For a node name [name@digits] that ends there,
    [parse_dtb_unit_name] returns the value of the digits modulo 2^64.  When
    something else than a digit follows the digits (as in [pci@1,0]) the result
    is 16 times too large: the accumulator is shifted before the character is
    looked at. *)
Theorem unit_name_value s p name ds e :
  chars_at s p (name ++ [ch_at] ++ ds ++ [e]) → Forall (λ c, c ≠ ch_at ∧ c ≠ 0) name →
  Forall (λ c, is_hex c = true) ds → is_hex e = false →
  length name < fuel → length ds < fuel →
  wp (parse_dtb_unit_name p) s (λ v s', s' = s ∧
    v = (if e =? 0 then hex_value ds else 16 * hex_value ds) mod 2 ^ 64).
Proof.
  intros Hc Hn Hf He Fn Fd. unfold parse_dtb_unit_name. apply wp_bind.
  eapply (wp_skip_loop _ _ _ name ch_at).
  { intros i c Hi. apply Hc. rewrite app_assoc. by apply lookup_app_l_Some. }
  { done. }
  { by left. }
  { lia. }
  rewrite cadd_add. eapply (wp_unit_loop _ _ _ _ _ ds e).
  { rewrite cadd_add. pose proof (chars_at_drop _ _ _ (length name + 1) Hc) as Hd.
    rewrite app_assoc, drop_app_length' in Hd by (by rewrite length_app).
    by replace (length name + 1 + 0) with (Z.of_nat (length name + 1)) by lia. }
  { done. }
  { done. }
  { lia. }
  { lia. }
  split; [done|]. unfold unit_end, hex_value. rewrite (unit_value_hex ds 0 : unit_value 0 ds = _).
  destruct (e =? 0); [done|]. unfold u64. rewrite shiftl_mul, Z.mul_mod_idemp_l by lia. f_equal. lia.
Qed.
End unit_name.
