(* ===== verification/DtbSpec.v ===== *)
(** * Traversing a device tree

    The structure block as a list of items with its encoding (a big-endian
    token, names and values padded to four bytes), and the theorem that
    [fdt_traverse] hands exactly the non-empty property values of the block to
    its callback, in order. *)

From S2P Require Import Prelude Globals Machine Utils Uart Dtb.

(** ** The structure block *)

Inductive item := Node (name : list Z) | EndNode | Property (nameoff : Z) (value : list Z) | Nop | End_.

Definition be32 (v : Z) : list Z := [v / 2 ^ 24 mod 2 ^ 8; v / 2 ^ 16 mod 2 ^ 8; v / 2 ^ 8 mod 2 ^ 8; v mod 2 ^ 8].

(** Zero bytes up to the next multiple of four. *)
Definition pad (n : nat) : list Z := replicate (Z.to_nat (- n mod 4)) 0.

Definition enc_item (it : item) : list Z :=
  match it with
  | Node name => be32 FDT_BEGIN_NODE ++ name ++ [0] ++ pad (length name + 1)
  | EndNode => be32 FDT_END_NODE
  | Property nameoff value =>
      be32 FDT_PROP ++ be32 (length value) ++ be32 nameoff ++ value ++ pad (length value)
  | Nop => be32 FDT_NOP
  | End_ => be32 FDT_END
  end.

Definition encode (items : list item) : list Z := concat (enc_item <$> items).

(** Names are strings without newlines (which [string_len] would stop at). *)
Definition item_ok (bound : Z) (it : item) : Prop :=
  match it with
  | Node name => Forall (λ c, 0 < c < 2 ^ 8 ∧ c ≠ ch_nl) name ∧ length name + 1 < bound
  | Property nameoff value => Forall (λ c, 0 <= c < 2 ^ 8) value ∧ length value < 2 ^ 32
  | _ => True
  end.

(** The calls a block makes when it starts at [a]: address and length of every
    non-empty value. *)
Fixpoint calls (a : Z) (items : list item) : list (Z * Z) :=
  match items with
  | [] => []
  | it :: items' =>
      match it with
      | Property _ value => if decide (value = []) then [] else [(a + 12, Z.of_nat (length value))]
      | _ => []
      end ++ calls (a + length (enc_item it)) items'
  end.

(** [bs] is in memory at [a]. *)
Definition bytes_at (r : gmap Z Z) (a : Z) (bs : list Z) : Prop :=
  in_ram a (length bs) = true ∧ ∀ (i : nat) b, bs !! i = Some b → byte_at r (a + i) = b.

Lemma bytes_at_app r a bs bs' : bytes_at r a (bs ++ bs') → bytes_at r a bs ∧ bytes_at r (a + length bs) bs'.
Proof.
  intros [Hr Hb]. rewrite length_app in Hr. split; split.
  - eapply in_ram_sub; [exact Hr|lia..].
  - intros i b Hi. apply Hb. by apply lookup_app_l_Some.
  - eapply in_ram_sub; [exact Hr|lia..].
  - intros i b Hi. rewrite <- Z.add_assoc, <- Nat2Z.inj_add. apply Hb. rewrite lookup_app_r by lia.
    by replace (length bs + i - length bs)%nat with i by lia.
Qed.

Lemma bytes_at_be32 r a v : bytes_at r a (be32 v) → 0 <= v < 2 ^ 32 →
  in_ram a 4 = true ∧ BE2LE (ram_load 4 a r) = v.
Proof.
  intros [Hr Hb] Hv. split; [done|].
  pose proof (Hb 0%nat _ eq_refl) as H0. pose proof (Hb 1%nat _ eq_refl) as H1.
  pose proof (Hb 2%nat _ eq_refl) as H2. pose proof (Hb 3%nat _ eq_refl) as H3.
  unfold ram_load. rewrite <- !Z.add_assoc. change (1 + 1) with 2. change (1 + 2) with 3.
  rewrite Z.add_0_r in H0. change (a + 1) with (a + 1%nat). change (a + 2) with (a + 2%nat).
  change (a + 3) with (a + 3%nat). rewrite H0, H1, H2, H3, Z.mul_0_r, Z.add_0_r.
  rewrite BE2LE_bytes by dlia. dlia.
Qed.

Lemma length_pad (n : nat) : Z.of_nat (length (pad n)) = - n mod 4.
Proof. unfold pad. rewrite length_replicate. dlia. Qed.

Lemma length_enc_item it : Z.of_nat (length (enc_item it)) mod 4 = 0.
Proof.
  destruct it as [name| |nameoff value| |]; try done; simpl; rewrite ?length_app; simpl;
    rewrite !Nat2Z.inj_succ; rewrite ?length_app, Nat2Z.inj_add; cbn [length];
    rewrite ?Nat2Z.inj_succ, length_pad; dlia.
Qed.

(** ** Names *)

Lemma split_at_sign name :
  (Forall (λ c, c ≠ ch_at) name) ∨
  ∃ pre post, name = pre ++ [ch_at] ++ post ∧ Forall (λ c, c ≠ ch_at) pre.
Proof.
  induction name as [|c name IH]; [by left|]. destruct (decide (c = ch_at)) as [->|Hc].
  - right. by exists [], name.
  - destruct IH as [IH|(pre & post & -> & IH)]; [left; by constructor|].
    right. exists (c :: pre), post. split; [done|by constructor].
Qed.

Lemma split_digits l : ∃ ds e rest, l ++ [0] = ds ++ [e] ++ rest ∧
  Forall (λ c, is_hex c = true) ds ∧ is_hex e = false ∧ (length ds <= length l)%nat.
Proof.
  induction l as [|c l (ds & e & rest & E & Hd & He & Hl)].
  - exists [], 0, []. split_and!; [done|constructor|done|done].
  - destruct (is_hex c) eqn:Hc.
    + exists (c :: ds), e, rest. split_and!; [by rewrite <- app_comm_cons, E|by constructor|done|simpl; lia].
    + exists [], c, (l ++ [0]). split_and!; [done|constructor|done|simpl; lia].
Qed.

Section traverse.
Context `{Platform}.

Lemma chars_at_prefix s p l l' : chars_at s p (l ++ l') → chars_at s p l.
Proof. intros Hc i c Hi. apply Hc. by apply lookup_app_l_Some. Qed.

(** On a name followed by two zero bytes [parse_dtb_unit_name] returns. *)
Lemma wp_parse_name s p name (Q : Z → machine → Prop) :
  chars_at s p (name ++ [0; 0]) → Forall (λ c, c ≠ 0) name → length name + 1 < fuel →
  (∀ v, Q v s) → wp (parse_dtb_unit_name p) s Q.
Proof.
  intros Hc Hz Hn HQ. unfold parse_dtb_unit_name. apply wp_bind.
  destruct (split_at_sign name) as [Hno|(pre & post & -> & Hpre)].
  - eapply (wp_skip_loop _ _ _ name 0).
    { apply (chars_at_prefix _ _ _ [0]). by rewrite <- app_assoc. }
    { rewrite !Forall_forall in *. auto. }
    { by right. }
    { lia. }
    rewrite cadd_add. eapply (wp_unit_loop _ _ _ _ _ [] 0); [|constructor|done|simpl; lia|lia|apply HQ].
    rewrite cadd_add. pose proof (chars_at_drop _ _ _ (length name + 1) Hc) as Hd.
    rewrite (app_assoc name [0] [0] : name ++ [0; 0] = _), drop_app_length' in Hd by (by rewrite length_app).
    by replace (length name + 1 + 0) with (Z.of_nat (length name + 1)) by lia.
  - rewrite !length_app in Hn. simpl in Hn. destruct (split_digits post) as (ds & e & rest & E & Hd & He & Hl).
    assert ((pre ++ [ch_at] ++ post) ++ [0; 0] = (pre ++ [ch_at]) ++ (ds ++ [e]) ++ rest ++ [0]) as E'.
    { rewrite <- !app_assoc. do 2 f_equal. rewrite (app_assoc post [0] [0] : post ++ [0; 0] = _), E.
      by rewrite <- !app_assoc. }
    rewrite E' in Hc. apply Forall_app in Hz as [Hz _].
    eapply (wp_skip_loop _ _ _ pre ch_at).
    { by eapply chars_at_prefix. }
    { rewrite !Forall_forall in *. auto. }
    { by left. }
    { lia. }
    rewrite cadd_add. eapply (wp_unit_loop _ _ _ _ _ ds e); [|done|done|lia|lia|apply HQ].
    rewrite cadd_add. pose proof (chars_at_drop _ _ _ (length pre + 1) Hc) as Hd'.
    rewrite drop_app_length' in Hd' by (by rewrite length_app).
    replace (length pre + 1 + 0) with (Z.of_nat (length pre + 1)) by lia. by eapply chars_at_prefix.
Qed.

Lemma bytes_chars s r a bs : m_ram s = r → bytes_at r a bs → chars_at s (PMem a) bs.
Proof.
  intros <- [Hr Hb] i c Hi. simpl. pose proof (lookup_lt_Some _ _ _ Hi).
  rewrite (in_ram_sub a (a + i) (length bs) 1) by (done || lia). by rewrite (Hb _ _ Hi).
Qed.

Lemma wp_align_ptr a s (Q : Z → machine → Prop) : Q (a + - a mod 4) s → wp (align_ptr a) s Q.
Proof.
  intros HQ. unfold align_ptr, align_mem_offset. apply wp_bind. cbn [Z.eqb].
  apply wp_ret, wp_ret. unfold align_pad. rewrite i32_small by dlia.
  replace ((4 - a mod 4) mod 4) with (- a mod 4) by dlia. done.
Qed.

(** ** One item *)

Context (cb : cptr → Z → M Z) (fdt size : Z) (r : gmap Z Z) (off : Z).

Definition block_end : Z := fdt + off + size.

(** The memory every iteration reads. *)
Definition header_ok : Prop := bytes_at r (fdt + 8) (be32 off) ∧ 0 <= off < 2 ^ 32.

(** What one iteration does at an item. *)
Definition item_step (a : Z) (it : item) : M (Z + unit) :=
  let next := a + length (enc_item it) in
  match it with
  | Property _ value =>
      if decide (value = []) then ret (inl next)
      else _ <- cb (PMem (a + 12)) (length value); ret (inl next)
  | _ => ret (inl next)
  end.

Lemma bind_eq {A B} (m : M A) (k : A → M B) s v (Hm : wp m s (λ a s', a = v ∧ s' = s)) : bind m k s = k v s.
Proof. destruct Hm as (a & s' & E & -> & ->). unfold bind. by rewrite E. Qed.

Lemma load_eq {B} (n : nat) a s (k : Z → M B) : in_ram a n = true →
  bind (load n a) k s = k (ram_load n a (m_ram s)) s.
Proof. intros Ha. unfold bind, load. by rewrite Ha. Qed.

(** The loop condition and the token. *)
Lemma step_token s a tok (rest : list Z) :
  header_ok → m_ram s = r → bytes_at r a (be32 tok ++ rest) → 0 <= tok < 2 ^ 32 → a < block_end →
  ∃ token, BE2LE token = tok ∧ fdt_step cb fdt size a s =
  (let struct_ptr := a + 4 in
   let tok := BE2LE token in
   if tok =? FDT_NOP then ret (inl struct_ptr)
   else if tok =? FDT_BEGIN_NODE then
     print_len <- string_len (PMem struct_ptr);
     addr <- parse_dtb_unit_name (PMem struct_ptr);
     struct_ptr <- align_ptr (struct_ptr + print_len + 1);
     ret (inl struct_ptr)
   else if tok =? FDT_PROP then
     len <- load 4 struct_ptr;
     let prop_len := BE2LE len in
     if 0 <? prop_len then
       r <- cb (PMem (struct_ptr + 4 + 4)) prop_len;
       struct_ptr <- align_ptr (struct_ptr + 4 + 4 + prop_len); ret (inl struct_ptr)
     else
       struct_ptr <- align_ptr (struct_ptr + 4 + 4); ret (inl struct_ptr)
   else if tok =? FDT_END_NODE then ret (inl struct_ptr)
   else if tok =? FDT_END then ret (inl struct_ptr)
   else ret (inr tt)) s.
Proof.
  intros [Hh Hoff] Hs Hb Htok Hlt. destruct (bytes_at_app _ _ _ _ Hb) as [Ht _].
  destruct (bytes_at_be32 _ _ _ Ht Htok) as [Ht1 Ht2].
  destruct (bytes_at_be32 _ _ _ Hh Hoff) as [Hh1 Hh2].
  exists (ram_load 4 a r). split; [done|]. unfold fdt_step, fdt_off_dt_struct.
  rewrite load_eq by done. rewrite Hs, Hh2. unfold block_end in Hlt.
  rewrite (proj2 (Z.ltb_lt a _)) by done. cbn [negb]. rewrite load_eq by done. by rewrite Hs.
Qed.

Lemma node_step s a name :
  m_ram s = r → bytes_at r a (name ++ [0] ++ pad (length name + 1) ++ [0]) → item_ok fuel (Node name) →
  a mod 4 = 0 →
  bind (string_len (PMem a)) (λ print_len,
    bind (parse_dtb_unit_name (PMem a)) (λ _,
    bind (align_ptr (a + print_len + 1)) (λ p, ret (inl p : Z + unit)))) s =
  Ok (inl (a + length (name ++ [0] ++ pad (length name + 1)))) s.
Proof.
  intros Hs Hb [Hn Hf] Ha.
  assert (chars_at s (PMem a) (name ++ [0; 0])) as Hc.
  { apply (bytes_chars s r); [done|]. 
    assert (∃ rest, [0] ++ pad (length name + 1) ++ [0] = [0; 0] ++ rest) as [rest E].
    { unfold pad. destruct (Z.to_nat _) as [|k]; simpl; [by exists []|by eexists]. }
    rewrite E, app_assoc in Hb. by apply bytes_at_app in Hb as [Hb _]. }
  assert (line_at s (PMem a) name) as Hline.
  { split_and!.
    - by eapply chars_at_prefix.
    - rewrite !Forall_forall in *. intros c Hin. destruct (Hn c Hin). split; [lia|done].
    - left. apply (Hc (length name)). by rewrite list_lookup_middle. }
  rewrite (bind_eq _ _ _ (Z.of_nat (length name))) by (eapply wp_string_len; [done|lia|done]).
  assert (∃ v, wp (parse_dtb_unit_name (PMem a)) s (λ x s', x = v ∧ s' = s)) as [v Hv].
  { destruct (wp_parse_name s (PMem a) name (λ _ s', s' = s)) as (v & s' & E & ->).
    - done.
    - rewrite !Forall_forall in *. intros c Hin. destruct (Hn c Hin). lia.
    - lia.
    - done.
    - exists v. unfold wp. eauto. }
  rewrite (bind_eq _ _ _ v) by done.
  rewrite (bind_eq _ _ _ (a + length name + 1 + - (a + length name + 1) mod 4)) by (by apply wp_align_ptr).
  unfold ret. do 2 f_equal. rewrite !length_app. cbn [length].
  rewrite !Nat2Z.inj_add, length_pad. dlia.
Qed.

Lemma property_step s a nameoff value :
  a mod 4 = 0 →
  (if 0 <? length value then
     bind (cb (PMem (a + 4 + 4 + 4)) (length value)) (λ _,
     bind (align_ptr (a + 4 + 4 + 4 + length value)) (λ p, ret (inl p)))
   else bind (align_ptr (a + 4 + 4 + 4)) (λ p, ret (inl p))) s =
  item_step a (Property nameoff value) s.
Proof.
  intros Ha. cbn [item_step enc_item]. rewrite !length_app, !Nat2Z.inj_add, length_pad.
  change (Z.of_nat (length (be32 _))) with 4.
  destruct value as [|c value]; cbn [decide]; [rewrite decide_True by done|rewrite decide_False by done].
  - change (0 <? Z.of_nat (length (@nil Z))) with false. cbv iota. rewrite (bind_eq _ _ _ (a + 12)); [|apply wp_align_ptr; split; [dlia|done]].
    reflexivity.
  - set (v := c :: value). rewrite (proj2 (Z.ltb_lt 0 (length v))) by (simpl; lia).
    replace (a + 4 + 4 + 4) with (a + 12) by lia. unfold bind at 1 3.
    destruct (cb _ _ s) as [x s'|]; [|done].
    rewrite (bind_eq _ _ _ (a + 12 + length v + - (a + 12 + length v) mod 4)) by (by apply wp_align_ptr).
    unfold ret. do 2 f_equal. dlia.
Qed.

Lemma fdt_step_item s a it :
  header_ok → m_ram s = r → bytes_at r a (enc_item it ++ [0]) → item_ok fuel it →
  a mod 4 = 0 → a < block_end → fdt_step cb fdt size a s = item_step a it s.
Proof.
  intros Hh Hs Hb Hok Ha Hlt. destruct it as [name| |nameoff value| |]; cbn [enc_item] in Hb.
  - rewrite <- !app_assoc in Hb.
    destruct (step_token s a _ _ Hh Hs Hb ltac:(done) Hlt) as (token & Et & ->). cbv zeta. rewrite Et.
    apply bytes_at_app in Hb as [_ Hb]. cbn [Z.eqb FDT_BEGIN_NODE FDT_NOP Pos.eqb].
    rewrite (node_step s (a + 4) name) by (done || dlia). unfold item_step, ret. do 2 f_equal.
    cbn [enc_item]. rewrite (length_app (be32 _)). change (length (be32 _)) with 4%nat. lia.
  - destruct (step_token s a _ _ Hh Hs Hb ltac:(done) Hlt) as (token & Et & ->). cbv zeta. by rewrite Et.
  - rewrite <- !app_assoc in Hb.
    destruct (step_token s a _ _ Hh Hs Hb ltac:(done) Hlt) as (token & Et & ->). cbv zeta. rewrite Et.
    apply bytes_at_app in Hb as [_ Hb]. cbn [Z.eqb FDT_BEGIN_NODE FDT_NOP FDT_PROP Pos.eqb].
    destruct Hok as [_ Hlen]. apply bytes_at_app in Hb as [Hb _].
    destruct (bytes_at_be32 _ _ _ Hb) as [Hb1 Hb2]; [lia|].
    change (a + length (be32 FDT_PROP)) with (a + 4) in *.
    rewrite load_eq by done. rewrite Hs, Hb2. by apply property_step.
  - destruct (step_token s a _ _ Hh Hs Hb ltac:(done) Hlt) as (token & Et & ->). cbv zeta. by rewrite Et.
  - destruct (step_token s a _ _ Hh Hs Hb ltac:(done) Hlt) as (token & Et & ->). cbv zeta. by rewrite Et.
Qed.

(** ** The whole block *)

Fixpoint visit (l : list (Z * Z)) : M unit :=
  match l with
  | [] => ret tt
  | (p, n) :: l' => _ <- cb (PMem p) n; visit l'
  end.

(** The callback may do anything but change memory. *)
Definition keeps_memory : Prop :=
  ∀ p n s, match cb p n s with Ok _ s' => m_ram s' = m_ram s | Stop _ _ => True end.

Lemma encode_cons it items : encode (it :: items) = enc_item it ++ encode items.
Proof. done. Qed.

(** Every item starts with a zero byte. *)
Lemma encode_head items : items ≠ [] → ∃ rest, encode items = [0] ++ rest.
Proof.
  intros Hne. destruct items as [|it items]; [done|]. rewrite encode_cons. destruct it; by eexists.
Qed.

Lemma loop_end (n : nat) s a :
  header_ok → m_ram s = r → bytes_at r a (be32 FDT_END) → a + 4 = block_end → (1 < n)%nat →
  loop n (fdt_step cb fdt size) a s = Ok tt s.
Proof.
  intros Hh Hs Hb He Hn. destruct n as [|[|n]]; [lia|lia|]. cbn [loop].
  destruct (step_token s a _ [] Hh Hs Hb ltac:(done)) as (token & Et & E); [lia|].
  unfold bind at 1. rewrite E. cbv zeta. rewrite Et. cbn -[loop fdt_step].
  unfold bind at 1. unfold fdt_step, fdt_off_dt_struct. destruct Hh as [Hh Hoff].
  destruct (bytes_at_be32 _ _ _ Hh Hoff) as [Hh1 Hh2]. rewrite load_eq by done. rewrite Hs, Hh2.
  unfold block_end in He. rewrite (proj2 (Z.ltb_ge (a + 4) _)) by lia. done.
Qed.

Lemma traverse_loop items (n : nat) s a :
  header_ok → keeps_memory → m_ram s = r → bytes_at r a (encode (items ++ [End_])) →
  Forall (item_ok fuel) items → a mod 4 = 0 →
  a + length (encode (items ++ [End_])) = block_end → (length items + 1 < n)%nat →
  loop n (fdt_step cb fdt size) a s = visit (calls a items) s.
Proof.
  intros Hh Hk. revert n s a. induction items as [|it items IH]; intros n s a Hs Hb Hok Ha He Hn.
  - apply (loop_end _ s a); [done|done|done|done|simpl in Hn; lia].
  - destruct n as [|n]; [simpl in Hn; lia|]. cbn [loop app]. rewrite <- app_comm_cons in Hb, He.
    rewrite encode_cons in Hb, He. rewrite length_app in He.
    destruct (encode_head (items ++ [End_])) as [rest Er]; [by destruct items|].
    apply Forall_cons in Hok as [Hit Hok].
    assert (fdt_step cb fdt size a s = item_step a it s) as E.
    { apply fdt_step_item; [done|done| |done|done|].
      - rewrite Er, app_assoc in Hb. by apply bytes_at_app in Hb as [Hb _].
      - rewrite Er in He. simpl in He. lia. }
    apply bytes_at_app in Hb as [_ Hb].
    assert (∀ s', m_ram s' = r → loop n (fdt_step cb fdt size) (a + length (enc_item it)) s' =
      visit (calls (a + length (enc_item it)) items) s') as Hrest.
    { intros s' Hs'. apply IH; [done|done|done| |lia|simpl in Hn; lia].
      pose proof (length_enc_item it). dlia. }
    unfold bind. rewrite E. cbn [calls]. clear IH E.
    destruct it as [name| |nameoff value| |]; cbn [item_step]; [by apply Hrest..| |by apply Hrest|by apply Hrest].
    case_decide; [by apply Hrest|]. cbn [app visit]. unfold bind.
    pose proof (Hk (PMem (a + 12)) (length value) s) as Hm.
    destruct (cb _ _ s) as [x s'|]; [|done]. cbn [ret]. apply Hrest. congruence.
Qed.

(** The whole traversal. *)
Lemma traverse_calls items s :
  let block := encode (items ++ [End_]) in
  m_ram s = r → bytes_at r fdt (be32 FDT_MAGIC) → header_ok →
  bytes_at r (fdt + 36) (be32 size) → size = length block → size < 2 ^ 32 →
  bytes_at r (fdt + off) block → (fdt + off) mod 4 = 0 →
  Forall (item_ok fuel) items → length items + 1 < fuel → keeps_memory →
  fdt_traverse fdt cb s = visit (calls (fdt + off) items) s.
Proof.
  intros block Hs Hm Hh Hsz Esz Hlt Hb Ha Hok Hn Hk. unfold fdt_traverse, fdt_magic, fdt_size_dt_struct.
  destruct (bytes_at_be32 _ _ _ Hm) as [M1 M2]; [done|].
  destruct (bytes_at_be32 _ _ _ Hsz) as [S1 S2]; [lia|].
  destruct (Hh) as [Ho Ho']. destruct (bytes_at_be32 _ _ _ Ho Ho') as [O1 O2].
  rewrite load_eq by done. rewrite Hs, M2. cbn [Z.eqb FDT_MAGIC Pos.eqb negb].
  rewrite load_eq by done. rewrite Hs, S2. unfold fdt_off_dt_struct. rewrite load_eq by done. rewrite Hs, O2.
  apply traverse_loop; [done..| |lia]. unfold block_end. fold block. lia.
Qed.

(** C21: traversing a device tree.  When memory holds a device tree blob whose
    structure block encodes [items] and its end token, [fdt_traverse] runs the
    callback exactly on the non-empty property values, in order, with their
    addresses and lengths, and does nothing else: it behaves as that sequence
    of calls, for every callback that leaves memory alone. *)
Theorem fdt_traverse_visits items s :
  let block := encode (items ++ [End_]) in
  m_ram s = r → bytes_at r fdt (be32 FDT_MAGIC) → header_ok →
  bytes_at r (fdt + 36) (be32 size) → size = length block → size < 2 ^ 32 →
  bytes_at r (fdt + off) block → (fdt + off) mod 4 = 0 →
  Forall (item_ok fuel) items → length items + 1 < fuel → keeps_memory →
  fdt_traverse fdt cb s = visit (calls (fdt + off) items) s.
Proof. apply traverse_calls. Qed.
End traverse.

(** ** The kernel's callback *)

Section callback.
Context `{Platform}.

(** A comparison ends at the first difference, however long it may go on. *)
Lemma wp_comp_mismatch (n : nat) s p1 p2 i pre c1 c2 l1 l2 (Q : Z → machine → Prop) :
  chars_at s (cadd p1 i) (pre ++ c1 :: l1) → chars_at s (cadd p2 i) (pre ++ c2 :: l2) → c1 ≠ c2 →
  (length pre < n)%nat → (∀ v, v ≠ 0 → Q v s) → wp (string_comp_l_from n p1 p2 i) s Q.
Proof.
  revert i pre. induction n as [|n IH]; intros i pre H1 H2 Hne Hn HQ; [lia|]. simpl.
  destruct pre as [|c pre]; simpl in *.
  - apply chars_at_cons in H1 as [Hp1 _], H2 as [Hp2 _].
    apply wp_bind; eapply wp_deref; [done|]. apply wp_bind; eapply wp_deref; [done|].
    destruct (Z.ltb_spec c2 c1); [by apply wp_ret, HQ|]. destruct (Z.ltb_spec c1 c2); [by apply wp_ret, HQ|]. lia.
  - apply chars_at_cons in H1 as [Hp1 H1], H2 as [Hp2 H2]. rewrite cadd_add in H1, H2.
    apply wp_bind; eapply wp_deref; [done|]. apply wp_bind; eapply wp_deref; [done|].
    rewrite !Z.ltb_irrefl. apply (IH _ pre); [done|done|done|lia|done].
Qed.

(** Past the end of a literal the comparison has no defined behaviour. *)
Lemma comp_past_literal (n : nat) s p l i pre rest c :
  chars_at s (cadd p i) (pre ++ [c]) → chars_at s (PLit l i) pre → i + length pre = length l + 1 → 0 <= i →
  n = length (pre ++ c :: rest) → stops (string_comp_l_from n p (PLit l 0) i) s Undefined (λ s', s' = s).
Proof.
  revert i pre. induction n as [|n IH]; intros i pre H1 H2 Hi Hi0 Hn.
  { rewrite length_app in Hn. simpl in Hn. lia. }
  cbn [string_comp_l_from]. destruct pre as [|d pre]; simpl in H1, H2, Hi, Hn.
  - apply chars_at_cons in H1 as [Hp1 _]. apply stops_bind_r. eapply wp_deref; [done|].
    apply stops_bind_l. cbn [cadd deref]. rewrite Z.add_0_l. unfold lit_char.
    rewrite (proj2 (Z.ltb_ge i 0)), (proj2 (Z.eqb_neq i _)) by lia.
    rewrite lookup_ge_None_2 by lia. by apply stops_halt.
  - apply chars_at_cons in H1 as [Hp1 H1], H2 as [Hp2 H2]. rewrite cadd_add in H1.
    apply stops_bind_r. eapply wp_deref; [done|]. apply stops_bind_r.
    eapply wp_deref; [cbn [cadd]; rewrite Z.add_0_l; exact Hp2|]. rewrite !Z.ltb_irrefl. apply (IH _ pre); [done|done|lia|lia|lia].
Qed.

(** A literal with its terminator. *)
Definition zlit (str : String.string) : list Z := chars str ++ [0].

Lemma chars_at_zlit s str : chars_at s (lit str) (zlit str).
Proof.
  intros i c Hi. unfold zlit in Hi. change (lit_char (chars str) (0 + i) = Some c).
  rewrite Z.add_0_l. unfold lit_char. apply lookup_app_Some in Hi as [Hi|[Hge Hi]].
  - pose proof (lookup_lt_Some _ _ _ Hi). rewrite (proj2 (Z.ltb_ge _ 0)), (proj2 (Z.eqb_neq _ _)) by lia.
    by rewrite Nat2Z.id.
  - apply list_lookup_singleton_Some in Hi as [Hi <-].
    replace (Z.of_nat i) with (Z.of_nat (length (chars str))) by lia.
    rewrite (proj2 (Z.ltb_ge _ 0)), Z.eqb_refl by lia. done.
Qed.

(** How a property value compares with a literal. *)
Lemma compare_cases (v l : list Z) :
  v `prefix_of` l ∨ (∃ pre c1 c2 l1 l2, v = pre ++ c1 :: l1 ∧ l = pre ++ c2 :: l2 ∧ c1 ≠ c2) ∨
  ∃ c rest, v = l ++ c :: rest.
Proof.
  revert l. induction v as [|c v IH]; intros l; [left; apply prefix_nil|].
  destruct l as [|d l]; [right; right; by exists c, v|].
  destruct (decide (c = d)) as [->|]; [|right; left; by exists [], c, d, v, l].
  destruct (IH l) as [Hp|[(pre & c1 & c2 & l1 & l2 & -> & -> & Hne)|(e & rest & ->)]].
  - left. by apply prefix_cons.
  - right. left. by exists (d :: pre), c1, c2, l1, l2.
  - right. right. by exists e, rest.
Qed.

(** [string_comp_l] against a literal. *)
Lemma comp_literal s p v str :
  chars_at s p v → length v < 2 ^ 31 →
  (v `prefix_of` zlit str → string_comp_l p (lit str) (i32 (length v)) s = Ok 0 s) ∧
  (¬ v `prefix_of` zlit str → ¬ zlit str `prefix_of` v →
   ∃ d, d ≠ 0 ∧ string_comp_l p (lit str) (i32 (length v)) s = Ok d s) ∧
  (zlit str `prefix_of` v → v ≠ zlit str →
   string_comp_l p (lit str) (i32 (length v)) s = Stop Undefined s).
Proof.
  intros Hv Hlen. rewrite i32_small by lia. unfold string_comp_l. rewrite Nat2Z.id. split_and!.
  - intros [k E]. assert (chars_at s (lit str) v) as Hl.
    { apply (chars_at_prefix _ _ _ k). rewrite <- E. apply chars_at_zlit. }
    assert (wp (string_comp_l_from (length v) p (lit str) 0) s (λ a s', a = 0 ∧ s' = s)) as (a & s' & Ea & -> & ->); [|done].
    eapply (wp_string_comp_l_from _ _ _ _ v v); [by rewrite cadd_0|by rewrite cadd_0|done|].
    split; [|done]. by apply cmp_chars_0.
  - intros H1 H2. destruct (compare_cases v (zlit str)) as
      [?|[(pre & c1 & c2 & l1 & l2 & E1 & E2 & Hne)|(c & rest & ->)]]; [done| |exfalso; apply H2; by eexists].
    assert (wp (string_comp_l_from (length v) p (lit str) 0) s (λ a s', a ≠ 0 ∧ s' = s)) as (a & s' & Ea & Hn & ->); [|eauto].
    eapply (wp_comp_mismatch _ _ _ _ _ pre c1 c2 l1 l2);
      [rewrite cadd_0, <- E1; exact Hv|rewrite cadd_0, <- E2; apply chars_at_zlit|done| |done].
    rewrite E1, length_app. simpl. lia.
  - intros [[|c rest] E] Hne; [by rewrite app_nil_r in E|].
    destruct (comp_past_literal (length v) s p (chars str) 0 (zlit str) rest c) as (s' & Es & ->);
      [| | |done|by rewrite E|done].
    + rewrite cadd_0. apply (chars_at_prefix _ _ _ rest). rewrite <- app_assoc. simpl. by rewrite <- E.
    + apply chars_at_zlit.
    + unfold zlit. rewrite length_app. simpl. lia.
Qed.

(** The callback only reads. *)
Definition reads_only {A} (m : M A) : Prop :=
  ∀ s, match m s with Ok _ s' => m_ram s' = m_ram s | Stop _ _ => True end.

Lemma reads_bind {A B} (m : M A) (k : A → M B) : reads_only m → (∀ a, reads_only (k a)) → reads_only (bind m k).
Proof.
  intros Hm Hk s. unfold bind. specialize (Hm s). destruct (m s) as [a t|]; [|done].
  specialize (Hk a t). destruct (k a t); congruence.
Qed.

Lemma reads_ret {A} (a : A) : reads_only (ret a).
Proof. done. Qed.

Lemma reads_deref p : reads_only (deref p).
Proof.
  intros s. destruct p as [a|l off]; simpl; [|by destruct (lit_char l off)].
  unfold load, io_read. destruct (in_ram a 1); [done|]. destruct (in_mmio a 1); [|done].
  by destruct (dev_read _ _ _).
Qed.

Lemma reads_comp_l n p1 p2 i : reads_only (string_comp_l_from n p1 p2 i).
Proof.
  revert i. induction n as [|n IH]; intros i; [apply reads_ret|]. cbn [string_comp_l_from].
  apply reads_bind; [apply reads_deref|]. intros c1. apply reads_bind; [apply reads_deref|]. intros c2.
  destruct (c2 <? c1); [apply reads_ret|]. destruct (c1 <? c2); [apply reads_ret|apply IH].
Qed.

Lemma callback_keeps_memory : keeps_memory dtb_callback.
Proof.
  intros p n. apply reads_bind; [apply reads_comp_l|]. intros c. destruct (c =? 0); [apply reads_ret|].
  apply reads_bind; [apply reads_comp_l|]. intros c'. destruct (c' =? 0); apply reads_ret.
Qed.

Lemma callback_cases s p v :
  chars_at s p v → v ≠ [] → length v < 2 ^ 31 →
  let uart := zlit "ns16550a" in
  let virtio := zlit "virtio,mmio" in
  (v `prefix_of` uart → dtb_callback p (length v) s = Ok 1 s) ∧
  (v `prefix_of` virtio → dtb_callback p (length v) s = Ok 2 s) ∧
  (¬ v `prefix_of` uart → ¬ v `prefix_of` virtio → ¬ uart `prefix_of` v → ¬ virtio `prefix_of` v →
   dtb_callback p (length v) s = Ok 0 s) ∧
  (uart `prefix_of` v ∨ virtio `prefix_of` v → v ≠ uart → v ≠ virtio →
   dtb_callback p (length v) s = Stop Undefined s).
Proof.
  intros Hv Hne Hlen uart virtio.
  destruct (comp_literal s p v "ns16550a" Hv Hlen) as (U1 & U2 & U3).
  destruct (comp_literal s p v "virtio,mmio" Hv Hlen) as (V1 & V2 & V3).
  fold uart in U1, U2, U3. fold virtio in V1, V2, V3.
  assert (∀ x, x `prefix_of` uart → x `prefix_of` virtio → x = []) as Hdiff.
  { intros [|c x] [k1 E1] [k2 E2]; [done|].
    apply (f_equal head) in E1, E2. vm_compute in E1, E2. congruence. }
  assert (¬ uart `prefix_of` virtio ∧ ¬ virtio `prefix_of` uart) as [Huv Hvu].
  { split; intros Hp; [apply (Hdiff uart) in Hp|apply (Hdiff virtio) in Hp]; done. }
  assert (∀ d, d ≠ 0 → string_comp_l p (lit "ns16550a") (i32 (length v)) s = Ok d s →
    dtb_callback p (length v) s =
    bind (string_comp_l p (lit "virtio,mmio") (i32 (length v)))
      (λ c, if c =? 0 then ret 2 else ret 0) s) as Hnext.
  { intros d Hd E. unfold dtb_callback, bind at 1. rewrite E. by rewrite (proj2 (Z.eqb_neq d 0)) by done. }
  split_and!.
  - intros Hp. unfold dtb_callback, bind. by rewrite U1.
  - intros Hp. destruct U2 as (d & Hd & E).
    + intros Hu. by apply Hne, Hdiff.
    + intros Hu. apply Huv. by etrans.
    + rewrite (Hnext d) by done. unfold bind. by rewrite V1.
  - intros H1 H2 H3 H4. destruct U2 as (d & Hd & E); [done|done|]. rewrite (Hnext d) by done.
    destruct V2 as (e & He & E'); [done|done|]. unfold bind. rewrite E'.
    by rewrite (proj2 (Z.eqb_neq e 0)) by done.
  - intros [Hp|Hp] H1 H2.
    + unfold dtb_callback, bind. by rewrite U3.
    + destruct U2 as (d & Hd & E).
      * intros Hu. apply Hvu. by etrans.
      * intros Hu. destruct (prefix_weak_total uart virtio v Hu Hp); done.
      * rewrite (Hnext d) by done. unfold bind. by rewrite V3.
Qed.

(** C32: the kernel's callback.  On a property value [v] it answers 1 exactly when
    [v] is a prefix of ["ns16550a"] with its terminator, 2 when it is one of
    ["virtio,mmio"], and 0 when it differs from both; so it accepts every
    shorter value that agrees so far, and on a value that goes on after one of
    the two strings (as in a list of compatible names) it reads past the end
    of a literal. *)
Theorem dtb_callback_cases s p v :
  chars_at s p v → v ≠ [] → length v < 2 ^ 31 →
  let uart := zlit "ns16550a" in
  let virtio := zlit "virtio,mmio" in
  (v `prefix_of` uart → dtb_callback p (length v) s = Ok 1 s) ∧
  (v `prefix_of` virtio → dtb_callback p (length v) s = Ok 2 s) ∧
  (¬ v `prefix_of` uart → ¬ v `prefix_of` virtio → ¬ uart `prefix_of` v → ¬ virtio `prefix_of` v →
   dtb_callback p (length v) s = Ok 0 s) ∧
  (uart `prefix_of` v ∨ virtio `prefix_of` v → v ≠ uart → v ≠ virtio →
   dtb_callback p (length v) s = Stop Undefined s).
Proof. apply callback_cases. Qed.
End callback.

(** ** Blobs the kernel gets through *)

Section blob.
Context `{Platform}.

(** The values on which the callback stays within its literals. *)
Definition benign (it : item) : Prop :=
  match it with
  | Property _ v => length v < 2 ^ 31 ∧
      ∀ str, str = "ns16550a" ∨ str = "virtio,mmio" → zlit str `prefix_of` v → v = zlit str
  | _ => True
  end.

Lemma callback_returns s p v :
  chars_at s p v → v ≠ [] → benign (Property 0 v) → ∃ c, dtb_callback p (length v) s = Ok c s.
Proof.
  intros Hv Hne [Hlen Hb]. destruct (callback_cases s p v Hv Hne Hlen) as (H1 & H2 & H3 & _).
  assert (∀ str, str = "ns16550a" ∨ str = "virtio,mmio" → ¬ v `prefix_of` zlit str → ¬ zlit str `prefix_of` v) as Hn.
  { intros str Hs Hno Hp. apply Hno. by rewrite <- (Hb str Hs Hp). }
  destruct (decide (v `prefix_of` zlit "ns16550a")) as [Hp|Hn1]; [eauto|].
  destruct (decide (v `prefix_of` zlit "virtio,mmio")) as [Hp|Hn2]; [eauto|].
  exists 0. apply H3; auto.
Qed.

(** A device tree blob at [dtb]: magic, offset and size of the structure block,
    and the block itself. *)
Record blob_at (r : gmap Z Z) (dtb off : Z) (items : list item) : Prop := {
  bl_magic : bytes_at r dtb (be32 FDT_MAGIC);
  bl_off : bytes_at r (dtb + 8) (be32 off);
  bl_off_range : 0 <= off < 2 ^ 32;
  bl_size : bytes_at r (dtb + 36) (be32 (length (encode (items ++ [End_]))));
  bl_size_range : length (encode (items ++ [End_])) < 2 ^ 32;
  bl_block : bytes_at r (dtb + off) (encode (items ++ [End_]));
  bl_aligned : (dtb + off) mod 4 = 0;
  bl_items : Forall (item_ok fuel) items;
  bl_count : length items + 1 < fuel;
}.

(** The bytes of a blob the traversal reads. *)
Definition blob_part (dtb off : Z) (items : list item) (x : Z) : Prop :=
  dtb <= x < dtb + 40 ∨ dtb + off <= x < dtb + off + length (encode (items ++ [End_])).

Lemma bytes_at_same (P : Z → Prop) r r' a bs :
  same_on P r r' → (∀ x, a <= x < a + length bs → P x) → bytes_at r a bs → bytes_at r' a bs.
Proof.
  intros Hs HP [Hr Hb]. split; [done|]. intros i b Hi. rewrite (Hs (a + i)); [by apply Hb|].
  apply HP. apply lookup_lt_Some in Hi. lia.
Qed.

Lemma blob_at_same (P : Z → Prop) r r' dtb off items :
  same_on P r r' → (∀ x, blob_part dtb off items x → P x) → blob_at r dtb off items → blob_at r' dtb off items.
Proof.
  intros Hs HP [? ? ? ? ? ? ? ? ?].
  split; try done; (eapply bytes_at_same; [exact Hs| |eassumption]); intros x Hx; apply HP; unfold blob_part;
    (by right) || (left; cbn [length be32] in Hx; lia).
Qed.

Lemma visit_returns items : ∀ a s,
  bytes_at (m_ram s) a (encode items) → Forall benign items → visit dtb_callback (calls a items) s = Ok tt s.
Proof.
  induction items as [|it items IH]; intros a s Hb Hf; [done|]. apply Forall_cons in Hf as [Hit Hf].
  rewrite encode_cons in Hb. apply bytes_at_app in Hb as [Hb1 Hb2]. specialize (IH _ _ Hb2 Hf).
  destruct it as [name| |nameoff v| |]; try exact IH. cbn [calls]. case_decide as Hv; [exact IH|]. cbn [app visit].
  assert (bytes_at (m_ram s) (a + 12) v) as Hbv.
  { cbn [enc_item] in Hb1. rewrite !app_assoc in Hb1. apply bytes_at_app in Hb1 as [Hb1 _].
    apply bytes_at_app in Hb1 as [_ Hb1]. by rewrite !length_app in Hb1. }
  destruct (callback_returns s (PMem (a + 12)) v) as [c E]; [by eapply bytes_chars|done|done|].
  unfold bind. by rewrite E.
Qed.

Lemma traverse_returns s dtb off items :
  blob_at (m_ram s) dtb off items → Forall benign items → fdt_traverse dtb dtb_callback s = Ok tt s.
Proof.
  intros [Hm Ho Hor Hsz Hszr Hb Ha Hi Hc] Hben.
  rewrite (traverse_calls dtb_callback dtb _ (m_ram s) off items s eq_refl Hm (conj Ho Hor) Hsz eq_refl Hszr Hb Ha Hi Hc
    callback_keeps_memory).
  apply visit_returns; [|done]. unfold encode in Hb. rewrite fmap_app, concat_app in Hb.
  by apply bytes_at_app in Hb as [Hb _].
Qed.
End blob.
