(* ===== verification/DtbTermination.v ===== *)
(** * The traversal ends on every input

    On any memory contents, well formed or not, the loops of dtb.c stop: every
    iteration reads at a larger address than the one before, and beyond the end
    of memory a read faults.  In the model this means that the bound [fuel] of
    its loops is never what ends them. *)

From S2P Require Import Prelude Globals Machine Utils Uart Dtb DtbSpec.

(** The readable addresses from [a] on. *)
Definition cells (a : Z) : Z :=
  Z.max 0 (MMIO_END - Z.max a MMIO_BASE) + Z.max 0 (RAM_END - Z.max a RAM_BASE).

Lemma cells_range a : 0 <= cells a <= 0x9000 + 2 ^ 27.
Proof. unfold cells, MMIO_BASE, MMIO_END, RAM_BASE, RAM_END. lia. Qed.

Lemma cells_mono a b : a <= b → cells b <= cells a.
Proof. unfold cells, MMIO_BASE, MMIO_END, RAM_BASE, RAM_END. lia. Qed.

Definition readable (a : Z) (n : nat) : bool := in_ram a n || in_mmio a n.

Lemma cells_next (n : nat) a b : readable a n = true → (0 < n)%nat → a < b → cells b < cells a.
Proof.
  unfold readable, in_ram, in_mmio, cells, MMIO_BASE, MMIO_END, RAM_BASE, RAM_END.
  rewrite orb_true_iff, !andb_true_iff, !Z.leb_le. lia.
Qed.

Section termination.
Context `{Platform}.

(** [m] does not end because the model stopped following a loop. *)
Definition ends {A} (m : M A) (s : machine) : Prop := ∀ s', m s ≠ Stop OutOfFuel s'.

Lemma ends_ret {A} (a : A) s : ends (ret a) s.
Proof. by intros s'. Qed.

Lemma ends_bind {A B} (m : M A) (k : A → M B) s :
  ends m s → (∀ a s', m s = Ok a s' → ends (k a) s') → ends (bind m k) s.
Proof.
  intros Hm Hk s'. unfold bind. specialize (Hm s'). destruct (m s) as [a t|e t] eqn:E.
  - by apply Hk.
  - congruence.
Qed.

Lemma load_cases (n : nat) a s :
  match load n a s with Ok v _ => 0 <= v ∧ readable a n = true | Stop e _ => e = Fault a end.
Proof.
  unfold load, io_read, readable. destruct (in_ram a n); [split; [apply ram_load_range|done]|].
  destruct (in_mmio a n); [|done]. destruct (dev_read _ _ _) as [v d]. split; [|done].
  apply Z.mod_pos_bound. lia.
Qed.

Lemma ends_load (n : nat) a s : ends (load n a) s.
Proof. intros s' E. pose proof (load_cases n a s) as Hc. rewrite E in Hc. done. Qed.

Lemma load_readable (n : nat) a s v s' : load n a s = Ok v s' → readable a n = true.
Proof. intros E. pose proof (load_cases n a s) as Hc. rewrite E in Hc. apply Hc. Qed.

Lemma ends_deref p s : ends (deref p) s.
Proof. destruct p; simpl; [apply ends_load|]. by destruct (lit_char l off). Qed.

(** A loop ends when a measure decreases whenever it continues. *)
Lemma ends_loop {A B} (I : A → Prop) (mu : A → Z) (n : nat) (body : A → M (A + B)) a s :
  0 <= mu a < n → I a →
  (∀ a s, I a → ends (body a) s ∧ ∀ a' s', body a s = Ok (inl a') s' → I a' ∧ 0 <= mu a' < mu a) →
  ends (loop n body a) s.
Proof.
  revert a s. induction n as [|n IH]; intros a s Hmu HI Hb; [lia|]. simpl.
  destruct (Hb a s HI) as [He Hd]. apply ends_bind; [done|]. intros [a'|b] s' E; [|apply ends_ret].
  destruct (Hd a' s' E) as [HI' Hlt]. apply IH; [lia|done|done].
Qed.

(** ... and what it returns satisfies a property of every exit. *)
Lemma loop_result {A B} (I : A → Prop) (P : B → Prop) (n : nat) (body : A → M (A + B)) a s v s' :
  I a → (∀ a s r s', I a → body a s = Ok r s' → match r with inl a' => I a' | inr b => P b end) →
  loop n body a s = Ok v s' → P v.
Proof.
  revert a s. induction n as [|n IH]; intros a s HI Hb E; [done|]. simpl in E. unfold bind in E.
  destruct (body a s) as [[a'|b] t|] eqn:Eb; [| |done].
  - eapply IH; [exact (Hb _ _ _ _ HI Eb)|done|exact E].
  - unfold ret in E. simplify_eq. exact (Hb _ _ _ _ HI Eb).
Qed.

Context (Hfuel : 0x9000 + 2 ^ 27 < fuel).

Lemma ends_string_len a s : ends (string_len (PMem a)) s.
Proof.
  unfold string_len. apply (ends_loop (λ _, True) (λ i, cells (a + i))); [pose proof (cells_range (a + 0)); lia|done|].
  intros i t _. split.
  - apply ends_bind; [apply ends_deref|]. intros c t' _. by destruct (_ || _).
  - intros i' t' E. unfold bind in E. cbn [deref cadd] in E. destruct (load 1 (a + i) t) as [c u|] eqn:El; [|done].
    destruct (_ || _); unfold ret in E; simplify_eq. split; [done|].
    split; [apply cells_range|]. eapply cells_next; [by eapply load_readable|lia|lia].
Qed.

Lemma string_len_nonneg p s v s' : string_len p s = Ok v s' → 0 <= v.
Proof.
  unfold string_len. apply (loop_result (λ i, 0 <= i) (λ v, 0 <= v)); [done|].
  intros i t r t' Hi E. unfold bind in E. destruct (deref _ t); [|done].
  destruct (_ || _); unfold ret in E; simplify_eq; lia.
Qed.

Definition is_mem (p : cptr) : Prop := match p with PMem _ => True | _ => False end.
Definition cells_from (p : cptr) : Z := match p with PMem a => cells a | _ => 0 end.

Lemma cells_from_range p : 0 <= cells_from p <= 0x9000 + 2 ^ 27.
Proof. destruct p; simpl; [apply cells_range|lia]. Qed.

(** Reading at a pointer and moving on leaves less to read. *)
Lemma deref_next a s c s' b : deref (PMem a) s = Ok c s' → a < b → 0 <= cells b < cells a.
Proof.
  intros E Hb. split; [apply cells_range|]. eapply cells_next; [by eapply (load_readable 1)|lia|done].
Qed.

Lemma ends_skip_to_at p s : is_mem p → ends (skip_to_at p) s.
Proof.
  intros Hp. unfold skip_to_at. apply (ends_loop is_mem cells_from); [pose proof (cells_from_range p); lia|done|].
  intros q t Hq. destruct q as [a|]; [|done]. split.
  - apply ends_bind; [apply ends_deref|]. intros c t' _. by destruct (_ && _).
  - intros q' t' E. unfold bind in E. destruct (deref _ t) eqn:Ed; [|done].
    destruct (_ && _); unfold ret in E; simplify_eq. split; [done|]. eapply deref_next; [exact Ed|]. lia.
Qed.

Lemma skip_to_at_mem p s q s' : is_mem p → skip_to_at p s = Ok q s' → is_mem q.
Proof.
  intros Hp. unfold skip_to_at. apply (loop_result is_mem is_mem); [done|].
  intros r t x t' Hr E. destruct r as [a|]; [|done]. unfold bind in E. destruct (deref _ t); [|done].
  destruct (_ && _); unfold ret in E; by simplify_eq.
Qed.

Lemma unit_digit_next p i acc s r s' :
  unit_digit p (i, acc) s = Ok r s' → match r with inl (i', _) => i' = i + 1 | inr _ => True end.
Proof.
  unfold unit_digit, bind. destruct (deref _ s) as [c t|]; [|done].
  repeat case_match; unfold ret; intros; simplify_eq; done.
Qed.

Lemma ends_parse_name a s : ends (parse_dtb_unit_name (PMem a)) s.
Proof.
  unfold parse_dtb_unit_name. apply ends_bind; [by apply ends_skip_to_at|]. intros q t Eq.
  apply skip_to_at_mem in Eq; [|done]. destruct q as [b|]; [|done].
  apply (ends_loop (λ _, True) (λ '(i, _), cells (b + 1 + i))); [pose proof (cells_range (b + 1 + 0)); lia|done|].
  intros [i acc] u _. split.
  - unfold unit_digit. apply ends_bind; [apply ends_deref|]. intros c u' _. repeat case_match; apply ends_ret.
  - intros [i' acc'] u' E. split; [done|]. pose proof (unit_digit_next _ _ _ _ _ _ E) as ->.
    unfold unit_digit, bind in E. destruct (deref _ u) eqn:Ed; [|done].
    eapply deref_next; [exact Ed|]. lia.
Qed.

Lemma ends_align_ptr a s : ends (align_ptr a) s.
Proof. unfold align_ptr, align_mem_offset. apply ends_bind; [apply ends_ret|]. intros. apply ends_ret. Qed.

Lemma align_ptr_ge a s b s' : align_ptr a s = Ok b s' → a <= b.
Proof.
  unfold align_ptr, align_mem_offset, bind, ret. cbn [Z.eqb]. intros [= <- _].
  unfold align_pad. rewrite i32_small by dlia. dlia.
Qed.

Section step.
Context (cb : cptr → Z → M Z) (Hcb : ∀ p n s, ends (cb p n) s) (fdt size : Z).

Lemma ends_fdt_step a s : ends (fdt_step cb fdt size a) s.
Proof.
  unfold fdt_step. apply ends_bind; [apply ends_load|]. intros off t _.
  destruct (negb _); [apply ends_ret|]. apply ends_bind; [apply ends_load|]. intros token u _. cbv zeta.
  destruct (_ =? FDT_NOP); [apply ends_ret|]. destruct (_ =? FDT_BEGIN_NODE).
  { apply ends_bind; [by apply ends_string_len|]. intros n v _.
    apply ends_bind; [by apply ends_parse_name|]. intros x w _.
    apply ends_bind; [apply ends_align_ptr|]. intros. apply ends_ret. }
  destruct (_ =? FDT_PROP).
  { apply ends_bind; [apply ends_load|]. intros len v _. destruct (0 <? _).
    - apply ends_bind; [apply Hcb|]. intros x w _. apply ends_bind; [apply ends_align_ptr|]. intros. apply ends_ret.
    - apply ends_bind; [apply ends_align_ptr|]. intros. apply ends_ret. }
  by repeat case_match; apply ends_ret.
Qed.

(** Every iteration that continues moves on by at least a token. *)
Lemma fdt_step_advances a s b s' :
  fdt_step cb fdt size a s = Ok (inl b) s' → readable a 4 = true ∧ a + 4 <= b.
Proof.
  unfold fdt_step. unfold bind at 1. destruct (load 4 (fdt_off_dt_struct fdt) s) as [off t|]; [|done].
  destruct (negb _); [done|]. unfold bind at 1. destruct (load 4 a t) as [token u|] eqn:El; [|done].
  intros E. split; [by eapply load_readable|]. cbv zeta in E. revert E.
  destruct (_ =? FDT_NOP); [intros E; unfold ret in E; simplify_eq; lia|]. destruct (_ =? FDT_BEGIN_NODE).
  { unfold bind. destruct (string_len _ u) as [n v|] eqn:En; [|done]. apply string_len_nonneg in En.
    destruct (parse_dtb_unit_name _ v) as [x w|]; [|done].
    destruct (align_ptr _ w) as [q z|] eqn:Ea; [|done]. apply align_ptr_ge in Ea.
    intros E; unfold ret in E; simplify_eq; lia. }
  destruct (_ =? FDT_PROP).
  { unfold bind. destruct (load 4 _ u) as [len v|]; [|done]. destruct (Z.ltb_spec 0 (BE2LE len)).
    - destruct (cb _ _ v) as [x w|]; [|done]. destruct (align_ptr _ w) as [q z|] eqn:Ea; [|done].
      apply align_ptr_ge in Ea. intros E; unfold ret in E; simplify_eq; lia.
    - destruct (align_ptr _ v) as [q z|] eqn:Ea; [|done].
      apply align_ptr_ge in Ea. intros E; unfold ret in E; simplify_eq; lia. }
  destruct (_ =? FDT_END_NODE); [intros E; unfold ret in E; simplify_eq; lia|].
  destruct (_ =? FDT_END); [intros E; unfold ret in E; simplify_eq; lia|done].
Qed.
End step.

Lemma ends_traverse cb dtb s : (∀ p n s, ends (cb p n) s) → ends (fdt_traverse dtb cb) s.
Proof.
  intros Hcb. unfold fdt_traverse. apply ends_bind; [apply ends_load|]. intros magic t _.
  destruct (negb _); [apply ends_ret|]. apply ends_bind; [apply ends_load|]. intros sz u _.
  apply ends_bind; [apply ends_load|]. intros off v _.
  apply (ends_loop (λ _, True) cells); [pose proof (cells_range (dtb + BE2LE off)); lia|done|].
  intros a w _. split; [by apply ends_fdt_step|]. intros b w' E. split; [done|].
  destruct (fdt_step_advances _ _ _ _ _ _ _ E) as [Hr Hb]. split; [apply cells_range|].
  eapply cells_next; [exact Hr|lia|lia].
Qed.

Lemma ends_comp_l (n : nat) p q i s : ends (string_comp_l_from n p q i) s.
Proof.
  revert i s. induction n as [|n IH]; intros i s; simpl; [apply ends_ret|].
  apply ends_bind; [apply ends_deref|]. intros c t _. apply ends_bind; [apply ends_deref|]. intros d u _.
  repeat case_match; [apply ends_ret..|apply IH].
Qed.

Lemma ends_callback p n s : ends (dtb_callback p n) s.
Proof.
  unfold dtb_callback. apply ends_bind; [apply ends_comp_l|]. intros c t _.
  destruct (c =? 0); [apply ends_ret|]. apply ends_bind; [apply ends_comp_l|]. intros d u _.
  destruct (d =? 0); apply ends_ret.
Qed.

(** C22: termination.  Whatever is at the address the boot code passed, the
    traversal the kernel starts comes to an end: it returns, faults or leaves
    defined behaviour, but with a bound above the number of readable addresses
    none of its loops is cut off. *)
Theorem fdt_traverse_ends dtb s : ends (fdt_traverse dtb dtb_callback) s.
Proof. apply ends_traverse. intros. apply ends_callback. Qed.
End termination.
