(* ===== verification/Process.v ===== *)
(** * process.c: the process table

    [procs], [current_process] and [sched_context] are the record [sched_vars]
    of the machine; a [struct process *] is an index into [procs].  [swtch]
    ends the function that calls it with [Stop (Switch old new)]; Sched.v says
    what happens to registers and control then, and Swtch.v that the instructions
    of process.S do just that. *)

From S2P Require Import Prelude Globals Machine Utils Uart Heap HeapSpec.

Definition NPROC : nat := 16.
Definition STACK_SIZE : Z := 4096.

(** Addresses of functions, chosen by the linker. *)
Class Code := {
  forkret : Z;
  trap_vector : Z;
}.

(** [mem_set(&context, 0, sizeof(struct context))] *)
Definition ctx_zero : context := Context_ 0 0 0 0 0 0 0 0 0 0 0 0 0 0.
Definition with_ra (v : Z) (c : context) : context :=
  Context_ v (c_sp c) (c_s0 c) (c_s1 c) (c_s2 c) (c_s3 c) (c_s4 c) (c_s5 c)
    (c_s6 c) (c_s7 c) (c_s8 c) (c_s9 c) (c_s10 c) (c_s11 c).
Definition with_sp (v : Z) (c : context) : context :=
  Context_ (c_ra c) v (c_s0 c) (c_s1 c) (c_s2 c) (c_s3 c) (c_s4 c) (c_s5 c)
    (c_s6 c) (c_s7 c) (c_s8 c) (c_s9 c) (c_s10 c) (c_s11 c).

(** Assignments to fields of a process. *)
Definition set_pid (v : Z) (p : process) : process :=
  Process v (p_state p) (p_stack p) (p_context p) (p_entry p) (p_name p).
Definition set_state (v : proc_state) (p : process) : process :=
  Process (p_pid p) v (p_stack p) (p_context p) (p_entry p) (p_name p).
Definition set_stack (v : Z) (p : process) : process :=
  Process (p_pid p) (p_state p) v (p_context p) (p_entry p) (p_name p).
Definition set_context (v : context) (p : process) : process :=
  Process (p_pid p) (p_state p) (p_stack p) v (p_entry p) (p_name p).
Definition set_entry (v : Z) (p : process) : process :=
  Process (p_pid p) (p_state p) (p_stack p) (p_context p) v (p_name p).
Definition set_name (i : nat) (c : Z) (p : process) : process :=
  Process (p_pid p) (p_state p) (p_stack p) (p_context p) (p_entry p) (<[i := c]> (p_name p)).

Definition with_procs (l : list process) (v : sched_vars) : sched_vars :=
  SchedVars l (current_process v) (sched_context v).
Definition with_current (c : option nat) (v : sched_vars) : sched_vars :=
  SchedVars (procs v) c (sched_context v).
Definition with_sched_context (c : context) (v : sched_vars) : sched_vars :=
  SchedVars (procs v) (current_process v) c.

(** The first slot that is [PROC_UNUSED]. *)
Fixpoint find_unused (l : list process) : option nat :=
  match l with
  | [] => None
  | p :: l' => if decide (p_state p = PROC_UNUSED) then Some O else S <$> find_unused l'
  end.

Section process.
Context `{Platform}.

Definition upd_sched (f : sched_vars → sched_vars) : M unit :=
  modify (λ s, set_sched (f (m_sched s)) s).

(** [procs[i].field = ...]; an index outside the array has no defined
    behaviour. *)
Definition upd_proc (i : nat) (f : process → process) : M unit :=
  l <- get (λ s, procs (m_sched s));
  if decide (i < length l)%nat then upd_sched (with_procs (alter f i l)) else halt Undefined.

Definition get_proc (i : nat) : M process :=
  l <- get (λ s, procs (m_sched s));
  match l !! i with Some p => ret p | None => halt Undefined end.

Definition proc_init : M unit :=
  for_from 0 NPROC (λ i,
    upd_proc (Z.to_nat i) (set_pid 0) ;;
    upd_proc (Z.to_nat i) (set_state PROC_UNUSED) ;;
    upd_proc (Z.to_nat i) (set_stack 0) ;;
    upd_proc (Z.to_nat i) (set_entry 0) ;;
    upd_proc (Z.to_nat i) (set_name 0 0) ;;
    upd_proc (Z.to_nat i) (set_context ctx_zero)) ;;
  upd_sched (with_current None) ;;
  upd_sched (with_sched_context ctx_zero).

(** [while (name[len] != '\0' && len < 15) { p->name[len] = name[len]; len++; }] *)
Definition copy_name (i : nat) (name : cptr) : M nat :=
  loop fuel (λ len : nat,
    c <- deref (cadd name len);
    if negb (c =? 0) && (len <? 15) then
      upd_proc i (set_name len c) ;; ret (inl (S len))
    else ret (inr len)) O.

(** [name] is [None] for [NULL]. *)
Definition proc_create `{Code} (entry : Z) (name : option cptr) : M (option nat) :=
  l <- get (λ s, procs (m_sched s));
  match find_unused l with
  | None => uart_puts (lit ("proc_create: no free process slots." +:+ nl)) ;; ret None
  | Some i =>
      stack <- mem_alloc STACK_SIZE;
      if stack =? 0 then
        uart_puts (lit ("proc_create: failed to allocate stack." +:+ nl)) ;; ret None
      else
        upd_proc i (set_pid (i + 1)) ;;
        upd_proc i (set_state PROC_RUNNABLE) ;;
        upd_proc i (set_stack stack) ;;
        upd_proc i (set_entry entry) ;;
        len <- match name with Some name => copy_name i name | None => ret O end;
        upd_proc i (set_name len 0) ;;
        upd_proc i (set_context ctx_zero) ;;
        upd_proc i (λ p, set_context (with_sp (u64 (stack + STACK_SIZE)) (p_context p)) p) ;;
        upd_proc i (λ p, set_context (with_ra forkret (p_context p)) p) ;;
        ret (Some i)
  end.

Definition swtch {A} (old new : ctx_ref) : M A := halt (Switch old new).

(** [yield] up to its assignment to [current_process]: [None] when there is no
    current process. *)
Definition yield_mark : M (option nat) :=
  c <- get (λ s, current_process (m_sched s));
  match c with
  | None => ret None
  | Some i =>
      p <- get_proc i;
      when bool_decide (p_state p = PROC_RUNNING) then upd_proc i (set_state PROC_RUNNABLE) end ;;
      ret (Some i)
  end.

Definition yield : M unit :=
  c <- yield_mark;
  match c with
  | None => ret tt
  | Some i => upd_sched (with_current None) ;; swtch (ProcCtx i) SchedCtx
  end.

(** What [forkret] does before and after it calls the entry function of the
    process; [None]: there is no function to call. *)
Definition forkret_entry : M (option Z) :=
  c <- get (λ s, current_process (m_sched s));
  match c with
  | None => ret None
  | Some i => p <- get_proc i; ret (if p_entry p =? 0 then None else Some (p_entry p))
  end.

(** [p->name] as a string: the characters of the array before its first NUL;
    without one, reading it runs past the array. *)
Definition name_str (p : process) : M cptr :=
  match list_find (.= 0) (p_name p) with
  | Some (n, _) => ret (PLit (take n (p_name p)) 0)
  | None => halt Undefined
  end.

(** [forkret] from the return of the entry function to its call of [yield]. *)
Definition forkret_farewell : M unit :=
  c <- get (λ s, current_process (m_sched s));
  match c with
  | None => ret tt
  | Some i =>
      uart_puts (lit "Process '") ;;
      p <- get_proc i;
      name <- name_str p;
      uart_puts name ;;
      uart_puts (lit ("' finished execution. Exiting..." +:+ nl)) ;;
      upd_proc i (set_state PROC_ZOMBIE)
  end.

Definition forkret_exit : M unit := forkret_farewell ;; yield ;; halt Spin.
End process.

(** ** The process table *)

Section table.
Context `{Platform}.
Implicit Types (s : machine) (p : process) (i : nat).

(** [s] with another process in slot [i]. *)
Definition set_proc i p s : machine :=
  set_sched (with_procs (<[i := p]> (procs (m_sched s))) (m_sched s)) s.

Definition slot s i : option process := procs (m_sched s) !! i.

Lemma slot_set_proc i p s : is_Some (slot s i) → slot (set_proc i p s) i = Some p.
Proof. intros Hi%lookup_lt_is_Some. by apply list_lookup_insert_eq. Qed.

Lemma set_proc_twice i p p' s : set_proc i p' (set_proc i p s) = set_proc i p' s.
Proof. unfold set_proc. simpl. by rewrite list_insert_insert_eq. Qed.

Lemma set_proc_id i p s : slot s i = Some p → set_proc i p s = s.
Proof. intros Hp. unfold set_proc. rewrite list_insert_id by done. by destruct s as [? ? ? ? ? ? []]. Qed.

Lemma wp_upd_proc s i p f (Q : unit → machine → Prop) :
  slot s i = Some p → Q tt (set_proc i (f p) s) → wp (upd_proc i f) s Q.
Proof.
  intros Hp HQ. unfold upd_proc. apply wp_bind, wp_get. unfold slot in Hp.
  rewrite decide_True by (by eapply lookup_lt_Some). apply wp_modify.
  unfold set_proc in HQ. by rewrite (alter_lookup f _ _ p) by done.
Qed.

Lemma wp_get_proc s i p (Q : process → machine → Prop) :
  slot s i = Some p → Q p s → wp (get_proc i) s Q.
Proof. unfold slot. intros Hp HQ. apply wp_bind, wp_get. rewrite Hp. by apply wp_ret. Qed.

(** A second assignment to the same slot. *)
Lemma wp_upd_again s i p q f (Q : unit → machine → Prop) :
  slot s i = Some p → Q tt (set_proc i (f q) s) → wp (upd_proc i f) (set_proc i q s) Q.
Proof.
  intros Hp HQ. eapply wp_upd_proc; [apply slot_set_proc; by rewrite Hp|].
  by rewrite set_proc_twice.
Qed.

(** What [proc_init] makes of a slot. *)
Definition reset_proc p : process :=
  Process 0 PROC_UNUSED 0 ctx_zero 0 (<[0%nat := 0]> (p_name p)).

Lemma wp_reset s i p (Q : unit → machine → Prop) :
  slot s i = Some p → Q tt (set_proc i (reset_proc p) s) →
  wp (upd_proc i (set_pid 0) ;; upd_proc i (set_state PROC_UNUSED) ;;
      upd_proc i (set_stack 0) ;; upd_proc i (set_entry 0) ;;
      upd_proc i (set_name 0 0) ;; upd_proc i (set_context ctx_zero)) s Q.
Proof.
  intros Hp HQ. apply wp_bind. eapply wp_upd_proc; [done|].
  do 4 (apply wp_bind; eapply wp_upd_again; [done|]). eapply wp_upd_again; [done|]. done.
Qed.

Lemma proc_init_ok s :
  length (procs (m_sched s)) = NPROC →
  wp proc_init s (λ _ s', s' = set_sched (SchedVars (reset_proc <$> procs (m_sched s)) None ctx_zero) s).
Proof.
  intros Hlen. unfold proc_init. apply wp_bind.
  set (l := procs (m_sched s)) in *.
  eapply (wp_for (λ (j : Z) s', ∃ k : nat, j = k ∧
    s' = set_sched (with_procs ((reset_proc <$> take k l) ++ drop k l) (m_sched s)) s)).
  - exists 0%nat. split; [done|]. destruct s as [? ? ? ? ? ? []]. done.
  - intros i s' Hi (k & -> & ->). rewrite Nat2Z.id.
    destruct (lookup_lt_is_Some_2 l k) as [p Hp]; [lia|].
    eapply wp_reset.
    { unfold slot. simpl. rewrite lookup_app_r; rewrite length_fmap, length_take; [|lia].
      rewrite lookup_drop. by replace (k + (k - k `min` length l))%nat with k by lia. }
    exists (S k). split; [lia|].
    assert (<[k := reset_proc p]> ((reset_proc <$> take k l) ++ drop k l) =
      (reset_proc <$> take (S k) l) ++ drop (S k) l) as E; [|unfold set_proc; simpl; by rewrite E].
    rewrite insert_app_r_alt; rewrite length_fmap, length_take; [|lia].
    replace (k - k `min` length l)%nat with 0%nat by lia.
    by rewrite (drop_S _ _ _ Hp), (take_S_r _ _ _ Hp), fmap_app, <- app_assoc.
  - intros s' (k & Hk & ->). assert (k = length l) as -> by lia.
    rewrite firstn_all, drop_all, app_nil_r.
    apply wp_bind, wp_modify, wp_modify. done.
Qed.

(** The name array after the characters [cs] were stored in front. *)
Definition write_name (cs : list Z) p : process :=
  Process (p_pid p) (p_state p) (p_stack p) (p_context p) (p_entry p)
    (cs ++ drop (length cs) (p_name p)).

Lemma set_name_snoc (k : nat) c cs p :
  length cs = k → (k < length (p_name p))%nat → set_name k c (write_name cs p) = write_name (cs ++ [c]) p.
Proof.
  intros <- Hk. unfold set_name, write_name. simpl. f_equal.
  destruct (lookup_lt_is_Some_2 (p_name p) (length cs)) as [d Hd]; [done|].
  rewrite insert_app_r_alt, Nat.sub_diag, (drop_S _ _ _ Hd), length_app by done. simpl.
  by rewrite <- app_assoc, Nat.add_comm.
Qed.

Lemma write_name_nil p : write_name [] p = p.
Proof. by destruct p. Qed.

Lemma cstr_at_set_proc s i p name l : cstr_at s name l → cstr_at (set_proc i p s) name l.
Proof. by destruct name. Qed.

Lemma wp_copy_name s i p q name l (Q : nat → machine → Prop) :
  slot s i = Some p → cstr_at s name l → length (p_name q) = 16%nat →
  Q (length (take 15 l)) (set_proc i (write_name (take 15 l) q) s) →
  wp (copy_name i name) (set_proc i q s) Q.
Proof.
  intros Hp (Hc & Hf & Ht) Hn HQ. pose proof fuel_min as Hfm. unfold copy_name.
  eapply (wp_loop (λ len s', (len <= 15)%nat ∧ (len <= length l)%nat ∧
    s' = set_proc i (write_name (take len l) q) s) (λ len _, 16 - len)%nat); [lia| |].
  { rewrite take_0, write_name_nil. split_and!; [lia|lia|done]. }
  intros len s' (H15 & Hll & ->). apply wp_bind.
  destruct (decide (len = length l)) as [->|Hne].
  - eapply wp_deref; [by destruct name|]. apply wp_ret. rewrite firstn_all.
    by rewrite (take_ge l) in HQ by lia.
  - destruct (lookup_lt_is_Some_2 l len) as [c Hlc]; [lia|].
    eapply wp_deref; [specialize (Hc len c Hlc); by destruct name|].
    rewrite Forall_lookup in Hf. destruct (Hf len c Hlc) as [Hc0 _].
    rewrite (proj2 (Z.eqb_neq c 0)) by lia. simpl. destruct (Z.ltb_spec len 15).
    + apply wp_bind. eapply wp_upd_again; [done|]. apply wp_ret.
      rewrite set_name_snoc by (rewrite ?length_take; lia).
      split; [split_and!; [lia|lia|]|lia]. by rewrite (take_S_r _ _ _ Hlc).
    + apply wp_ret. assert (len = 15%nat) as -> by lia.
      by rewrite length_take, Nat.min_l in HQ by lia.
Qed.

Section create.
Context `{Code} {TX : UartTx}.

(** The process [proc_create] makes in slot [i]. *)
Definition new_proc i (stack entry : Z) (name : list Z) (old : process) : process :=
  Process (i + 1) PROC_RUNNABLE stack (with_ra forkret (with_sp (stack + STACK_SIZE) ctx_zero)) entry
    (name ++ 0 :: drop (S (length name)) (p_name old)).

Lemma find_unused_lookup (l : list process) i :
  find_unused l = Some i → ∃ p, l !! i = Some p ∧ p_state p = PROC_UNUSED.
Proof.
  revert i. induction l as [|p l IH]; intros i; simpl; [done|]. case_decide; intros; simplify_eq.
  - eauto.
  - destruct (find_unused l) as [j|]; simplify_eq/=. by apply IH.
Qed.

(** The string a [const char *name] denotes; NULL denotes the empty one. *)
Definition name_at s (name : option cptr) (l : list Z) : Prop :=
  match name with Some ptr => cstr_at s ptr l | None => l = [] end.

Lemma wp_fill_slot s i p stack entry name l :
  slot s i = Some p → length (p_name p) = 16%nat → name_at s name l → 0 <= stack < 2 ^ 32 →
  wp (upd_proc i (set_pid (i + 1)) ;;
      upd_proc i (set_state PROC_RUNNABLE) ;;
      upd_proc i (set_stack stack) ;;
      upd_proc i (set_entry entry) ;;
      len <- match name with Some name => copy_name i name | None => ret O end;
      upd_proc i (set_name len 0) ;;
      upd_proc i (set_context ctx_zero) ;;
      upd_proc i (λ p, set_context (with_sp (u64 (stack + STACK_SIZE)) (p_context p)) p) ;;
      upd_proc i (λ p, set_context (with_ra forkret (p_context p)) p) ;;
      ret (Some i)) s
    (λ r s', r = Some i ∧ s' = set_proc i (new_proc i stack entry (take 15 l) p) s).
Proof.
  intros Hp Hn Hname Hst. apply wp_bind. eapply wp_upd_proc; [done|].
  do 3 (apply wp_bind; eapply wp_upd_again; [done|]). set (q := set_entry _ _).
  assert (length (p_name q) = 16%nat) as Hq by done.
  apply wp_bind. eapply (wp_mono _ _ (λ len s', len = length (take 15 l) ∧
    s' = set_proc i (write_name (take 15 l) q) s)).
  { destruct name as [name|]; [by eapply wp_copy_name|]. simpl in Hname. subst l.
    apply wp_ret. by rewrite take_nil, write_name_nil. }
  intros len s' [-> ->].
  do 4 (apply wp_bind; eapply wp_upd_again; [done|]). apply wp_ret. split; [done|]. f_equal.
  rewrite set_name_snoc; [|done|rewrite length_take; lia].
  unfold q, new_proc, write_name, set_context. simpl. unfold STACK_SIZE. rewrite u64_small by lia. f_equal.
  by rewrite length_app, <- app_assoc, Nat.add_comm.
Qed.

(** The name array holds a terminated string. *)
Definition name_ok p : Prop :=
  length (p_name p) = 16%nat ∧ 0 ∈ p_name p ∧ Forall (λ c, 0 <= c < 2 ^ 8) (p_name p).

(** A process table the code can work on: all slots present, names terminated
    within their array, and the pid of a used slot is its index plus one. *)
Record sched_wf (v : sched_vars) : Prop := {
  wf_length : length (procs v) = NPROC;
  wf_name : ∀ i p, procs v !! i = Some p → name_ok p;
  wf_pid : ∀ i p, procs v !! i = Some p → p_state p ≠ PROC_UNUSED → p_pid p = i + 1;
}.

Lemma sched_wf_insert v i p :
  sched_wf v → name_ok p → (p_state p ≠ PROC_UNUSED → p_pid p = i + 1) →
  sched_wf (with_procs (<[i := p]> (procs v)) v).
Proof.
  intros [Hl Hn Hp] Hn' Hp'. split; simpl.
  - by rewrite length_insert.
  - intros j q [[-> [-> _]]|[_ ?]]%list_lookup_insert_Some; eauto.
  - intros j q [[-> [-> _]]|[_ ?]]%list_lookup_insert_Some; eauto.
Qed.

Lemma new_proc_name i stack entry l old :
  name_ok old → Forall (λ c, 0 < c < 2 ^ 8) l → name_ok (new_proc i stack entry (take 15 l) old).
Proof.
  intros (Hn & _ & Hb) Hl. unfold name_ok, new_proc. cbn [p_name]. split_and!.
  - rewrite length_app. cbn [length]. rewrite length_drop, Hn, length_take. lia.
  - set_solver.
  - apply Forall_app. split; [|constructor; [lia|by apply Forall_drop]].
    eapply Forall_impl; [by apply Forall_take|]. simpl. lia.
Qed.

Lemma name_at_chars s name l : name_at s name l → Forall (λ c, 0 < c < 2 ^ 8) l.
Proof. destruct name; simpl; [by intros (_ & ? & _)|]. intros ->. constructor. Qed.

Lemma wp_proc_create s L entry name l :
  sched_wf (m_sched s) → heap_inv s L → name_at s name l →
  wp (proc_create entry name) s (λ r s', sched_wf (m_sched s') ∧
    match find_unused (procs (m_sched s)), L with
    | None, _ => r = None ∧ prints s s' (chars ("proc_create: no free process slots." +:+ nl))
    | _, [] => r = None ∧ prints s s' (chars ("proc_create: failed to allocate stack." +:+ nl))
    | Some i, stack :: L' => r = Some i ∧ heap_inv s' L' ∧ ∃ old fl,
        slot s i = Some old ∧ p_state old = PROC_UNUSED ∧
        s' = set_proc i (new_proc i stack entry (take 15 l) old)
               (set_heap (with_count (length L') (with_free_list fl (m_heap s))) s)
    end).
Proof.
  intros Hwf HI Hname. unfold proc_create. apply wp_bind, wp_get.
  destruct (find_unused _) as [i|] eqn:E.
  2: { apply wp_bind, wp_puts_lit; [done|]. intros s' Hp. apply wp_ret.
       by rewrite (prints_sched _ _ _ Hp). }
  apply find_unused_lookup in E as (old & Hold & Hst). apply wp_bind.
  destruct L as [|stack L].
  - eapply wp_mono; [apply wp_mem_alloc; [done|unfold STACK_SIZE; lia]|].
    intros a s' Ha. unfold alloc_post in Ha. rewrite alloc_spec_none in Ha by done.
    destruct Ha as [-> ->]. apply wp_bind, wp_puts_lit; [done|]. intros s' Hp. apply wp_ret.
    by rewrite (prints_sched _ _ _ Hp).
  - assert (heap_page (m_heap s) stack) as (_ & ? & ?)
      by (by eapply Forall_inv, hi_pages).
    destruct (hi_bounds _ _ HI) as (? & ? & _). unfold RAM_BASE, RAM_END in *.
    eapply wp_mem_alloc_1; [done|unfold STACK_SIZE; lia|done|]. intros fl s1 HI1.
    rewrite (proj2 (Z.eqb_neq stack 0)) by lia.
    eapply wp_mono; [apply (wp_fill_slot s1 i old stack entry name l); [done| |by destruct name as [[]|]|]|].
    + by eapply (wf_name _ Hwf).
    + rewrite PAGE_SIZE_eq in *. lia.
    + intros r s' [-> ->]. split_and!; [|done|by eapply heap_inv_ext; [| |exact HI1]|].
      * apply sched_wf_insert; [done|apply new_proc_name; [by eapply wf_name|by eapply name_at_chars]|done].
      * exists old, fl. done.
Qed.

(** C28: [proc_create] on every branch.  With a full table, or without a free
    page for the stack, it prints a message and returns NULL, and nothing else
    changes.  Otherwise it takes the first unused slot and the first free page:
    the process is runnable, its pid is the index of the slot plus one, it will
    start in [forkret] with its stack pointer at the top of its page, and its
    name is the first 15 characters of the argument, always terminated; no other
    slot changes and the table stays well formed. *)
Theorem proc_create_cases s L entry name l :
  sched_wf (m_sched s) → heap_inv s L → name_at s name l →
  wp (proc_create entry name) s (λ r s', sched_wf (m_sched s') ∧
    match find_unused (procs (m_sched s)), L with
    | None, _ => r = None ∧ prints s s' (chars ("proc_create: no free process slots." +:+ nl))
    | _, [] => r = None ∧ prints s s' (chars ("proc_create: failed to allocate stack." +:+ nl))
    | Some i, stack :: L' => r = Some i ∧ heap_inv s' L' ∧ ∃ old fl,
        slot s i = Some old ∧ p_state old = PROC_UNUSED ∧
        s' = set_proc i (new_proc i stack entry (take 15 l) old)
               (set_heap (with_count (length L') (with_free_list fl (m_heap s))) s)
    end).
Proof. apply wp_proc_create. Qed.
End create.

Lemma wp_proc_init s :
  length (procs (m_sched s)) = NPROC →
  (∀ p, p ∈ procs (m_sched s) → length (p_name p) = 16%nat ∧ Forall (λ c, 0 <= c < 2 ^ 8) (p_name p)) →
  wp proc_init s (λ _ s', sched_wf (m_sched s') ∧
    s' = set_sched (SchedVars (reset_proc <$> procs (m_sched s)) None ctx_zero) s).
Proof.
  intros Hl Hn. eapply wp_mono; [by apply proc_init_ok|]. intros [] s' ->. split; [|done]. split; simpl.
  - by rewrite length_fmap.
  - intros i p (q & -> & Hq)%list_lookup_fmap_Some. unfold name_ok. simpl.
    destruct (Hn q) as [H16 Hb]; [by eapply list_elem_of_lookup_2|]. split_and!.
    + by rewrite length_insert.
    + apply (list_elem_of_lookup_2 _ 0%nat). apply list_lookup_insert_eq. lia.
    + by apply Forall_insert.
  - by intros i p (q & -> & Hq)%list_lookup_fmap_Some.
Qed.

(** A process that is not running any more: [p->state = PROC_RUNNABLE]. *)
Definition halted p : process := if decide (p_state p = PROC_RUNNING) then set_state PROC_RUNNABLE p else p.

(** The state in which [yield] leaves process [i]: no longer current, and
    runnable if it was running. *)
Definition yielded i p s : machine :=
  let s' := set_proc i (halted p) s in
  set_sched (with_current None (m_sched s')) s'.

Lemma yield_marks s i p :
  current_process (m_sched s) = Some i → slot s i = Some p → yield_mark s = Ok (Some i) (set_proc i (halted p) s).
Proof.
  intros Hc Hp. unfold halted, yield_mark, bind, get at 1. rewrite Hc. unfold get_proc, bind, get at 1.
  unfold slot in Hp. rewrite Hp. simpl. case_decide as Hst; case_bool_decide; try done.
  - unfold upd_proc, bind, get. rewrite decide_True by (by eapply lookup_lt_Some).
    unfold upd_sched, modify, ret, set_proc. by rewrite (alter_lookup _ _ _ _ Hp).
  - unfold ret. by rewrite set_proc_id.
Qed.

(** [yield] hands over to the scheduler through [swtch]; without a current
    process it returns at once. *)
Lemma yield_switches s i p :
  current_process (m_sched s) = Some i → slot s i = Some p →
  yield s = Stop (Switch (ProcCtx i) SchedCtx) (yielded i p s).
Proof. intros Hc Hp. unfold yield, bind. by rewrite (yield_marks s i p). Qed.

Lemma yield_idle s : current_process (m_sched s) = None → yield s = Ok tt s.
Proof. intros Hc. unfold yield, yield_mark, bind, get. by rewrite Hc. Qed.

(** The name of a process, and what it says at its end. *)
Definition name_chars p : list Z := take (default 16%nat (fst <$> list_find (.= 0) (p_name p))) (p_name p).
Definition farewell p : list Z :=
  chars "Process '" ++ name_chars p ++ chars ("' finished execution. Exiting..." +:+ nl).

(** A process that returns from its entry function prints its name and becomes a
    zombie. *)
Lemma wp_farewell {TX : UartTx} s i p :
  current_process (m_sched s) = Some i → slot s i = Some p → name_ok p →
  wp forkret_farewell s (λ _ s', ∃ s1, prints s s1 (farewell p) ∧ s' = set_proc i (set_state PROC_ZOMBIE p) s1).
Proof.
  intros Hc Hp (H16 & H0 & Hb). unfold forkret_farewell, farewell, name_chars.
  apply wp_bind, wp_get. rewrite Hc. apply wp_bind, wp_puts_lit; [done|]. intros s1 P1.
  apply wp_bind. eapply wp_get_proc; [unfold slot; by rewrite (prints_sched _ _ _ P1)|].
  apply wp_bind. unfold name_str. destruct (list_find (.= 0) (p_name p)) as [[n c]|] eqn:E.
  2: { apply list_find_None in E. rewrite Forall_forall in E. by destruct (E 0 H0). }
  apply list_find_Some in E as (Hn & -> & Hbefore). apply wp_ret.
  apply wp_bind. eapply (wp_puts _ _ (take n (p_name p))).
  { apply cstr_at_lit, Forall_lookup. intros j d [Hj Hjn]%lookup_take_Some.
    rewrite Forall_lookup in Hb. specialize (Hb j d Hj). specialize (Hbefore j d Hj Hjn). lia. }
  { pose proof fuel_min. rewrite length_take. lia. }
  intros s2 P2. apply wp_bind, wp_puts_lit; [done|]. intros s3 P3.
  eapply wp_upd_proc; [unfold slot; by rewrite (prints_sched _ _ _ P3), (prints_sched _ _ _ P2), (prints_sched _ _ _ P1)|].
  exists s3. split; [|done]. cbn [fmap option_fmap option_map default fst]. eapply prints_app; [done|]. by eapply prints_app.
Qed.

(** Then it hands over to the scheduler; the endless loop behind the [yield] of
    [forkret] is not reached. *)
Lemma forkret_exit_zombie {TX : UartTx} s i p :
  current_process (m_sched s) = Some i → slot s i = Some p → name_ok p →
  stops forkret_exit s (Switch (ProcCtx i) SchedCtx) (λ s', ∃ s1,
    prints s s1 (farewell p) ∧ let z := set_state PROC_ZOMBIE p in s' = yielded i z (set_proc i z s1)).
Proof.
  intros Hc Hp Hn. apply stops_bind_r. eapply wp_mono; [by apply (wp_farewell s i p)|].
  intros [] s' (s1 & P1 & ->). apply stops_bind_l. eexists. split; [apply yield_switches|].
  - simpl. by rewrite (prints_sched _ _ _ P1).
  - apply slot_set_proc. unfold slot. rewrite (prints_sched _ _ _ P1). eauto.
  - eauto.
Qed.
End table.
