(* ===== verification/Trap.v ===== *)
(** * trap.h, trap.c and timer.h: traps and the timer

    The trap context is the frame [trap_vector] (trap.S) builds on the stack, at
    the address [trap_handler] gets.  [set_timer] is an [ecall]; its machine-mode
    handler (mtrap.S) is [mtrap_set_timer].  TrapVector.v and MTrap.v show that the
    instructions of both files do what is assumed here. *)

From S2P Require Import Prelude Globals Machine Utils Uart Heap HeapSpec Process.

(** ** Constants *)

Definition SCAUSE_INTR_FLAG : Z := 1 << 63.
Definition IRQ_S_SOFT : Z := 1.
Definition IRQ_S_TIMER : Z := 5.
Definition IRQ_S_EXT : Z := 9.

Definition EXC_INST_MISALIGNED : Z := 0.
Definition EXC_INST_FAULT : Z := 1.
Definition EXC_ILLEGAL_INST : Z := 2.
Definition EXC_BREAKPOINT : Z := 3.
Definition EXC_LOAD_MISALIGNED : Z := 4.
Definition EXC_LOAD_FAULT : Z := 5.
Definition EXC_STORE_MISALIGNED : Z := 6.
Definition EXC_STORE_FAULT : Z := 7.
Definition EXC_ENV_CALL_U : Z := 8.
Definition EXC_ENV_CALL_S : Z := 9.
Definition EXC_INST_PAGE_FAULT : Z := 12.
Definition EXC_LOAD_PAGE_FAULT : Z := 13.
Definition EXC_STORE_PAGE_FAULT : Z := 15.

Definition exception_codes : list Z :=
  [EXC_INST_MISALIGNED; EXC_INST_FAULT; EXC_ILLEGAL_INST; EXC_BREAKPOINT;
   EXC_LOAD_MISALIGNED; EXC_LOAD_FAULT; EXC_STORE_MISALIGNED; EXC_STORE_FAULT;
   EXC_ENV_CALL_U; EXC_ENV_CALL_S; EXC_INST_PAGE_FAULT; EXC_LOAD_PAGE_FAULT;
   EXC_STORE_PAGE_FAULT].

(** The array is as long as its last designated element needs; elements without
    a designator are NULL. *)
Definition exception_names : list (option String.string) :=
  [Some "Instruction Address Misaligned"; Some "Instruction Access Fault";
   Some "Illegal Instruction"; Some "Breakpoint";
   Some "Load Address Misaligned"; Some "Load Access Fault";
   Some "Store/AMO Address Misaligned"; Some "Store/AMO Access Fault";
   Some "Environment Call from U-mode"; Some "Environment Call from S-mode";
   None; None;
   Some "Instruction Page Fault"; Some "Load Page Fault";
   None; Some "Store/AMO Page Fault"].

Definition reg_names : list String.string :=
  ["zero"; "ra"; "sp"; "gp"; "tp"; "t0"; "t1"; "t2";
   "s0"; "s1"; "a0"; "a1"; "a2"; "a3"; "a4"; "a5";
   "a6"; "a7"; "s2"; "s3"; "s4"; "s5"; "s6"; "s7";
   "s8"; "s9"; "s10"; "s11"; "t3"; "t4"; "t5"; "t6"].

(** ** CSR access *)

Definition with_sie (v : Z) (c : csrs) : csrs :=
  Csrs (sstatus c) v (mip c) (mie c) (stvec c) (satp c) (sepc c) (scause c) (stval c).
Definition with_mip (v : Z) (c : csrs) : csrs :=
  Csrs (sstatus c) (sie c) v (mie c) (stvec c) (satp c) (sepc c) (scause c) (stval c).
Definition with_mie (v : Z) (c : csrs) : csrs :=
  Csrs (sstatus c) (sie c) (mip c) v (stvec c) (satp c) (sepc c) (scause c) (stval c).
Definition with_stvec (v : Z) (c : csrs) : csrs :=
  Csrs (sstatus c) (sie c) (mip c) (mie c) v (satp c) (sepc c) (scause c) (stval c).
Definition with_sepc (v : Z) (c : csrs) : csrs :=
  Csrs (sstatus c) (sie c) (mip c) (mie c) (stvec c) (satp c) v (scause c) (stval c).

Section csr.
Context `{Platform}.

Definition upd_csr (f : csrs → csrs) : M unit := modify (λ s, set_csr (f (m_csr s)) s).

Definition intr_on : M unit := upd_csr (λ c, with_sstatus (sstatus c .| (1 << 1)) c).
Definition intr_off : M unit := upd_csr (λ c, with_sstatus (sstatus c & Z.lnot (1 << 1)) c).
Definition r_sstatus : M Z := get (λ s, sstatus (m_csr s)).
Definition w_sstatus (x : Z) : M unit := upd_csr (with_sstatus x).
Definition r_stvec : M Z := get (λ s, stvec (m_csr s)).
Definition w_stvec (x : Z) : M unit := upd_csr (with_stvec x).
Definition r_sepc : M Z := get (λ s, sepc (m_csr s)).
Definition w_sepc (x : Z) : M unit := upd_csr (with_sepc x).
Definition r_scause : M Z := get (λ s, scause (m_csr s)).
Definition r_stval : M Z := get (λ s, stval (m_csr s)).
Definition sie_enable_software : M unit := upd_csr (λ c, with_sie (sie c .| (1 << 1)) c).
Definition sie_enable_timer : M unit := upd_csr (λ c, with_sie (sie c .| (1 << 5)) c).
Definition sie_enable_external : M unit := upd_csr (λ c, with_sie (sie c .| (1 << 9)) c).

(** ** timer.h *)

(** [csrr time] *)
Definition get_time : M Z := λ s,
  let '(t, d) := dev_time (m_dev s) in Ok (u64 t) (set_dev d s).

Definition MTIMECMP : Z := 0x2004000.

(** The [ecall] with a7 = 0: machine mode writes [mtimecmp], clears the pending
    supervisor timer interrupt and enables the machine timer. *)
Definition mtrap_set_timer (a0 : Z) : M unit :=
  io_write MTIMECMP 8 a0 ;;
  upd_csr (λ c, with_mip (mip c & Z.lnot 0x20) c) ;;
  upd_csr (λ c, with_mie (mie c .| 0x80) c).

Definition set_timer (interval : Z) : M unit :=
  current_time <- get_time;
  let next_time := u64 (current_time + interval) in
  mtrap_set_timer next_time.

Definition enable_timer_interrupt : M unit := upd_csr (λ c, with_sie (sie c .| (1 << 5)) c).
Definition disable_timer_interrupt : M unit :=
  upd_csr (λ c, with_sie (sie c & Z.lnot (1 << 5)) c).

(** ** trap.c *)

(** [ctx->regs[i]], [ctx->sstatus], [ctx->sepc], [ctx->scause], [ctx->stval]. *)
Definition ctx_reg (ctx : Z) (i : Z) : Z := ctx + 8 * i.
Definition ctx_sstatus (ctx : Z) : Z := ctx + 256.
Definition ctx_sepc (ctx : Z) : Z := ctx + 264.
Definition ctx_scause (ctx : Z) : Z := ctx + 272.
Definition ctx_stval (ctx : Z) : Z := ctx + 280.

(** [for (const char* p = reg_names[i]; *p; p++) len++;] *)
Definition count_chars (str : cptr) : M Z :=
  loop fuel (λ '(p, len),
    c <- deref p;
    if c =? 0 then ret (inr len) else ret (inl (cadd p 1, len + 1))) (str, 0).

Definition dump_register (ctx i : Z) : M unit :=
  let name := lit (default "" (reg_names !! Z.to_nat i)) in
  uart_puts name ;;
  len <- count_chars name;
  for_from len (Z.to_nat (5 - len)) (λ _, uart_putc 32) ;;
  uart_puts (lit ": ") ;;
  v <- load 8 (ctx_reg ctx i);
  print_hex64 v ;;
  if i mod 2 =? 1 then uart_puts (lit nl) else uart_puts (lit "  ").

Definition dump_registers (ctx : Z) : M unit :=
  uart_puts (lit ("--- Register Dump ---" +:+ nl)) ;;
  uart_puts (lit "sepc:   ") ;; v <- load 8 (ctx_sepc ctx); print_hex64 v ;;
  uart_puts (lit "  sstatus: ") ;; v <- load 8 (ctx_sstatus ctx); print_hex64 v ;; uart_puts (lit nl) ;;
  uart_puts (lit "scause: ") ;; v <- load 8 (ctx_scause ctx); print_hex64 v ;;
  uart_puts (lit "  stval:   ") ;; v <- load 8 (ctx_stval ctx); print_hex64 v ;; uart_puts (lit nl) ;;
  for_from 0 32 (dump_register ctx) ;;
  uart_puts (lit (nl +:+ "---------------------" +:+ nl)).

Definition trap_init `{Code} : M unit := w_stvec trap_vector.

Definition handle_software_interrupt (ctx : Z) : M unit :=
  uart_puts (lit ("Software interrupt received" +:+ nl)) ;;
  upd_csr (λ c, with_mip (mip c & Z.lnot (1 << 1)) c).

(** [handle_timer_interrupt] up to its call of [yield]. *)
Definition timer_tick : M unit :=
  uart_puts (lit "Current time: ") ;;
  t <- get_time;
  uart_dec64 t ;;
  uart_puts (lit nl) ;;
  set_timer 10000000.

Definition handle_timer_interrupt (ctx : Z) : M unit :=
  timer_tick ;;
  yield.

Definition handle_external_interrupt (ctx : Z) : M unit :=
  uart_puts (lit ("External interrupt received" +:+ nl)).

Definition handle_load_page_fault (ctx : Z) : M unit := ret tt.

(** [exception_names[i]] as an argument: a NULL element is the address 0, an
    index outside the array has no defined behaviour. *)
Definition exception_name (i : Z) : M cptr :=
  match exception_names !! Z.to_nat i with
  | Some (Some str) => ret (lit str)
  | Some None => ret (PMem 0)
  | None => halt Undefined
  end.

(** The report [handle_exception] starts with. *)
Definition exception_report (ctx : Z) : M unit :=
  uart_puts (lit "Kernel exception occurred: scause = ") ;;
  v <- load 8 (ctx_scause ctx); print_hex64 v ;;
  uart_puts (lit ", sepc = ") ;;
  v <- load 8 (ctx_sepc ctx); print_hex64 v ;;
  uart_puts (lit ", stval = ") ;;
  v <- load 8 (ctx_stval ctx); print_hex64 v ;;
  uart_puts (lit nl) ;;
  dump_registers ctx ;;
  uart_puts (lit "Exception: ").

Definition handle_exception (ctx : Z) : M unit :=
  exception_report ctx ;;
  v <- load 8 (ctx_scause ctx);
  name <- exception_name v;
  uart_puts name ;;
  uart_puts (lit nl) ;;
  v <- load 8 (ctx_scause ctx);
  (if bool_decide (v ∈ exception_codes) then ret tt
   else
     uart_puts (lit "Unknown exception code: ") ;;
     w <- load 8 (ctx_scause ctx); print_hex64 w ;;
     uart_puts (lit nl)) ;;
  uart_puts (lit ("Kernel panic: S-mode exception unhandled. Halted." +:+ nl)) ;;
  halt Spin.

(** The line every interrupt prints. *)
Definition interrupt_report (scause irq_code : Z) : M unit :=
  uart_puts (lit "Interrupt received: scause = ") ;;
  print_hex64 scause ;;
  uart_puts (lit ", irq_code = ") ;;
  print_hex64 irq_code ;;
  uart_puts (lit nl).

(** [switch (irq_code)] *)
Definition irq_dispatch (irq_code ctx : Z) : M unit :=
  if irq_code =? IRQ_S_SOFT then handle_software_interrupt ctx
  else if irq_code =? IRQ_S_TIMER then handle_timer_interrupt ctx
  else if irq_code =? IRQ_S_EXT then handle_external_interrupt ctx
  else
    uart_puts (lit "Unhandled S-mode interrupt: ") ;;
    print_hex64 irq_code ;;
    uart_puts (lit nl) ;;
    halt Spin.

Definition trap_handler (ctx : Z) : M unit :=
  scause <- load 8 (ctx_scause ctx);
  if negb ((scause & SCAUSE_INTR_FLAG) =? 0) then
    let irq_code := scause & Z.lnot SCAUSE_INTR_FLAG in
    interrupt_report scause irq_code ;;
    irq_dispatch irq_code ctx
  else handle_exception ctx.
End csr.

(** ** What the handlers print *)

Section dump.
Context `{Platform} {TX : UartTx}.
Implicit Types (r : gmap Z Z) (s : machine) (ctx : Z).

Definition hex64 (v : Z) : list Z := chars "0x" ++ hex_digits 16 v.

Lemma wp_count_chars s str :
  printable (chars str) = true →
  wp (count_chars (lit str)) s (λ v s', v = length (chars str) ∧ s' = s).
Proof.
  intros Hp. set (l := chars str) in *. apply andb_prop in Hp as [Hf Hl]. pose proof fuel_min as Hfm.
  unfold count_chars, lit. fold l.
  eapply (wp_loop (λ '(p, len) s', ∃ k : nat, len =@{Z} k ∧ (k <= length l)%nat ∧ p = PLit l k ∧ s' = s)
    (λ '(_, len) _, Z.to_nat (length l - len))); [lia|by exists 0%nat; split_and!; [..|lia| |]|].
  intros [p len] s' (k & -> & Hk & -> & ->). apply wp_bind.
  destruct (decide (k = length l)) as [->|Hne].
  - apply (wp_deref _ _ 0); [|by apply wp_ret]. simpl. unfold lit_char.
    by rewrite (proj2 (Z.ltb_ge _ _)), Z.eqb_refl by lia.
  - destruct (lookup_lt_is_Some_2 l k) as [c Hc]; [lia|].
    eapply wp_deref; [apply (chars_at_lit s l k c Hc)|].
    rewrite forallb_forall in Hf. specialize (Hf c). rewrite <- list_elem_of_In in Hf.
    rewrite (proj2 (Z.eqb_neq c 0)) by (specialize (Hf (list_elem_of_lookup_2 _ _ _ Hc)); lia).
    apply wp_ret. split; [|lia]. exists (S k). split_and!; [lia|lia| |done]. simpl. f_equal. lia.
Qed.

(** The line of a register: its name padded to five characters, its value, and
    a separator. *)
Definition register_text r ctx (i : Z) : list Z :=
  let name := chars (default "" (reg_names !! Z.to_nat i)) in
  name ++ replicate (5 - length name) 32 ++ chars ": " ++ hex64 (ram_load 8 (ctx_reg ctx i) r) ++
  (if i mod 2 =? 1 then chars nl else chars "  ").

Definition dump_text r ctx : list Z :=
  chars ("--- Register Dump ---" +:+ nl) ++
  chars "sepc:   " ++ hex64 (ram_load 8 (ctx_sepc ctx) r) ++
  chars "  sstatus: " ++ hex64 (ram_load 8 (ctx_sstatus ctx) r) ++ chars nl ++
  chars "scause: " ++ hex64 (ram_load 8 (ctx_scause ctx) r) ++
  chars "  stval:   " ++ hex64 (ram_load 8 (ctx_stval ctx) r) ++ chars nl ++
  concat (register_text r ctx <$> seqZ 0 32) ++
  chars (nl +:+ "---------------------" +:+ nl).

Lemma reg_name_printable i : printable (chars (default "" (reg_names !! i))) = true.
Proof. do 32 (destruct i as [|i]; [done|]). done. Qed.

Lemma concat_spaces (n : nat) i0 : concat ((λ _ : Z, [u8 32]) <$> seqZ i0 n) = replicate n 32.
Proof.
  revert i0. induction n as [|n IH]; intros i0; [done|]. rewrite seqZ_cons by lia. simpl.
  f_equal. replace (Z.pred (S n)) with (Z.of_nat n) by lia. apply IH.
Qed.

Context (r : gmap Z Z) (ctx : Z) (Hctx : in_ram ctx 288 = true).

Lemma ctx_in_ram off : 0 <= off <= 280 → in_ram (ctx + off) 8 = true.
Proof. intros. eapply in_ram_sub; [exact Hctx|lia..]. Qed.

Lemma says_register i : 0 <= i < 32 → says r (dump_register ctx i) (register_text r ctx i).
Proof.
  intros Hi. unfold dump_register, register_text. pose proof (reg_name_printable (Z.to_nat i)) as Hp.
  set (str := default "" _) in *. eapply says_bind; [by apply says_lit|].
  eapply says_pure; [intros s _; by apply wp_count_chars|].
  eapply says_bind.
  { rewrite <- (concat_spaces _ (length (chars str))).
    replace (Z.to_nat (5 - length (chars str))) with (5 - length (chars str))%nat by lia.
    apply says_for. intros. apply says_putc. }
  eapply says_bind; [by apply says_lit|]. eapply says_load; [apply ctx_in_ram; lia|].
  eapply says_bind; [apply says_hex64|]. by apply says_if; apply says_lit.
Qed.

Lemma says_dump : says r (dump_registers ctx) (dump_text r ctx).
Proof.
  unfold dump_registers, dump_text.
  says; try (apply ctx_in_ram; lia). apply says_for. intros. apply says_register. lia.
Qed.

(** What every exception prints up to the name of its cause. *)
Definition exception_text : list Z :=
  chars "Kernel exception occurred: scause = " ++ hex64 (ram_load 8 (ctx_scause ctx) r) ++
  chars ", sepc = " ++ hex64 (ram_load 8 (ctx_sepc ctx) r) ++
  chars ", stval = " ++ hex64 (ram_load 8 (ctx_stval ctx) r) ++ chars nl ++
  dump_text r ctx ++ chars "Exception: ".

Lemma says_exception_report : says r (exception_report ctx) exception_text.
Proof.
  unfold exception_report, exception_text. says; try (apply ctx_in_ram; lia). apply says_dump.
Qed.

(** The handler up to the name of the cause, then the rest. *)
Lemma stops_after_report s k e (Q : machine → Prop) :
  m_ram s = r →
  (∀ s', prints s s' exception_text → stops (k (ram_load 8 (ctx_scause ctx) r)) s' e Q) →
  stops (exception_report ctx ;; v <- load 8 (ctx_scause ctx); k v : M unit) s e Q.
Proof.
  intros Hs Hk. apply stops_bind_r. eapply says_wp; [apply says_exception_report|done|].
  intros s' Hp. apply stops_bind_r, wp_load; [apply ctx_in_ram; lia|].
  rewrite (prints_ram _ _ _ Hp), Hs. by apply Hk.
Qed.
End dump.

(** ** Exceptions *)

Section exceptions.
Context `{Platform} {TX : UartTx}.
Implicit Types (s : machine) (ctx : Z).

Lemma exception_name_known v :
  v ∈ exception_codes →
  ∃ name, exception_names !! Z.to_nat v = Some (Some name) ∧ printable (chars name) = true.
Proof.
  unfold exception_codes. rewrite !elem_of_cons, elem_of_nil.
  intros H1. repeat destruct H1 as [->|H1]; [eexists; split; [done|by vm_compute]..|done].
Qed.

Lemma exception_name_unknown v :
  0 <= v → v ∉ exception_codes →
  exception_names !! Z.to_nat v = if decide (v < 16) then Some None else None.
Proof.
  intros Hv Hn. case_decide.
  - assert (v ∈ seqZ 0 16) as Hin by (apply elem_of_seqZ; lia). revert Hn. revert v Hin Hv H0.
    apply (Forall_forall (λ v, 0 <= v → v < 16 → v ∉ exception_codes → exception_names !! Z.to_nat v = Some None)).
    repeat constructor; intros _ _ Hn; try done; exfalso; apply Hn;
      by apply (bool_decide_unpack _); vm_compute.
  - apply lookup_ge_None. simpl. lia.
Qed.

(** C30: a known exception halts the kernel after a complete report: for every
    cause the switch lists, [handle_exception] prints cause, program counter,
    fault address, all registers with their values and the name of the cause,
    then the panic message, and spins; memory and kernel state are unchanged. *)
Theorem handle_exception_halts s ctx :
  in_ram ctx 288 = true → let v := ram_load 8 (ctx_scause ctx) (m_ram s) in v ∈ exception_codes →
  stops (handle_exception ctx) s Spin (λ s', ∃ name,
    exception_names !! Z.to_nat v = Some (Some name) ∧
    prints s s' (exception_text (m_ram s) ctx ++ chars name ++ chars nl ++
      chars ("Kernel panic: S-mode exception unhandled. Halted." +:+ nl))).
Proof.
  intros Hctx v Hv. destruct (exception_name_known v Hv) as (name & En & Hpr).
  unfold handle_exception. apply (stops_after_report (m_ram s) ctx Hctx); [done|].
  fold v. intros s1 P1. apply stops_bind_r. unfold exception_name. rewrite En. apply wp_ret.
  apply stops_bind_r, wp_puts_lit; [done|]. intros s2 P2.
  apply stops_bind_r, wp_puts_lit; [done|]. intros s3 P3.
  apply stops_bind_r, wp_load; [by apply ctx_in_ram|].
  rewrite (prints_ram _ _ _ P3), (prints_ram _ _ _ P2), (prints_ram _ _ _ P1).
  fold v. rewrite bool_decide_true by done.
  apply stops_bind_r, wp_ret, stops_bind_r, wp_puts_lit; [done|]. intros s4 P4. apply stops_halt.
  exists name. split; [done|]. do 3 (eapply prints_app; [done|]). done.
Qed.

(** C39: the handler of unknown causes does not work.  For a cause outside the
    list [exception_names] has no name: for 10, 11 and 14 the element is NULL
    and printing it faults at address 0, from 16 on the index is outside the
    array; in both cases the branch that prints "Unknown exception code" is not
    reached. *)
Theorem handle_exception_unknown s ctx :
  in_ram ctx 288 = true → let v := ram_load 8 (ctx_scause ctx) (m_ram s) in v ∉ exception_codes →
  stops (handle_exception ctx) s (if decide (v < 16) then Fault 0 else Undefined)
    (λ s', prints s s' (exception_text (m_ram s) ctx)).
Proof.
  intros Hctx v Hv. assert (0 <= v) as Hv0 by apply (ram_load_range 8).
  pose proof (exception_name_unknown v Hv0 Hv) as En.
  unfold handle_exception. apply (stops_after_report (m_ram s) ctx Hctx); [done|].
  fold v. intros s1 P1. unfold exception_name. rewrite En. case_decide.
  - apply stops_bind_r, wp_ret, stops_bind_l. unfold uart_puts.
    pose proof fuel_min. destruct fuel as [|n]; [lia|]. simpl.
    apply stops_bind_l, stops_bind_l. by apply load_fault.
  - by apply stops_bind_l, stops_halt.
Qed.
End exceptions.

(** ** Interrupts *)

Section interrupts.
Context `{Platform} {TX : UartTx}.
Implicit Types (s : machine) (ctx : Z).

Definition interrupt_text (scause irq_code : Z) : list Z :=
  chars "Interrupt received: scause = " ++ hex64 scause ++ chars ", irq_code = " ++
  hex64 irq_code ++ chars nl.

Lemma says_interrupt_report r scause irq_code :
  says r (interrupt_report scause irq_code) (interrupt_text scause irq_code).
Proof. unfold interrupt_report, interrupt_text. says. Qed.

(** Splitting [scause] into its interrupt flag and its code. *)
Lemma scause_split code :
  0 <= code < 2 ^ 63 →
  ((2 ^ 63 + code) & SCAUSE_INTR_FLAG) =? 0 = false ∧
  (2 ^ 63 + code) & Z.lnot SCAUSE_INTR_FLAG = code.
Proof.
  intros Hc. assert (2 ^ 63 + code = code .| SCAUSE_INTR_FLAG) as ->.
  { unfold SCAUSE_INTR_FLAG. rewrite lor_low_high by lia. lia. }
  unfold SCAUSE_INTR_FLAG. split.
  - rewrite land_bit by lia. rewrite Z.lor_spec, Z.shiftl_spec by lia. by rewrite orb_true_r.
  - rewrite Z.land_lor_distr_l. rewrite Z.land_lnot_diag, Z.lor_0_r.
    bitwise i. rewrite Z.lnot_spec, Z.shiftl_spec by done.
    destruct (decide (i = 63)) as [->|Hi].
    + by rewrite (testbit_high 63) by lia.
    + assert (Z.testbit 1 (i - 63) = false) as ->; [|by rewrite andb_true_r].
      destruct (decide (i < 63)); [by apply Z.testbit_neg_r; lia|].
      by apply (testbit_high 1); lia.
Qed.

(** What a timer interrupt does before it yields: it prints the time, moves
    [mtimecmp] ten million ticks ahead of the time it reads, clears the pending
    supervisor interrupt and enables the machine timer. *)
Definition timer_csr (c : csrs) : csrs :=
  with_mie (mie c .| 0x80) (with_mip (mip c & Z.lnot 0x20) c).

Definition timer_rearmed (out : list Z) s s' : Prop :=
  ∃ evs ds t d d', Forall uart_event evs ∧ console evs = out ++ chars "Current time: " ++ ds ++ chars nl ∧
  decimal_of t ds ∧
  s' = set_csr (timer_csr (m_csr s)) (set_trace (m_trace s ++ evs ++
    [EWrite MTIMECMP 8 (u64 (u64 (dev_time d).1 + 10000000))]) (set_dev d' s)).

Lemma wp_get_time s (Q : Z → machine → Prop) :
  (∀ s', io_ext s s' [] → Q (u64 (dev_time (m_dev s)).1) s') → wp get_time s Q.
Proof.
  intros HQ. unfold wp, get_time. destruct (dev_time (m_dev s)) as [t d] eqn:E. simpl in HQ.
  eexists _, _. split; [done|]. apply HQ. exists d. destruct s. simpl. by rewrite app_nil_r.
Qed.

Lemma wp_timer_tick s0 s out :
  prints s0 s out → wp timer_tick s (λ _ s', timer_rearmed out s0 s').
Proof.
  intros P0. unfold timer_tick. apply wp_bind, wp_puts_lit; [done|]. intros s1 P1.
  apply wp_bind, wp_get_time. intros s2 X2. set (t := u64 _) in *.
  apply wp_bind. eapply wp_mono; [apply wp_uart_dec64, u64_range|]. intros [] s3 (ds & Hds & P3).
  apply wp_bind, wp_puts_lit; [done|]. intros s4 P4.
  unfold set_timer. apply wp_bind, wp_get_time. intros s5 X5.
  pose proof (prints_app _ _ _ _ _ P0 P1) as (e1 & X1 & F1 & C1).
  pose proof (prints_app _ _ _ _ _ P3 P4) as (e2 & X3 & F2 & C2).
  pose proof (io_ext_trans _ _ _ _ _ X1 (io_ext_trans _ _ _ _ _ X2 (io_ext_trans _ _ _ _ _ X3 X5))) as [d ->].
  unfold mtrap_set_timer, wp, bind, io_write, upd_csr, modify. eexists _, _. split; [done|].
  exists (e1 ++ e2), ds, t, (m_dev s4). eexists. split_and!; [by apply Forall_app| |done|].
  - unfold console in *. rewrite omap_app, C1, C2. by rewrite <- !app_assoc.
  - simpl. rewrite app_nil_r, <- !app_assoc. done.
Qed.

(** Into the switch, with the report printed. *)
Lemma trap_handler_enter s ctx code :
  in_ram ctx 288 = true → ram_load 8 (ctx_scause ctx) (m_ram s) = 2 ^ 63 + code → 0 <= code < 2 ^ 63 →
  ∃ s1, prints s s1 (interrupt_text (2 ^ 63 + code) code) ∧
    trap_handler ctx s = irq_dispatch code ctx s1.
Proof.
  intros Hctx Hv Hc. destruct (scause_split code Hc) as [Hf Hcode].
  assert (in_ram (ctx_scause ctx) 8 = true) as Hl by (by apply ctx_in_ram).
  destruct (says_interrupt_report (m_ram s) (2 ^ 63 + code) code s eq_refl) as ([] & s1 & E & P1).
  exists s1. split; [done|]. unfold trap_handler.
  rewrite (bind_Ok _ _ s (2 ^ 63 + code) s) by (unfold load; by rewrite Hl, Hv).
  rewrite Hf, Hcode. cbn [negb].
  exact (bind_Ok (interrupt_report _ _) (λ _, irq_dispatch code ctx) s tt s1 E).
Qed.

(** A timer interrupt while process [i] runs, and while none does. *)
Lemma trap_timer_running s ctx i p :
  in_ram ctx 288 = true → ram_load 8 (ctx_scause ctx) (m_ram s) = 2 ^ 63 + IRQ_S_TIMER →
  current_process (m_sched s) = Some i → slot s i = Some p →
  stops (trap_handler ctx) s (Switch (ProcCtx i) SchedCtx) (λ s', ∃ s1,
    timer_rearmed (interrupt_text (2 ^ 63 + IRQ_S_TIMER) IRQ_S_TIMER) s s1 ∧ s' = yielded i p s1).
Proof.
  intros Hctx Hv Hcur Hp. destruct (trap_handler_enter s ctx _ Hctx Hv) as (s1 & P1 & E); [done|].
  unfold stops. rewrite E. apply stops_bind_r.
  eapply wp_mono; [by apply (wp_timer_tick s)|]. intros [] s2 Ht.
  eexists. split; [|by exists s2].
  apply yield_switches; destruct Ht as (? & ? & ? & ? & ? & _ & _ & _ & ->); done.
Qed.

Lemma trap_timer_idle s ctx :
  in_ram ctx 288 = true → ram_load 8 (ctx_scause ctx) (m_ram s) = 2 ^ 63 + IRQ_S_TIMER →
  current_process (m_sched s) = None →
  wp (trap_handler ctx) s (λ _ s',
    timer_rearmed (interrupt_text (2 ^ 63 + IRQ_S_TIMER) IRQ_S_TIMER) s s').
Proof.
  intros Hctx Hv Hcur. destruct (trap_handler_enter s ctx _ Hctx Hv) as (s1 & P1 & E); [done|].
  unfold wp. rewrite E. apply wp_bind.
  eapply wp_mono; [by apply (wp_timer_tick s)|]. intros [] s2 Ht.
  eapply wp_intro; [|done]. apply yield_idle.
  destruct Ht as (? & ? & ? & ? & ? & _ & _ & _ & ->); done.
Qed.

(** C29: what an interrupt does.  [trap_handler] prints the cause; a software
    interrupt is acknowledged by clearing its pending bit, an external one only
    printed; on a timer interrupt the timer is set again ten million ticks ahead
    and, if a process was running, that process is made runnable and control
    goes to the scheduler, otherwise the handler returns; any other interrupt
    stops the kernel. *)
Theorem trap_handler_interrupt s ctx code :
  in_ram ctx 288 = true → ram_load 8 (ctx_scause ctx) (m_ram s) = 2 ^ 63 + code → 0 <= code < 2 ^ 63 →
  let text := interrupt_text (2 ^ 63 + code) code in
  (code = IRQ_S_SOFT → wp (trap_handler ctx) s (λ _ s', ∃ s1,
     prints s s1 (text ++ chars ("Software interrupt received" +:+ nl)) ∧
     s' = set_csr (with_mip (mip (m_csr s) & Z.lnot 2) (m_csr s)) s1)) ∧
  (code = IRQ_S_EXT → wp (trap_handler ctx) s (λ _ s',
     prints s s' (text ++ chars ("External interrupt received" +:+ nl)))) ∧
  (code = IRQ_S_TIMER →
     match current_process (m_sched s) with
     | None => wp (trap_handler ctx) s (λ _ s', timer_rearmed text s s')
     | Some i => ∀ p, slot s i = Some p →
         stops (trap_handler ctx) s (Switch (ProcCtx i) SchedCtx)
           (λ s', ∃ s1, timer_rearmed text s s1 ∧ s' = yielded i p s1)
     end) ∧
  (code ∉ [IRQ_S_SOFT; IRQ_S_TIMER; IRQ_S_EXT] →
     stops (trap_handler ctx) s Spin (λ s', prints s s'
       (text ++ chars "Unhandled S-mode interrupt: " ++ hex64 code ++ chars nl))).
Proof.
  intros Hctx Hv Hc text. pose proof (trap_handler_enter s ctx code Hctx Hv Hc) as (s1 & P1 & E).
  fold text in P1. split_and!.
  - intros ->. unfold wp. rewrite E.
    apply wp_bind, wp_puts_lit; [done|]. intros s2 P2. apply wp_modify. exists s2.
    split; [by eapply prints_app|].
    by rewrite (prints_csr _ _ _ P2), (prints_csr _ _ _ P1).
  - intros ->. unfold wp. rewrite E. apply wp_puts_lit; [done|]. intros s2 P2. by eapply prints_app.
  - intros ->. destruct (current_process (m_sched s)) as [i|] eqn:Ecur.
    + intros p Hp. by apply trap_timer_running.
    + by apply trap_timer_idle.
  - intros Hn. rewrite !not_elem_of_cons in Hn. destruct Hn as (N1 & N5 & N9 & _).
    unfold stops. rewrite E. unfold irq_dispatch.
    rewrite (proj2 (Z.eqb_neq _ _) N1), (proj2 (Z.eqb_neq _ _) N5), (proj2 (Z.eqb_neq _ _) N9).
    apply stops_bind_r, wp_puts_lit; [done|]. intros s2 P2.
    apply stops_bind_r, wp_print_hex64. intros s3 P3.
    apply stops_bind_r, wp_puts_lit; [done|]. intros s4 P4. apply stops_halt.
    do 3 (eapply prints_app; [done|]). done.
Qed.
End interrupts.
