(* ===== verification/Asm.v ===== *)
(** * The assembly language of src/asm

    The files under src/asm are translated instruction by instruction: [instr]
    has the instructions they use, a file is a list of labelled blocks, and
    [asm_run] executes it on the registers of the hart and the machine.  What
    leaves the code ([ret], [sret], [mret]) is an [exit]; a call of a C function
    runs the function and then gives the registers the calling convention does
    not preserve arbitrary values. *)

From stdpp Require Import functions.
From S2P Require Import Prelude Globals Machine Utils Uart Heap HeapSpec Process Trap.

(** ** Registers *)

Inductive reg :=
  | Zero | Ra | Sp | Gp | Tp | T0 | T1 | T2 | S0 | S1
  | A0 | A1 | A2 | A3 | A4 | A5 | A6 | A7
  | S2 | S3 | S4 | S5 | S6 | S7 | S8 | S9 | S10 | S11 | T3 | T4 | T5 | T6.
#[global] Instance reg_eq_dec : EqDecision reg.
Proof. solve_decision. Defined.

(** The number of a register, which is its index in [struct trap_context]. *)
Definition all_regs : list reg :=
  [Zero; Ra; Sp; Gp; Tp; T0; T1; T2; S0; S1; A0; A1; A2; A3; A4; A5; A6; A7;
   S2; S3; S4; S5; S6; S7; S8; S9; S10; S11; T3; T4; T5; T6].

(** The registers a C function leaves as they were, and those the compiler does
    not use. *)
Definition callee_saved : list reg := [Sp; Gp; Tp; S0; S1; S2; S3; S4; S5; S6; S7; S8; S9; S10; S11].

(** Control and status registers: those of supervisor mode and the interrupt
    registers are in the machine, those of machine mode in the hart. *)
Inductive mcsr :=
  | Mscratch | Mcause | Mepc | Mtvec | Mstatus | Mcounteren | Pmpaddr0 | Pmpcfg0 | Medeleg | Mideleg.
#[global] Instance mcsr_eq_dec : EqDecision mcsr.
Proof. solve_decision. Defined.
Inductive csr := Sstatus | Sepc | Scause | Stval | Mie | Mip | MCsr (c : mcsr).

Record hart := Hart { h_reg : reg → Z; h_csr : mcsr → Z }.

(** Register x0 reads as 0 and ignores writes; a register holds 64 bits. *)
Definition get_reg (h : hart) (r : reg) : Z := if decide (r = Zero) then 0 else h_reg h r.
Definition set_reg (r : reg) (v : Z) (h : hart) : hart :=
  if decide (r = Zero) then h else Hart (<[r := u64 v]> (h_reg h)) (h_csr h).
Definition set_mcsr (c : mcsr) (v : Z) (h : hart) : hart := Hart (h_reg h) (<[c := v]> (h_csr h)).

(** ** Instructions *)

Inductive instr :=
  | Li (rd : reg) (imm : Z)
  | La (rd : reg) (sym : Z)
  | Mv (rd rs : reg)
  | Addi (rd rs : reg) (imm : Z)
  | Slli (rd rs : reg) (sh : Z)
  | Srli (rd rs : reg) (sh : Z)
  | Ld (rd : reg) (off : Z) (base : reg)
  | Sd (rs : reg) (off : Z) (base : reg)
  | Sb (rs : reg) (off : Z) (base : reg)
  | CsrR (rd : reg) (c : csr)
  | CsrW (c : csr) (rs : reg)
  | CsrRW (rd : reg) (c : csr) (rs : reg)
  | CsrS (c : csr) (rs : reg)
  | CsrC (c : csr) (rs : reg)
  | Blt (rs1 rs2 : reg) (l : String.string)
  | Bne (rs1 rs2 : reg) (l : String.string)
  | Bgeu (rs1 rs2 : reg) (l : String.string)
  | J (l : String.string)
  | Call (f : String.string)
  | Ret | Sret | Mret.

(** A file: its labels in order, each with the instructions up to the next. *)
Definition code := list (String.string * list instr).

(** From a label on; control falls through from one block into the next. *)
Fixpoint code_from (l : String.string) (c : code) : option (list instr) :=
  match c with
  | [] => None
  | (l', ins) :: c' => if decide (l = l') then Some (ins ++ concat (snd <$> c')) else code_from l c'
  end.

(** Where control goes when it leaves the code, and in which mode: [sret] and
    [mret] return to the mode a field of the status register names. *)
Inductive exit := Returned (pc : Z) | Sreturned (supervisor : bool) (pc : Z) | Mreturned (mode pc : Z).

(** How an instruction ends: it goes on to the next, to a label, or leaves. *)
Inductive next := Fall | To (l : String.string) | Leave (e : exit).

(** Signed comparison of 64-bit words. *)
Definition s64 (z : Z) : Z := (z + 2 ^ 63) mod 2 ^ 64 - 2 ^ 63.

(** The fields of [sstatus] on traps and returns.  Trap entry from supervisor
    mode: SPIE takes SIE, SIE is cleared, SPP is set.  [sret]: SIE takes SPIE,
    SPIE is set, SPP is cleared. *)
Definition SIE (st : Z) : bool := Z.testbit st 1.
Definition SPP (st : Z) : bool := Z.testbit st 8.
Definition trap_entry (st : Z) : Z :=
  let st' := st & Z.lnot (1 << 1) in
  (if SIE st then st' .| (1 << 5) else st' & Z.lnot (1 << 5)) .| (1 << 8).
Definition sret (st : Z) : Z :=
  ((if Z.testbit st 5 then st .| (1 << 1) else st & Z.lnot (1 << 1)) .| (1 << 5)) & Z.lnot (1 << 8).

(** The control registers after a trap at [pc]. *)
Definition trap_csr (pc cause tval : Z) (c : csrs) : csrs :=
  Csrs (trap_entry (sstatus c)) (sie c) (mip c) (mie c) (stvec c) (satp c) pc cause tval.

(** [mret]: MIE takes MPIE, MPIE is set, MPP becomes user mode. *)
Definition mstatus_mpp (st : Z) : Z := (st >> 11) & 3.
Definition mret_status (st : Z) : Z :=
  ((if Z.testbit st 7 then st .| (1 << 3) else st & Z.lnot (1 << 3)) .| (1 << 7)) & Z.lnot (3 << 11).

Definition with_scause (v : Z) (c : csrs) : csrs :=
  Csrs (sstatus c) (sie c) (mip c) (mie c) (stvec c) (satp c) (sepc c) v (stval c).
Definition with_stval (v : Z) (c : csrs) : csrs :=
  Csrs (sstatus c) (sie c) (mip c) (mie c) (stvec c) (satp c) (sepc c) (scause c) v.

Section exec.
Context `{Platform}.

(** The core-local interruptor, which the kernel's own accesses do not reach. *)
Definition in_clint (a : Z) (n : nat) : bool := (0x2000000 <=? a) && (a + n <=? 0x2010000).
Definition asm_store (n : nat) (a v : Z) : M unit :=
  if in_clint a n then io_write a n (v mod 2 ^ (8 * n)) else store n a v.

Definition csr_get (c : csr) (h : hart) : M Z :=
  match c with
  | Sstatus => get (λ s, sstatus (m_csr s))
  | Sepc => get (λ s, sepc (m_csr s))
  | Scause => get (λ s, scause (m_csr s))
  | Stval => get (λ s, stval (m_csr s))
  | Mie => get (λ s, mie (m_csr s))
  | Mip => get (λ s, mip (m_csr s))
  | MCsr c => ret (h_csr h c)
  end.

Definition csr_set (c : csr) (v : Z) (h : hart) : M hart :=
  match c with
  | Sstatus => upd_csr (with_sstatus v) ;; ret h
  | Sepc => upd_csr (with_sepc v) ;; ret h
  | Scause => upd_csr (with_scause v) ;; ret h
  | Stval => upd_csr (with_stval v) ;; ret h
  | Mie => upd_csr (with_mie v) ;; ret h
  | Mip => upd_csr (with_mip v) ;; ret h
  | MCsr c => ret (set_mcsr c v h)
  end.

(** What the calls of C functions do to the hart and the machine. *)
Context (calls : String.string → hart → M hart).

Definition branch (b : bool) (l : String.string) (h : hart) : M (hart * next) :=
  ret (h, if b then To l else Fall).

Definition exec (i : instr) (h : hart) : M (hart * next) :=
  match i with
  | Li rd v | La rd v => ret (set_reg rd v h, Fall)
  | Mv rd rs => ret (set_reg rd (get_reg h rs) h, Fall)
  | Addi rd rs v => ret (set_reg rd (get_reg h rs + v) h, Fall)
  | Slli rd rs v => ret (set_reg rd (get_reg h rs << v) h, Fall)
  | Srli rd rs v => ret (set_reg rd (get_reg h rs >> v) h, Fall)
  | Ld rd off base => v <- load 8 (u64 (get_reg h base + off)); ret (set_reg rd v h, Fall)
  | Sd rs off base => asm_store 8 (u64 (get_reg h base + off)) (get_reg h rs) ;; ret (h, Fall)
  | Sb rs off base => asm_store 1 (u64 (get_reg h base + off)) (get_reg h rs) ;; ret (h, Fall)
  | CsrR rd c => v <- csr_get c h; ret (set_reg rd v h, Fall)
  | CsrW c rs => h' <- csr_set c (get_reg h rs) h; ret (h', Fall)
  | CsrRW rd c rs => v <- csr_get c h; h' <- csr_set c (get_reg h rs) h; ret (set_reg rd v h', Fall)
  | CsrS c rs => v <- csr_get c h; h' <- csr_set c (v .| get_reg h rs) h; ret (h', Fall)
  | CsrC c rs => v <- csr_get c h; h' <- csr_set c (v & Z.lnot (get_reg h rs)) h; ret (h', Fall)
  | Blt r1 r2 l => branch (s64 (get_reg h r1) <? s64 (get_reg h r2)) l h
  | Bne r1 r2 l => branch (negb (get_reg h r1 =? get_reg h r2)) l h
  | Bgeu r1 r2 l => branch (get_reg h r2 <=? get_reg h r1) l h
  | J l => ret (h, To l)
  | Call f => h' <- calls f h; ret (h', Fall)
  | Ret => ret (h, Leave (Returned (get_reg h Ra)))
  | Sret =>
      c <- get m_csr;
      upd_csr (with_sstatus (sret (sstatus c))) ;;
      ret (h, Leave (Sreturned (SPP (sstatus c)) (sepc c)))
  | Mret =>
      let st := h_csr h Mstatus in
      ret (set_mcsr Mstatus (mret_status st) h, Leave (Mreturned (mstatus_mpp st) (h_csr h Mepc)))
  end.

(** Straight-line code, up to the first jump that is taken. *)
Fixpoint run_block (ins : list instr) (h : hart) : M (hart * next) :=
  match ins with
  | [] => ret (h, Fall)
  | i :: ins' => '(h', n) <- exec i h; match n with Fall => run_block ins' h' | _ => ret (h', n) end
  end.

(** A program, following at most [n] jumps; it never runs off its end. *)
Fixpoint asm_run (n : nat) (c : code) (ins : list instr) (h : hart) : M (hart * exit) :=
  '(h', nx) <- run_block ins h;
  match nx with
  | Fall => halt Undefined
  | Leave e => ret (h', e)
  | To l =>
      match n, code_from l c with
      | O, _ => halt OutOfFuel
      | S n', Some ins' => asm_run n' c ins' h'
      | S _, None => halt Undefined
      end
  end.

(** Enter the code at a label. *)
Definition asm_enter (n : nat) (c : code) (l : String.string) (h : hart) : M (hart * exit) :=
  match code_from l c with Some ins => asm_run n c ins h | None => halt Undefined end.
End exec.

(** A call of a C function whose argument is in a0: afterwards the registers
    that are not preserved hold the arbitrary values [clob]. *)
Definition c_call `{Platform} (f : Z → M unit) (clob : reg → Z) (h : hart) : M hart :=
  f (get_reg h A0) ;;
  ret (Hart (λ r, if bool_decide (r ∈ callee_saved) then h_reg h r else u64 (clob r)) (h_csr h)).

(** ** Registers that were written *)

Section regs.
Implicit Types (h : hart) (r : reg).

Lemma get_set_reg r v h : r ≠ Zero → get_reg (set_reg r v h) r = u64 v.
Proof. intros Hr. unfold get_reg, set_reg. rewrite !decide_False by done. simpl. by rewrite fn_lookup_insert. Qed.
Lemma get_set_reg_ne r r' v h : r ≠ r' → get_reg (set_reg r v h) r' = get_reg h r'.
Proof.
  intros Hr. unfold get_reg, set_reg. case_decide; [done|]. case_decide; [done|].
  simpl. by rewrite fn_lookup_insert_ne.
Qed.
Lemma csr_after_set_reg r v h : h_csr (set_reg r v h) = h_csr h.
Proof. unfold set_reg. by case_decide. Qed.
Lemma get_set_mcsr c v h r : get_reg (set_mcsr c v h) r = get_reg h r.
Proof. done. Qed.
Lemma mcsr_set_mcsr c v h : h_csr (set_mcsr c v h) c = v.
Proof. apply fn_lookup_insert. Qed.
Lemma mcsr_set_mcsr_ne c c' v h : c ≠ c' → h_csr (set_mcsr c v h) c' = h_csr h c'.
Proof. intros. by apply fn_lookup_insert_ne. Qed.
Lemma get_zero h : get_reg h Zero = 0.
Proof. done. Qed.

(** All registers hold 64-bit values. *)
Definition hart_ok h : Prop := ∀ r, 0 <= get_reg h r < 2 ^ 64.

Lemma hart_ok_set r v h : hart_ok h → hart_ok (set_reg r v h).
Proof.
  intros Hh r'. destruct (decide (r = r')) as [<-|Hne].
  - destruct (decide (r = Zero)) as [->|Hr]; [unfold get_reg; by case_decide|].
    rewrite get_set_reg by done. apply u64_range.
  - rewrite get_set_reg_ne by done. apply Hh.
Qed.
End regs.

(** A trap turns interrupts off and remembers that it came from supervisor mode;
    [sret] turns them on again if they were on. *)
Lemma trap_entry_bits st :
  SIE (trap_entry st) = false ∧ Z.testbit (trap_entry st) 5 = SIE st ∧ SPP (trap_entry st) = true.
Proof.
  unfold SIE, SPP, trap_entry. rewrite !testbit_set_bit by lia. rewrite orb_true_r. split; [|split; [|done]].
  - unfold SIE. destruct (Z.testbit st 1) eqn:E; rewrite ?testbit_set_bit, !testbit_clear_bit, E by lia; done.
  - unfold SIE. destruct (Z.testbit st 1) eqn:E; rewrite ?testbit_set_bit, !testbit_clear_bit by lia.
    + by rewrite orb_true_r.
    + by rewrite andb_false_r.
Qed.

Lemma sret_trap_entry st : SIE (sret (trap_entry st)) = SIE st ∧ SIE (trap_entry st) = false.
Proof.
  destruct (trap_entry_bits st) as (H1 & H5 & _). split; [|done].
  unfold SIE at 1, sret. rewrite testbit_clear_bit, testbit_set_bit, H5 by lia. unfold SIE in H1 |- *.
  destruct (Z.testbit st 1); rewrite ?testbit_set_bit, ?testbit_clear_bit, H1 by lia; done.
Qed.

(** Read registers through the writes in front of them. *)
Ltac regs := repeat first
  [ rewrite get_zero | rewrite get_set_reg by done | rewrite get_set_reg_ne by done
  | rewrite get_set_mcsr | rewrite csr_after_set_reg | rewrite mcsr_set_mcsr | rewrite mcsr_set_mcsr_ne by done ].

(** Find an element of a list that is written out. *)
Ltac in_list := simpl; repeat first [apply list_elem_of_here | apply list_elem_of_further].

(** ** Saving and restoring registers

    Runs of [sd] and [ld] with a common base.  [save_words] is their effect on
    memory, [load_regs] on the registers. *)

Definition sds (base : reg) (l : list (reg * Z)) : list instr := (λ '(r, off), Sd r off base) <$> l.
Definition lds (base : reg) (l : list (reg * Z)) : list instr := (λ '(r, off), Ld r off base) <$> l.

Fixpoint save_words (a : Z) (l : list (Z * Z)) (m : gmap Z Z) : gmap Z Z :=
  match l with
  | [] => m
  | (off, v) :: l' => save_words a l' (ram_store 8 (a + off) v m)
  end.

Fixpoint load_regs (a : Z) (l : list (reg * Z)) (m : gmap Z Z) (h : hart) : hart :=
  match l with
  | [] => h
  | (r, off) :: l' => load_regs a l' m (set_reg r (ram_load 8 (a + off) m) h)
  end.

(** The words lie in a frame of [n] bytes and do not overlap. *)
Definition words_ok (n : Z) (offs : list Z) : bool :=
  bool_decide (NoDup offs) && forallb (λ off, (0 <=? off) && (off + 8 <=? n) && (off mod 8 =? 0)) offs.

Section words.
Implicit Types (m : gmap Z Z) (a n off v x : Z) (l : list (Z * Z)).

Lemma save_words_app a l l' m : save_words a (l ++ l') m = save_words a l' (save_words a l m).
Proof. revert m. induction l as [|[off v] l IH]; intros m; simpl; auto. Qed.

Lemma words_ok_in n offs off : words_ok n offs = true → off ∈ offs → 0 <= off ∧ off + 8 <= n ∧ off mod 8 = 0.
Proof.
  unfold words_ok. intros [_ Hf]%andb_true_iff Hin. rewrite forallb_forall in Hf.
  specialize (Hf off (proj1 (list_elem_of_In _ _) Hin)). lia.
Qed.

Lemma words_ok_cons n off offs : words_ok n (off :: offs) = true → words_ok n offs = true ∧ off ∉ offs.
Proof.
  unfold words_ok. rewrite !andb_true_iff, !bool_decide_eq_true, NoDup_cons. simpl. rewrite andb_true_iff. tauto.
Qed.

Lemma save_words_out a n l m x : words_ok n l.*1 = true → x < a ∨ a + n <= x →
  byte_at (save_words a l m) x = byte_at m x.
Proof.
  revert m. induction l as [|[off v] l IH]; intros m Hok Hx; simpl in *; [done|].
  destruct (words_ok_in _ _ off Hok) as (? & ? & _); [set_solver|].
  apply words_ok_cons in Hok as [Hok _]. rewrite IH by done. apply byte_at_store_out. lia.
Qed.

(** A word of the frame that is not stored keeps its value. *)
Lemma save_words_other a n l m off : words_ok n l.*1 = true → off mod 8 = 0 → off ∉ l.*1 →
  ram_load 8 (a + off) (save_words a l m) = ram_load 8 (a + off) m.
Proof.
  revert m. induction l as [|[o v] l IH]; intros m Hok H8 Hn; simpl in *; [done|].
  destruct (words_ok_in _ _ o Hok) as (_ & _ & Ho); [set_solver|].
  apply words_ok_cons in Hok as [Hok _]. rewrite IH by set_solver.
  apply ram_load_store_ne. assert (o ≠ off) by set_solver. dlia.
Qed.

Lemma save_words_load a n l m off v : words_ok n l.*1 = true → (off, v) ∈ l →
  ram_load 8 (a + off) (save_words a l m) = u64 v.
Proof.
  revert m. induction l as [|[o w] l IH]; intros m Hok Hin; [by apply elem_of_nil in Hin|].
  simpl in Hok. destruct (words_ok_in _ _ o Hok) as (_ & _ & Ho); [set_solver|].
  apply words_ok_cons in Hok as [Hok Hno]. apply elem_of_cons in Hin as [[= -> ->]|Hin].
  - simpl. rewrite (save_words_other a n) by done. apply ram_load_store_eq.
  - simpl. by apply IH.
Qed.
End words.

(** A C function keeps the registers the convention preserves. *)
Lemma wp_c_call `{Platform} f clob h s (Q : hart → machine → Prop) :
  wp (f (get_reg h A0)) s (λ _ s', ∀ h', (∀ r, r ∈ callee_saved → get_reg h' r = get_reg h r) →
    h_csr h' = h_csr h → Q h' s') →
  wp (c_call f clob h) s Q.
Proof.
  intros Hw. apply wp_bind. eapply wp_mono; [exact Hw|]. intros [] s' HQ. apply wp_ret, HQ; [|done].
  intros r Hr. unfold get_reg. simpl. by rewrite bool_decide_true.
Qed.

Section blocks.
Context `{Platform} (calls : String.string → hart → M hart).
Implicit Types (h : hart) (s : machine) (ins : list instr).

(** One instruction, then the rest. *)
Lemma wp_block_cons i ins h s (Q : hart * next → machine → Prop) :
  wp (exec calls i h) s (λ r s', match r with
    | (h', Fall) => wp (run_block calls ins h') s' Q
    | (h', n) => Q (h', n) s'
    end) →
  wp (run_block calls (i :: ins) h) s Q.
Proof.
  intros Hw. apply wp_bind. eapply wp_mono; [exact Hw|]. intros [h' []] s' HQ; [exact HQ|by apply wp_ret..].
Qed.

(** Blocks in sequence. *)
Lemma wp_block_app ins ins' h s (Q : hart * next → machine → Prop) :
  wp (run_block calls ins h) s (λ r s', match r with
    | (h', Fall) => wp (run_block calls ins' h') s' Q
    | (h', n) => Q (h', n) s'
    end) →
  wp (run_block calls (ins ++ ins') h) s Q.
Proof.
  revert h s. induction ins as [|i ins IH]; intros h s Hw; simpl in *.
  - by apply (wp_Ok _ _ _ (h, Fall) s) in Hw.
  - destruct Hw as ([h2 n2] & s2 & E & HQ). unfold bind in E.
    destruct (exec calls i h s) as [[h1 n1] s1|] eqn:E1; [|done].
    apply wp_bind. eexists _, _. split; [exact E1|]. simpl.
    destruct n1; [|injection E as <- <- <-; by apply wp_ret..]. apply IH. by exists (h2, n2), s2.
Qed.

(** A program whose code leaves, goes to a label, or calls a function. *)
Lemma wp_asm_leave n c ins h s (Q : hart * exit → machine → Prop) :
  wp (run_block calls ins h) s (λ r s', ∃ h' e, r = (h', Leave e) ∧ Q (h', e) s') →
  wp (asm_run calls n c ins h) s Q.
Proof.
  intros Hw. destruct n; cbn [asm_run]; apply wp_bind; (eapply wp_mono; [exact Hw|]);
    intros r s' (h' & e & -> & HQ); by apply wp_ret.
Qed.

(** Straight-line code in front of a program. *)
Lemma run_block_prefix ins ins' h s h' s' :
  run_block calls ins h s = Ok (h', Fall) s' → run_block calls (ins ++ ins') h s = run_block calls ins' h' s'.
Proof.
  revert h s. induction ins as [|i ins IH]; intros h s E; cbn [run_block app] in *; [by injection E as <- <-|].
  unfold bind in *. destruct (exec calls i h s) as [[h1 [|l|e]] s1|]; [by apply IH|done..].
Qed.

Lemma wp_asm_prefix n c ins ins' h s (Q : hart * exit → machine → Prop) :
  wp (run_block calls ins h) s (λ r s', ∃ h', r = (h', Fall) ∧ wp (asm_run calls n c ins' h') s' Q) →
  wp (asm_run calls n c (ins ++ ins') h) s Q.
Proof.
  intros ([h1 nx] & s1 & E & h' & [= -> ->] & Hw). unfold wp in *.
  assert (asm_run calls n c (ins ++ ins') h s = asm_run calls n c ins' h' s1) as ->; [|exact Hw].
  destruct n; cbn [asm_run]; unfold bind; by rewrite (run_block_prefix _ _ _ _ _ _ E).
Qed.

Lemma wp_asm_goto n c ins h s (Q : hart * exit → machine → Prop) :
  wp (run_block calls ins h) s (λ r s', ∃ h' l ins', r = (h', To l) ∧ code_from l c = Some ins' ∧
    wp (asm_run calls n c ins' h') s' Q) →
  wp (asm_run calls (S n) c ins h) s Q.
Proof.
  intros Hw. cbn [asm_run]. apply wp_bind. eapply wp_mono; [exact Hw|].
  intros r s' (h' & l & ins' & -> & E & HQ). cbv beta iota. by rewrite E.
Qed.

Lemma in_ram_not_clint a n : in_ram a n = true → in_clint a n = false.
Proof. rewrite in_ram_spec. unfold in_clint, RAM_BASE, RAM_END. lia. Qed.

Lemma wp_asm_store n a v s (Q : unit → machine → Prop) :
  in_ram a n = true → Q tt (set_ram (ram_store n a v (m_ram s)) s) → wp (asm_store n a v) s Q.
Proof. intros E HQ. unfold asm_store. rewrite in_ram_not_clint by done. by apply wp_store. Qed.

(** An offset into a frame in RAM. *)
Lemma frame_word a n off :
  in_ram a n = true → 0 <= off → off + 8 <= n → in_ram (u64 (a + off)) 8 = true ∧ u64 (a + off) = a + off.
Proof.
  rewrite !in_ram_spec. unfold RAM_BASE, RAM_END. intros. assert (u64 (a + off) = a + off) as -> by (apply u64_small; lia).
  split; [|done]. simpl. lia.
Qed.

Lemma wp_sds base (n : nat) l h s (Q : hart * next → machine → Prop) :
  in_ram (get_reg h base) n = true → words_ok n l.*2 = true →
  Q (h, Fall) (set_ram (save_words (get_reg h base) ((λ '(r, off), (off, get_reg h r)) <$> l) (m_ram s)) s) →
  wp (run_block calls (sds base l) h) s Q.
Proof.
  intros Hin. revert s. induction l as [|[r off] l IH]; intros s Hok HQ; simpl in *.
  - apply wp_ret. by destruct s.
  - destruct (words_ok_in _ _ off Hok) as (? & ? & _); [set_solver|].
    apply words_ok_cons in Hok as [Hok _]. destruct (frame_word _ _ off Hin) as [Hr E]; [lia..|].
    apply wp_bind, wp_bind, wp_asm_store; [done|]. apply wp_ret. apply IH; [done|]. by rewrite E.
Qed.

Lemma wp_lds base (n : nat) l h s (Q : hart * next → machine → Prop) :
  in_ram (get_reg h base) n = true → words_ok n l.*2 = true → base ∉ l.*1 →
  Q (load_regs (get_reg h base) l (m_ram s) h, Fall) s →
  wp (run_block calls (lds base l) h) s Q.
Proof.
  revert h. induction l as [|[r off] l IH]; intros h Hin Hok Hb HQ; simpl in *.
  - by apply wp_ret.
  - destruct (words_ok_in _ _ off Hok) as (? & ? & _); [set_solver|].
    apply words_ok_cons in Hok as [Hok _]. destruct (frame_word _ _ off Hin) as [Hr E]; [lia..|].
    assert (get_reg (set_reg r (ram_load 8 (u64 (get_reg h base + off)) (m_ram s)) h) base = get_reg h base) as Eb.
    { apply get_set_reg_ne. set_solver. }
    apply wp_bind, wp_bind, wp_load; [done|]. apply wp_ret. apply IH; rewrite ?Eb; [done|done|set_solver|].
    by rewrite E in *.
Qed.
End blocks.

(** The registers after a run of loads, each read once. *)
Lemma load_regs_in a l m h r off : NoDup l.*1 → r ≠ Zero → (r, off) ∈ l →
  get_reg (load_regs a l m h) r = ram_load 8 (a + off) m.
Proof.
  intros Hnd Hr. revert h. induction l as [|[r' o] l IH]; intros h Hin; [by apply elem_of_nil in Hin|].
  simpl in *. apply NoDup_cons in Hnd as [Hn Hnd].
  assert (∀ h, r ∉ l.*1 → get_reg (load_regs a l m h) r = get_reg h r) as Hout.
  { clear. induction l as [|[r' o] l IH]; intros h Hn; simpl in *; [done|].
    rewrite IH by set_solver. apply get_set_reg_ne. set_solver. }
  apply elem_of_cons in Hin as [[= <- <-]|Hin]; [|by apply IH].
  rewrite Hout, get_set_reg by done. apply Z.mod_small, (ram_load_range 8).
Qed.

Lemma load_regs_out a l m h r : r ∉ l.*1 → get_reg (load_regs a l m h) r = get_reg h r.
Proof.
  revert h. induction l as [|[r' o] l IH]; intros h Hn; simpl in *; [done|].
  rewrite IH by set_solver. apply get_set_reg_ne. set_solver.
Qed.

Lemma load_regs_csr a l m h : h_csr (load_regs a l m h) = h_csr h.
Proof. revert h. induction l as [|[r o] l IH]; intros h; simpl; [done|]. by rewrite IH, csr_after_set_reg. Qed.
