(* ===== verification/TrapVector.v ===== *)
(** * trap.S: the supervisor trap vector

    The instructions of [trap_vector], the frame they build on the stack of the
    interrupted code, and what the whole vector does.  The frame is what [trapped]
    says, so the handler's theorems apply to it; and after the
    handler the interrupted code finds all registers as they were, at once
    ([interrupt_transparent]) or after other code ran ([trap_vector_roundtrip]).
    [run_vector] is an interrupt from its first instruction to its last, or to the
    switch to the scheduler if it takes the processor from a process
    ([vector_switch]); Sched.v and Interrupts.v run it as it is. *)

From S2P Require Import Prelude Globals Machine Utils Uart Heap HeapSpec Process Trap Asm.

(** ** The code *)

(** Up to the call of [trap_handler]. *)
Definition trap_save : list instr :=
  [Addi Sp Sp (-288);
   Sd Ra 8 Sp; Sd T0 40 Sp;
   Addi T0 Sp 288; Sd T0 16 Sp;
   Sd Gp 24 Sp; Sd Tp 32 Sp; Sd T1 48 Sp; Sd T2 56 Sp; Sd S0 64 Sp; Sd S1 72 Sp;
   Sd A0 80 Sp; Sd A1 88 Sp; Sd A2 96 Sp; Sd A3 104 Sp; Sd A4 112 Sp; Sd A5 120 Sp;
   Sd A6 128 Sp; Sd A7 136 Sp; Sd S2 144 Sp; Sd S3 152 Sp; Sd S4 160 Sp; Sd S5 168 Sp;
   Sd S6 176 Sp; Sd S7 184 Sp; Sd S8 192 Sp; Sd S9 200 Sp; Sd S10 208 Sp; Sd S11 216 Sp;
   Sd T3 224 Sp; Sd T4 232 Sp; Sd T5 240 Sp; Sd T6 248 Sp;
   CsrR T0 Sstatus; Sd T0 256 Sp;
   CsrR T0 Sepc; Sd T0 264 Sp;
   CsrR T0 Scause; Sd T0 272 Sp;
   CsrR T0 Stval; Sd T0 280 Sp;
   Mv A0 Sp].

(** After it. *)
Definition trap_restore : list instr :=
  [Ld T0 256 Sp; CsrW Sstatus T0;
   Ld T0 264 Sp; CsrW Sepc T0;
   Ld Ra 8 Sp; Ld Gp 24 Sp; Ld Tp 32 Sp; Ld T0 40 Sp; Ld T1 48 Sp; Ld T2 56 Sp;
   Ld S0 64 Sp; Ld S1 72 Sp; Ld A0 80 Sp; Ld A1 88 Sp; Ld A2 96 Sp; Ld A3 104 Sp;
   Ld A4 112 Sp; Ld A5 120 Sp; Ld A6 128 Sp; Ld A7 136 Sp; Ld S2 144 Sp; Ld S3 152 Sp;
   Ld S4 160 Sp; Ld S5 168 Sp; Ld S6 176 Sp; Ld S7 184 Sp; Ld S8 192 Sp; Ld S9 200 Sp;
   Ld S10 208 Sp; Ld S11 216 Sp; Ld T3 224 Sp; Ld T4 232 Sp; Ld T5 240 Sp; Ld T6 248 Sp;
   Ld Sp 16 Sp;
   Sret].

Definition trap_S : code :=
  [("trap_vector", trap_save ++ Call "trap_handler" :: trap_restore)].

(** ** The frame *)

(** The index of a register in [regs] of [struct trap_context]. *)
Definition reg_num (r : reg) : Z :=
  match list_find (λ x, x = r) all_regs with Some (i, _) => Z.of_nat i | None => 0 end.

(** The frame at [ctx] holds the registers [h] and the control registers [c]. *)
Record frame_of (ctx : Z) (h : hart) (c : csrs) (m : gmap Z Z) : Prop := {
  fr_regs : ∀ r, r ≠ Zero → ram_load 8 (ctx_reg ctx (reg_num r)) m = get_reg h r;
  fr_sstatus : ram_load 8 (ctx_sstatus ctx) m = sstatus c;
  fr_sepc : ram_load 8 (ctx_sepc ctx) m = sepc c;
  fr_scause : ram_load 8 (ctx_scause ctx) m = scause c;
  fr_stval : ram_load 8 (ctx_stval ctx) m = stval c;
}.

(** The control registers a trap saves hold 64-bit values. *)
Definition csrs_ok (c : csrs) : Prop :=
  0 <= sstatus c < 2 ^ 64 ∧ 0 <= sepc c < 2 ^ 64 ∧ 0 <= scause c < 2 ^ 64 ∧ 0 <= stval c < 2 ^ 64.

(** The frame of the code that is interrupted with the registers [h]. *)
Definition frame_at (h : hart) : Z := get_reg h Sp - 288.
Definition in_frame (h : hart) (x : Z) : Prop := frame_at h <= x < frame_at h + 288.

Lemma frame_of_same ctx h c m m' : frame_of ctx h c m → same_on (λ x, ctx <= x < ctx + 288) m m' → frame_of ctx h c m'.
Proof.
  intros [Hr H1 H2 H3 H4] Hs. unfold ctx_reg, ctx_sstatus, ctx_sepc, ctx_scause, ctx_stval in *.
  assert (∀ off, 0 <= off <= 280 → ram_load 8 (ctx + off) m' = ram_load 8 (ctx + off) m) as E.
  { intros off Ho. eapply same_on_load; [exact Hs|]. simpl. lia. }
  split; [|unfold ctx_sstatus, ctx_sepc, ctx_scause, ctx_stval; by rewrite E by lia..]. intros r Hz. unfold ctx_reg.
  rewrite E; [by apply Hr|]. destruct r; vm_compute; intuition congruence.
Qed.

(** The registers in the order in which they are stored, from the third on. *)
Definition saved_regs : list (reg * Z) :=
  [(Gp, 24); (Tp, 32); (T1, 48); (T2, 56); (S0, 64); (S1, 72); (A0, 80); (A1, 88); (A2, 96); (A3, 104);
   (A4, 112); (A5, 120); (A6, 128); (A7, 136); (S2, 144); (S3, 152); (S4, 160); (S5, 168); (S6, 176);
   (S7, 184); (S8, 192); (S9, 200); (S10, 208); (S11, 216); (T3, 224); (T4, 232); (T5, 240); (T6, 248)].

(** The words of the frame in the order in which they are stored. *)
Definition frame_words (h : hart) (c : csrs) : list (Z * Z) :=
  (8, get_reg h Ra) :: (40, get_reg h T0) :: (16, get_reg h Sp) ::
  ((λ '(r, off), (off, get_reg h r)) <$> saved_regs) ++
  [(256, sstatus c); (264, sepc c); (272, scause c); (280, stval c)].

Lemma frame_words_ok h c : words_ok 288 (frame_words h c).*1 = true.
Proof. by vm_compute. Qed.

Lemma save_frame h c m ctx : hart_ok h → csrs_ok c → frame_of ctx h c (save_words ctx (frame_words h c) m).
Proof.
  intros Hh (? & ? & ? & ?).
  assert (∀ off v, (off, v) ∈ frame_words h c → 0 <= v < 2 ^ 64 →
    ram_load 8 (ctx + off) (save_words ctx (frame_words h c) m) = v) as E.
  { intros off v Hin Hv. rewrite (save_words_load _ 288 _ _ off v) by (done || apply frame_words_ok). by apply u64_small. }
  split; [|apply E; [in_list|done]..].
  intros r Hz. apply E; [|apply Hh]. destruct r; [done|in_list..].
Qed.

(** [m1] is [m] after a timer interrupt entered [trap_vector], which built the
    trap frame [ctx]. *)
Definition trapped `{Platform} (ctx : Z) (m m1 : machine) : Prop :=
  in_ram ctx 288 = true ∧ ram_load 8 (ctx_scause ctx) (m_ram m1) = 2 ^ 63 + IRQ_S_TIMER ∧
  ram_load 8 (ctx_sstatus ctx) (m_ram m1) = trap_entry (sstatus (m_csr m)) ∧
  m_sched m1 = m_sched m ∧
  ∃ pc tval, ram_load 8 (ctx_sepc ctx) (m_ram m1) = pc ∧
    m_csr m1 = trap_csr pc (2 ^ 63 + IRQ_S_TIMER) tval (m_csr m).

Section vector.
Context `{Platform} (calls : String.string → hart → M hart).
Implicit Types (h : hart) (s : machine).

Lemma wp_trap_save h s (Q : hart * next → machine → Prop) :
  hart_ok h → csrs_ok (m_csr s) → in_ram (frame_at h) 288 = true →
  (∀ h', get_reg h' A0 = frame_at h → get_reg h' Sp = frame_at h → h_csr h' = h_csr h →
     (∀ r, r ∈ callee_saved → r ≠ Sp → get_reg h' r = get_reg h r) →
     Q (h', Fall) (set_ram (save_words (frame_at h) (frame_words h (m_csr s)) (m_ram s)) s)) →
  wp (run_block calls trap_save h) s Q.
Proof.
  intros Hh Hc Hin HQ.
  assert (trap_save = [Addi Sp Sp (-288)] ++ sds Sp [(Ra, 8); (T0, 40)] ++ [Addi T0 Sp 288] ++
    sds Sp ((T0, 16) :: saved_regs) ++ [CsrR T0 Sstatus] ++ sds Sp [(T0, 256)] ++ [CsrR T0 Sepc] ++
    sds Sp [(T0, 264)] ++ [CsrR T0 Scause] ++ sds Sp [(T0, 272)] ++ [CsrR T0 Stval] ++ sds Sp [(T0, 280)] ++
    [Mv A0 Sp]) as -> by done.
  assert (u64 (get_reg h Sp + -288) = frame_at h) as Ea.
  { unfold frame_at. apply in_ram_spec in Hin. unfold frame_at, RAM_BASE, RAM_END in Hin.
    apply u64_small. lia. }
  assert (u64 (frame_at h + 288) = get_reg h Sp) as Eb.
  { unfold frame_at. rewrite u64_small; [lia|]. specialize (Hh Sp). lia. }
  destruct Hc as (? & ? & ? & ?).
  apply wp_block_app, wp_bind, wp_ret, wp_ret. set (h1 := set_reg Sp _ h).
  assert (get_reg h1 Sp = frame_at h) as E1 by (unfold h1; by regs).
  apply wp_block_app, (wp_sds _ _ 288); [by rewrite E1|done|]. rewrite E1.
  apply wp_block_app, wp_bind, wp_ret, wp_ret. rewrite E1. set (h2 := set_reg T0 _ h1).
  assert (get_reg h2 Sp = frame_at h) as E2 by (unfold h2; by regs).
  apply wp_block_app, (wp_sds _ _ 288); [by rewrite E2|by vm_compute|]. rewrite E2.
  do 4 (apply wp_block_app, wp_bind, wp_bind, wp_get, wp_ret, wp_ret;
    apply wp_block_app, (wp_sds _ _ 288); [regs; by rewrite E2|done|]).
  apply wp_bind, wp_ret, wp_ret. regs. rewrite E2. cbn [m_ram set_ram m_csr].
  rewrite <- !save_words_app. rewrite !set_ram_ram.
  match goal with |- Q _ (set_ram (save_words _ ?l _) _) => assert (l = frame_words h (m_csr s)) as -> end.
  { cbn [app fmap list_fmap saved_regs]. unfold frame_words. cbn [app fmap list_fmap saved_regs].
    unfold h2, h1. regs. rewrite Eb. by rewrite !u64_small by done. }
  apply HQ; unfold h2, h1; regs; [|done|done|].
  - by rewrite u64_small by (rewrite <- Ea; apply u64_range).
  - intros r Hr Hsp. assert (A0 ∉ callee_saved ∧ T0 ∉ callee_saved) as [? ?]
      by (split; by apply (bool_decide_unpack _); vm_compute).
    by rewrite !get_set_reg_ne by (intros <-; done).
Qed.

Lemma wp_trap_restore ctx h h' c s (Q : hart * next → machine → Prop) :
  hart_ok h → csrs_ok c → in_ram ctx 288 = true → get_reg h' Sp = ctx → frame_of ctx h c (m_ram s) →
  (∀ h2, (∀ r, get_reg h2 r = get_reg h r) → h_csr h2 = h_csr h' →
     Q (h2, Leave (Sreturned (SPP (sstatus c)) (sepc c)))
       (set_csr (with_sstatus (sret (sstatus c)) (with_sepc (sepc c) (m_csr s))) s)) →
  wp (run_block calls trap_restore h') s Q.
Proof.
  intros Hh (? & ? & ? & ?) Hin Hsp [Hr Hf1 Hf2 _ _] HQ.
  set (l := [(Ra, 8); (Gp, 24); (Tp, 32); (T0, 40); (T1, 48); (T2, 56); (S0, 64); (S1, 72); (A0, 80); (A1, 88);
    (A2, 96); (A3, 104); (A4, 112); (A5, 120); (A6, 128); (A7, 136); (S2, 144); (S3, 152); (S4, 160); (S5, 168);
    (S6, 176); (S7, 184); (S8, 192); (S9, 200); (S10, 208); (S11, 216); (T3, 224); (T4, 232); (T5, 240); (T6, 248)]).
  assert (trap_restore = [Ld T0 256 Sp; CsrW Sstatus T0; Ld T0 264 Sp; CsrW Sepc T0] ++ lds Sp l ++
    [Ld Sp 16 Sp; Sret]) as -> by done.
  assert (∀ off, 0 <= off <= 280 → in_ram (u64 (ctx + off)) 8 = true ∧ u64 (ctx + off) = ctx + off) as E.
  { intros. apply (frame_word _ 288); [done|lia..]. }
  apply wp_block_app. cbn [run_block exec csr_set].
  destruct (E 256) as [I1 E1]; [lia|]. destruct (E 264) as [I2 E2]; [lia|]. destruct (E 16) as [I3 E3]; [lia|].
  apply wp_bind, wp_bind, wp_load; rewrite Hsp; [done|]. apply wp_ret, wp_bind, wp_bind, wp_bind, wp_modify, wp_ret, wp_ret.
  apply wp_bind, wp_bind, wp_load; regs; rewrite Hsp; [done|]. apply wp_ret, wp_bind, wp_bind, wp_bind, wp_modify, wp_ret, wp_ret.
  apply wp_ret. regs. cbn [m_ram set_csr m_csr]. rewrite E1, E2.
  change (ctx + 256) with (ctx_sstatus ctx). change (ctx + 264) with (ctx_sepc ctx). rewrite Hf1, Hf2, !u64_small by done.
  set (h1 := set_reg T0 _ _). assert (get_reg h1 Sp = ctx) as Hsp1 by (unfold h1; by regs).
  apply wp_block_app, (wp_lds _ _ 288); rewrite ?Hsp1; [done|by vm_compute|by apply (bool_decide_unpack _); vm_compute|].
  cbn [m_ram set_csr]. set (h3 := load_regs _ _ _ _).
  assert (get_reg h3 Sp = ctx) as Hsp3.
  { unfold h3. rewrite load_regs_out; [done|]. by apply (bool_decide_unpack _); vm_compute. }
  cbn [run_block exec]. apply wp_bind, wp_bind, wp_load; rewrite Hsp3; [done|]. rewrite E3. apply wp_ret.
  apply wp_bind, wp_bind, wp_get, wp_bind, wp_modify, wp_ret, wp_ret. apply HQ.
  - intros r. destruct (decide (r = Sp)) as [->|Hne].
    { rewrite get_set_reg by done. rewrite <- (Hr Sp) by done. apply u64_small, (ram_load_range 8). }
    rewrite get_set_reg_ne by done. destruct (decide (r = Zero)) as [->|Hz]; [done|].
    rewrite <- (Hr r) by done. apply load_regs_in; [by apply (bool_decide_unpack _); vm_compute|done|].
    destruct r; try done; in_list.
  - unfold h3, h1. by rewrite csr_after_set_reg, load_regs_csr, !csr_after_set_reg.
Qed.
(** The same from whatever the frame in memory holds. *)
Lemma wp_restore ctx h' s :
  in_ram ctx 288 = true → get_reg h' Sp = ctx →
  let st := ram_load 8 (ctx_sstatus ctx) (m_ram s) in
  let epc := ram_load 8 (ctx_sepc ctx) (m_ram s) in
  wp (run_block calls trap_restore h') s (λ '(h2, n) s', n = Leave (Sreturned (SPP st) epc) ∧
    s' = set_csr (with_sstatus (sret st) (with_sepc epc (m_csr s))) s ∧
    ∀ r, r ≠ Zero → get_reg h2 r = ram_load 8 (ctx_reg ctx (reg_num r)) (m_ram s)).
Proof.
  intros Hin Hsp st epc. set (h := Hart (λ r, ram_load 8 (ctx_reg ctx (reg_num r)) (m_ram s)) (h_csr h')).
  set (c := Csrs st 0 0 0 0 0 epc (ram_load 8 (ctx_scause ctx) (m_ram s)) (ram_load 8 (ctx_stval ctx) (m_ram s))).
  assert (∀ r, r ≠ Zero → get_reg h r = ram_load 8 (ctx_reg ctx (reg_num r)) (m_ram s)) as Hh
    by (intros r Hr; unfold get_reg; by rewrite decide_False).
  apply (wp_trap_restore ctx h h' c); [| |done|done| |].
  - intros r. destruct (decide (r = Zero)) as [->|Hr]; [by rewrite get_zero|]. rewrite Hh by done. apply (ram_load_range 8).
  - split_and!; apply (ram_load_range 8).
  - split; [|done..]. intros r Hr. by rewrite Hh.
  - intros h2 Hr _. split_and!; [done|done|]. intros r Hz. by rewrite Hr, Hh.
Qed.
End vector.

(** ** What the vector does *)

Section interrupts.
Context `{Platform} {TX : UartTx} `{Code}.
Implicit Types (h : hart) (s : machine) (clob : reg → Z).

(** The only C function trap.S calls. *)
Definition trap_calls clob (f : String.string) (h : hart) : M hart :=
  if decide (f = "trap_handler") then c_call trap_handler clob h else halt Undefined.

(** The hardware takes a trap at [pc]. *)
Definition interrupted (pc cause tval : Z) s : machine := set_csr (trap_csr pc cause tval (m_csr s)) s.

(** A trap the vector can handle: the stack has room for the frame. *)
Record trap_ok h (pc cause tval : Z) s : Prop := {
  to_hart : hart_ok h;
  to_csrs : csrs_ok (trap_csr pc cause tval (m_csr s));
  to_stack : in_ram (frame_at h) 288 = true;
}.

Lemma trapped_frame h pc tval s m :
  in_ram (frame_at h) 288 = true →
  frame_of (frame_at h) h (trap_csr pc (2 ^ 63 + IRQ_S_TIMER) tval (m_csr s)) m →
  trapped (frame_at h) s (set_ram m (interrupted pc (2 ^ 63 + IRQ_S_TIMER) tval s)).
Proof. intros Hin [_ F1 F2 F3 _]. split_and!; [done..|]. by exists pc, tval. Qed.

(** C11: the trap vector is transparent.  Whatever is interrupted, with whatever
    registers, [trap_vector] builds below its stack pointer the
    [struct trap_context] with all its registers and the control registers of
    the trap, passes its address to the handler, and changes no other memory
    (for the timer, this is the state the scheduler's theorems start from).
    When the handler comes back, however much later and whatever was run in
    between, with the frame and the stack pointer as they were, all registers
    are as they were, control goes to where the trap came from in supervisor
    mode, and interrupts are on if they were on.  The word for x0 is never
    written: it is what the stack held. *)
Theorem trap_vector_roundtrip calls h s pc cause tval :
  trap_ok h pc cause tval s →
  wp (run_block calls trap_save h) (interrupted pc cause tval s) (λ '(h1, n) s1,
    n = Fall ∧ get_reg h1 A0 = frame_at h ∧ get_reg h1 Sp = frame_at h ∧
    s1 = set_ram (m_ram s1) (interrupted pc cause tval s) ∧
    same_on (λ x, ¬ in_frame h x) (m_ram s) (m_ram s1) ∧
    frame_of (frame_at h) h (trap_csr pc cause tval (m_csr s)) (m_ram s1) ∧
    ram_load 8 (ctx_reg (frame_at h) 0) (m_ram s1) = ram_load 8 (frame_at h) (m_ram s) ∧
    (cause = 2 ^ 63 + IRQ_S_TIMER → trapped (frame_at h) s s1) ∧
    ∀ h2 s2, get_reg h2 Sp = frame_at h → same_on (in_frame h) (m_ram s1) (m_ram s2) →
      wp (run_block calls trap_restore h2) s2 (λ '(h3, n) s3,
        n = Leave (Sreturned true pc) ∧ (∀ r, get_reg h3 r = get_reg h r) ∧ h_csr h3 = h_csr h2 ∧
        ∃ st, s3 = set_csr (with_sstatus st (with_sepc pc (m_csr s2))) s2 ∧ SIE st = SIE (sstatus (m_csr s)))).
Proof.
  intros [Hh Hc Hin]. apply wp_trap_save; [done..|]. intros h1 Ha Hsp _ _.
  set (c := trap_csr pc cause tval (m_csr s)) in *. change (m_csr (interrupted pc cause tval s)) with c.
  change (m_ram (interrupted pc cause tval s)) with (m_ram s).
  pose proof (save_frame h c (m_ram s) (frame_at h) Hh Hc) as Hf.
  assert (words_ok 288 (frame_words h c).*1 = true) as Hok by apply frame_words_ok.
  split_and!; [done..| |done| | |]; cbn [m_ram set_ram].
  - intros x Hx. apply (save_words_out _ 288); [done|]. unfold in_frame in Hx. lia.
  - unfold ctx_reg. rewrite (save_words_other _ 288) by (done || by apply (bool_decide_unpack _); vm_compute).
    f_equal. lia.
  - intros ->. by apply trapped_frame.
  - intros h2 s2 Hsp2 Hs. apply (wp_trap_restore _ (frame_at h) h _ c); [done..|by eapply frame_of_same|].
    intros h3 Hr3 Hc3. destruct (trap_entry_bits (sstatus (m_csr s))) as (_ & _ & Hspp).
    split_and!; [by simpl; rewrite Hspp|done|done|]. eexists. split; [done|]. apply sret_trap_entry.
Qed.

(** What a handler that returns leaves alone. *)
Definition handled s s' : Prop :=
  m_ram s' = m_ram s ∧ m_heap s' = m_heap s ∧ m_net s' = m_net s ∧ m_sched s' = m_sched s ∧
  sie (m_csr s') = sie (m_csr s) ∧ stvec (m_csr s') = stvec (m_csr s) ∧ satp (m_csr s') = satp (m_csr s).

Lemma prints_handled s s' out : prints s s' out → handled s s'.
Proof.
  intros P. unfold handled. rewrite (prints_ram _ _ _ P), (prints_heap _ _ _ P), (prints_sched _ _ _ P), (prints_csr _ _ _ P).
  split_and!; try done. by destruct P as (evs & [d ->] & _).
Qed.

(** An interrupt that is not the end of the kernel, and not one that takes the
    processor from a process. *)
Definition returning (code : Z) s : Prop :=
  code ∈ [IRQ_S_SOFT; IRQ_S_TIMER; IRQ_S_EXT] ∧ (code = IRQ_S_TIMER → current_process (m_sched s) = None).

Lemma handler_returns s ctx code :
  in_ram ctx 288 = true → ram_load 8 (ctx_scause ctx) (m_ram s) = 2 ^ 63 + code → returning code s →
  wp (trap_handler ctx) s (λ _ s', handled s s').
Proof.
  intros Hctx Hv [Hcode Hidle]. rewrite !elem_of_cons, elem_of_nil in Hcode.
  assert (0 <= code < 2 ^ 63) as Hr by (unfold IRQ_S_SOFT, IRQ_S_TIMER, IRQ_S_EXT in Hcode; lia).
  destruct (trap_handler_enter s ctx code Hctx Hv Hr) as (s1 & P1 & E). unfold wp. rewrite E.
  destruct Hcode as [->|[->|[->|[]]]].
  - apply wp_bind, wp_puts_lit; [done|]. intros s2 P2. apply wp_modify.
    exact (prints_handled _ _ _ (prints_app _ _ _ _ _ P1 P2)).
  - rewrite <- E. eapply wp_mono; [apply trap_timer_idle; auto|].
    by intros [] s2 (evs & ds & t & d & d' & _ & _ & _ & ->).
  - apply wp_puts_lit; [done|]. intros s2 P2. exact (prints_handled _ _ _ (prints_app _ _ _ _ _ P1 P2)).
Qed.

Lemma wp_interrupt n clob h s pc tval code :
  trap_ok h pc (2 ^ 63 + code) tval s → returning code s →
  wp (asm_enter (trap_calls clob) n trap_S "trap_vector" h) (interrupted pc (2 ^ 63 + code) tval s)
    (λ '(h', e) s', e = Sreturned true pc ∧ (∀ r, get_reg h' r = get_reg h r) ∧ h_csr h' = h_csr h ∧
      SIE (sstatus (m_csr s')) = SIE (sstatus (m_csr s)) ∧
      handled (set_ram (m_ram s') s) s' ∧ same_on (λ x, ¬ in_frame h x) (m_ram s) (m_ram s')).
Proof.
  intros [Hh Hc Hin] Hret. unfold asm_enter. change (code_from _ trap_S) with
    (Some ((trap_save ++ Call "trap_handler" :: trap_restore) ++ [])). rewrite app_nil_r.
  set (c := trap_csr pc _ tval (m_csr s)) in *. set (s1 := interrupted _ _ _ s).
  apply wp_asm_leave, wp_block_app, wp_trap_save; [done..|]. intros h1 Ha Hsp Hcsr _. change (m_csr s1) with c.
  set (m := save_words _ _ _). pose proof (save_frame h c (m_ram s1) (frame_at h) Hh Hc) as Hf. fold m in Hf.
  apply wp_bind, wp_bind. unfold trap_calls at 1. rewrite decide_True by done. apply wp_c_call. rewrite Ha.
  eapply wp_mono; [apply (handler_returns _ _ code); [done|by apply (fr_scause _ _ _ _ Hf)|done]|].
  intros [] s2 (R2 & H2 & N2 & V2 & K1 & K2 & K3) h2 Hkeep Hcsr2. apply wp_ret.
  apply (wp_trap_restore _ (frame_at h) h _ c); [done..| |by rewrite R2|].
  { rewrite Hkeep by in_list. exact Hsp. }
  intros h3 Hr3 Hc3. eexists _, _. split; [done|]. destruct (trap_entry_bits (sstatus (m_csr s))) as (_ & _ & Hspp).
  split_and!; [simpl; by rewrite Hspp|done|congruence|apply sret_trap_entry|done|].
  intros x Hx. cbn [m_ram set_csr]. rewrite R2. apply (save_words_out _ 288); [apply frame_words_ok|].
  unfold in_frame in Hx. lia.
Qed.

(** The instructions of trap.S, entered by the hardware at [pc]. *)
Definition run_vector n clob h pc tval code s : res (hart * exit) :=
  asm_enter (trap_calls clob) n trap_S "trap_vector" h (interrupted pc (2 ^ 63 + code) tval s).

(** The state the handler starts in. *)
Lemma vector_enters clob h pc cause tval s : trap_ok h pc cause tval s →
  ∃ h1 m1, run_block (trap_calls clob) trap_save h (interrupted pc cause tval s) =
      Ok (h1, Fall) (set_ram m1 (interrupted pc cause tval s)) ∧
    get_reg h1 A0 = frame_at h ∧ frame_of (frame_at h) h (trap_csr pc cause tval (m_csr s)) m1 ∧
    same_on (λ x, ¬ in_frame h x) (m_ram s) m1.
Proof.
  intros [Hh Hc Hin].
  assert (wp (run_block (trap_calls clob) trap_save h) (interrupted pc cause tval s) (λ '(h1, n) s1, n = Fall ∧
    get_reg h1 A0 = frame_at h ∧ s1 = set_ram (save_words (frame_at h) (frame_words h (trap_csr pc cause tval (m_csr s)))
      (m_ram s)) (interrupted pc cause tval s))) as ([h1 n] & s1 & E & -> & Ha & ->).
  { by apply wp_trap_save. }
  eexists h1, _. split; [exact E|]. split_and!; [done|by apply save_frame|].
  intros x Hx. apply (save_words_out _ 288); [apply frame_words_ok|]. unfold in_frame in Hx. lia.
Qed.

(** When the handler does not come back, neither does the vector. *)
Lemma vector_stops n clob h pc tval code s h1 m1 e s' :
  run_block (trap_calls clob) trap_save h (interrupted pc (2 ^ 63 + code) tval s) =
    Ok (h1, Fall) (set_ram m1 (interrupted pc (2 ^ 63 + code) tval s)) →
  get_reg h1 A0 = frame_at h →
  trap_handler (frame_at h) (set_ram m1 (interrupted pc (2 ^ 63 + code) tval s)) = Stop e s' →
  run_vector n clob h pc tval code s = Stop e s'.
Proof.
  intros E Ha Eh. unfold run_vector, asm_enter. change (code_from _ trap_S) with
    (Some ((trap_save ++ Call "trap_handler" :: trap_restore) ++ [])). rewrite app_nil_r. cbv beta iota.
  assert (run_block (trap_calls clob) (trap_save ++ Call "trap_handler" :: trap_restore) h
    (interrupted pc (2 ^ 63 + code) tval s) = Stop e s') as Er.
  { rewrite (run_block_prefix _ _ _ _ _ _ _ E). cbn [run_block exec]. unfold bind at 1 2.
    unfold trap_calls at 1. rewrite decide_True by done. unfold c_call, bind. by rewrite Ha, Eh. }
  destruct n; cbn [asm_run]; unfold bind; by rewrite Er.
Qed.

(** [s1] is [s] after a timer interrupt at [pc] was served up to the [yield] of
    its handler. *)
Record caught h pc tval s s1 : Prop := {
  ca_sched : m_sched s1 = m_sched s;
  ca_csr : m_csr s1 = timer_csr (trap_csr pc (2 ^ 63 + IRQ_S_TIMER) tval (m_csr s));
  ca_frame : frame_of (frame_at h) h (trap_csr pc (2 ^ 63 + IRQ_S_TIMER) tval (m_csr s)) (m_ram s1);
  ca_same : same_on (λ x, ¬ in_frame h x) (m_ram s) (m_ram s1);
}.

(** The timer interrupts a process: the vector saves all its registers, and the
    handler switches to the scheduler. *)
Lemma vector_switch n clob h pc tval s i p :
  trap_ok h pc (2 ^ 63 + IRQ_S_TIMER) tval s → current_process (m_sched s) = Some i → slot s i = Some p →
  ∃ s1, run_vector n clob h pc tval IRQ_S_TIMER s = Stop (Switch (ProcCtx i) SchedCtx) (yielded i p s1) ∧
    caught h pc tval s s1.
Proof.
  intros Hok Hc Hp. destruct (vector_enters clob h pc _ tval s Hok) as (h1 & m1 & E & Ha & Hf & Hs).
  destruct (trap_timer_running (set_ram m1 (interrupted pc (2 ^ 63 + IRQ_S_TIMER) tval s)) (frame_at h) i p)
    as (s' & Eh & s1 & Ht & ->); [apply Hok|apply (fr_scause _ _ _ _ Hf)|done|done|].
  exists s1. split; [by eapply vector_stops|]. destruct Ht as (? & ? & ? & ? & ? & _ & _ & _ & ->). by split.
Qed.

Lemma vector_undefined n clob h pc tval s i :
  trap_ok h pc (2 ^ 63 + IRQ_S_TIMER) tval s → current_process (m_sched s) = Some i → slot s i = None →
  ∃ s', run_vector n clob h pc tval IRQ_S_TIMER s = Stop Undefined s'.
Proof.
  intros Hok Hc Hp. destruct (vector_enters clob h pc _ tval s Hok) as (h1 & m1 & E & Ha & Hf & Hs).
  set (s0 := set_ram m1 _) in *.
  assert (stops (trap_handler (frame_at h)) s0 Undefined (λ _, True)) as (s' & Eh & _); [|by eexists; eapply vector_stops].
  destruct (trap_handler_enter s0 (frame_at h) IRQ_S_TIMER) as (s1 & P1 & E1); [apply Hok|apply (fr_scause _ _ _ _ Hf)|done|].
  unfold stops. rewrite E1. apply stops_bind_r. eapply wp_mono; [by apply (wp_timer_tick s0)|].
  intros [] s2 (? & ? & ? & ? & ? & _ & _ & _ & ->). unfold stops, yield, yield_mark, bind, get at 1. simpl. rewrite Hc.
  unfold get_proc, bind, get. simpl. unfold slot in Hp. rewrite Hp. by eexists.
Qed.

(** What a run of the vector can come to. *)
Lemma vector_Ok n clob h pc tval code s h' e s' :
  trap_ok h pc (2 ^ 63 + code) tval s → code ∈ [IRQ_S_SOFT; IRQ_S_TIMER; IRQ_S_EXT] →
  run_vector n clob h pc tval code s = Ok (h', e) s' → returning code s.
Proof.
  intros Hok Hcode E. split; [done|]. intros ->. destruct (current_process (m_sched s)) as [i|] eqn:Hc; [|done].
  destruct (slot s i) as [p|] eqn:Hp.
  - destruct (vector_switch n clob h pc tval s i p Hok Hc Hp) as (s1 & E1 & _). congruence.
  - destruct (vector_undefined n clob h pc tval s i Hok Hc Hp) as (s1 & E1). congruence.
Qed.

Lemma vector_returns n clob h pc tval code s h' e s' :
  trap_ok h pc (2 ^ 63 + code) tval s → code ∈ [IRQ_S_SOFT; IRQ_S_TIMER; IRQ_S_EXT] →
  run_vector n clob h pc tval code s = Ok (h', e) s' →
  e = Sreturned true pc ∧ (∀ r, get_reg h' r = get_reg h r) ∧ SIE (sstatus (m_csr s')) = SIE (sstatus (m_csr s)) ∧
  handled (set_ram (m_ram s') s) s' ∧ same_on (λ x, ¬ in_frame h x) (m_ram s) (m_ram s').
Proof.
  intros Hok Hcode E. pose proof (vector_Ok _ _ _ _ _ _ _ _ _ _ Hok Hcode E) as Hret.
  destruct (wp_Ok _ _ _ _ _ E (wp_interrupt n clob h s pc tval code Hok Hret)) as (? & ? & _ & ? & ? & ?). done.
Qed.

Lemma vector_Switch n clob h pc tval code s a b s' :
  trap_ok h pc (2 ^ 63 + code) tval s → code ∈ [IRQ_S_SOFT; IRQ_S_TIMER; IRQ_S_EXT] →
  run_vector n clob h pc tval code s = Stop (Switch a b) s' →
  code = IRQ_S_TIMER ∧ ∃ i p s1, a = ProcCtx i ∧ b = SchedCtx ∧ current_process (m_sched s) = Some i ∧
    slot s i = Some p ∧ s' = yielded i p s1 ∧ caught h pc tval s s1.
Proof.
  intros Hok Hcode E.
  assert (∀ i, current_process (m_sched s) = Some i → code = IRQ_S_TIMER → ∃ i p s1, a = ProcCtx i ∧ b = SchedCtx ∧
    current_process (m_sched s) = Some i ∧ slot s i = Some p ∧ s' = yielded i p s1 ∧ caught h pc tval s s1) as Hrun.
  { intros i Hc ->. destruct (slot s i) as [p|] eqn:Hp.
    - destruct (vector_switch n clob h pc tval s i p Hok Hc Hp) as (s1 & E1 & Hcaught). rewrite E in E1.
      injection E1 as -> -> ->. eauto 10.
    - destruct (vector_undefined n clob h pc tval s i Hok Hc Hp) as (s1 & E1). congruence. }
  assert (returning code s → False) as Hno.
  { intros Hret. destruct (wp_interrupt n clob h s pc tval code Hok Hret) as (r & s1 & E1 & _).
    unfold run_vector in E. congruence. }
  destruct (decide (code = IRQ_S_TIMER)) as [->|Hne]; [|destruct Hno; by split].
  destruct (current_process (m_sched s)) as [i|] eqn:Hc; [split; [done|by apply (Hrun i)]|]. destruct Hno. by split.
Qed.

(** C13: an interrupt while no process runs is invisible.  When a software,
    external or timer interrupt comes while the kernel initialises itself or the
    scheduler looks for a process, the whole of [trap_vector], with the C handler
    compiled in whatever way the calling convention allows, returns to the
    interrupted instruction with all registers as they were; outside the frame
    below the stack pointer memory is unchanged, and so are the variables of the
    allocator, the driver and the scheduler, the enabled interrupts, the trap
    vector and the address space. *)
Theorem interrupt_transparent n clob h s pc tval code :
  trap_ok h pc (2 ^ 63 + code) tval s → returning code s →
  wp (asm_enter (trap_calls clob) n trap_S "trap_vector" h) (interrupted pc (2 ^ 63 + code) tval s)
    (λ '(h', e) s', e = Sreturned true pc ∧ (∀ r, get_reg h' r = get_reg h r) ∧ h_csr h' = h_csr h ∧
      SIE (sstatus (m_csr s')) = SIE (sstatus (m_csr s)) ∧
      handled (set_ram (m_ram s') s) s' ∧ same_on (λ x, ¬ in_frame h x) (m_ram s) (m_ram s')).
Proof. apply wp_interrupt. Qed.
End interrupts.
