(* ===== verification/Sched.v ===== *)
(** * The scheduler as a transition system

    [scheduler], [yield], [forkret], the trap vector and [swtch] run as
    coroutines.  A state of the system is the machine, the registers of the
    process that has control, the place where control is, the scheduler's local
    variables, and, for every process that called [swtch], the place where it goes
    on when its [yield] returns (its stack holds this in the code).  What can
    happen next is
    - [code_step]: the code that has control does the next thing.  [scheduler] and
      [yield] go from one assignment to a variable they share with the trap handler
      to the next;
    - [irq_step]: an interrupt comes, anywhere, and the instructions of trap.S run
      to their [sret];
    - [preempt]: an interrupt comes, and the instructions of trap.S run up to the
      switch to the scheduler.  The registers of the process are then in the frame
      in memory; when it has its turn again, the rest of trap.S loads them
      ([step_restore]).
    [orderly] leaves out the interrupts the code is not prepared for ([race]):
    those of the timer between process.c:100 and the end of the [swtch] on line
    103, and between lines 136 and 138 of [yield].  A run of the kernel may have
    them ([step]).  [scheduler_race] and [lost_yielder] show what they do, and the
    theorems that say how well the scheduler works are about runs without them. *)

From stdpp Require Import relations.
From S2P Require Import Prelude Globals Machine Utils Uart Heap HeapSpec Process Trap Asm TrapVector.

(** Return addresses of the calls of [swtch] in [scheduler] and in [yield]. *)
Class CodeRet `{Code} := {
  sched_ret : Z;
  yield_ret : Z;
  code_distinct : NoDup [0; forkret; sched_ret; yield_ret];
}.

(** Where control is. *)
Inductive pc :=
  (** in [scheduler], at slot [i] of the loop with its variable [found]: before the
      slot is examined, after [p->state = PROC_RUNNING], after
      [current_process = p], and when [swtch] has returned *)
  | PScan (i : nat) (found : bool)
  | PPicked (i : nat) (found : bool)
  | PChosen (i : nat) (found : bool)
  | PBack
  (** in the code of the current process *)
  | PProc
  (** in [yield], called by process [i]: after [p->state = PROC_RUNNABLE] *)
  | PYielding (i : nat)
  (** in [forkret], after [current_process->state = PROC_ZOMBIE] *)
  | PEnding
  (** in [yield], after [current_process = NULL]; [k] is where it was called *)
  | PSwitch (i : nat) (k : pc)
  (** on the way from [yield] in the trap handler back to trap.S, with the frame
      at [ctx]; [k] was interrupted at the address [epc] *)
  | PReturn (ctx epc : Z) (k : pc)
  (** in the endless loop of [forkret] *)
  | PSpin
  (** after the end of [scheduler] *)
  | PExited
  (** at an address no code expects *)
  | PWild (a : Z).

(** ** Registers and contexts *)

(** The registers a context is about. *)
Definition cpu_of (h : hart) : context :=
  Context_ (get_reg h Ra) (get_reg h Sp) (get_reg h S0) (get_reg h S1) (get_reg h S2) (get_reg h S3)
    (get_reg h S4) (get_reg h S5) (get_reg h S6) (get_reg h S7) (get_reg h S8) (get_reg h S9)
    (get_reg h S10) (get_reg h S11).

(** The registers when those of a context are loaded. *)
Definition load_ctx (c : context) (h : hart) : hart :=
  Hart (λ r, match r with
    | Ra => c_ra c | Sp => c_sp c | S0 => c_s0 c | S1 => c_s1 c | S2 => c_s2 c | S3 => c_s3 c | S4 => c_s4 c
    | S5 => c_s5 c | S6 => c_s6 c | S7 => c_s7 c | S8 => c_s8 c | S9 => c_s9 c | S10 => c_s10 c | S11 => c_s11 c
    | _ => h_reg h r
    end) (h_csr h).

Lemma cpu_of_load_ctx c h : cpu_of (load_ctx c h) = c.
Proof. by destruct c. Qed.

(** ** Frames of suspended code *)

(** The frames of trap.S the code at [k] will return through. *)
Fixpoint frames (k : pc) : list Z :=
  match k with PReturn ctx _ k' => ctx :: frames k' | PSwitch _ k' => frames k' | _ => [] end.

(** The code at [k] runs on the stack of a process. *)
Fixpoint of_process (k : pc) : bool :=
  match k with
  | PProc | PYielding _ | PEnding => true
  | PReturn _ _ k' | PSwitch _ k' => of_process k'
  | _ => false
  end.

Section sched.
Context `{Platform} {TX : UartTx} `{CodeRet}.
Implicit Types (h : hart).

Record sys := Sys {
  y_m : machine;
  y_h : hart;
  y_pc : pc;
  y_frame : nat * bool;
  y_susp : gmap nat pc;
}.

(** A frame on the stack of a process is in use. *)
Definition live (y : sys) (ctx : Z) : Prop :=
  ∃ k, (y_pc y = k ∨ ∃ i, y_susp y !! i = Some k) ∧ of_process k = true ∧ ctx ∈ frames k.

Definition frames_kept (y : sys) (m' : machine) : Prop :=
  ∀ ctx, live y ctx → same_on (λ x, ctx <= x < ctx + 288) (m_ram (y_m y)) (m_ram m').

(** ** Switches *)

(** [swtch(old, new)]: store the registers in [old], load those of [new]. *)
Definition swtch_save (r : ctx_ref) (c : context) (v : sched_vars) : sched_vars :=
  match r with
  | SchedCtx => with_sched_context c v
  | ProcCtx i => with_procs (alter (set_context c) i (procs v)) v
  end.
Definition swtch_load (r : ctx_ref) (v : sched_vars) : context :=
  match r with
  | SchedCtx => sched_context v
  | ProcCtx i => default ctx_zero (p_context <$> procs v !! i)
  end.
Definition switched (old new : ctx_ref) (cpu : context) (m : machine) : machine * context :=
  let v := swtch_save old cpu (m_sched m) in (set_sched v m, swtch_load new v).

(** [ret] in [swtch], after a switch from the scheduler to slot [i]: into [forkret],
    or back to where the process called [swtch]. *)
Definition enter (i : nat) (m : machine) h (fr : nat * bool) (su : gmap nat pc) : sys :=
  if decide (get_reg h Ra = forkret) then Sys m h PProc fr su
  else if decide (get_reg h Ra = yield_ret) then
    match su !! i with
    | Some k => Sys m h k fr (delete i su)
    | None => Sys m h (PWild yield_ret) fr su
    end
  else Sys m h (PWild (get_reg h Ra)) fr su.

(** [ret] in [swtch], after a switch to the scheduler. *)
Definition to_sched (m : machine) h (fr : nat * bool) (su : gmap nat pc) : sys :=
  Sys m h (if decide (get_reg h Ra = sched_ret) then PBack else PWild (get_reg h Ra)) fr su.

(** [yield] calls [swtch] for process [i] with the registers [h], and goes on at
    [k] when it returns. *)
Definition leave (i : nat) h (k : pc) (m : machine) fr su : sys :=
  let '(m', c) := switched (ProcCtx i) SchedCtx (with_ra yield_ret (cpu_of h)) m in
  to_sched m' (load_ctx c h) fr (<[i := k]> su).

(** ** The code *)

(** Some process is neither unused nor a zombie. *)
Definition active (m : machine) : bool :=
  existsb (λ p, bool_decide (p_state p ≠ PROC_UNUSED ∧ p_state p ≠ PROC_ZOMBIE)) (procs (m_sched m)).

Definition exit_message : cptr :=
  lit ("scheduler: no active processes remaining. Exiting scheduler." +:+ nl).

(** [current_process = c;] *)
Definition set_current (c : option nat) (m : machine) : machine := set_sched (with_current c (m_sched m)) m.

(** [sret]: back to the interrupted code, if the trap came from there. *)
Definition back_to (supervisor : bool) (a epc : Z) (k : pc) : pc :=
  if supervisor && (a =? epc) then k else PWild a.

Inductive code_step : sys → sys → Prop :=
  (** [for (i = 0; i < NPROC; i++)]: a slot that is not runnable is passed over *)
  | step_skip m h i f fr su p :
      slot m i = Some p → p_state p ≠ PROC_RUNNABLE →
      code_step (Sys m h (PScan i f) fr su) (Sys m h (PScan (S i) f) fr su)
  (** [p->state = PROC_RUNNING;] *)
  | step_pick m h i f fr su p :
      slot m i = Some p → p_state p = PROC_RUNNABLE →
      code_step (Sys m h (PScan i f) fr su) (Sys (set_proc i (set_state PROC_RUNNING p) m) h (PPicked i f) fr su)
  (** [current_process = p;] *)
  | step_current m h i f fr su :
      code_step (Sys m h (PPicked i f) fr su) (Sys (set_current (Some i) m) h (PChosen i f) fr su)
  (** [swtch(&sched_context, &p->context)], with whatever is in the registers *)
  | step_dispatch m h h0 i f fr su m' c :
      switched SchedCtx (ProcCtx i) (with_ra sched_ret (cpu_of h0)) m = (m', c) →
      code_step (Sys m h (PChosen i f) fr su) (enter i m' (load_ctx c h0) (i, f) su)
  (** [current_process = NULL; found = 1;] *)
  | step_back m h i f su :
      code_step (Sys m h PBack (i, f) su) (Sys (set_current None m) h (PScan (S i) true) (i, f) su)
  | step_again m h fr su :
      code_step (Sys m h (PScan NPROC true) fr su) (Sys m h (PScan 0 false) fr su)
  (** [wfi] *)
  | step_idle m h fr su :
      active m = true →
      code_step (Sys m h (PScan NPROC false) fr su) (Sys m h (PScan 0 false) fr su)
  | step_exit m h fr su m' :
      active m = false → uart_puts exit_message m = Ok tt m' →
      code_step (Sys m h (PScan NPROC false) fr su) (Sys m' h PExited fr su)
  (** a process computes: it does not touch the scheduler's variables, the control
      registers and the frames of trap.S on the stacks *)
  | step_run m h m' h' fr su :
      m_sched m' = m_sched m → m_csr m' = m_csr m → frames_kept (Sys m h PProc fr su) m' →
      code_step (Sys m h PProc fr su) (Sys m' h' PProc fr su)
  (** it calls [yield] *)
  | step_yield m h fr su i m' :
      yield_mark m = Ok (Some i) m' →
      code_step (Sys m h PProc fr su) (Sys m' h (PYielding i) fr su)
  (** [current_process = NULL], and on to the call of [swtch] with the registers [h'] *)
  | step_null m h h' fr su i :
      code_step (Sys m h (PYielding i) fr su) (Sys (set_current None m) h' (PSwitch i PProc) fr su)
  | step_switch m h fr su i k :
      code_step (Sys m h (PSwitch i k) fr su) (leave i h k m fr su)
  (** its entry function returns *)
  | step_finish m h fr su m' :
      forkret_farewell m = Ok tt m' →
      code_step (Sys m h PProc fr su) (Sys m' h PEnding fr su)
  (** the [yield] of [forkret], up to its call of [swtch] *)
  | step_end m h h' fr su i m' :
      yield_mark m = Ok (Some i) m' →
      code_step (Sys m h PEnding fr su) (Sys (set_current None m') h' (PSwitch i PSpin) fr su)
  (** the trap handler returns, with the stack pointer it was called with, and the
      instructions of trap.S load the registers from the frame *)
  | step_restore m h h2 clob ctx epc k fr su h3 supervisor a m' :
      get_reg h2 Sp = ctx →
      run_block (trap_calls clob) trap_restore h2 m = Ok (h3, Leave (Sreturned supervisor a)) m' →
      code_step (Sys m h (PReturn ctx epc k) fr su) (Sys m' h3 (back_to supervisor a epc k) fr su).

(** ** Interrupts *)

(** An interrupt of the code with the registers [h] at the address [epc]: they are
    on, the trap vector can store its frame, and the stack pointer is not inside a
    frame in use.  For a process, [h] are its registers. *)
Record irq (y : sys) h (epc tval code : Z) : Prop := {
  iq_on : SIE (sstatus (m_csr (y_m y))) = true;
  iq_code : code ∈ [IRQ_S_SOFT; IRQ_S_TIMER; IRQ_S_EXT];
  iq_trap : trap_ok h epc (2 ^ 63 + code) tval (y_m y);
  iq_hart : y_pc y = PProc → h = y_h y;
  iq_stack : ∀ ctx, live y ctx → frame_at h + 288 <= ctx ∨ ctx + 288 <= frame_at h;
}.

(** The trap vector runs from its first instruction to its last. *)
Inductive irq_step : sys → sys → Prop :=
  | irq_returns y n clob h epc tval code h' supervisor a m' :
      irq y h epc tval code →
      run_vector n clob h epc tval code (y_m y) = Ok (h', Sreturned supervisor a) m' →
      irq_step y (Sys m' (match y_pc y with PProc => h' | _ => y_h y end)
        (back_to supervisor a epc (y_pc y)) (y_frame y) (y_susp y)).

(** Its handler calls [yield], which calls [swtch] with the registers [h']. *)
Inductive preempt : sys → sys → Prop :=
  | irq_switches y n clob h h' epc tval code i m' :
      irq y h epc tval code →
      run_vector n clob h epc tval code (y_m y) = Stop (Switch (ProcCtx i) SchedCtx) m' →
      preempt y (leave i h' (PReturn (frame_at h) epc (y_pc y)) m' (y_frame y) (y_susp y)).

(** The places where a timer interrupt does harm: [scheduler] between lines 100 and
    103, [yield] between lines 136 and 138. *)
Definition racing (k : pc) : Prop := match k with PChosen _ _ | PYielding _ => True | _ => False end.

(** The timer interrupts [scheduler] inside [swtch], with the contexts half stored
    and half loaded: nothing is known of what follows. *)
Inductive torn : sys → sys → Prop :=
  | torn_switch m h m' h' i f fr su a :
      SIE (sstatus (m_csr m)) = true → torn (Sys m h (PChosen i f) fr su) (Sys m' h' (PWild a) fr su).

Definition orderly (y y' : sys) : Prop :=
  code_step y y' ∨ irq_step y y' ∨ preempt y y' ∧ ¬ racing (y_pc y).
Definition race (y y' : sys) : Prop := preempt y y' ∧ racing (y_pc y) ∨ torn y y'.
Definition step (y y' : sys) : Prop := orderly y y' ∨ race y y'.
End sched.

(** ** What the steps do *)

Section facts.
Context `{Platform} {TX : UartTx} `{CodeRet}.
Implicit Types (m : machine) (h : hart) (v : sched_vars) (su : gmap nat pc) (y : sys).

Lemma code_ne : forkret ≠ sched_ret ∧ forkret ≠ yield_ret ∧ sched_ret ≠ yield_ret ∧ 0 ≠ forkret ∧ 0 ≠ sched_ret.
Proof.
  pose proof code_distinct as Hd. rewrite !NoDup_cons, !not_elem_of_cons in Hd. intuition congruence.
Qed.

Lemma set_current_slot c m i : slot (set_current c m) i = slot m i.
Proof. done. Qed.

Lemma slot_set_proc_ne i j p m : j ≠ i → slot (set_proc i p m) j = slot m j.
Proof. intros Hne. unfold slot, set_proc. simpl. by rewrite list_lookup_insert_ne. Qed.

(** A slot as [swtch] leaves it. *)
Lemma slot_leave i h k m fr su j :
  slot (y_m (leave i h k m fr su)) j =
  if decide (j = i) then set_context (with_ra yield_ret (cpu_of h)) <$> slot m i else slot m j.
Proof.
  unfold slot, leave. cbn. rewrite list_lookup_alter. destruct (decide (j = i)) as [->|Hne].
  - by rewrite decide_True.
  - by rewrite decide_False by congruence.
Qed.

Lemma leave_pc i h k m fr su : c_ra (sched_context (m_sched m)) = sched_ret →
  leave i h k m fr su = Sys (y_m (leave i h k m fr su)) (load_ctx (sched_context (m_sched m)) h) PBack fr (<[i := k]> su).
Proof.
  intros Hra. unfold leave, switched, to_sched. cbn [swtch_save swtch_load with_procs sched_context y_m].
  change (get_reg _ Ra) with (c_ra (sched_context (m_sched m))). by rewrite decide_True.
Qed.

(** The frames of trap.S a run of the vector leaves alone. *)
Lemma stack_kept y h epc tval code m' : irq y h epc tval code →
  same_on (λ x, ¬ in_frame h x) (m_ram (y_m y)) (m_ram m') → frames_kept y m'.
Proof.
  intros [_ _ _ _ Hst] Hs ctx Hl. eapply same_on_weaken; [exact Hs|]. intros x Hx. unfold in_frame.
  specialize (Hst ctx Hl). lia.
Qed.

(** An interrupt that is handled is invisible. *)
Record invisible y y' : Prop := {
  iv_pc : y_pc y' = y_pc y;
  iv_frame : y_frame y' = y_frame y;
  iv_susp : y_susp y' = y_susp y;
  iv_sched : m_sched (y_m y') = m_sched (y_m y);
  iv_kept : frames_kept y (y_m y');
  iv_on : SIE (sstatus (m_csr (y_m y'))) = true;
  iv_was : SIE (sstatus (m_csr (y_m y))) = true;
  iv_regs : ∀ r, get_reg (y_h y') r = get_reg (y_h y) r;
}.

Lemma irq_invisible y y' : irq_step y y' → invisible y y'.
Proof.
  intros [y0 n clob h epc tval code h' sv a m' Hi E]. pose proof Hi as [Hon Hcode Htrap Hhart _].
  destruct (vector_returns _ _ _ _ _ _ _ _ _ _ Htrap Hcode E) as ([= -> ->] & Hr & Hs & Hh & Hm).
  assert (back_to true epc epc (y_pc y0) = y_pc y0) as Hb by (unfold back_to; by rewrite Z.eqb_refl).
  split; cbn [y_m y_h y_pc y_frame y_susp]; try done.
  - apply Hh.
  - exact (stack_kept _ _ _ _ _ _ Hi Hm).
  - by rewrite Hs.
  - intros r. destruct (y_pc y0) eqn:Hpc; try done. by rewrite Hr, Hhart.
Qed.

(** A preemption: the vector stored the registers, and the handler gave up the
    processor for the current process. *)
Lemma preempt_result y y' : preempt y y' →
  ∃ i p h h' epc tval s1, irq y h epc tval IRQ_S_TIMER ∧ current_process (m_sched (y_m y)) = Some i ∧
    slot (y_m y) i = Some p ∧ caught h epc tval (y_m y) s1 ∧
    y' = leave i h' (PReturn (frame_at h) epc (y_pc y)) (yielded i p s1) (y_frame y) (y_susp y).
Proof.
  intros [y0 n clob h h' epc tval code i m' Hi E]. pose proof Hi as [Hon Hcode Htrap Hhart _].
  destruct (vector_Switch _ _ _ _ _ _ _ _ _ _ Htrap Hcode E) as (-> & i' & p & s1 & [= <-] & _ & Hc & Hp & -> & Hca).
  by exists i, p, h, h', epc, tval, s1.
Qed.

(** It happens whenever the timer interrupts while a process is current. *)
Lemma preempt_possible y h h' epc tval i p :
  irq y h epc tval IRQ_S_TIMER → current_process (m_sched (y_m y)) = Some i → slot (y_m y) i = Some p →
  ∃ s1, caught h epc tval (y_m y) s1 ∧
    preempt y (leave i h' (PReturn (frame_at h) epc (y_pc y)) (yielded i p s1) (y_frame y) (y_susp y)).
Proof.
  intros Hi Hc Hp. destruct (vector_switch 0 (λ _, 0) h epc tval (y_m y) i p) as (s1 & E & Hca); [apply Hi|done|done|].
  exists s1. split; [done|]. by eapply irq_switches.
Qed.

Lemma leave_fields i h k m fr su :
  y_frame (leave i h k m fr su) = fr ∧ y_susp (leave i h k m fr su) = <[i := k]> su ∧
  m_ram (y_m (leave i h k m fr su)) = m_ram m ∧ m_csr (y_m (leave i h k m fr su)) = m_csr m ∧
  current_process (m_sched (y_m (leave i h k m fr su))) = current_process (m_sched m) ∧
  sched_context (m_sched (y_m (leave i h k m fr su))) = sched_context (m_sched m) ∧
  length (procs (m_sched (y_m (leave i h k m fr su)))) = length (procs (m_sched m)).
Proof. unfold leave. cbn. by rewrite length_alter. Qed.
End facts.

(** ** The invariant *)

(** The code of a process at [k] can go on as if nothing had happened. *)
Fixpoint resumes (k : pc) : Prop :=
  match k with PProc => True | PReturn _ _ k' => resumes k' | _ => False end.

(** The frames on the way there lead back to where the traps came from. *)
Fixpoint frames_good (r : gmap Z Z) (k : pc) : Prop :=
  match k with
  | PReturn ctx epc k' => in_ram ctx 288 = true ∧ ram_load 8 (ctx_sepc ctx) r = epc ∧
      SPP (ram_load 8 (ctx_sstatus ctx) r) = true ∧ frames_good r k'
  | _ => True
  end.

Definition ready (r : gmap Z Z) (k : pc) : Prop := resumes k ∧ frames_good r k.

(** Where the code of a process that called [swtch] can be. *)
Fixpoint settled (k : pc) : Prop :=
  match k with
  | PProc | PEnding | PSpin => True
  | PReturn ctx _ k' => in_ram ctx 288 = true ∧ settled k'
  | _ => False
  end.

(** A saved context from which [swtch] ends up in a process. *)
Definition resumable `{CodeRet} (r : gmap Z Z) (su : gmap nat pc) (i : nat) (c : context) : Prop :=
  c_ra c = forkret ∨ c_ra c = yield_ret ∧ ∃ k, su !! i = Some k ∧ ready r k.

(** A process that waits for its turn, or has none. *)
Definition waits `{CodeRet} (r : gmap Z Z) (su : gmap nat pc) (i : nat) (p : process) : Prop :=
  p_state p ≠ PROC_RUNNING ∧ (p_state p = PROC_RUNNABLE → resumable r su i (p_context p)).

Section invariant.
Context `{Platform} {TX : UartTx} `{CodeRet}.
Implicit Types (m : machine) (h : hart) (v : sched_vars) (su : gmap nat pc) (y : sys).

(** The slot the scheduler or a process is busy with. *)
Definition holder y : option nat :=
  match y_pc y with
  | PPicked i _ | PChosen i _ | PYielding i | PSwitch i _ => Some i
  | PProc | PReturn _ _ _ | PEnding => Some (y_frame y).1
  | _ => None
  end.

Definition vars y : sched_vars := m_sched (y_m y).

(** The current process has control, in the state [st]. *)
Definition on_cpu y (st : proc_state) : Prop :=
  current_process (vars y) = Some (y_frame y).1 ∧ c_ra (sched_context (vars y)) = sched_ret ∧
  ∃ p, slot (y_m y) (y_frame y).1 = Some p ∧ p_state p = st.

(** Slot [i] is about to be dispatched. *)
Definition picked y (i : nat) : Prop :=
  ∃ p, slot (y_m y) i = Some p ∧ p_state p = PROC_RUNNING ∧ resumable (m_ram (y_m y)) (y_susp y) i (p_context p).

(** What holds by the place of control. *)
Definition pc_ok y : Prop :=
  match y_pc y with
  | PScan i _ => (i <= NPROC)%nat ∧ current_process (vars y) = None
  | PPicked i _ => current_process (vars y) = None ∧ picked y i
  | PChosen i _ => current_process (vars y) = Some i ∧ picked y i
  | PBack => current_process (vars y) = None ∧ ((y_frame y).1 < NPROC)%nat
  | PProc => on_cpu y PROC_RUNNING
  | PReturn ctx epc k => on_cpu y PROC_RUNNING ∧ ready (m_ram (y_m y)) (PReturn ctx epc k)
  | PYielding i => i = (y_frame y).1 ∧ on_cpu y PROC_RUNNABLE
  | PEnding => on_cpu y PROC_ZOMBIE
  | PSwitch i k => i = (y_frame y).1 ∧ current_process (vars y) = None ∧ c_ra (sched_context (vars y)) = sched_ret ∧
      ∃ p, slot (y_m y) i = Some p ∧ (p_state p = PROC_RUNNABLE ∧ k = PProc ∨ p_state p = PROC_ZOMBIE ∧ k = PSpin)
  | PExited => current_process (vars y) = None ∧
      ∀ p, p ∈ procs (vars y) → p_state p = PROC_UNUSED ∨ p_state p = PROC_ZOMBIE
  | PSpin | PWild _ => False
  end.

(** The table is well formed; all slots but the one in use wait; and a process has
    left only after the scheduler saved its registers. *)
Record sys_inv y : Prop := {
  si_wf : sched_wf (vars y);
  si_rest : ∀ j p, slot (y_m y) j = Some p → holder y ≠ Some j → waits (m_ram (y_m y)) (y_susp y) j p;
  si_ret : y_susp y = ∅ ∨ c_ra (sched_context (vars y)) = sched_ret;
  si_susp : ∀ j k, y_susp y !! j = Some k → settled k;
  si_pc : pc_ok y;
}.

Lemma frames_good_same r r' k :
  (∀ ctx, ctx ∈ frames k → same_on (λ x, ctx <= x < ctx + 288) r r') → frames_good r k → frames_good r' k.
Proof.
  induction k as [| | | | | | |i k IH|ctx epc k IH| | |]; try done. simpl. intros Hs (Hin & He & Hst & Hk).
  assert (∀ off, 0 <= off <= 280 → ram_load 8 (ctx + off) r' = ram_load 8 (ctx + off) r) as E.
  { intros off Ho. eapply same_on_load; [apply (Hs ctx), list_elem_of_here|]. simpl. lia. }
  unfold ctx_sepc, ctx_sstatus in *. rewrite !E by lia. split_and!; [done..|]. apply IH; [|done].
  intros c Hc. apply Hs. by apply list_elem_of_further.
Qed.

Lemma resumes_of_process k : resumes k → of_process k = true.
Proof. by induction k. Qed.

Lemma ready_settled r k : ready r k → settled k.
Proof. induction k as [| | | | | | |i k IH|ctx epc k IH| | |]; intros [Hr Hg]; try done. split; [apply Hg|]. apply IH. split; [done|apply Hg]. Qed.

Lemma ready_kept y m' k : frames_kept y m' → (y_pc y = k ∨ ∃ i, y_susp y !! i = Some k) →
  ready (m_ram (y_m y)) k → ready (m_ram m') k.
Proof.
  intros Hk Hin [Hr Hg]. split; [done|]. eapply frames_good_same; [|exact Hg]. intros ctx Hc. apply Hk.
  exists k. split_and!; [done|by apply resumes_of_process|done].
Qed.

Lemma resumable_kept y m' su' i c : frames_kept y m' → su' !! i = y_susp y !! i →
  resumable (m_ram (y_m y)) (y_susp y) i c → resumable (m_ram m') su' i c.
Proof.
  intros Hk Hsu [?|(Hra & k & Hi & Hr)]; [by left|right]. split; [done|]. exists k. split; [by rewrite Hsu|].
  eapply ready_kept; [done| |done]. right. by exists i.
Qed.

(** A step after which all slots but [i] are as before. *)
Lemma inv_slot i y y' : sys_inv y → sched_wf (vars y') →
  (∀ j, j ≠ i → slot (y_m y') j = slot (y_m y) j ∧ y_susp y' !! j = y_susp y !! j) →
  (∀ j, holder y = Some j → j = i) →
  (∀ p, slot (y_m y') i = Some p → holder y' ≠ Some i → waits (m_ram (y_m y')) (y_susp y') i p) →
  frames_kept y (y_m y') → (y_susp y' = ∅ ∨ c_ra (sched_context (vars y')) = sched_ret) →
  (∀ k, y_susp y' !! i = Some k → settled k) → pc_ok y' → sys_inv y'.
Proof.
  intros [Hwf Hrest _ Hsu0 _] Hwf' Hsame Hh Hi Hk Hret Hsu1 Hpc. split; [done| |done| |done].
  2:{ intros j k Hj. destruct (decide (j = i)) as [->|Hne]; [by apply Hsu1|]. rewrite (proj2 (Hsame j Hne)) in Hj. by eapply Hsu0. }
  intros j p Hp Hj. destruct (decide (j = i)) as [->|Hne]; [by apply Hi|].
  destruct (Hsame j Hne) as [Hs Hsu]. rewrite Hs in Hp. destruct (Hrest j p Hp) as [Hn Hr].
  { intros E. by destruct Hne; apply Hh. }
  split; [done|]. intros Hst. eapply resumable_kept; [done|done|]. by apply Hr.
Qed.

Lemma frames_kept_ram y m' : m_ram m' = m_ram (y_m y) → frames_kept y m'.
Proof. intros E ctx _. by rewrite E. Qed.

(** A step that leaves the table and the suspended processes as they are. *)
Lemma inv_same y y' : sys_inv y → procs (vars y') = procs (vars y) → y_susp y' = y_susp y →
  c_ra (sched_context (vars y')) = c_ra (sched_context (vars y)) →
  (∀ j, holder y = Some j → holder y' = Some j) → frames_kept y (y_m y') → pc_ok y' → sys_inv y'.
Proof.
  intros [Hwf Hrest Hret Hset _] Hprocs Hsu Hra Hh Hk Hpc. split; [|intros j p Hp Hj|by rewrite Hsu, Hra|by rewrite Hsu|done].
  - destruct Hwf. split; by rewrite Hprocs.
  - destruct (Hrest j p) as [Hn Hr]; [unfold slot in *; unfold vars in Hprocs; by rewrite <- Hprocs|auto|].
    split; [done|]. intros Hst. eapply resumable_kept; [done|by rewrite Hsu|]. by apply Hr.
Qed.

Lemma picked_kept y y' i : slot (y_m y') i = slot (y_m y) i → y_susp y' !! i = y_susp y !! i →
  frames_kept y (y_m y') → picked y i → picked y' i.
Proof.
  intros Hs Hsu Hk (p & Hp & Hst & Hr). exists p. split_and!; [by rewrite Hs|done|]. by eapply resumable_kept.
Qed.

(** Interrupts that are handled keep the invariant. *)
Lemma invisible_inv y y' : sys_inv y → invisible y y' → sys_inv y'.
Proof.
  intros Hinv [Epc Efr Esu Ev Hk _ _ _]. pose proof (si_pc _ Hinv) as Hpc. eapply inv_same; [done|unfold vars; by rewrite Ev|done|
    unfold vars; by rewrite Ev|by unfold holder; rewrite Epc, Efr|done|].
  assert (∀ i, slot (y_m y') i = slot (y_m y) i) as Hs by (intros i; unfold slot; by rewrite Ev).
  assert (∀ i, picked y i → picked y' i) as Hp by (intros i; apply picked_kept; [done|by rewrite Esu|done]).
  assert (vars y' = vars y) as Hv by done.
  assert (∀ st, on_cpu y st → on_cpu y' st) as Ho by (intros st; unfold on_cpu; by rewrite Hv, Efr, Hs).
  unfold pc_ok in *. rewrite Epc, Hv, Efr. destruct (y_pc y) as [| | | | | | |i k|ctx epc k| | |] eqn:E; try done; try by apply Ho.
  - split; [apply Hpc|apply Hp, Hpc].
  - split; [apply Hpc|apply Hp, Hpc].
  - split; [apply Hpc|apply Ho, Hpc].
  - by rewrite Hs.
  - split; [apply Ho, Hpc|]. eapply ready_kept; [done|left; exact E|apply Hpc].
Qed.

(** ** Steps that change a slot *)

Lemma sched_wf_current c v : sched_wf v → sched_wf (with_current c v).
Proof. by intros [? ? ?]. Qed.
Lemma sched_wf_saved c v : sched_wf v → sched_wf (with_sched_context c v).
Proof. by intros [? ? ?]. Qed.

Lemma sched_wf_state i st p m : sched_wf (m_sched m) → slot m i = Some p → p_state p ≠ PROC_UNUSED →
  sched_wf (m_sched (set_proc i (set_state st p) m)).
Proof.
  intros Hwf Hp Hu. apply sched_wf_insert; [done|exact (wf_name _ Hwf i p Hp)|]. intros _. by apply (wf_pid _ Hwf i p Hp).
Qed.

Lemma sched_wf_swtch r c v : sched_wf v → sched_wf (swtch_save r c v).
Proof.
  intros Hwf. destruct r as [|i]; [by apply sched_wf_saved|]. simpl.
  destruct (procs v !! i) as [p|] eqn:Hp.
  - rewrite (alter_lookup _ _ _ p) by done. apply sched_wf_insert; [done|exact (wf_name _ Hwf i p Hp)|].
    exact (wf_pid _ Hwf i p Hp).
  - assert (alter (set_context c) i (procs v) = procs v) as ->; [|by destruct Hwf].
    apply list_eq. intros j. rewrite list_lookup_alter. destruct (decide (i = j)) as [<-|]; [by rewrite Hp|done].
Qed.

(** A process leaves: the scheduler takes over. *)
Lemma leave_inv y i h k m q :
  sys_inv y → holder y = Some i → (y_frame y).1 = i → sched_wf (m_sched m) → current_process (m_sched m) = None →
  c_ra (sched_context (m_sched m)) = sched_ret → (∀ j, j ≠ i → slot m j = slot (y_m y) j) → slot m i = Some q →
  frames_kept y m → p_state q = PROC_RUNNABLE ∧ ready (m_ram m) k ∨ p_state q = PROC_ZOMBIE → settled k →
  sys_inv (leave i h k m (y_frame y) (y_susp y)).
Proof.
  intros Hinv Hh Hfr Hwf Hc Hra Hsame Hq Hk Hst Hset.
  destruct (leave_fields i h k m (y_frame y) (y_susp y)) as (F1 & F2 & F3 & F4 & F5 & F6 & F7).
  assert (y_pc (leave i h k m (y_frame y) (y_susp y)) = PBack) as Epc by (by rewrite leave_pc).
  apply (inv_slot i y); unfold vars; rewrite ?F2, ?F6; [done| | | | |by intros ctx Hl; rewrite F3; apply Hk|by right|by intros k'; rewrite lookup_insert_eq; intros [= <-]|].
  - exact (sched_wf_swtch (ProcCtx i) _ _ Hwf).
  - intros j Hj. by rewrite slot_leave, decide_False, lookup_insert_ne, Hsame by done.
  - intros j E. congruence.
  - intros p Hp _. rewrite slot_leave, decide_True, Hq in Hp by done. injection Hp as <-.
    split; [change (p_state q ≠ PROC_RUNNING); by destruct Hst as [[-> _]| ->]|]. intros Hrun.
    change (p_state q = PROC_RUNNABLE) in Hrun. right. split; [done|]. exists k.
    rewrite lookup_insert_eq, F3. split; [done|]. destruct Hst as [[_ ?]|?]; [done|congruence].
  - unfold pc_ok, vars. rewrite Epc, F5, F1, Hfr. split; [done|]. rewrite <- (wf_length _ Hwf). by eapply lookup_lt_Some.
Qed.

Lemma halted_running p : p_state p = PROC_RUNNING → halted p = set_state PROC_RUNNABLE p.
Proof. intros Hst. unfold halted. by rewrite decide_True. Qed.
Lemma halted_other p : p_state p ≠ PROC_RUNNING → halted p = p.
Proof. intros Hst. unfold halted. by rewrite decide_False. Qed.

Lemma yielded_slot i p m : is_Some (slot m i) → slot (yielded i p m) i = Some (halted p).
Proof. apply slot_set_proc. Qed.

(** The timer interrupts a process where the code is prepared for it. *)
Lemma preempt_inv y y' : sys_inv y → preempt y y' → ¬ racing (y_pc y) → sys_inv y'.
Proof.
  intros Hinv Hp Hnr. destruct (preempt_result _ _ Hp) as (i & p & h & h' & epc & tval & s1 & Hirq & Hc & Hs & Hca & ->).
  pose proof (si_pc _ Hinv) as Hpc. pose proof (si_wf _ Hinv) as Hwf.
  assert (current_process (vars y) = Some i) as Hcur by done.
  assert (∃ st, on_cpu y st ∧ (st = PROC_RUNNING ∧ ready (m_ram (y_m y)) (y_pc y) ∨ st = PROC_ZOMBIE) ∧
    holder y = Some (y_frame y).1 ∧ settled (y_pc y)) as (st & (Hc1 & Hra & p' & Hp' & Hst) & Hor & Hh & Hset).
  { unfold pc_ok, holder, racing in *. destruct (y_pc y) eqn:E; try (destruct Hpc; congruence); try done.
    - exists PROC_RUNNING. split_and!; [done|left; by split|done..].
    - exists PROC_ZOMBIE. split_and!; [done|by right|done..].
    - destruct Hpc as (_ & Hpc & _). congruence.
    - exists PROC_RUNNING. split_and!; [apply Hpc|left; split; [done|apply Hpc]|done|]. eapply ready_settled, Hpc. }
  assert (i = (y_frame y).1) as -> by congruence. assert (p' = p) as -> by congruence. clear Hc1 Hp'.
  destruct Hca as [Es Ec Hf Hm]. assert (frames_kept y s1) as Hk by (by eapply stack_kept).
  assert (slot s1 (y_frame y).1 = Some p) as Hs1 by (unfold slot; by rewrite Es).
  assert (p_state p ≠ PROC_UNUSED) as Hu by (by destruct Hor as [[-> _]| ->]; rewrite Hst).
  assert (halted p = set_state (if decide (p_state p = PROC_RUNNING) then PROC_RUNNABLE else p_state p) p) as Eh.
  { unfold halted. case_decide; [done|]. by destruct p. }
  apply (leave_inv y _ _ _ _ (halted p)); try done.
  - apply sched_wf_current. rewrite Eh. apply sched_wf_state; [by rewrite Es|done|done].
  - simpl. by rewrite Es.
  - intros j Hj. change (slot (set_proc (y_frame y).1 (halted p) s1) j = slot (y_m y) j).
    rewrite slot_set_proc_ne by done. unfold slot. by rewrite Es.
  - apply yielded_slot. by rewrite Hs1.
  - destruct Hor as [[-> Hr]| ->]; [left|right; by rewrite halted_other by congruence].
    rewrite halted_running by done. split; [done|]. destruct (iq_trap _ _ _ _ _ Hirq) as [_ _ Hin].
    split; [apply Hr|]. simpl. split_and!; [done|apply (fr_sepc _ _ _ _ Hf)| |].
    + rewrite (fr_sstatus _ _ _ _ Hf). apply trap_entry_bits.
    + exact (proj2 (ready_kept y s1 (y_pc y) Hk (or_introl eq_refl) Hr)).
  - split; [apply (iq_trap _ _ _ _ _ Hirq)|]. exact Hset.
Qed.

(** ** The code *)

Lemma active_false m p :
  active m = false → p ∈ procs (m_sched m) → p_state p = PROC_UNUSED ∨ p_state p = PROC_ZOMBIE.
Proof.
  unfold active. intros Ha Hp. destruct (decide (p_state p = PROC_UNUSED)); [by left|].
  destruct (decide (p_state p = PROC_ZOMBIE)); [by right|].
  apply not_true_iff_false in Ha. destruct Ha. apply existsb_exists. exists p.
  split; [by apply list_elem_of_In|]. by apply bool_decide_eq_true.
Qed.

Lemma exit_prints m :
  wp (uart_puts exit_message) m (λ _ s', prints m s' (chars
    ("scheduler: no active processes remaining. Exiting scheduler." +:+ nl))).
Proof. by apply wp_puts_lit. Qed.

(** The end of [swtch] when a process is dispatched. *)
Lemma enter_resumable i m c h fr su : resumable (m_ram m) su i c →
  ∃ k su', enter i m (load_ctx c h) fr su = Sys m (load_ctx c h) k fr su' ∧ ready (m_ram m) k ∧
    (c_ra c = forkret ∧ k = PProc ∧ su' = su ∨ c_ra c = yield_ret ∧ su !! i = Some k ∧ su' = delete i su).
Proof.
  pose proof code_ne as (_ & Hne & _). unfold enter. change (get_reg (load_ctx c h) Ra) with (c_ra c).
  intros [Hra|(Hra & k & Hk & Hr)].
  - exists PProc, su. rewrite decide_True by done. split_and!; [done|done|by left].
  - exists k, (delete i su). rewrite decide_False, decide_True by congruence. rewrite Hk. split_and!; [done|done|by right].
Qed.

Lemma dispatch_sched c i m :
  switched SchedCtx (ProcCtx i) c m =
  (set_sched (with_sched_context c (m_sched m)) m, default ctx_zero (p_context <$> slot m i)).
Proof. done. Qed.

(** The end of the trap vector in a process that was preempted. *)
Lemma restore_result clob ctx epc k h m r m' :
  frames_good (m_ram m) (PReturn ctx epc k) → get_reg h Sp = ctx →
  run_block (trap_calls clob) trap_restore h m = Ok r m' →
  r.2 = Leave (Sreturned true epc) ∧ (∀ x, x ≠ Zero → get_reg r.1 x = ram_load 8 (ctx_reg ctx (reg_num x)) (m_ram m)) ∧
  m' = set_csr (with_sstatus (sret (ram_load 8 (ctx_sstatus ctx) (m_ram m))) (with_sepc epc (m_csr m))) m.
Proof.
  intros (Hin & He & Hst & _) Hsp E. pose proof (wp_Ok _ _ _ _ _ E (wp_restore (trap_calls clob) ctx h m Hin Hsp)) as Hr.
  destruct r as [h3 n]. rewrite He, Hst in Hr. destruct Hr as (-> & -> & Hr). done.
Qed.

Lemma back_to_same epc k : back_to true epc epc k = k.
Proof. unfold back_to. by rewrite Z.eqb_refl. Qed.

Lemma on_cpu_lookup y st : on_cpu y st →
  ∃ p, slot (y_m y) (y_frame y).1 = Some p ∧ p_state p = st ∧ current_process (m_sched (y_m y)) = Some (y_frame y).1 ∧
    c_ra (sched_context (m_sched (y_m y))) = sched_ret.
Proof. intros (Hc & Hra & p & Hp & Hst). by exists p. Qed.

(** Dispatching a chosen process. *)
Lemma dispatch_inv m h h0 i f fr su m' c : sys_inv (Sys m h (PChosen i f) fr su) →
  switched SchedCtx (ProcCtx i) (with_ra sched_ret (cpu_of h0)) m = (m', c) →
  sys_inv (enter i m' (load_ctx c h0) (i, f) su) ∧
  y_m (enter i m' (load_ctx c h0) (i, f) su) = m' ∧ y_frame (enter i m' (load_ctx c h0) (i, f) su) = (i, f) ∧
  ∃ p, slot m i = Some p ∧ c = p_context p ∧ ready (m_ram m) (y_pc (enter i m' (load_ctx c h0) (i, f) su)) ∧
    (c_ra c = forkret ∧ y_pc (enter i m' (load_ctx c h0) (i, f) su) = PProc ∧ y_susp (enter i m' (load_ctx c h0) (i, f) su) = su ∨
     c_ra c = yield_ret ∧ su !! i = Some (y_pc (enter i m' (load_ctx c h0) (i, f) su)) ∧
       y_susp (enter i m' (load_ctx c h0) (i, f) su) = delete i su).
Proof.
  intros Hinv E. destruct (si_pc _ Hinv) as (Hc & p & Hp & Hst & Hr). cbn in Hc, Hp, Hr.
  rewrite dispatch_sched, Hp in E. injection E as <- <-. set (m' := set_sched _ m).
  destruct (enter_resumable i m' (p_context p) h0 (i, f) su Hr) as (k & su' & -> & Hk & Hor).
  split_and!; [|done|done|by exists p]. apply (inv_slot i (Sys m h (PChosen i f) fr su)); [done| | | | | |by right| |].
  - apply sched_wf_saved, (si_wf _ Hinv).
  - intros j Hj. split; [done|]. destruct Hor as [(_ & _ & ->)|(_ & _ & ->)]; [done|]. by apply lookup_delete_ne.
  - by intros j [= <-].
  - intros q _ Hn. destruct Hn. destruct Hk as [Hres _]. by destruct k.
  - by apply frames_kept_ram.
  - intros k' Hk'. destruct Hor as [(_ & _ & ->)|(_ & _ & ->)]; [by eapply (si_susp _ Hinv)|].
    cbn in Hk'. by rewrite lookup_delete_eq in Hk'.
  - assert (on_cpu (Sys m' (load_ctx (p_context p) h0) k (i, f) su') PROC_RUNNING) as Ho.
    { split; [done|]. split; [done|]. by exists p. }
    destruct Hk as [Hres Hg]. unfold pc_ok. by destruct k.
Qed.

Lemma code_inv y y' : sys_inv y → code_step y y' → sys_inv y'.
Proof.
  intros Hinv Hs. pose proof (si_pc _ Hinv) as Hpc. pose proof (si_wf _ Hinv) as Hwf. unfold vars in Hwf. destruct Hs as
    [m h i f fr su p Hp Hst|m h i f fr su p Hp Hst|m h i f fr su|m h h0 i f fr su m' c E|m h i f su
    |m h fr su|m h fr su Ha|m h fr su m' Ha E|m h m' h' fr su E Ec Hk|m h fr su i m' E|m h h' fr su i
    |m h fr su i k|m h fr su m' E|m h h' fr su i m' E|m h h2 clob ctx epc k fr su h3 sv a m' Hsp E];
    cbn in Hpc, Hwf.
  - apply (inv_same _ _ Hinv); [done..|by apply frames_kept_ram|]. split; [|apply Hpc]. apply lookup_lt_Some in Hp.
    rewrite (wf_length _ Hwf) in Hp. lia.
  - assert (is_Some (slot m i)) as Hsome by (by rewrite Hp).
    apply (inv_slot i _ _ Hinv); [by apply sched_wf_state; rewrite ?Hst| |done|by intros ? _ []|by apply frames_kept_ram|apply (si_ret _ Hinv)|apply (si_susp _ Hinv)|].
    + intros j Hj. split; [by apply slot_set_proc_ne|done].
    + split; [apply Hpc|]. exists (set_state PROC_RUNNING p). split_and!; [by apply slot_set_proc|done|].
      by apply (si_rest _ Hinv i p Hp).
  - apply (inv_same _ _ Hinv); [done..|by apply frames_kept_ram|]. split; [done|apply Hpc].
  - exact (proj1 (dispatch_inv m h h0 i f fr su m' c Hinv E)).
  - apply (inv_same _ _ Hinv); [done..|by apply frames_kept_ram|]. split; [simpl in *; lia|done].
  - apply (inv_same _ _ Hinv); [done..|by apply frames_kept_ram|]. split; [lia|apply Hpc].
  - apply (inv_same _ _ Hinv); [done..|by apply frames_kept_ram|]. split; [lia|apply Hpc].
  - pose proof (wp_Ok _ _ _ _ _ E (exit_prints m)) as P.
    apply (inv_same _ _ Hinv); unfold vars; cbn; rewrite ?(prints_sched _ _ _ P); [done..| |].
    + apply frames_kept_ram, (prints_ram _ _ _ P).
    + unfold pc_ok, vars. cbn. rewrite (prints_sched _ _ _ P). split; [apply Hpc|]. intros p. by apply active_false.
  - apply (inv_same _ _ Hinv); unfold vars; cbn; rewrite ?E; [done..|]. unfold pc_ok, on_cpu, vars, slot in *. cbn in *. by rewrite E.
  - destruct (on_cpu_lookup _ _ Hpc) as (p & Hp & Hst & Hc & Hra). cbn in Hp, Hc, Hra.
    rewrite (yield_marks m _ p Hc Hp) in E. injection E as <- <-. rewrite halted_running by done.
    apply (inv_slot fr.1 _ _ Hinv); [by apply sched_wf_state; rewrite ?Hst| |by intros j [= <-]|by intros ? _ []|by apply frames_kept_ram|by right|apply (si_susp _ Hinv)|].
    + intros j Hj. split; [by apply slot_set_proc_ne|done].
    + split; [done|]. split; [done|]. split; [done|]. exists (set_state PROC_RUNNABLE p).
      split; [exact (slot_set_proc _ _ _ (mk_is_Some _ _ Hp))|done].
  - destruct Hpc as (-> & Hcpu). destruct (on_cpu_lookup _ _ Hcpu) as (p & Hp & Hst & Hc & Hra).
    apply (inv_same _ _ Hinv); [done..|by apply frames_kept_ram|]. split_and!; [done..|]. exists p. split; [done|]. by left.
  - destruct Hpc as (-> & Hc & Hra & p & Hp & Hor).
    apply (leave_inv (Sys m h (PSwitch fr.1 k) fr su) _ h k m p); try done.
    + destruct Hor as [[? ->]|[? _]]; [left; by split|by right].
    + by destruct Hor as [[_ ->]|[_ ->]].
  - destruct (on_cpu_lookup _ _ Hpc) as (p & Hp & Hst & Hc & Hra). cbn in Hp, Hc, Hra.
    destruct (wp_Ok _ _ _ _ _ E (wp_farewell m _ p Hc Hp (wf_name _ Hwf _ _ Hp))) as (s1 & P & ->).
    assert (slot s1 fr.1 = Some p) as Hp1 by (unfold slot; by rewrite (prints_sched _ _ _ P)).
    assert (sched_wf (m_sched s1)) as Hwf1 by (by rewrite (prints_sched _ _ _ P)).
    apply (inv_slot fr.1 _ _ Hinv); [by apply sched_wf_state; rewrite ?Hst| |by intros j [= <-]|by intros ? _ []| | |apply (si_susp _ Hinv)|].
    + intros j Hj. cbn. rewrite slot_set_proc_ne by done. unfold slot. by rewrite (prints_sched _ _ _ P).
    + apply frames_kept_ram. cbn. by rewrite (prints_ram _ _ _ P).
    + right. cbn. by rewrite (prints_sched _ _ _ P).
    + split; [cbn; by rewrite (prints_sched _ _ _ P)|]. split; [cbn; by rewrite (prints_sched _ _ _ P)|].
      exists (set_state PROC_ZOMBIE p). split; [exact (slot_set_proc _ _ _ (mk_is_Some _ _ Hp1))|done].
  - destruct (on_cpu_lookup _ _ Hpc) as (p & Hp & Hst & Hc & Hra). cbn in Hp, Hc, Hra.
    rewrite (yield_marks m _ p Hc Hp), halted_other, set_proc_id in E by (done || congruence). injection E as <- <-.
    apply (inv_same _ _ Hinv); [done..|by apply frames_kept_ram|]. split_and!; [done..|]. exists p. split; [done|]. by right.
  - destruct Hpc as (Hcpu & Hres & Hg). pose proof Hg as (_ & _ & _ & Hg').
    destruct (restore_result _ _ _ _ _ _ _ _ Hg Hsp E) as ([= -> ->] & _ & ->). rewrite back_to_same.
    simpl in Hres. apply (inv_same _ _ Hinv); [done..| |by apply frames_kept_ram|].
    + intros j [= <-]. by destruct k.
    + unfold pc_ok. by destruct k.
Qed.

(** A step where the code is prepared for it. *)
Lemma orderly_inv y y' : sys_inv y → orderly y y' → sys_inv y'.
Proof.
  intros Hinv [Hs|[Hs|[Hs Hn]]]; [by eapply code_inv|eapply invisible_inv; [done|by apply irq_invisible]|by eapply preempt_inv].
Qed.

Lemma orderlies_inv y y' : sys_inv y → rtc orderly y y' → sys_inv y'.
Proof. intros Hi Hs. revert Hi. induction Hs; eauto using orderly_inv. Qed.

(** ** What a step does to a slot and to memory *)

Lemma orderly_kept y y' : sys_inv y → orderly y y' → frames_kept y (y_m y').
Proof.
  intros Hinv [Hs|[Hs|[Hs _]]]; [|by apply irq_invisible|].
  - pose proof (si_pc _ Hinv) as Hpc. destruct Hs as
      [| | |m h h0 i f fr su m' c E| | | |m h fr su m' Ha E|m h m' h' fr su E Ec Hk|m h fr su i m' E| |m h fr su i k
      |m h fr su m' E|m h h' fr su i m' E|m h h2 clob ctx epc k fr su h3 sv a m' Hsp E]; cbn [y_m]; try by apply frames_kept_ram.
    + destruct (dispatch_inv _ _ _ _ _ _ _ _ _ Hinv E) as (_ & -> & _). injection E as <- _. by apply frames_kept_ram.
    + apply frames_kept_ram, (prints_ram _ _ _ (wp_Ok _ _ _ _ _ E (exit_prints m))).
    + done.
    + destruct (on_cpu_lookup _ _ Hpc) as (p & Hp & _ & Hc & _). cbn in Hp, Hc.
      rewrite (yield_marks m _ p Hc Hp) in E. injection E as _ <-. by apply frames_kept_ram.
    + destruct (on_cpu_lookup _ _ Hpc) as (p & Hp & Hst & Hc & Hra). cbn in Hp, Hc, Hra.
      destruct (wp_Ok _ _ _ _ _ E (wp_farewell m _ p Hc Hp (wf_name _ (si_wf _ Hinv) _ _ Hp))) as (s1 & P & ->).
      apply frames_kept_ram, (prints_ram _ _ _ P).
    + destruct (on_cpu_lookup _ _ Hpc) as (p & Hp & _ & Hc & _). cbn in Hp, Hc.
      rewrite (yield_marks m _ p Hc Hp) in E. injection E as _ <-. by apply frames_kept_ram.
    + destruct (restore_result _ _ _ _ _ _ _ _ (proj2 (proj2 Hpc)) Hsp E) as (_ & _ & ->). by apply frames_kept_ram.
  - destruct (preempt_result _ _ Hs) as (i & p & h & h' & epc & tval & s1 & Hirq & _ & _ & [_ _ _ Hm] & ->).
    pose proof (stack_kept _ _ _ _ _ _ Hirq Hm) as Hk. intros ctx Hl. by apply Hk.
Qed.

Lemma current_holder y i : sys_inv y → current_process (vars y) = Some i → holder y = Some i.
Proof.
  intros Hinv Hc. pose proof (si_pc _ Hinv) as Hpc. unfold pc_ok, holder in *.
  assert (∀ st, on_cpu y st → Some (y_frame y).1 = Some i) as Ho by (intros st (? & _); congruence).
  destruct (y_pc y); try done; try (by eapply Ho); try (destruct Hpc; congruence).
  - destruct Hpc as [-> Hcpu]. by eapply Ho.
  - destruct Hpc as (_ & ? & _). congruence.
  - destruct Hpc as [Hcpu _]. by eapply Ho.
Qed.

(** Only the slot that is held changes, and another one when it is picked. *)
Definition slot_kept (k : nat) y y' : Prop :=
  slot (y_m y') k = slot (y_m y) k ∧ y_susp y' !! k = y_susp y !! k ∧ holder y' ≠ Some k.
Definition slot_picked (k : nat) y y' : Prop :=
  ∃ f p, y_pc y = PScan k f ∧ y_pc y' = PPicked k f ∧ slot (y_m y) k = Some p ∧ p_state p = PROC_RUNNABLE ∧
    slot (y_m y') k = Some (set_state PROC_RUNNING p) ∧ y_susp y' = y_susp y.

Lemma preempt_slot y y' k : sys_inv y → preempt y y' → holder y ≠ Some k → slot_kept k y y'.
Proof.
  intros Hinv Hs Hk. destruct (preempt_result _ _ Hs) as (i & p & h & h' & epc & tval & s1 & _ & Hc & _ & [Es _ _ _] & ->).
  pose proof (current_holder _ _ Hinv Hc) as Hh. assert (k ≠ i) as Hne by congruence.
  destruct (leave_fields i h' (PReturn (frame_at h) epc (y_pc y)) (yielded i p s1) (y_frame y) (y_susp y)) as (_ & E2 & _).
  split_and!.
  - rewrite slot_leave, decide_False by done. change (slot (set_proc i (halted p) s1) k = slot (y_m y) k).
    rewrite slot_set_proc_ne by done. unfold slot. by rewrite Es.
  - by rewrite E2, lookup_insert_ne.
  - unfold holder, leave. cbn. by destruct (decide _).
Qed.

Lemma code_slot y y' k : sys_inv y → code_step y y' → holder y ≠ Some k → slot_kept k y y' ∨ slot_picked k y y'.
Proof.
  intros Hinv Hs Hk. pose proof (si_pc _ Hinv) as Hpc. destruct Hs as
    [m h i f fr su p Hp Hst|m h i f fr su p Hp Hst|m h i f fr su|m h h0 i f fr su m' c E|m h i f su
    |m h fr su|m h fr su Ha|m h fr su m' Ha E|m h m' h' fr su E Ec Hkept|m h fr su i m' E|m h h' fr su i
    |m h fr su i k'|m h fr su m' E|m h h' fr su i m' E|m h h2 clob ctx epc k' fr su h3 sv a m' Hsp E];
    cbn in Hpc, Hk; try (left; split_and!; done).
  - destruct (decide (k = i)) as [->|Hne].
    + right. exists f, p. split_and!; try done. apply slot_set_proc. by rewrite Hp.
    + left. split_and!; [by apply slot_set_proc_ne|done|cbn; congruence].
  - left. destruct (dispatch_inv _ _ _ _ _ _ _ _ _ Hinv E) as (Hinv' & Em & Efr & p & Hp & _ & [Hres _] & Hor).
    assert (k ≠ i) as Hne by congruence. split_and!.
    + rewrite Em. by injection E as <- _.
    + destruct Hor as [(_ & _ & ->)|(_ & _ & ->)]; [done|by apply lookup_delete_ne].
    + unfold holder. rewrite Efr. destruct (y_pc _); try done; cbn; congruence.
  - left. split_and!; [|done..]. unfold slot. cbn. by rewrite (prints_sched _ _ _ (wp_Ok _ _ _ _ _ E (exit_prints m))).
  - left. split_and!; [|done..]. unfold slot. cbn. by rewrite E.
  - left. destruct (on_cpu_lookup _ _ Hpc) as (p & Hp & _ & Hc & _). cbn in Hp, Hc.
    rewrite (yield_marks m _ p Hc Hp) in E. injection E as <- <-. split_and!; [apply slot_set_proc_ne; congruence|done..].
  - left. destruct (leave_fields i h k' m fr su) as (_ & E2 & _). assert (k ≠ i) as Hne by congruence. split_and!.
    + by rewrite slot_leave, decide_False.
    + by rewrite E2, lookup_insert_ne.
    + unfold holder, leave. cbn. by destruct (decide _).
  - left. destruct (on_cpu_lookup _ _ Hpc) as (p & Hp & Hst & Hc & Hra). cbn in Hp, Hc, Hra.
    destruct (wp_Ok _ _ _ _ _ E (wp_farewell m _ p Hc Hp (wf_name _ (si_wf _ Hinv) _ _ Hp))) as (s1 & P & ->).
    split_and!; [|done..]. cbn. rewrite slot_set_proc_ne by congruence. unfold slot. by rewrite (prints_sched _ _ _ P).
  - left. destruct (on_cpu_lookup _ _ Hpc) as (p & Hp & _ & Hc & _). cbn in Hp, Hc.
    rewrite (yield_marks m _ p Hc Hp) in E. injection E as <- <-. split_and!; [|done|cbn; congruence].
    cbn. rewrite set_current_slot. apply slot_set_proc_ne. congruence.
  - left. destruct (restore_result _ _ _ _ _ _ _ _ (proj2 (proj2 Hpc)) Hsp E) as ([= -> ->] & _ & ->). rewrite back_to_same.
    split_and!; [done|done|]. unfold holder. destruct Hpc as (_ & Hres & _). simpl in Hres. by destruct k'.
Qed.

Lemma orderly_slot y y' k : sys_inv y → orderly y y' → holder y ≠ Some k → slot_kept k y y' ∨ slot_picked k y y'.
Proof.
  intros Hinv [Hs|[Hs|[Hs _]]] Hk; [by apply code_slot| |left; by apply preempt_slot].
  destruct (irq_invisible _ _ Hs) as [Epc Efr Esu Ev _ _ _ _]. left. split_and!; [unfold slot; by rewrite Ev|by rewrite Esu|].
  unfold holder in *. by rewrite Epc, Efr.
Qed.
End invariant.

(** ** What the scheduler guarantees *)

(** A table as [proc_init] and [proc_create] leave it: every process is unused,
    or runnable and about to start. *)
Record fresh_table (v : sched_vars) `{Code} : Prop := {
  ft_wf : sched_wf v;
  ft_idle : current_process v = None;
  ft_slots : ∀ i p, procs v !! i = Some p →
    p_state p = PROC_UNUSED ∨ p_state p = PROC_RUNNABLE ∧ c_ra (p_context p) = forkret;
}.

Section tables.
Context `{Platform} `{Code} {TX : UartTx}.
Implicit Types (s : machine).

Lemma fresh_table_init s :
  length (procs (m_sched s)) = NPROC →
  (∀ p, p ∈ procs (m_sched s) → length (p_name p) = 16%nat ∧ Forall (λ c, 0 <= c < 2 ^ 8) (p_name p)) →
  wp proc_init s (λ _ s', fresh_table (m_sched s') ∧ m_heap s' = m_heap s ∧ m_ram s' = m_ram s).
Proof.
  intros Hl Hn. eapply wp_mono; [by apply wp_proc_init|]. intros [] s' [Hwf ->]. split; [|done].
  split; simpl; [done|done|]. intros i p (q & -> & _)%list_lookup_fmap_Some. by left.
Qed.

Lemma fresh_table_create s L entry name l :
  fresh_table (m_sched s) → heap_inv s L → name_at s name l →
  wp (proc_create entry name) s (λ r s', fresh_table (m_sched s') ∧ m_ram s' = m_ram s ∧
    heap_inv s' (match find_unused (procs (m_sched s)) with Some _ => tail L | None => L end)).
Proof.
  intros [Hwf Hc Hs] HI Hname. eapply wp_mono; [by apply wp_proc_create|]. intros r s' [Hwf' Hr].
  destruct (find_unused _) as [i|]; [destruct L as [|stack L]|].
  - destruct Hr as [_ Hp]. split_and!; [|by eapply prints_ram|].
    + rewrite (prints_sched _ _ _ Hp). by split.
    + by eapply heap_inv_ext; [eapply prints_ram|eapply prints_heap|].
  - destruct Hr as (_ & HI' & old & fl & Hold & _ & ->). split_and!; [|done|done].
    split; [done|done|]. simpl. intros j p [[-> [<- _]]|[_ Hj]]%list_lookup_insert_Some; [by right|].
    by eapply Hs.
  - destruct Hr as [_ Hp]. split_and!; [|by eapply prints_ram|].
    + rewrite (prints_sched _ _ _ Hp). by split.
    + by eapply heap_inv_ext; [eapply prints_ram|eapply prints_heap|].
Qed.
End tables.

Section guarantees.
Context `{Platform} {TX : UartTx} `{CodeRet}.
Implicit Types (m : machine) (h : hart) (y : sys).

(** [scheduler()] is called. *)
Definition start m h : sys := Sys m h (PScan 0 false) (0%nat, false) ∅.

(** The runs of the kernel; those in which the timer never interrupts where the
    code is not prepared for it; and those in which it has done so. *)
Definition reachable m y : Prop := ∃ h, rtc step (start m h) y.
Definition orderly_run m y : Prop := ∃ h, rtc orderly (start m h) y.
Definition raced m y : Prop := ∃ y1 y2, orderly_run m y1 ∧ race y1 y2 ∧ rtc step y2 y.

Lemma reachable_cases m y : reachable m y → orderly_run m y ∨ raced m y.
Proof.
  intros [h Hr]. apply rtc_ind_r with (P := λ y, orderly_run m y ∨ raced m y) (x := start m h) in Hr; [done| |].
  - left. exists h. apply rtc_refl.
  - intros y1 y2 _ Hs [[h1 Ho]|(y3 & y4 & Ho & Hrace & Hs')].
    + destruct Hs as [Hs|Hs]; [left; exists h1; by eapply rtc_r|right]. exists y1, y2. split_and!; [by exists h1|done|done].
    + right. exists y3, y4. split_and!; [done..|]. by eapply rtc_r.
Qed.

Lemma orderly_reachable m y : orderly_run m y → reachable m y.
Proof. intros [h Hr]. exists h. eapply (rtc_congruence id); [|done]. intros a b Hs. by left. Qed.

Lemma start_inv m h : fresh_table (m_sched m) → sys_inv (start m h).
Proof.
  intros [Hwf Hc Hs]. split; [done| |by left|done|by split; [lia|]].
  intros j p Hp _. destruct (Hs j p Hp) as [E|[E Hra]]; (split; [by rewrite E|]); [by rewrite E|]. intros _. by left.
Qed.

Lemma run_inv m y : fresh_table (m_sched m) → orderly_run m y → sys_inv y.
Proof. intros Hf [h Hr]. eapply orderlies_inv; [|done]. by apply start_inv. Qed.

(** Process [i] computes; it is on the way back from its last preemption. *)
Definition running (i : nat) y : Prop := y_pc y = PProc ∧ current_process (vars y) = Some i.
Definition resuming (i : nat) y : Prop :=
  (∃ ctx epc k, y_pc y = PReturn ctx epc k) ∧ current_process (vars y) = Some i.

(** The slot of a zombie changes only when its registers are saved. *)
Lemma zombie_step y y' k p : sys_inv y → orderly y y' → slot (y_m y) k = Some p → p_state p = PROC_ZOMBIE →
  ∃ c, slot (y_m y') k = Some (set_context c p).
Proof.
  intros Hinv Hs Hp Hz. assert (set_context (p_context p) p = p) as Ep by (by destruct p).
  destruct (decide (holder y = Some k)) as [Hh|Hh].
  2:{ destruct (orderly_slot _ _ _ Hinv Hs Hh) as [(E & _)|(f & q & _ & _ & Hq & Hst & _)]; [|congruence].
      exists (p_context p). by rewrite Ep, E. }
  pose proof (si_pc _ Hinv) as Hpc.
  assert (∀ q, on_cpu y q → holder y = Some (y_frame y).1 → q = PROC_ZOMBIE) as Hcpu.
  { intros q (_ & _ & p' & Hp' & <-) E. congruence. }
  destruct Hs as [Hs|[Hs|[Hs _]]].
  - destruct Hs as [| | | | | | | |m h m' h' fr su E Ec Hk|m h fr su i m' E|m h h' fr su i
      |m h fr su i k'|m h fr su m' E|m h h' fr su i m' E|m h h2 clob ctx epc k' fr su h3 sv a m' Hsp E];
      cbn in Hpc, Hh, Hp, Hcpu; try done.
    + injection Hh as ->. exists (p_context p). by rewrite Ep.
    + injection Hh as ->. destruct Hpc as (_ & q & Hq & Hst & _). cbn in Hq. congruence.
    + by specialize (Hcpu _ Hpc eq_refl).
    + by specialize (Hcpu _ Hpc eq_refl).
    + exists (p_context p). by rewrite Ep.
    + injection Hh as ->. eexists. rewrite slot_leave, decide_True, Hp by done. done.
    + by specialize (Hcpu _ Hpc eq_refl).
    + destruct (on_cpu_lookup _ _ Hpc) as (q & Hq & Hst & Hc & _). cbn in Hq, Hc.
      rewrite (yield_marks m _ q Hc Hq), halted_other, set_proc_id in E by (done || congruence). injection E as <- <-.
      exists (p_context p). by rewrite Ep.
    + by specialize (Hcpu _ (proj1 Hpc) eq_refl).
  - exists (p_context p). rewrite Ep. unfold slot. by rewrite (iv_sched _ _ (irq_invisible _ _ Hs)).
  - destruct (preempt_result _ _ Hs) as (i & q & h & h' & epc & tval & s1 & _ & Hc & Hq & [Es _ _ _] & ->).
    pose proof (current_holder _ _ Hinv Hc) as Hi. assert (i = k) as -> by congruence. assert (q = p) as -> by congruence.
    eexists. rewrite slot_leave, decide_True by done. rewrite yielded_slot by (unfold slot; rewrite Es; by eexists).
    by rewrite halted_other by congruence.
Qed.

Lemma zombie_stays y y' k p : sys_inv y → rtc orderly y y' → slot (y_m y) k = Some p → p_state p = PROC_ZOMBIE →
  (∃ c, slot (y_m y') k = Some (set_context c p)) ∧ ¬ running k y' ∧ ¬ resuming k y'.
Proof.
  intros Hinv Hs. revert p. induction Hs as [y|y y1 y' Hs _ IH]; intros p Hp Hz.
  - split; [exists (p_context p); by destruct p|].
    assert (on_cpu y PROC_RUNNING → current_process (vars y) = Some k → False) as Hno.
    { intros (Hc & _ & q & Hq & Hst) Hc'. rewrite Hc in Hc'. injection Hc' as E. rewrite E in Hq. congruence. }
    pose proof (si_pc _ Hinv) as Hpc. unfold pc_ok in Hpc. split.
    + intros [E Hc]. rewrite E in Hpc. by apply Hno.
    + intros [(ctx & epc & k' & E) Hc]. rewrite E in Hpc. by apply Hno; [apply Hpc|].
  - destruct (zombie_step _ _ _ _ Hinv Hs Hp Hz) as [c Hp1].
    destruct (IH (orderly_inv _ _ Hinv Hs) _ Hp1 Hz) as [[c' Hp'] Hn]. split; [by exists c'|exact Hn].
Qed.

(** C8: the scheduler is safe as long as the timer does not interrupt it between
    process.c:100 and the end of the [swtch] on line 103, nor a [yield] between
    lines 136 and 138.  Every state the kernel can reach is reached without such an
    interrupt or comes after one ([raced]).  In the first case control is in the
    code (every [swtch] returned into the scheduler, a process that called it, or
    [forkret], and every trap into the code it interrupted); a process computes, or
    is on the way back from a preemption, only while it is the current one and
    marked running; no two are marked so; a process that has ended never runs
    again, and but for its saved registers its slot stays as it is; and the
    scheduler ends only when every slot is unused or a zombie.  Apart from those
    interrupts the processes may do whatever leaves the variables of the scheduler,
    the control registers and the frames of trap.S alone, and interrupts may come
    anywhere, also one in the other. *)
Theorem scheduler_safety m y :
  fresh_table (m_sched m) →
  (reachable m y → orderly_run m y ∨ raced m y) ∧
  (orderly_run m y →
    (∀ a, y_pc y ≠ PWild a) ∧ y_pc y ≠ PSpin ∧
    (y_pc y = PProc ∨ (∃ ctx epc k, y_pc y = PReturn ctx epc k) → ∃ i p,
       current_process (m_sched (y_m y)) = Some i ∧ slot (y_m y) i = Some p ∧ p_state p = PROC_RUNNING) ∧
    (∀ i j p q, slot (y_m y) i = Some p → slot (y_m y) j = Some q →
       p_state p = PROC_RUNNING → p_state q = PROC_RUNNING → i = j) ∧
    (∀ y' i p, rtc orderly y y' → slot (y_m y) i = Some p → p_state p = PROC_ZOMBIE →
       (∃ c, slot (y_m y') i = Some (set_context c p)) ∧ ¬ running i y' ∧ ¬ resuming i y') ∧
    (y_pc y = PExited → ∀ i p, slot (y_m y) i = Some p →
       p_state p = PROC_UNUSED ∨ p_state p = PROC_ZOMBIE)).
Proof.
  intros Hf. split; [apply reachable_cases|intros Ho].
  pose proof (run_inv _ _ Hf Ho) as Hinv. pose proof (si_pc _ Hinv) as Hpc. unfold pc_ok in Hpc. split_and!.
  - intros a E. by rewrite E in Hpc.
  - intros E. by rewrite E in Hpc.
  - intros Hor. assert (on_cpu y PROC_RUNNING) as (Hc & _ & p & Hp & Hst); [|by exists (y_frame y).1, p].
    destruct Hor as [E|(ctx & epc & k & E)]; rewrite E in Hpc; [done|apply Hpc].
  - assert (∀ i p, slot (y_m y) i = Some p → p_state p = PROC_RUNNING → holder y = Some i) as Hrun.
    { intros i p Hp Hst. destruct (decide (holder y = Some i)) as [|Hn]; [done|].
      by destruct (si_rest _ Hinv i p Hp Hn) as [Hno _]. }
    intros i j p q Hp Hq Hi Hj. pose proof (Hrun _ _ Hp Hi). pose proof (Hrun _ _ Hq Hj). congruence.
  - intros y' i p Hs Hp Hz. by eapply zombie_stays.
  - intros E i p Hp. rewrite E in Hpc. destruct Hpc as [_ Ha]. eapply Ha. by eapply list_elem_of_lookup_2.
Qed.

(** ** Every process has its turn *)

(** The scheduler has not yet come to slot [k] in this pass. *)
Definition before (k : nat) y : Prop :=
  match y_pc y with
  | PScan i _ => (i <= k)%nat
  | PPicked i _ | PChosen i _ => (i < k)%nat
  | PExited | PSpin | PWild _ => False
  | _ => ((y_frame y).1 < k)%nat
  end.

(** One step keeps the scheduler before a runnable slot, unless it picks it. *)
Lemma before_step k y y' p :
  sys_inv y → orderly y y' → (∀ f, y_pc y' ≠ PPicked k f) → (k < NPROC)%nat →
  slot (y_m y) k = Some p → p_state p = PROC_RUNNABLE → before k y → before k y'.
Proof.
  intros Hinv Hs Hnp Hk Hp Hst Hb. pose proof (si_pc _ Hinv) as Hpc. destruct Hs as [Hs|[Hs|[Hs Hnr]]].
  - destruct Hs as
      [m h i f fr su p' Hp' Hst'|m h i f fr su p' Hp' Hst'|m h i f fr su|m h h0 i f fr su m' c E|m h i f su
      |m h fr su|m h fr su Ha|m h fr su m' Ha E|m h m' h' fr su E Ec Hkept|m h fr su i m' E|m h h' fr su i
      |m h fr su i k'|m h fr su m' E|m h h' fr su i m' E|m h h2 clob ctx epc k' fr su h3 sv a m' Hsp E];
      unfold before in *; cbn in Hpc, Hb, Hp, Hnp; try done; try (cbn; lia).
    + destruct (decide (i = k)) as [->|]; [congruence|cbn; lia].
    + destruct (decide (i = k)) as [->|]; [by destruct (Hnp f)|cbn; lia].
    + destruct (dispatch_inv _ _ _ _ _ _ _ _ _ Hinv E) as (_ & _ & -> & q & _ & _ & [Hres _] & _).
      by destruct (y_pc _).
    + destruct Hpc as (-> & _ & Hra & _). by rewrite (leave_pc fr.1 h k' m fr su Hra).
    + destruct (restore_result _ _ _ _ _ _ _ _ (proj2 (proj2 Hpc)) Hsp E) as ([= -> ->] & _ & ->). rewrite back_to_same.
      destruct Hpc as (_ & Hres & _). simpl in Hres. by destruct k'.
  - destruct (irq_invisible _ _ Hs) as [Epc Efr _ _ _ _ _ _]. unfold before in *. by rewrite Epc, Efr.
  - pose proof (si_pc _ (preempt_inv _ _ Hinv Hs Hnr)) as Hpc'.
    destruct (preempt_result _ _ Hs) as (i & q & h & h' & epc & tval & s1 & _ & Hc & _ & _ & ->).
    pose proof (current_holder _ _ Hinv Hc) as Hi. set (k1 := PReturn _ _ _) in *.
    assert (y_pc (leave i h' k1 (yielded i q s1) (y_frame y) (y_susp y)) = PBack) as E.
    { unfold pc_ok in Hpc'. unfold leave in *. cbn in *. by destruct (decide _). }
    assert (y_frame (leave i h' k1 (yielded i q s1) (y_frame y) (y_susp y)) = y_frame y) as E' by done.
    unfold before, holder, racing, pc_ok in *. rewrite E, E'. destruct (y_pc y); try done.
    destruct Hpc as [Hn _]. unfold vars in Hn. congruence.
Qed.

(** C26: no process is passed over, as long as the timer does not interrupt the
    scheduler between process.c:100 and the end of the [swtch] on line 103, nor a
    [yield] between lines 136 and 138.  While slot [k] holds a runnable process and
    the scheduler has not come to it in this pass, then until it picks [k] it does
    not get past [k] either: it neither examines a later slot nor starts a new
    pass nor ends, and [k] stays runnable. *)
Theorem round_robin m y y' k p :
  fresh_table (m_sched m) → orderly_run m y →
  slot (y_m y) k = Some p → p_state p = PROC_RUNNABLE → before k y →
  rtc (λ a b, orderly a b ∧ ∀ f, y_pc b ≠ PPicked k f) y y' →
  before k y' ∧ slot (y_m y') k = Some p.
Proof.
  intros Hf Hr Hp Hst Hb Hs. pose proof (run_inv _ _ Hf Hr) as Hi. clear Hr.
  assert (k < NPROC)%nat as Hk by (rewrite <- (wf_length _ (si_wf _ Hi)); by eapply lookup_lt_Some).
  induction Hs as [|y y1 y' [Hs Hnc] _ IH]; [done|].
  assert (holder y ≠ Some k) as Hh.
  { pose proof (si_pc _ Hi) as Hpc. unfold before, holder, pc_ok in *. intros E.
    destruct (y_pc y) eqn:Epc; simplify_eq; try lia; destruct Hpc; lia. }
  assert (slot (y_m y1) k = Some p) as Hp1.
  { destruct (orderly_slot _ _ _ Hi Hs Hh) as [(-> & _)|(f & q & _ & E & _)]; [done|by destruct (Hnc f)]. }
  apply IH; [done|by eapply before_step|by eapply orderly_inv].
Qed.

(** ** Switching there and back *)

(** Process [i] is not running: its context is [c], and it goes on at [k]. *)
Definition saved (i : nat) (k : pc) (c : context) y : Prop :=
  y_susp y !! i = Some k ∧ c_ra c = yield_ret ∧ (∃ p, slot (y_m y) i = Some p ∧ p_context p = c) ∧
  (holder y ≠ Some i ∨ ∃ f, y_pc y = PPicked i f ∨ y_pc y = PChosen i f).

(** It stays like that until it is dispatched. *)
Lemma saved_step i k c y y' : sys_inv y → orderly y y' → saved i k c y →
  saved i k c y' ∨ ∃ h0, y_pc y' = k ∧ (y_frame y').1 = i ∧ y_h y' = load_ctx c h0.
Proof.
  intros Hinv Hs (Hu & Hra & (p & Hp & Hcx) & Hor). pose proof (si_pc _ Hinv) as Hpc. destruct Hor as [Hh|[f Hor]].
  { left. split; [|split; [done|]]; destruct (orderly_slot _ _ _ Hinv Hs Hh) as [(E1 & E2 & E3)|(f & q & _ & E & Hq & _ & E1 & E2)].
    - by rewrite E2.
    - by rewrite E2.
    - split; [exists p; by rewrite E1|by left].
    - split; [|right; exists f; by left]. eexists. split; [exact E1|]. assert (q = p) as -> by congruence. done. }
  destruct Hs as [Hs|[Hs|[Hs Hnr]]].
  - destruct Hs as [| |m h i' f' fr su|m h h0 i' f' fr su m' c' E| | | | | | | | | | |]; cbn in Hor, Hpc, Hp, Hu;
      try (exfalso; by destruct Hor).
    + left. destruct Hor as [[= -> ->]|[=]]. split_and!; [done|done|by exists p|right; exists f; by right].
    + right. destruct Hor as [[=]|[= -> ->]]. exists h0. rewrite dispatch_sched, Hp in E. injection E as <- <-. cbn.
      unfold enter. change (get_reg (load_ctx (p_context p) h0) Ra) with (c_ra (p_context p)). pose proof code_ne as (_ & Hne & _).
      rewrite decide_False, decide_True by congruence. rewrite Hu. by rewrite Hcx.
  - destruct (irq_invisible _ _ Hs) as [Epc Efr Esu Ev _ _ _ _]. left. split_and!; [by rewrite Esu|done|exists p|right; exists f].
    + unfold slot. by rewrite Ev.
    + by rewrite Epc.
  - exfalso. destruct (preempt_result _ _ Hs) as (i' & q & h & h' & epc & tval & s1 & _ & Hc & _).
    unfold pc_ok, racing in *. destruct Hor as [E|E]; rewrite E in *; [|done]. destruct Hpc as [Hn _]. unfold vars in Hn. congruence.
Qed.

(** The code at [k] goes on at [k0] after the traps it returns from first. *)
Fixpoint leads_to (k0 k : pc) : Prop :=
  k = k0 ∨ match k with PReturn _ _ k' => leads_to k0 k' | _ => False end.

(** Process [i] was interrupted at [epc]; its registers are in the frame at [ctx],
    and its way back leads through this frame. *)
Definition interrupted_proc (i : nat) ctx epc h c y : Prop :=
  frame_of ctx h c (m_ram (y_m y)) ∧ ∃ k, leads_to (PReturn ctx epc PProc) k ∧
    (y_pc y = k ∧ (y_frame y).1 = i ∨ ∃ cx, saved i k cx y).

Lemma leads_live ctx epc k : leads_to (PReturn ctx epc PProc) k →
  of_process k = true ∧ ctx ∈ frames k ∧ ∃ c e k', k = PReturn c e k'.
Proof.
  induction k as [| | | | | | |i k IH|c e k IH| | |]; intros [E|E]; try done.
  - injection E as -> -> ->. split_and!; [done|apply list_elem_of_here|by eauto].
  - destruct (IH E) as (? & ? & _). split_and!; [done|by apply list_elem_of_further|by eauto].
Qed.

Lemma interrupted_step i ctx epc h c y y' : sys_inv y → orderly y y' → interrupted_proc i ctx epc h c y →
  interrupted_proc i ctx epc h c y' ∨
  y_pc y' = PProc ∧ (y_frame y').1 = i ∧ (∀ r, get_reg (y_h y') r = get_reg h r) ∧ sstatus (m_csr (y_m y')) = sret (sstatus c) ∧
    sepc (m_csr (y_m y')) = epc.
Proof.
  intros Hinv Hs (Hf & k & Hk & Hor). destruct (leads_live _ _ _ Hk) as (Hof & Hin & ctx1 & epc1 & k1 & Ek).
  pose proof (si_pc _ Hinv) as Hpc.
  assert (frame_of ctx h c (m_ram (y_m y'))) as Hf'.
  { eapply frame_of_same; [exact Hf|]. apply (orderly_kept _ _ Hinv Hs). exists k. split_and!; [|done..].
    destruct Hor as [[? _]|(cx & ? & _)]; [by left|right; by exists i]. }
  destruct Hor as [[Epc Efr]|[cx Hsv]].
  2:{ destruct (saved_step _ _ _ _ _ Hinv Hs Hsv) as [Hsv'|(h0 & E1 & E2 & _)]; left; (split; [done|]); exists k; (split; [done|]).
      - right. by exists cx.
      - by left. }
  rewrite Ek in Epc. unfold pc_ok in Hpc. rewrite Epc in Hpc. destruct Hpc as [Hcpu [Hres Hg]]. destruct Hs as [Hs|[Hs|[Hs _]]].
  - destruct Hs as [| | | | | | | | | | | | | |m hx h2 clob ctx' epc' k' fr su h3 sv a m' Hsp E]; try done.
    cbn in Epc, Efr, Hg, Hf. injection Epc as -> -> ->.
    destruct (restore_result _ _ _ _ _ _ _ _ Hg Hsp E) as ([= -> ->] & Hr & ->). rewrite back_to_same. subst k.
    destruct Hk as [[= -> -> ->]|Hk].
    + right. split_and!; [done|done| |cbn; by rewrite (fr_sstatus _ _ _ _ Hf)|done]. intros r. cbn.
      destruct (decide (r = Zero)) as [->|Hz]; [done|]. cbn in Hr. by rewrite Hr, (fr_regs _ _ _ _ Hf).
    + left. split; [done|]. exists k1. split; [done|]. by left.
  - destruct (irq_invisible _ _ Hs) as [Epc' Efr' _ _ _ _ _ _]. left. split; [done|]. exists k. split; [done|]. left.
    rewrite Epc', Efr', Ek. done.
  - left. split; [done|]. destruct (preempt_result _ _ Hs) as (j & q & h1 & h1' & e1 & t1 & s1 & _ & Hc & Hq & [Es _ _ _] & ->).
    destruct Hcpu as (Hc' & Hra & _). assert (j = i) as -> by (unfold vars in Hc'; congruence).
    exists (PReturn (frame_at h1) e1 (y_pc y)). split; [right; by rewrite Epc, <- Ek|]. right.
    exists (with_ra yield_ret (cpu_of h1')). split_and!; [by apply lookup_insert_eq|done| |].
    + eexists. rewrite slot_leave, decide_True, yielded_slot; [done|unfold slot; rewrite Es; by eexists|done].
    + left. rewrite leave_pc; [done|]. simpl. by rewrite Es.
Qed.

(** A process that gave up the processor does not compute. *)
Lemma saved_not_running i k c y : sys_inv y → saved i k c y → ¬ running i y.
Proof.
  intros Hinv (_ & _ & _ & Hor) [E Hc]. pose proof (current_holder _ _ Hinv Hc) as Hh.
  destruct Hor as [?|[f [?|?]]]; congruence.
Qed.

Lemma saved_until i c y y2 y3 : sys_inv y → saved i PProc c y →
  rtc (λ a b, orderly a b ∧ ¬ running i b) y y2 → orderly y2 y3 → running i y3 → cpu_of (y_h y3) = c.
Proof.
  intros Hinv Hsv Hs H3 Hr3. induction Hs as [y|y y1 y2 [Hs Hn] _ IH].
  - destruct (saved_step _ _ _ _ _ Hinv H3 Hsv) as [Hsv'|(h0 & _ & _ & ->)]; [|apply cpu_of_load_ctx].
    by destruct (saved_not_running _ _ _ _ (orderly_inv _ _ Hinv H3) Hsv').
  - pose proof (orderly_inv _ _ Hinv Hs) as Hinv1.
    destruct (saved_step _ _ _ _ _ Hinv Hs Hsv) as [Hsv'|(h0 & E & Efr & _)]; [by apply IH|].
    destruct Hn. split; [done|]. pose proof (si_pc _ Hinv1) as Hpc. unfold pc_ok in Hpc. rewrite E in Hpc.
    destruct Hpc as (-> & _). by rewrite Efr.
Qed.

Lemma interrupted_until i ctx epc h c y y2 y3 : sys_inv y → interrupted_proc i ctx epc h c y →
  rtc (λ a b, orderly a b ∧ ¬ running i b) y y2 → orderly y2 y3 → running i y3 →
  (∀ r, get_reg (y_h y3) r = get_reg h r) ∧ sstatus (m_csr (y_m y3)) = sret (sstatus c) ∧ sepc (m_csr (y_m y3)) = epc.
Proof.
  intros Hinv Hi Hs H3 Hr3. induction Hs as [y|y y1 y2 [Hs Hn] _ IH].
  - destruct (interrupted_step _ _ _ _ _ _ _ Hinv H3 Hi) as [(_ & k & Hk & Hor)|(_ & _ & ?)]; [exfalso|done].
    destruct (leads_live _ _ _ Hk) as (_ & _ & c1 & e1 & k1 & ->). destruct Hor as [[E _]|[cx Hsv]].
    + destruct Hr3. congruence.
    + by eapply saved_not_running; [exact (orderly_inv _ _ Hinv H3)|..].
  - pose proof (orderly_inv _ _ Hinv Hs) as Hinv1.
    destruct (interrupted_step _ _ _ _ _ _ _ Hinv Hs Hi) as [Hi'|(E & Efr & _)]; [by apply IH|].
    destruct Hn. split; [done|]. pose proof (si_pc _ Hinv1) as Hpc. unfold pc_ok in Hpc. rewrite E in Hpc.
    destruct Hpc as (-> & _). by rewrite Efr.
Qed.

(** C9: switching is transparent to a process, in runs in which the timer does not
    interrupt the scheduler between process.c:100 and the end of the [swtch] on
    line 103, nor a [yield] between lines 136 and 138.  When process [i] calls
    [swtch] in [yield] with the registers [h] and computes again for the first time
    after that, it has the stack pointer and the callee-saved registers of [h], and
    the return address of that call.  When the timer interrupts process [i] while
    it computes, trap.S stores all its registers on its stack; and when it
    computes again for the first time after that, it does so at the address where
    it was interrupted, trap.S has loaded every one of its registers with the value
    it had, and interrupts are on.  This holds whatever other processes, the
    scheduler and interrupts do in between (they do not write to a frame of trap.S
    that is in use), also when the handler is interrupted on its way back. *)
Theorem switch_roundtrip m0 y i y1 y2 y3 :
  fresh_table (m_sched m0) → orderly_run m0 y →
  rtc (λ a b, orderly a b ∧ ¬ running i b) y1 y2 → orderly y2 y3 → running i y3 →
  (y_pc y = PSwitch i PProc → code_step y y1 →
     cpu_of (y_h y3) = with_ra yield_ret (cpu_of (y_h y))) ∧
  (running i y → preempt y y1 → ∃ epc,
     y_susp y1 !! i = Some (PReturn (frame_at (y_h y)) epc PProc) ∧
     (∀ r, get_reg (y_h y3) r = get_reg (y_h y) r) ∧
     SIE (sstatus (m_csr (y_m y3))) = true ∧ sepc (m_csr (y_m y3)) = epc).
Proof.
  intros Hf Hr Hs H3 Hr3. pose proof (run_inv _ _ Hf Hr) as Hinv. split.
  - intros Epc Hc. pose proof (code_inv _ _ Hinv Hc) as Hinv1.
    assert (saved i PProc (with_ra yield_ret (cpu_of (y_h y))) y1) as Hsv; [|by eapply saved_until].
    pose proof (si_pc _ Hinv) as Hpc. unfold pc_ok in Hpc. rewrite Epc in Hpc. destruct Hpc as (_ & _ & Hra & p & Hp & _).
    destruct Hc as [| | | | | | | | | | |m h fr su i' k| | |]; try done. injection Epc as -> ->.
    split_and!; [by apply lookup_insert_eq|done| |left; by rewrite leave_pc].
    eexists. rewrite slot_leave, decide_True by done. cbn in Hp |- *. by rewrite Hp.
  - intros [Epc Hci] Hp. pose proof (preempt_inv _ _ Hinv Hp) as Hinv1. rewrite Epc in Hinv1. specialize (Hinv1 id).
    destruct (preempt_result _ _ Hp) as (j & q & h & h' & epc & tval & s1 & Hirq & Hc & Hq & Hca & Ey).
    assert (j = i) as -> by (unfold vars in Hci; congruence). rewrite (iq_hart _ _ _ _ _ Hirq Epc) in *. rewrite Epc in Ey.
    set (c := trap_csr epc (2 ^ 63 + IRQ_S_TIMER) tval (m_csr (y_m y))).
    assert (interrupted_proc i (frame_at (y_h y)) epc (y_h y) c y1) as Hi.
    { pose proof (si_pc _ Hinv) as Hpc. unfold pc_ok in Hpc. rewrite Epc in Hpc. destruct Hpc as (_ & Hra & _).
      destruct Hca as [Es _ Hfr _]. rewrite Ey. split; [exact Hfr|].
      exists (PReturn (frame_at (y_h y)) epc PProc). split; [by left|]. right.
      exists (with_ra yield_ret (cpu_of h')). split_and!; [by apply lookup_insert_eq|done| |].
      - eexists. rewrite slot_leave, decide_True, yielded_slot; [done|unfold slot; rewrite Es; by eexists|done].
      - left. rewrite leave_pc; [done|]. simpl. by rewrite Es. }
    exists epc. split; [rewrite Ey; by apply lookup_insert_eq|].
    destruct (interrupted_until _ _ _ _ _ _ _ _ Hinv1 Hi Hs H3 Hr3) as (Hregs & -> & ->). split_and!; [done| |done].
    unfold c. simpl. rewrite (proj1 (sret_trap_entry _)). apply (iq_on _ _ _ _ _ Hirq).
Qed.

(** ** Interrupts the code is not prepared for *)

(** C37: the scheduler is not safe against the timer.  If the interrupt comes
    after the scheduler marked a process as current and before it switched to it
    (interrupts are enabled there), the handler's [yield] takes the scheduler for
    that process: it saves the registers of the handler in the interrupted
    scheduler over the context of the process, and goes on in [sched_context].  The
    first time, that is still all zeros, and control goes to address 0. *)
Theorem scheduler_race m0 m hy i f fr su h h' epc tval :
  fresh_table (m_sched m0) → orderly_run m0 (Sys m hy (PChosen i f) fr su) →
  SIE (sstatus (m_csr m)) = true → trap_ok h epc (2 ^ 63 + IRQ_S_TIMER) tval m →
  sched_context (m_sched m) = ctx_zero →
  ∃ y', race (Sys m hy (PChosen i f) fr su) y' ∧ y_pc y' = PWild 0 ∧
    ∃ p', slot (y_m y') i = Some p' ∧ p_state p' = PROC_RUNNABLE ∧
      p_context p' = with_ra yield_ret (cpu_of h').
Proof.
  intros Hf Hr HS Ht Hz. pose proof (run_inv _ _ Hf Hr) as Hinv. pose proof code_ne as (_ & _ & _ & _ & H0s).
  destruct (si_pc _ Hinv) as (Hc & p & Hp & Hst & _). cbn in Hc, Hp.
  assert (su = ∅) as ->.
  { destruct (si_ret _ Hinv) as [?|E]; [done|]. unfold vars in E. cbn in E. rewrite Hz in E. done. }
  set (y := Sys m hy (PChosen i f) fr ∅).
  assert (irq y h epc tval IRQ_S_TIMER) as Hirq.
  { split; [done|in_list|done|done|]. intros ctx (k & Hk & Hof & _). exfalso. destruct Hk as [<-|[j Hj]]; done. }
  destruct (preempt_possible y h h' epc tval i p Hirq Hc Hp) as (s1 & [Es _ _ _] & Hpre).
  change (m_sched s1 = m_sched m) in Es.
  set (y' := leave _ _ _ _ _ _) in Hpre. exists y'. split; [by left|]. split.
  - unfold y', leave, switched, to_sched. cbn. rewrite Es, Hz. cbn. rewrite decide_False; [done|]. exact H0s.
  - assert (slot s1 i = Some p) as Hs1 by (unfold slot; by rewrite Es).
    eexists. unfold y'. rewrite slot_leave, decide_True, yielded_slot by (done || (by rewrite Hs1)).
    split; [done|]. by rewrite halted_running.
Qed.

(** Interrupts are off. *)
Definition sie_off y : Prop := SIE (sstatus (m_csr (y_m y))) = false.

Lemma off_no_irq y y' : sie_off y → ¬ irq_step y y' ∧ ¬ preempt y y' ∧ ¬ torn y y'.
Proof.
  unfold sie_off. intros Hoff. split_and!; intros Hs; revert Hoff.
  - destruct Hs as [y0 n clob h epc tval code h' sv a m' [Hon]]. congruence.
  - destruct Hs as [y0 n clob h h' epc tval code i m' [Hon]]. congruence.
  - destruct Hs as [m h m' h' i f fr su a Hon]. cbn [y_m]. congruence.
Qed.

(** Only the end of the trap vector turns them on. *)
Lemma sie_off_step y y' : sys_inv y → step y y' → sie_off y → (∀ ctx epc k, y_pc y ≠ PReturn ctx epc k) →
  sie_off y' ∧ sys_inv y'.
Proof.
  intros Hinv Hs Hoff Hno. destruct (off_no_irq y y' Hoff) as (N1 & N2 & N3).
  assert (code_step y y') as Hc by (destruct Hs as [[Hs|[Hs|[Hs _]]]|[[Hs _]|Hs]]; done). clear Hs N1 N2 N3.
  split; [|by eapply code_inv]. unfold sie_off in *. pose proof (si_pc _ Hinv) as Hpc. destruct Hc as
      [| | |m h h0 i f fr su m' c E| | | |m h fr su m' Ha E|m h m' h' fr su E Ec Hk|m h fr su i m' E| |m h fr su i k
      |m h fr su m' E|m h h' fr su i m' E|m h h2 clob ctx epc k fr su h3 sv a m' Hsp E]; cbn [y_m] in *; try done.
  - destruct (dispatch_inv _ _ _ _ _ _ _ _ _ Hinv E) as (_ & -> & _). by injection E as <- _.
  - by rewrite (prints_csr _ _ _ (wp_Ok _ _ _ _ _ E (exit_prints m))).
  - by rewrite Ec.
  - destruct (on_cpu_lookup _ _ Hpc) as (p & Hp & _ & Hc & _). cbn in Hp, Hc.
    rewrite (yield_marks m _ p Hc Hp) in E. by injection E as _ <-.
  - destruct (on_cpu_lookup _ _ Hpc) as (p & Hp & Hst & Hc & Hra). cbn in Hp, Hc, Hra.
    destruct (wp_Ok _ _ _ _ _ E (wp_farewell m _ p Hc Hp (wf_name _ (si_wf _ Hinv) _ _ Hp))) as (s1 & P & ->).
    cbn. by rewrite (prints_csr _ _ _ P).
  - destruct (on_cpu_lookup _ _ Hpc) as (p & Hp & _ & Hc & _). cbn in Hp, Hc.
    rewrite (yield_marks m _ p Hc Hp) in E. by injection E as _ <-.
  - by destruct (Hno ctx epc k).
Qed.

(** C38: a process that is started after a preemption cannot be preempted.  The
    scheduler runs with interrupts off after it took over from the timer's
    handler, [swtch] does not save the interrupt flag, and [forkret] does not
    set it.  Until a process that was itself preempted has its turn again
    (trap.S restores its flag), interrupts stay off and none comes, whatever is
    dispatched: a process that starts in [forkret] keeps the processor for as long
    as it likes, and so does one that had called [yield]. *)
Theorem fresh_not_preemptible m0 y y1 y2 :
  fresh_table (m_sched m0) → orderly_run m0 y → y_pc y = PProc → preempt y y1 →
  rtc (λ a b, step a b ∧ ∀ ctx epc k, y_pc b ≠ PReturn ctx epc k) y1 y2 →
  SIE (sstatus (m_csr (y_m y2))) = false ∧ ∀ y3, ¬ irq_step y2 y3 ∧ ¬ preempt y2 y3.
Proof.
  intros Hf Hr Epc Hp Hs. pose proof (run_inv _ _ Hf Hr) as Hinv.
  assert (sys_inv y1) as Hinv1 by (eapply preempt_inv; [done..|intros Hrc; by rewrite Epc in Hrc]).
  assert (sie_off y1 ∧ ∀ ctx epc k, y_pc y1 ≠ PReturn ctx epc k) as [Hoff Hno].
  { destruct (preempt_result _ _ Hp) as (i & p & h & h' & epc & tval & s1 & _ & _ & _ & [_ Ec _ _] & ->).
    split; [|intros ctx e k; unfold leave, switched, to_sched; cbn; by destruct (decide _)].
    unfold sie_off, leave. cbn. rewrite Ec. apply sret_trap_entry. }
  assert (sie_off y2) as Hoff2; [|split; [done|]; intros y3; by destruct (off_no_irq y2 y3 Hoff2) as (? & ? & _)].
  clear Hp Hinv Epc Hr. induction Hs as [y1|y1 y1' y2 [Hst Hno'] _ IH]; [done|].
  destruct (sie_off_step _ _ Hinv1 Hst Hoff Hno). by apply IH.
Qed.
End guarantees.
