(* ===== verification/Finish.v ===== *)
(** * The end of the scheduler

    As long as the timer does not interrupt the code where it is not prepared for
    it, the kernel is never stuck and can still come to its end
    ([scheduler_progress]); after such an interrupt in [yield] it cannot
    ([lost_yielder]).  When every process runs undisturbed to the end of its
    function, the processes run once each in the order of their slots and the
    scheduler ends ([solo_run]). *)

From stdpp Require Import relations.
From S2P Require Import Prelude Globals Machine Utils Uart Heap HeapSpec Process Trap Asm TrapVector Sched.

Section finish.
Context `{Platform} `{CodeRet} {TX : UartTx}.
Implicit Types (m : machine) (h : hart) (v : sched_vars) (y : sys) (su : gmap nat pc) (p : process).

(** ** Processes that have not ended *)

Definition unfinished p : Prop := p_state p = PROC_RUNNABLE ∨ p_state p = PROC_RUNNING.
#[global] Instance unfinished_dec p : Decision (unfinished p).
Proof. unfold unfinished. apply _. Defined.

Definition alive v : nat := length (filter unfinished (procs v)).

Lemma alive_insert (l : list process) i p q : l !! i = Some p →
  (length (filter unfinished (<[i := q]> l)) + (if decide (unfinished p) then 1 else 0) =
   length (filter unfinished l) + (if decide (unfinished q) then 1 else 0))%nat.
Proof.
  intros Hp. pose proof (lookup_lt_Some _ _ _ Hp). rewrite insert_take_drop by done.
  rewrite <- (take_drop_middle l i p Hp) at 3. rewrite !filter_app, !filter_cons, !length_app.
  repeat case_decide; simpl; lia.
Qed.

Lemma not_active m : (∀ i p, slot m i = Some p → ¬ unfinished p) → active m = false.
Proof.
  intros Hn. apply not_true_iff_false. unfold active. intros (p & Hin & Hp)%existsb_exists.
  apply list_elem_of_In, list_elem_of_lookup in Hin as [i Hi]. apply bool_decide_eq_true in Hp as [N1 N2].
  apply (Hn i p Hi). unfold unfinished. destruct (p_state p); naive_solver.
Qed.

(** ** The scheduler's pass over the table *)

(** Slots that are not runnable are passed over. *)
Lemma scan_to (R : sys → sys → Prop) m h f fr su (k n : nat) :
  (∀ a b, y_pc a ≠ PProc → code_step a b → R a b) →
  length (procs (m_sched m)) = NPROC → (k + n <= NPROC)%nat →
  (∀ j p, (k <= j < k + n)%nat → slot m j = Some p → p_state p ≠ PROC_RUNNABLE) →
  rtc R (Sys m h (PScan k f) fr su) (Sys m h (PScan (k + n) f) fr su).
Proof.
  intros HR Hl. revert k. induction n as [|n IH]; intros k Hk Hno; [by rewrite Nat.add_0_r|].
  destruct (lookup_lt_is_Some_2 (procs (m_sched m)) k) as [p Hp]; [lia|].
  eapply rtc_l; [apply HR; [done|]; eapply step_skip; [exact Hp|apply (Hno k p); [lia|done]]|].
  replace (k + S n)%nat with (S k + n)%nat by lia. apply IH; [lia|]. intros j q Hj. apply Hno. lia.
Qed.

(** The next runnable slot, if there is one. *)
Lemma next_runnable m (i : nat) :
  (∃ k p, (i <= k)%nat ∧ slot m k = Some p ∧ p_state p = PROC_RUNNABLE ∧
     ∀ j q, (i <= j < k)%nat → slot m j = Some q → p_state q ≠ PROC_RUNNABLE) ∨
  (∀ j q, (i <= j)%nat → slot m j = Some q → p_state q ≠ PROC_RUNNABLE).
Proof.
  destruct (list_find (λ p, p_state p = PROC_RUNNABLE) (drop i (procs (m_sched m)))) as [[n p]|] eqn:E.
  - left. apply list_find_Some in E as (Hp & Hr & Hb). rewrite lookup_drop in Hp.
    exists (i + n)%nat, p. split_and!; [lia|done|done|]. intros j q Hj Hq.
    apply (Hb (j - i)%nat); [|lia]. rewrite lookup_drop. by replace (i + (j - i))%nat with j by lia.
  - right. intros j q Hj Hq. apply list_find_None in E. rewrite Forall_lookup in E.
    apply (E (j - i)%nat). rewrite lookup_drop. by replace (i + (j - i))%nat with j by lia.
Qed.

(** ** Back to the scheduler *)

Lemma code_steps_inv y y' : sys_inv y → rtc code_step y y' → sys_inv y'.
Proof. intros Hi Hs. revert Hi. induction Hs; eauto using code_inv. Qed.

Lemma rtc_code_orderly y y' : rtc code_step y y' → rtc orderly y y'.
Proof. apply (rtc_congruence id). intros a b Hs. by left. Qed.

(** The function [yield] is the steps of [yield], up to the scheduler. *)
Lemma yield_steps m h fr su p : current_process (m_sched m) = Some fr.1 → slot m fr.1 = Some p →
  yield m = Stop (Switch (ProcCtx fr.1) SchedCtx) (yielded fr.1 p m) ∧
  rtc code_step (Sys m h PProc fr su) (leave fr.1 h PProc (yielded fr.1 p m) fr su).
Proof.
  intros Hc Hp. split; [by apply yield_switches|].
  eapply rtc_l; [eapply step_yield; by apply (yield_marks m _ p)|]. eapply rtc_l; [apply (step_null _ _ h)|].
  apply rtc_once, step_switch.
Qed.

(** The end of [forkret] is the steps of a process that ends. *)
Lemma exit_steps m h fr su p : current_process (m_sched m) = Some fr.1 → slot m fr.1 = Some p → name_ok p →
  ∃ m1 m2, forkret_farewell m = Ok tt m1 ∧
    (∀ (R : sys → sys → Prop), (∀ a b, y_pc a ≠ PProc → code_step a b → R a b) →
       rtc R (Sys m1 h PEnding fr su) (leave fr.1 h PSpin m2 fr su)) ∧
    forkret_exit m = Stop (Switch (ProcCtx fr.1) SchedCtx) m2 ∧ rtc code_step (Sys m h PProc fr su) (leave fr.1 h PSpin m2 fr su) ∧
    ∃ s1, prints m s1 (farewell p) ∧ m2 = set_current None (set_proc fr.1 (set_state PROC_ZOMBIE p) s1).
Proof.
  intros Hc Hp Hn. destruct (wp_farewell m _ p Hc Hp Hn) as ([] & m1 & E & s1 & P1 & ->).
  set (z := set_state PROC_ZOMBIE p) in *. set (m1 := set_proc fr.1 z s1) in *.
  assert (slot m1 fr.1 = Some z) as Hz by (apply slot_set_proc; unfold slot; rewrite (prints_sched _ _ _ P1); by eexists).
  assert (current_process (m_sched m1) = Some fr.1) as Hc1 by (cbn; by rewrite (prints_sched _ _ _ P1)).
  pose proof (yield_marks m1 _ z Hc1 Hz) as Hm. rewrite halted_other, set_proc_id in Hm by done.
  assert (∀ (R : sys → sys → Prop), (∀ a b, y_pc a ≠ PProc → code_step a b → R a b) →
    rtc R (Sys m1 h PEnding fr su) (leave fr.1 h PSpin (set_current None m1) fr su)) as Hs.
  { intros R HR. eapply rtc_l; [apply HR; [done|by apply (step_end _ _ h)]|]. apply rtc_once, HR; [done|apply step_switch]. }
  exists m1, (set_current None m1). split_and!; [done|done| |eapply rtc_l; [by eapply step_finish|by apply Hs]|by exists s1].
  unfold forkret_exit, bind at 1. rewrite E. unfold yield, bind. by rewrite Hm.
Qed.

(** A process that was preempted gets to its own code. *)
Lemma resume_proc k : ∀ m h fr su, sys_inv (Sys m h k fr su) → resumes k →
  ∃ m' h', rtc code_step (Sys m h k fr su) (Sys m' h' PProc fr su) ∧ m_sched m' = m_sched m.
Proof.
  induction k as [| | | | | | |i k IH|ctx epc k IH| | |]; intros m h fr su Hinv Hres; try done.
  - exists m, h. split; [apply rtc_refl|done].
  - destruct (si_pc _ Hinv) as [_ [_ Hg]]. cbn in Hg. pose proof Hg as (Hin & _).
    set (h2 := Hart (λ _, ctx) (λ _, 0)). assert (get_reg h2 Sp = ctx) as Hsp by done.
    destruct (wp_restore (trap_calls (λ _, 0)) ctx h2 m Hin Hsp) as ([h3 n] & m3 & E & Hr). clear Hr.
    destruct (restore_result _ _ _ _ _ _ _ _ Hg Hsp E) as (En & _ & Em). cbn in En. subst n.
    pose proof (step_restore m h h2 (λ _, 0) ctx epc k fr su h3 true epc m3 Hsp E) as Hs. rewrite back_to_same in Hs.
    destruct (IH m3 h3 fr su) as (m' & h' & Hs' & Ev); [by eapply code_inv|done|].
    exists m', h'. split; [by eapply rtc_l|]. by rewrite Ev, Em.
Qed.

(** ** From every state the end can be reached *)

Definition can_end y : Prop := ∃ y', rtc code_step y y' ∧ y_pc y' = PExited.

Lemma can_end_step y y' : rtc code_step y y' → can_end y' → can_end y.
Proof. intros Hs (z & Hz & E). exists z. split; [by etrans|done]. Qed.

Lemma leave_alive i h k m fr su : alive (m_sched (y_m (leave i h k m fr su))) = alive (m_sched m).
Proof.
  unfold alive, leave. cbn. destruct (procs (m_sched m) !! i) as [p|] eqn:Hp.
  - rewrite (alter_lookup _ _ _ p) by done.
    pose proof (alive_insert _ _ _ (set_context (with_ra yield_ret (cpu_of h)) p) Hp) as Ha.
    assert (∀ c, unfinished (set_context c p) ↔ unfinished p) as Hu by done.
    repeat case_decide; try done; try lia; exfalso; by destruct H3.
  - assert (∀ f, alter f i (procs (m_sched m)) = procs (m_sched m)) as ->; [|done].
    intros f. apply list_eq. intros j. rewrite list_lookup_alter. destruct (decide (i = j)) as [<-|]; [by rewrite Hp|done].
Qed.

(** The scheduler takes over again. *)
Lemma back_to_scan y : sys_inv y → y_pc y = PBack →
  ∃ y', rtc code_step y y' ∧ y_pc y' = PScan (S (y_frame y).1) true ∧ alive (m_sched (y_m y')) = alive (m_sched (y_m y)).
Proof.
  intros _ E. destruct y as [m h k [i f] su]. cbn in E. subst k. eexists. split; [apply rtc_once, step_back|done].
Qed.

(** The running process ends. *)
Lemma finish_running m h fr su : sys_inv (Sys m h PProc fr su) →
  ∃ y', rtc code_step (Sys m h PProc fr su) y' ∧ y_pc y' = PScan (S fr.1) true ∧
    (S (alive (m_sched (y_m y'))) = alive (m_sched m))%nat.
Proof.
  intros Hinv. destruct (on_cpu_lookup _ _ (si_pc _ Hinv)) as (p & Hp & Hst & Hc & Hra). cbn in Hp, Hc, Hra.
  destruct (exit_steps m h fr su p Hc Hp (wf_name _ (si_wf _ Hinv) _ _ Hp)) as (_ & m2 & _ & _ & _ & Hs & s1 & P1 & Em).
  pose proof (code_steps_inv _ _ Hinv Hs) as Hinv1.
  assert (y_pc (leave fr.1 h PSpin m2 fr su) = PBack) as Epc.
  { rewrite leave_pc; [done|]. rewrite Em. cbn. by rewrite (prints_sched _ _ _ P1). }
  destruct (back_to_scan _ Hinv1 Epc) as (y' & Hs' & Epc' & Ha). exists y'. split; [by etrans|]. split; [done|].
  rewrite Ha, leave_alive, Em. unfold alive. cbn. rewrite (prints_sched _ _ _ P1).
  pose proof (alive_insert _ _ _ (set_state PROC_ZOMBIE p) Hp) as Hi.
  rewrite decide_True in Hi by (by right). rewrite decide_False in Hi by (by intros [?|?]). simpl in *. lia.
Qed.

(** A chosen process gets control. *)
Lemma dispatch_chosen m h i f fr su : sys_inv (Sys m h (PChosen i f) fr su) →
  ∃ m' h' su', rtc code_step (Sys m h (PChosen i f) fr su) (Sys m' h' PProc (i, f) su') ∧
    procs (m_sched m') = procs (m_sched m).
Proof.
  intros Hinv. destruct (switched SchedCtx (ProcCtx i) (with_ra sched_ret (cpu_of h)) m) as [m1 c] eqn:E.
  pose proof (step_dispatch m h h i f fr su m1 c E) as Hs.
  destruct (dispatch_inv _ _ _ _ _ _ _ _ _ Hinv E) as (Hinv1 & E1 & E2 & p & _ & _ & [Hres _] & _).
  destruct (enter i m1 (load_ctx c h) (i, f) su) as [m2 h2 k fr2 su2]. cbn in *. subst m2 fr2.
  destruct (resume_proc k m1 h2 (i, f) su2 Hinv1 Hres) as (m' & h' & Hs' & Ev).
  exists m', h', su2. split; [by eapply rtc_l|]. rewrite Ev. by injection E as <- _.
Qed.

(** The next runnable process runs and ends. *)
Lemma run_next m h i f fr su k p : sys_inv (Sys m h (PScan i f) fr su) →
  (i <= k)%nat → slot m k = Some p → p_state p = PROC_RUNNABLE →
  (∀ j q, (i <= j < k)%nat → slot m j = Some q → p_state q ≠ PROC_RUNNABLE) →
  ∃ y', rtc code_step (Sys m h (PScan i f) fr su) y' ∧ y_pc y' = PScan (S k) true ∧
    (alive (m_sched (y_m y')) < alive (m_sched m))%nat.
Proof.
  intros Hi Hik Hp Hr Hno. assert (length (procs (m_sched m)) = NPROC) as Hl by apply (wf_length _ (si_wf _ Hi)).
  pose proof (lookup_lt_Some _ _ _ Hp) as Hk.
  assert (rtc code_step (Sys m h (PScan i f) fr su) (Sys m h (PScan k f) fr su)) as T1.
  { replace k with (i + (k - i))%nat by lia. apply scan_to; [done|done|lia|]. intros j q Hj. apply Hno. lia. }
  set (m1 := set_proc k (set_state PROC_RUNNING p) m).
  assert (rtc code_step (Sys m h (PScan k f) fr su) (Sys (set_current (Some k) m1) h (PChosen k f) fr su)) as T2.
  { eapply rtc_l; [by eapply step_pick|]. apply rtc_once, step_current. }
  assert (sys_inv (Sys (set_current (Some k) m1) h (PChosen k f) fr su)) as I2 by (eapply code_steps_inv; [exact Hi|etrans; [exact T1|exact T2]]).
  destruct (dispatch_chosen _ _ _ _ _ _ I2) as (m' & h' & su' & T3 & E3).
  destruct (finish_running m' h' (k, f) su') as (y' & T4 & Hpc & Ha); [by eapply code_steps_inv|].
  exists y'. split; [|split; [done|]].
  - etrans; [exact T1|]. etrans; [exact T2|]. by etrans.
  - unfold alive in *. rewrite E3 in Ha. cbn in Ha.
    pose proof (alive_insert _ _ _ (set_state PROC_RUNNING p) Hp) as Hins.
    rewrite (decide_True _ _ (or_introl Hr : unfinished p)) in Hins. rewrite decide_True in Hins by (by right).
    cbn in *. lia.
Qed.

(** Without runnable processes the pass comes to its end. *)
Lemma rest_of_pass m h i f fr su : sys_inv (Sys m h (PScan i f) fr su) →
  (∀ j q, (i <= j)%nat → slot m j = Some q → p_state q ≠ PROC_RUNNABLE) →
  rtc code_step (Sys m h (PScan i f) fr su) (Sys m h (PScan NPROC f) fr su).
Proof.
  intros Hinv Hno. destruct (si_pc _ Hinv) as [Hi _]. replace NPROC with (i + (NPROC - i))%nat by lia.
  apply scan_to; [done|exact (wf_length _ (si_wf _ Hinv))|lia|]. intros j q Hj. apply Hno. lia.
Qed.

Lemma exit_ends m h fr su : active m = false → can_end (Sys m h (PScan NPROC false) fr su).
Proof.
  intros Ha. destruct (exit_prints m) as ([] & m' & E & _). eexists. split; [apply rtc_once; by constructor|done].
Qed.

Lemma scan_inv m h i j f g fr su : (j <= NPROC)%nat → sys_inv (Sys m h (PScan i f) fr su) → sys_inv (Sys m h (PScan j g) fr su).
Proof.
  intros Hj Hinv. apply (inv_same _ _ Hinv); [done..|by apply frames_kept_ram|]. split; [done|]. apply (si_pc _ Hinv).
Qed.

Lemma scan_ends (n : nat) : ∀ m h i f fr su, (alive (m_sched m) < n)%nat →
  sys_inv (Sys m h (PScan i f) fr su) → can_end (Sys m h (PScan i f) fr su).
Proof.
  induction n as [|n IH]; [lia|]. intros m h i f fr su Hn Hi.
  assert (∀ i' f', sys_inv (Sys m h (PScan i' f') fr su) →
    (∃ k p, (i' <= k)%nat ∧ slot m k = Some p ∧ p_state p = PROC_RUNNABLE ∧
       ∀ j q, (i' <= j < k)%nat → slot m j = Some q → p_state q ≠ PROC_RUNNABLE) →
    can_end (Sys m h (PScan i' f') fr su)) as Hnext.
  { intros i' f' Hi' (k & p & Hk & Hp & Hr & Hno). destruct (run_next m h i' f' fr su k p) as ([m1 h1 pc1 fr1 su1] & Hs & Hpc & Ha); [done..|].
    eapply can_end_step; [exact Hs|]. simpl in Hpc, Ha. subst pc1. apply IH; [lia|]. by eapply code_steps_inv. }
  destruct (next_runnable m i) as [Hr|Hno]; [by apply Hnext|].
  pose proof (rest_of_pass m h i f fr su Hi Hno) as T1. eapply can_end_step; [exact T1|].
  pose proof (scan_inv m h i 0 f false fr su ltac:(lia) Hi) as I0.
  destruct (next_runnable m 0) as [Hr|Hno0].
  - assert (can_end (Sys m h (PScan 0 false) fr su)) as Hagain by (by apply Hnext).
    destruct f; [eapply can_end_step; [apply rtc_once, step_again|done]|].
    destruct (active m) eqn:Ha; [eapply can_end_step; [apply rtc_once; by apply step_idle|done]|by apply exit_ends].
  - assert (active m = false) as Ha.
    { apply not_active. intros j q Hq [Hs|Hs]; [by eapply (Hno0 j q); [lia|..]|].
      by destruct (si_rest _ Hi j q Hq) as [Hn' _]. }
    destruct f; [|by apply exit_ends]. eapply can_end_step; [apply rtc_once, step_again|].
    eapply can_end_step; [by apply rest_of_pass|by apply exit_ends].
Qed.

Lemma ends_at_scan y i f : sys_inv y → y_pc y = PScan i f → can_end y.
Proof. destruct y as [m h k fr su]. intros Hi E. cbn in E. subst k. eapply scan_ends; [apply Nat.lt_succ_diag_r|done]. Qed.

Lemma ends_in_proc m h fr su : sys_inv (Sys m h PProc fr su) → can_end (Sys m h PProc fr su).
Proof.
  intros Hi. destruct (finish_running _ _ _ _ Hi) as (y' & Hs & Epc & _). eapply can_end_step; [exact Hs|].
  eapply ends_at_scan; [by eapply code_steps_inv|done].
Qed.

Lemma ends_at_switch m h i k fr su : sys_inv (Sys m h (PSwitch i k) fr su) → can_end (Sys m h (PSwitch i k) fr su).
Proof.
  intros Hi. pose proof (step_switch m h fr su i k) as Hs. pose proof (code_inv _ _ Hi Hs) as Hi1.
  destruct (si_pc _ Hi) as (_ & _ & Hra & _). cbn in Hra.
  destruct (back_to_scan _ Hi1) as (y' & Hs' & Epc & _); [by rewrite leave_pc|].
  eapply can_end_step; [eapply rtc_l; [exact Hs|exact Hs']|]. eapply ends_at_scan; [by eapply code_steps_inv|done].
Qed.

Lemma inv_ends y : sys_inv y → can_end y.
Proof.
  intros Hi. destruct y as [m h k fr su].
  assert (∀ m i f, sys_inv (Sys m h (PChosen i f) fr su) → can_end (Sys m h (PChosen i f) fr su)) as Hchosen.
  { intros m1 i f I1. destruct (dispatch_chosen _ _ _ _ _ _ I1) as (m' & h' & su' & T1 & _).
    eapply can_end_step; [exact T1|]. apply ends_in_proc. by eapply code_steps_inv. }
  destruct k as [i f|i f|i f| | |i| |i k|ctx epc k| | |a].
  - by eapply ends_at_scan.
  - pose proof (step_current m h i f fr su) as T1. eapply can_end_step; [by apply rtc_once|]. apply Hchosen. by eapply code_inv.
  - by apply Hchosen.
  - destruct (back_to_scan _ Hi) as (y' & Hs & Epc & _); [done|]. eapply can_end_step; [exact Hs|].
    eapply ends_at_scan; [by eapply code_steps_inv|done].
  - by apply ends_in_proc.
  - pose proof (step_null m h h fr su i) as T1. eapply can_end_step; [by apply rtc_once|]. apply ends_at_switch. by eapply code_inv.
  - destruct (on_cpu_lookup _ _ (si_pc _ Hi)) as (p & Hp & Hst & Hc & _). cbn in Hp, Hc.
    pose proof (step_end m h h fr su _ _ (yield_marks m _ p Hc Hp)) as T1. eapply can_end_step; [by apply rtc_once|].
    apply ends_at_switch. by eapply code_inv.
  - by apply ends_at_switch.
  - destruct (resume_proc _ m h fr su Hi) as (m' & h' & T1 & _); [apply (si_pc _ Hi)|]. eapply can_end_step; [exact T1|].
    apply ends_in_proc. by eapply code_steps_inv.
  - by destruct (si_pc _ Hi).
  - by exists (Sys m h PExited fr su).
  - by destruct (si_pc _ Hi).
Qed.

(** What has control can do its next step. *)
Lemma code_goes_on y : sys_inv y → y_pc y = PExited ∨ ∃ y', code_step y y'.
Proof.
  intros Hi. destruct (inv_ends y Hi) as (y' & Hs & E). destruct Hs as [y|y y1 y' Hs _]; [by left|right; by exists y1].
Qed.

(** C27: the scheduler does not get stuck, as long as the timer does not interrupt
    it between process.c:100 and the end of the [swtch] on line 103, nor a [yield]
    between lines 136 and 138.  Whatever else has happened, by yields, preemptions
    and interrupts, the code that has control can do its next step until the
    scheduler has exited.  When a process computes, a call of [yield] leads back to
    the scheduler, step by step and as a function, and so does the end of its entry
    function; and the kernel can come to its end from there: the processes that are
    left can all finish, and then the scheduler exits, without any interrupt. *)
Theorem scheduler_progress m y :
  fresh_table (m_sched m) → orderly_run m y →
  (y_pc y = PExited ∨ ∃ y', code_step y y') ∧
  (y_pc y = PProc → ∃ i,
     (∃ m', yield (y_m y) = Stop (Switch (ProcCtx i) SchedCtx) m' ∧
        let y' := leave i (y_h y) PProc m' (y_frame y) (y_susp y) in
        rtc code_step y y' ∧ y_pc y' = PBack ∧ p_state <$> slot (y_m y') i = Some PROC_RUNNABLE) ∧
     (∃ m', forkret_exit (y_m y) = Stop (Switch (ProcCtx i) SchedCtx) m' ∧
        let y' := leave i (y_h y) PSpin m' (y_frame y) (y_susp y) in
        rtc code_step y y' ∧ y_pc y' = PBack ∧ p_state <$> slot (y_m y') i = Some PROC_ZOMBIE)) ∧
  ∃ y', rtc code_step y y' ∧ y_pc y' = PExited.
Proof.
  intros Hf Hr. pose proof (run_inv _ _ Hf Hr) as Hi. split_and!; [by apply code_goes_on| |by apply inv_ends].
  intros Epc. pose proof (si_pc _ Hi) as Hpc. unfold pc_ok in Hpc. rewrite Epc in Hpc.
  destruct (on_cpu_lookup _ _ Hpc) as (p & Hp & Hst & Hc & Hra).
  destruct y as [m1 h k fr su]. cbn [y_m y_h y_pc y_frame y_susp] in *. subst k. exists fr.1. split.
  - destruct (yield_steps m1 h fr su p Hc Hp) as [E Hs]. eexists. split; [exact E|]. cbv zeta. split_and!; [exact Hs| |].
    + by rewrite leave_pc.
    + rewrite slot_leave, decide_True, yielded_slot by (done || by eexists). by rewrite halted_running.
  - destruct (exit_steps m1 h fr su p Hc Hp (wf_name _ (si_wf _ Hi) _ _ Hp)) as (_ & m2 & _ & _ & E & Hs & s1 & P & Em).
    exists m2. split; [exact E|]. cbv zeta. split_and!; [exact Hs| |].
    + rewrite leave_pc; [done|]. rewrite Em. cbn. by rewrite (prints_sched _ _ _ P).
    + rewrite slot_leave, decide_True by done. rewrite Em, set_current_slot, slot_set_proc; [done|].
      unfold slot. rewrite (prints_sched _ _ _ P). by eexists.
Qed.

(** ** A process that is lost *)

(** The code at [c] is in RAM as far as it is known, and will not touch slot [k]
    again. *)
Fixpoint avoids (k : nat) (c : pc) : Prop :=
  match c with
  | PPicked i _ | PChosen i _ | PYielding i => i ≠ k
  | PSwitch i c' => i ≠ k ∧ avoids k c'
  | PReturn ctx _ c' => in_ram ctx 288 = true ∧ avoids k c'
  | PExited => False
  | _ => True
  end.

(** Slot [k] is marked as running, but its process is not the current one, and
    neither is any code about to make it so. *)
Record lost (k : nat) y : Prop := {
  lo_names : ∀ j p, slot (y_m y) j = Some p → name_ok p;
  lo_slot : ∃ p, slot (y_m y) k = Some p ∧ p_state p = PROC_RUNNING;
  lo_current : current_process (m_sched (y_m y)) ≠ Some k;
  lo_pc : avoids k (y_pc y);
  lo_susp : ∀ i c, y_susp y !! i = Some c → avoids k c;
}.

Lemma settled_avoids k c : settled c → avoids k c.
Proof. induction c as [| | | | | | |i c IH|ctx epc c IH| | |]; try done. intros [? ?]. split; [done|by apply IH]. Qed.

Lemma name_ok_halted p : name_ok p → name_ok (halted p).
Proof. unfold halted. by case_decide. Qed.

Lemma names_set m i q : (∀ j p, slot m j = Some p → name_ok p) → name_ok q →
  ∀ j p, slot (set_proc i q m) j = Some p → name_ok p.
Proof.
  intros Hn Hq j p Hp. unfold slot, set_proc in Hp. cbn in Hp.
  apply list_lookup_insert_Some in Hp as [(-> & <- & _)|[_ Hp]]; [done|by eapply Hn].
Qed.

(** It stays so. *)
Lemma lost_leave k i h c m fr su : i ≠ k → avoids k c → (∀ j p, slot m j = Some p → name_ok p) →
  (∃ p, slot m k = Some p ∧ p_state p = PROC_RUNNING) → current_process (m_sched m) ≠ Some k →
  (∀ j c', su !! j = Some c' → avoids k c') → lost k (leave i h c m fr su).
Proof.
  intros Hne Hc Hn Hs Hcur Hsu. split.
  - intros j p. rewrite slot_leave. case_decide; [|apply Hn]. intros (q & Hq & ->)%fmap_Some. exact (Hn _ _ Hq).
  - rewrite slot_leave, decide_False by done. exact Hs.
  - done.
  - unfold leave, switched, to_sched. cbn. by destruct (decide _).
  - intros j c' Hj. change (<[i := c]> su !! j = Some c') in Hj. apply lookup_insert_Some in Hj as [[_ <-]|[_ Hj]]; eauto.
Qed.

Lemma yield_mark_Ok m i m' : yield_mark m = Ok (Some i) m' →
  current_process (m_sched m) = Some i ∧ ∃ p, slot m i = Some p ∧ m' = set_proc i (halted p) m.
Proof.
  intros E. destruct (current_process (m_sched m)) as [j|] eqn:Hc.
  - destruct (slot m j) as [p|] eqn:Hp.
    + rewrite (yield_marks m j p Hc Hp) in E. injection E as -> <-. split; [done|by exists p].
    + unfold yield_mark, bind, get at 1 in E. rewrite Hc in E. unfold get_proc, bind, get in E. unfold slot in Hp.
      by rewrite Hp in E.
  - unfold yield_mark, bind, get in E. by rewrite Hc in E.
Qed.

(** Only the slot of the current process changes when it ends. *)
Lemma farewell_Ok m m' : (∀ j p, slot m j = Some p → name_ok p) → forkret_farewell m = Ok tt m' →
  (∀ j p, slot m' j = Some p → name_ok p) ∧ current_process (m_sched m') = current_process (m_sched m) ∧
  ∀ j, current_process (m_sched m) ≠ Some j → slot m' j = slot m j.
Proof.
  intros Hn E. destruct (current_process (m_sched m)) as [i|] eqn:Hc.
  2:{ unfold forkret_farewell, bind, get in E. rewrite Hc in E. injection E as <-. by rewrite Hc. }
  destruct (slot m i) as [p|] eqn:Hp.
  - destruct (wp_Ok _ _ _ _ _ E (wp_farewell m i p Hc Hp (Hn _ _ Hp))) as (s1 & P & ->).
    assert (∀ j, slot s1 j = slot m j) as Hs by (intros j; unfold slot; by rewrite (prints_sched _ _ _ P)). split_and!.
    + apply names_set; [|exact (Hn _ _ Hp)]. intros j q. rewrite Hs. apply Hn.
    + cbn. by rewrite (prints_sched _ _ _ P).
    + intros j Hj. rewrite slot_set_proc_ne by congruence. apply Hs.
  - assert (stops forkret_farewell m Undefined (λ _, True)) as (s' & E' & _); [|congruence].
    apply stops_bind_r, wp_get. rewrite Hc. apply stops_bind_r, wp_puts_lit; [done|]. intros s1 P. apply stops_bind_l.
    unfold slot in Hp. unfold stops, get_proc, bind, get. rewrite (prints_sched _ _ _ P), Hp. by eexists.
Qed.

Lemma lost_code k y y' : lost k y → code_step y y' → lost k y'.
Proof.
  intros [Hn (q & Hq & Hst) Hcur Hpc Hsu] Hs. destruct Hs as
    [m h i f fr su p Hp Hst'|m h i f fr su p Hp Hst'|m h i f fr su|m h h0 i f fr su m' c E|m h i f su
    |m h fr su|m h fr su Ha|m h fr su m' Ha E|m h m' h' fr su E Ec Hk|m h fr su i m' E|m h h' fr su i
    |m h fr su i c|m h fr su m' E|m h h' fr su i m' E|m h h2 clob ctx epc c fr su h3 sv a m' Hsp E];
    cbn [y_m y_pc y_susp] in *; try (split; by eauto).
  - assert (k ≠ i) as Hne by congruence. split; cbn [y_m y_pc y_susp]; [|exists q|done|done|done].
    + apply names_set; [done|exact (Hn _ _ Hp)].
    + by rewrite slot_set_proc_ne.
  - split; cbn [y_m y_pc y_susp]; [done|by exists q| |done|done]. by intros [= ->].
  - simpl in Hpc. rewrite dispatch_sched in E. injection E as <- <-. set (m' := set_sched _ m).
    assert (∀ x su', avoids k x → (∀ j c, su' !! j = Some c → avoids k c) →
      lost k (Sys m' (load_ctx (default ctx_zero (p_context <$> slot m i)) h0) x (i, f) su')) as HL.
    { intros x su' Hx Hsu'. split; cbn [y_m y_pc y_susp]; [done|by exists q|done..]. }
    unfold enter. repeat case_decide; [by apply HL| |by apply HL]. destruct (su !! i) as [c|] eqn:Hi; [|by apply HL].
    apply HL; [by eapply Hsu|]. intros j c' Hj. apply lookup_delete_Some in Hj as [_ Hj]. by eapply Hsu.
  - exfalso. apply not_true_iff_false in Ha. destruct Ha. apply existsb_exists. exists q. split.
    + apply list_elem_of_In. by eapply list_elem_of_lookup_2.
    + apply bool_decide_eq_true. by rewrite Hst.
  - split; cbn [y_m y_pc y_susp]; unfold slot; rewrite ?E; [exact Hn|by exists q|done..].
  - destruct (yield_mark_Ok _ _ _ E) as (Hc & p & Hp & ->). assert (k ≠ i) as Hne by congruence.
    split; cbn [y_m y_pc y_susp]; [|exists q; by rewrite slot_set_proc_ne|done|simpl; congruence|done].
    apply names_set; [done|apply name_ok_halted; exact (Hn _ _ Hp)].
  - destruct Hpc. apply lost_leave; eauto.
  - destruct (farewell_Ok m m' Hn E) as (Hn' & Hc & Hs).
    split; cbn [y_m y_pc y_susp]; [done|exists q; by rewrite Hs|by rewrite Hc|done|done].
  - destruct (yield_mark_Ok _ _ _ E) as (Hc & p & Hp & ->). assert (k ≠ i) as Hne by congruence.
    split; cbn [y_m y_pc y_susp]; [|exists q; by rewrite set_current_slot, slot_set_proc_ne|done|by split|done].
    apply names_set; [done|apply name_ok_halted; exact (Hn _ _ Hp)].
  - destruct Hpc as [Hin Hc]. pose proof (wp_Ok _ _ _ _ _ E (wp_restore (trap_calls clob) ctx h2 m Hin Hsp)) as (_ & -> & _).
    split; cbn [y_m y_pc y_susp]; [done|by exists q|done| |done]. unfold back_to. by destruct (_ && _).
Qed.

(** Any step but an interrupt inside [swtch]. *)
Definition tame y y' : Prop := orderly y y' ∨ preempt y y'.

Lemma lost_tame k y y' : lost k y → tame y y' → lost k y'.
Proof.
  intros Hl Hs. assert (code_step y y' ∨ irq_step y y' ∨ preempt y y') as [?|[Hi|Hp]] by (destruct Hs as [[|[|[]]]|]; auto).
  - by eapply lost_code.
  - destruct (irq_invisible _ _ Hi) as [Epc _ Esu Ev _ _ _ _]. destruct Hl as [Hn (q & Hq & Hst) Hcur Hpc Hsu].
    split; unfold slot in *; rewrite ?Ev, ?Epc, ?Esu; [exact Hn|by exists q|done..].
  - destruct (preempt_result _ _ Hp) as (i & p & h & h' & epc & tval & s1 & Hirq & Hc & Hpi & [Es _ _ _] & ->).
    destruct Hl as [Hn (q & Hq & Hst) Hcur Hpc Hsu]. assert (k ≠ i) as Hne by congruence.
    assert (∀ j, slot s1 j = slot (y_m y) j) as Hs1 by (intros j; unfold slot; by rewrite Es).
    apply lost_leave; [done|split; [apply (iq_trap _ _ _ _ _ Hirq)|done]| | |done|done].
    + apply names_set; [|apply name_ok_halted; exact (Hn _ _ Hpi)]. intros j r. rewrite Hs1. apply Hn.
    + exists q. split; [|done]. change (slot (set_proc i (halted p) s1) k = Some q). by rewrite slot_set_proc_ne, Hs1.
Qed.

Lemma lost_forever k y y' : lost k y → rtc tame y y' →
  p_state <$> slot (y_m y') k = Some PROC_RUNNING ∧ ¬ running k y' ∧ y_pc y' ≠ PExited.
Proof.
  intros Hl Hs. assert (lost k y') as [_ (q & Hq & Hst) Hcur Hpc _] by (induction Hs; eauto using lost_tame).
  split_and!; [by rewrite Hq, <- Hst|by intros [_ ?]|]. intros E. by rewrite E in Hpc.
Qed.

(** The scheduler comes to a process that was interrupted in its [yield]. *)
Lemma yielding_lost m h i f fr su p ctx epc :
  slot m i = Some p → p_state p = PROC_RUNNABLE → c_ra (p_context p) = yield_ret →
  su !! i = Some (PReturn ctx epc (PYielding i)) → frames_good (m_ram m) (PReturn ctx epc (PYielding i)) →
  (∀ j q, slot m j = Some q → name_ok q) → (∀ j c, j ≠ i → su !! j = Some c → avoids i c) →
  ∃ y, rtc code_step (Sys m h (PScan i f) fr su) y ∧ lost i y.
Proof.
  intros Hp Hst Hra Hi Hg Hn Hsu. pose proof code_ne as (_ & Hne & _).
  set (r := set_state PROC_RUNNING p). set (m1 := set_current (Some i) (set_proc i r m)).
  set (m2 := set_sched (with_sched_context (with_ra sched_ret (cpu_of h)) (m_sched m1)) m1).
  assert (slot m2 i = Some r) as Hr by (apply (slot_set_proc i r m); by eexists).
  set (h2 := Hart (λ _, ctx) (λ _, 0)). assert (get_reg h2 Sp = ctx) as Hsp by done.
  destruct (wp_restore (trap_calls (λ _, 0)) ctx h2 m2 (proj1 Hg) Hsp) as ([h3 n] & m3 & E & Hr3). clear Hr3.
  destruct (restore_result _ _ _ (PYielding i) _ m2 _ _ Hg Hsp E) as (En & _ & Em). cbn in En. subst n.
  pose proof (step_restore m2 (load_ctx (p_context p) h) h2 (λ _, 0) ctx epc (PYielding i) (i, f) (delete i su) h3 true epc m3 Hsp E) as T3.
  rewrite back_to_same in T3.
  exists (leave i h3 PProc (set_current None m3) (i, f) (delete i su)). split.
  - eapply rtc_l; [by eapply step_pick|]. eapply rtc_l; [apply step_current|].
    assert (enter i m2 (load_ctx (p_context p) h) (i, f) su = Sys m2 (load_ctx (p_context p) h) (PReturn ctx epc (PYielding i)) (i, f) (delete i su)) as Ee.
    { unfold enter. change (get_reg _ Ra) with (c_ra (p_context p)). by rewrite decide_False, decide_True, Hi by congruence. }
    eapply rtc_l; [apply (step_dispatch _ _ h i f fr su m2 (p_context p))|].
    { rewrite dispatch_sched. fold r. fold m1. by rewrite (Hr : slot m1 i = Some r). }
    rewrite Ee. eapply rtc_l; [exact T3|]. eapply rtc_l; [apply (step_null _ _ h3)|]. apply rtc_once, step_switch.
  - assert (∀ j q, slot m3 j = Some q → name_ok q) as Hn3.
    { rewrite Em. apply (names_set m i r); [exact Hn|]. exact (Hn _ _ Hp). }
    split.
    + intros j q. rewrite slot_leave. case_decide; [|apply Hn3]. intros (q' & Hq' & ->)%fmap_Some. exact (Hn3 _ _ Hq').
    + rewrite slot_leave, decide_True by done. rewrite Em. change (slot (set_current _ _) i) with (slot m2 i). rewrite Hr.
      by eexists.
    + done.
    + unfold leave, switched, to_sched. cbn. by destruct (decide _).
    + intros j c Hj. change (<[i := PProc]> (delete i su) !! j = Some c) in Hj.
      apply lookup_insert_Some in Hj as [[_ <-]|[Hji [_ Hj]%lookup_delete_Some]]; [done|by eapply Hsu].
Qed.

(** C12: an interrupt in [yield] can lose a process.  If the timer comes after
    [yield] marked the calling process as runnable and before it set
    [current_process] to NULL, the handler switches to the scheduler, which marks
    the process as running when its turn comes; it then finishes its own [yield],
    which switches away without marking it again.  Here: when no other process is
    runnable, a run leads from there to a state from which, whatever happens
    (but for a timer interrupt inside [swtch]), the process stays marked as
    running, is never given control again, and the scheduler never exits. *)
Theorem lost_yielder m0 m hy i fr su h h' epc tval :
  fresh_table (m_sched m0) → orderly_run m0 (Sys m hy (PYielding i) fr su) →
  irq (Sys m hy (PYielding i) fr su) h epc tval IRQ_S_TIMER →
  (∀ j p, j ≠ i → slot m j = Some p → p_state p ≠ PROC_RUNNABLE) →
  ∃ y1 y2, race (Sys m hy (PYielding i) fr su) y1 ∧ rtc code_step y1 y2 ∧
    ∀ y, rtc tame y2 y → p_state <$> slot (y_m y) i = Some PROC_RUNNING ∧ ¬ running i y ∧ y_pc y ≠ PExited.
Proof.
  intros Hf Hr Hirq Hno. pose proof (run_inv _ _ Hf Hr) as Hinv. destruct (si_pc _ Hinv) as (Ei & Hcpu).
  cbn in Ei. subst i. destruct (on_cpu_lookup _ _ Hcpu) as (p & Hp & Hst & Hc & Hra). cbn in Hp, Hc, Hra.
  destruct (preempt_possible _ h h' epc tval fr.1 p Hirq Hc Hp) as (s1 & [Es _ Hfr _] & Hpre).
  cbn [y_m y_pc y_frame y_susp] in Es, Hfr, Hpre. set (k := PReturn (frame_at h) epc (PYielding fr.1)) in *.
  set (y1 := leave _ _ _ _ _ _) in Hpre.
  assert (y1 = Sys (y_m y1) (load_ctx (sched_context (m_sched m)) h') PBack fr (<[fr.1 := k]> su)) as Ey.
  { etrans; [apply leave_pc; cbn; by rewrite Es|]. cbn. by rewrite Es. }
  assert (∀ j, slot (y_m y1) j = if decide (j = fr.1) then Some (set_context (with_ra yield_ret (cpu_of h')) p) else slot m j) as Hs1.
  { intros j. unfold y1. rewrite slot_leave. case_decide as Hj.
    - rewrite yielded_slot by (unfold slot; rewrite Es; by eexists). by rewrite halted_other by congruence.
    - change (slot (set_proc fr.1 (halted p) s1) j = slot m j). rewrite slot_set_proc_ne by done. unfold slot. by rewrite Es. }
  assert (m_ram (y_m y1) = m_ram s1) as Em1 by done.
  assert (length (procs (m_sched (y_m y1))) = NPROC) as Hl.
  { rewrite <- (wf_length _ (si_wf _ Hinv)). unfold vars, y1, leave. cbn. by rewrite length_alter, length_insert, Es. }
  destruct fr as [i f]. cbn [fst] in *. set (m1 := y_m y1) in *. set (m2 := set_current None m1).
  assert (i < NPROC)%nat as Hi.
  { rewrite <- (wf_length _ (si_wf _ Hinv)). exact (lookup_lt_Some _ _ _ Hp). }
  assert (∀ j q, j ≠ i → slot m2 j = Some q → p_state q ≠ PROC_RUNNABLE) as Hno2.
  { intros j q Hj Hq. change (slot m1 j = Some q) in Hq. rewrite Hs1, decide_False in Hq by done. by eapply Hno. }
  destruct (yielding_lost m2 (load_ctx (sched_context (m_sched m)) h') i false (i, f) (<[i := k]> su)
    (set_context (with_ra yield_ret (cpu_of h')) p) (frame_at h) epc) as (y2 & Hs2 & Hl2).
  - change (slot m1 i = Some (set_context (with_ra yield_ret (cpu_of h')) p)). by rewrite Hs1, decide_True.
  - done.
  - done.
  - by apply lookup_insert_eq.
  - split; [apply (iq_trap _ _ _ _ _ Hirq)|]. change (m_ram m2) with (m_ram s1). split; [apply (fr_sepc _ _ _ _ Hfr)|].
    rewrite (fr_sstatus _ _ _ _ Hfr). split; [apply trap_entry_bits|done].
  - intros j q Hq. change (slot m1 j = Some q) in Hq. rewrite Hs1 in Hq. case_decide as Hj.
    + injection Hq as <-. exact (wf_name _ (si_wf _ Hinv) i p Hp).
    + exact (wf_name _ (si_wf _ Hinv) j q Hq).
  - intros j c Hj Hc'. rewrite lookup_insert_ne in Hc' by done. by apply settled_avoids, (si_susp _ Hinv j).
  - exists y1, y2. split; [left; split; [exact Hpre|done]|]. split; [|intros y Hs; by apply (lost_forever i y2)].
    rewrite Ey. eapply rtc_l; [apply step_back|]. etrans; [|exact Hs2]. fold m2. etrans.
    + apply (scan_to code_step m2 _ true (i, f) _ (S i) (NPROC - S i)); [done|done|lia|]. intros j q Hj. apply Hno2. lia.
    + replace (S i + (NPROC - S i))%nat with NPROC by lia. eapply rtc_l; [apply step_again|].
      apply (scan_to code_step m2 _ false (i, f) _ 0 i); [done|done|lia|]. intros j q Hj. apply Hno2. lia.
Qed.

(** ** Processes that run undisturbed *)

(** [m'] is [m] after [out] was printed, but for the scheduler's variables. *)
Definition outputs m m' (out : list Z) : Prop :=
  ∃ evs d, m' = set_sched (m_sched m') (set_trace (m_trace m ++ evs) (set_dev d m)) ∧
    Forall uart_event evs ∧ console evs = out.

Lemma outputs_nil m v : outputs m (set_sched v m) [].
Proof. exists [], (m_dev m). split_and!; [|done..]. destruct m. simpl. by rewrite app_nil_r. Qed.

Lemma outputs_prints m m' out : prints m m' out → outputs m m' out.
Proof. intros (evs & [d ->] & Hf & Hc). by exists evs, d. Qed.

Lemma outputs_trans m1 m2 m3 o1 o2 : outputs m1 m2 o1 → outputs m2 m3 o2 → outputs m1 m3 (o1 ++ o2).
Proof.
  intros (e1 & d1 & E1 & F1 & <-) (e2 & d2 & E2 & F2 & <-). exists (e1 ++ e2), d2. split_and!.
  - rewrite E2, E1. cbn. by rewrite <- app_assoc.
  - by apply Forall_app.
  - unfold console. by rewrite omap_app.
Qed.

(** The code at the entry address of a process: it returns after printing. *)
Context (code : Z → M unit) (code_out : Z → list Z) (code_says : ∀ e r, says r (code e) (code_out e)).

(** A process that gets control starts, returns from its function and ends; the
    rest is as in [code_step]. *)
Inductive solo : sys → sys → Prop :=
  | solo_code y y' : y_pc y ≠ PProc → code_step y y' → solo y y'
  | solo_proc m m1 m2 h h' fr su i e :
      current_process (m_sched m) = Some i → forkret_entry m = Ok (Some e) m → code e m = Ok tt m1 →
      forkret_farewell m1 = Ok tt m2 →
      solo (Sys m h PProc fr su) (Sys m2 h' PEnding fr su).

(** Such a run is a run of the transition system, without interrupts. *)
Lemma solo_steps y y' : rtc solo y y' → rtc code_step y y'.
Proof.
  intros Hs. induction Hs as [y|y y1 y' Hs _ IH]; [done|]. etrans; [|exact IH].
  destruct Hs as [ya yb _ Hs|m m1 m2 h h' fr su i e Hc He E Ex]; [by apply rtc_once|].
  destruct (code_says e (m_ram m) m eq_refl) as ([] & m1' & E' & P). rewrite E in E'. injection E' as <-.
  eapply rtc_l; [apply (step_run m h m1 h'); [by eapply prints_sched|by eapply prints_csr|apply frames_kept_ram; by eapply prints_ram]|].
  by apply rtc_once, step_finish.
Qed.

(** A process that was created and has not run. *)
Definition startable p : Prop :=
  p_state p = PROC_RUNNABLE ∧ c_ra (p_context p) = forkret ∧ name_ok p ∧ p_entry p ≠ 0.

(** What a process prints from its start to its end. *)
Definition proc_output p : list Z :=
  if decide (p_state p = PROC_RUNNABLE) then code_out (p_entry p) ++ farewell p else [].

(** A startable process gets its turn. *)
Lemma solo_turn m h i f fr su p : slot m i = Some p → startable p →
  ∃ m' h' su' z, rtc solo (Sys m h (PScan i f) fr su) (Sys m' h' (PScan (S i) true) (i, f) su') ∧
    outputs m m' (proc_output p) ∧ procs (m_sched m') = <[i := z]> (procs (m_sched m)) ∧ p_state z = PROC_ZOMBIE.
Proof.
  intros Hp (Hr & Hra & Hn & He). pose proof (lookup_lt_Some _ _ _ Hp) as Hlt.
  set (p1 := set_state PROC_RUNNING p). set (m1 := set_current (Some i) (set_proc i p1 m)).
  assert (slot m1 i = Some p1) as Hp1 by (by apply list_lookup_insert_eq).
  set (m2 := set_sched (with_sched_context (with_ra sched_ret (cpu_of h)) (m_sched m1)) m1).
  assert (rtc solo (Sys m h (PScan i f) fr su) (Sys m2 (load_ctx (p_context p) h) PProc (i, f) su)) as T1.
  { eapply rtc_l; [apply solo_code; [done|by eapply step_pick]|]. eapply rtc_l; [apply solo_code; [done|apply step_current]|].
    apply rtc_once, solo_code; [done|].
    assert (enter i m2 (load_ctx (p_context p) h) (i, f) su = Sys m2 (load_ctx (p_context p) h) PProc (i, f) su) as <-.
    { unfold enter. change (get_reg _ Ra) with (c_ra (p_context p)). by rewrite decide_True. }
    apply step_dispatch. rewrite dispatch_sched. fold p1. fold m1. by rewrite Hp1. }
  destruct (code_says (p_entry p) (m_ram m2) m2 eq_refl) as ([] & m3 & E3 & P3).
  assert (current_process (m_sched m3) = Some i ∧ slot m3 i = Some p1) as [Hc3 Hp3].
  { unfold slot. by rewrite (prints_sched _ _ _ P3). }
  destruct (exit_steps m3 h (i, f) su p1 Hc3 Hp3 Hn) as (m4 & m5 & E4 & Hs & _ & _ & s4 & P4 & Em5).
  assert (forkret_entry m2 = Ok (Some (p_entry p)) m2) as Ee.
  { unfold forkret_entry, bind, get. change (current_process (m_sched m2)) with (Some i). unfold get_proc, bind, get.
    change (procs (m_sched m2) !! i) with (slot m1 i). rewrite Hp1. unfold ret. simpl. by rewrite (proj2 (Z.eqb_neq _ _)). }
  pose proof (solo_proc m2 m3 m4 (load_ctx (p_context p) h) h (i, f) su i _ eq_refl Ee E3 E4) as T2.
  pose proof (Hs solo solo_code) as T3. cbn [fst] in T3, Em5.
  assert (sched_context (m_sched m5) = with_ra sched_ret (cpu_of h) ∧
    procs (m_sched m5) = <[i := set_state PROC_ZOMBIE p1]> (procs (m_sched m))) as [V1 V2].
  { rewrite Em5. cbn. rewrite (prints_sched _ _ _ P4), (prints_sched _ _ _ P3). cbn. by rewrite list_insert_insert_eq. }
  rewrite leave_pc in T3 by (by rewrite V1).
  eexists _, _, _, (set_context (with_ra yield_ret (cpu_of h)) (set_state PROC_ZOMBIE p1)). split; [|split; [|split; [shelve|done]]].
  - etrans; [exact T1|]. eapply rtc_l; [exact T2|]. etrans; [exact T3|]. apply rtc_once, solo_code; [done|apply step_back].
  - unfold proc_output. rewrite decide_True by done. change (farewell p) with (farewell p1).
    rewrite <- (app_nil_l (_ ++ _)). apply (outputs_trans _ m2); [exact (outputs_nil m _)|].
    apply (outputs_trans _ m3); [by apply outputs_prints|]. rewrite <- (app_nil_r (farewell p1)).
    apply (outputs_trans _ s4); [by apply outputs_prints|]. unfold leave. cbn. rewrite Em5. exact (outputs_nil s4 _).
    Unshelve. unfold leave. cbn. rewrite V2. rewrite (alter_inserted _ _ _ _ Hlt). done.
Qed.
Definition ended p : Prop := p_state p = PROC_UNUSED ∨ p_state p = PROC_ZOMBIE.

(** From slot [i] to the end of the pass. *)
Lemma solo_pass (n i : nat) m h f fr su : (i + n = NPROC)%nat → length (procs (m_sched m)) = NPROC →
  (∀ j p, slot m j = Some p → ended p ∨ (i <= j)%nat ∧ startable p) →
  ∃ m' h' f' fr' su', rtc solo (Sys m h (PScan i f) fr su) (Sys m' h' (PScan NPROC f') fr' su') ∧
    outputs m m' (concat (proc_output <$> drop i (procs (m_sched m)))) ∧ length (procs (m_sched m')) = NPROC ∧
    ∀ j p, slot m' j = Some p → ended p.
Proof.
  revert i m h f fr su. induction n as [|n IH]; intros i m h f fr su Hi Hl Hs.
  - replace i with NPROC by lia. exists m, h, f, fr, su. rewrite drop_ge by lia.
    split_and!; [done| |done|].
    + pose proof (outputs_nil m (m_sched m)) as Ho. by destruct m.
    + intros j p Hp. destruct (Hs j p Hp) as [?|[Hj _]]; [done|]. apply lookup_lt_Some in Hp. lia.
  - destruct (lookup_lt_is_Some_2 (procs (m_sched m)) i) as [p Hp]; [lia|].
    rewrite (drop_S _ _ _ Hp). cbn [fmap list_fmap concat].
    destruct (Hs i p Hp) as [Hend|[_ Hst]].
    + assert (p_state p ≠ PROC_RUNNABLE) as Hr by (by destruct Hend as [-> | ->]).
      unfold proc_output at 1. rewrite decide_False by done.
      destruct (IH (S i) m h f fr su) as (m' & h' & f' & fr' & su' & Hrun & Ho & Hl' & He); [lia|done| |].
      { intros j q Hq. destruct (Hs j q Hq) as [?|[Hj ?]]; [by left|]. destruct (decide (j = i)) as [->|]; [|right; split; [lia|done]].
        left. assert (q = p) as -> by (unfold slot in *; congruence). exact Hend. }
      exists m', h', f', fr', su'. split_and!; [|done..].
      eapply rtc_l; [|exact Hrun]. apply solo_code; [done|]. by eapply step_skip.
    + destruct (solo_turn m h i f fr su p Hp Hst) as (m1 & h1 & su1 & z & Hrun1 & Ho1 & E1 & Hz).
      destruct (IH (S i) m1 h1 true (i, f) su1) as (m' & h' & f' & fr' & su' & Hrun & Ho & Hl' & He).
      { lia. }
      { by rewrite E1, length_insert. }
      { intros j q Hq. unfold slot in Hq. rewrite E1 in Hq.
        apply list_lookup_insert_Some in Hq as [(-> & <- & _)|[Hne Hq]]; [left; by right|].
        destruct (Hs j q Hq) as [?|[Hj ?]]; [by left|right; split; [lia|done]]. }
      exists m', h', f', fr', su'. split_and!; [by etrans|eapply outputs_trans; [exact Ho1|]|done..].
      rewrite E1, drop_insert_lt in Ho by lia. exact Ho.
Qed.

(** The whole run: the processes in the order of their slots, then the exit. *)
Lemma solo_run m h : length (procs (m_sched m)) = NPROC →
  (∀ j p, slot m j = Some p → p_state p = PROC_UNUSED ∨ startable p) →
  ∃ y, rtc solo (start m h) y ∧ y_pc y = PExited ∧
    outputs m (y_m y) (concat (proc_output <$> procs (m_sched m)) ++
      chars ("scheduler: no active processes remaining. Exiting scheduler." +:+ nl)).
Proof.
  intros Hl Hs. destruct (solo_pass NPROC 0 m h false (0%nat, false) ∅) as (m1 & h1 & f1 & fr1 & su1 & Hrun1 & Ho1 & Hl1 & He1).
  { done. }
  { done. }
  { intros j p Hp. destruct (Hs j p Hp) as [?|?]; [left; by left|right; split; [lia|done]]. }
  assert (∀ p, ended p → p_state p ≠ PROC_RUNNABLE ∧ ¬ unfinished p) as Hen.
  { intros p [E|E]; unfold unfinished; rewrite E; (split; [done|]); by intros [?|?]. }
  assert (∃ fr2, rtc solo (start m h) (Sys m1 h1 (PScan NPROC false) fr2 su1)) as (fr2 & Hrun2).
  { exists fr1. destruct f1; [|done]. etrans; [exact Hrun1|]. eapply rtc_l; [apply solo_code; [done|apply step_again]|].
    apply (scan_to solo m1 h1 false fr1 su1 0 NPROC); [by apply solo_code|done|lia|].
    intros j p _ Hp. by apply Hen, (He1 j). }
  destruct (exit_prints m1) as ([] & m2 & E & P). exists (Sys m2 h1 PExited fr2 su1). split_and!; [|done|].
  - eapply rtc_r; [exact Hrun2|]. apply solo_code; [done|]. apply step_exit; [|done].
    apply not_active. intros j p Hp. by apply Hen, (He1 j).
  - eapply outputs_trans; [exact Ho1|by apply outputs_prints].
Qed.
End finish.
