(* ===== verification/Interrupts.v ===== *)
(** * Interrupts between the functions of the kernel

    Code that calls one C function after the other, with interrupts on: between
    two calls the hardware may run [trap_vector] as often as it likes.  [istep]
    is that transition system; [safe] says of a sequence of calls that, however
    many interrupts come and wherever, each of them is handled and the rest of
    the sequence ends as promised.  It is proved call by call from conditions
    that an interrupt cannot falsify ([stable]). *)

From stdpp Require Import relations.
From S2P Require Import Prelude Globals Machine Utils Uart Heap HeapSpec Process Trap Asm TrapVector Sched.

Section interrupts.
Context `{Platform} {TX : UartTx} `{Code} `{Image}.
Implicit Types (h : hart) (s : machine) (clob : reg → Z) (l : list (M unit)).

(** One call after the other. *)
Definition run_calls l : M unit := foldr (λ m k, m ;; k) (ret tt) l.

Lemma run_calls_app l1 l2 s : run_calls (l1 ++ l2) s = (run_calls l1 ;; run_calls l2) s.
Proof.
  revert s. induction l1 as [|m l1 IH]; intros s; [done|]. cbn. unfold bind.
  destruct (m s) as [[] s1|e s1]; [|done]. apply IH.
Qed.

Lemma run_calls_for i (n : nat) (body : Z → M unit) s :
  for_from i n body s = run_calls (body <$> seqZ i n) s.
Proof.
  revert i s. induction n as [|n IH]; intros i s; [done|]. rewrite seqZ_cons by lia. cbn. unfold bind.
  destruct (body i s) as [[] s1|e s1]; [|done]. rewrite IH. by replace (Z.pred (S n)) with (Z.of_nat n) by lia.
Qed.

(** ** Taking an interrupt *)

(** The kernel's stack. *)
Definition on_stack (x : Z) : Prop := virt_to_phys __stack_limit <= x < RAM_END.

(** An interrupt the kernel can get at [pc] with the registers [h]: they are on,
    and the frame of the trap vector fits on the stack. *)
Record irq_here h pc tval code s : Prop := {
  ih_on : SIE (sstatus (m_csr s)) = true;
  ih_code : code ∈ [IRQ_S_SOFT; IRQ_S_TIMER; IRQ_S_EXT];
  ih_trap : trap_ok h pc (2 ^ 63 + code) tval s;
  ih_stack : ∀ x, in_frame h x → on_stack x;
}.

Inductive taken s : machine → Prop :=
  | taken_intro n clob h pc tval code r s' :
      irq_here h pc tval code s → run_vector n clob h pc tval code s = Ok r s' → taken s s'.

(** Any interrupt is handled and the interrupted code goes on. *)
Definition irq_fine s : Prop := ∀ n clob h pc tval code, irq_here h pc tval code s →
  ∃ h' s', run_vector n clob h pc tval code s = Ok (h', Sreturned true pc) s' ∧ ∀ r, get_reg h' r = get_reg h r.

(** The next call returns, or an interrupt comes. *)
Inductive istep : list (M unit) * machine → list (M unit) * machine → Prop :=
  | istep_call m l s s' : m s = Ok tt s' → istep (m :: l, s) (l, s')
  | istep_irq l s s' : taken s s' → istep (l, s) (l, s').

(** ** What interrupts leave alone *)

Definition idle s : Prop := current_process (m_sched s) = None.

Definition unseen s s' : Prop :=
  handled (set_ram (m_ram s') s) s' ∧ SIE (sstatus (m_csr s')) = SIE (sstatus (m_csr s)) ∧
  same_on (λ x, ¬ on_stack x) (m_ram s) (m_ram s').

Lemma returning_idle code s : idle s → code ∈ [IRQ_S_SOFT; IRQ_S_TIMER; IRQ_S_EXT] → returning code s.
Proof. by split. Qed.

Lemma taken_unseen s s' : idle s → taken s s' → unseen s s'.
Proof.
  intros Hidle [n clob h pc tval code r s'' [_ Hcode Ht Hst] E].
  destruct (wp_interrupt n clob h s pc tval code Ht) as (r' & s1 & E1 & Hr); [by apply returning_idle|].
  unfold run_vector in E. rewrite E in E1. injection E1 as <- <-. destruct r as [h' e].
  destruct Hr as (_ & _ & _ & Hsie & Hh & Hm). split_and!; [done|done|].
  eapply same_on_weaken; [exact Hm|]. intros x Hx Hf. by apply Hx, Hst.
Qed.

Lemma idle_fine s : idle s → irq_fine s.
Proof.
  intros Hidle n clob h pc tval code [_ Hcode Ht _].
  destruct (wp_interrupt n clob h s pc tval code Ht) as ([h' e] & s1 & E1 & -> & Hr & _); [by apply returning_idle|].
  by exists h', s1.
Qed.

(** Where the kernel waits with interrupts on, one can really be taken. *)
Lemma taken_possible h pc tval code s : idle s → irq_here h pc tval code s → ∃ s', taken s s'.
Proof.
  intros Hi Hh. destruct (idle_fine s Hi 0%nat (λ _, 0) h pc tval code Hh) as (h' & s' & E & _).
  exists s'. by eapply taken_intro.
Qed.

(** ** Sequences of calls *)

(** However many interrupts have come, the rest of [l] ends in [Q], or a call waits
    for a device without end, in a state with [R]; interrupts are on, and the next
    one is handled. *)
Definition safe l s (Q R : machine → Prop) : Prop := ∀ l' s', rtc istep (l, s) (l', s') →
  wp_or (run_calls l') s' (λ _, Q) R ∧ SIE (sstatus (m_csr s')) = true ∧ irq_fine s'.

(** A condition between two calls: no process runs, interrupts are on, and none
    makes it false. *)
Record stable (I : machine → Prop) : Prop := {
  st_idle : ∀ s, I s → idle s;
  st_on : ∀ s, I s → SIE (sstatus (m_csr s)) = true;
  st_taken : ∀ s s', I s → unseen s s' → I s';
}.

Lemma stable_or I J : stable I → stable J → stable (λ s, I s ∨ J s).
Proof. intros [] []. split; naive_solver. Qed.

Lemma stable_ex {A} (I : A → machine → Prop) : (∀ a, stable (I a)) → stable (λ s, ∃ a, I a s).
Proof. intros HI. split; intros s; [intros [a Ha]|intros [a Ha]|intros s' [a Ha] ?; exists a]; by eapply (HI a). Qed.

Lemma stable_pure (P : Prop) I : stable I → stable (λ s, P ∧ I s).
Proof. intros []. split; naive_solver. Qed.

Lemma safe_done I Q R s : stable I → (∀ s, I s → Q s) → I s → safe [] s Q R.
Proof.
  intros HI HQ Hs l' s' Hr. remember ([], s) as c eqn:Ec. remember (l', s') as c' eqn:Ec'.
  revert s Hs Ec. induction Hr as [c|c c1 c' Hstep _ IH]; intros s Hs ->.
  - injection Ec' as <- <-. split_and!; [left; by apply wp_ret, HQ|by eapply st_on|by eapply idle_fine, st_idle].
  - inversion Hstep as [|l0 s0 s1 Ht]; subst. eapply IH; [done| |done].
    eapply (st_taken _ HI); [done|]. apply taken_unseen; [by eapply st_idle|done].
Qed.

Lemma safe_or I m l Q R s : stable I → (∀ s, I s → wp_or m s (λ _ s', safe l s' Q R) R) → I s → safe (m :: l) s Q R.
Proof.
  intros HI Hm Hs l' s' Hr. remember (m :: l, s) as c eqn:Ec. remember (l', s') as c' eqn:Ec'.
  revert s Hs Ec. induction Hr as [c|c c1 c' Hstep Hr IH]; intros s Hs ->.
  - injection Ec' as <- <-. split_and!; [|by eapply st_on|by eapply idle_fine, st_idle]. apply wp_or_bind.
    eapply wp_or_mono; [by apply Hm| |done]. intros [] s2 Hsafe. by apply Hsafe.
  - inversion Hstep as [m0 l0 s0 s1 E|l0 s0 s1 Ht]; subst.
    + destruct (Hm _ Hs) as [([] & s2 & E2 & Hsafe)|(s2 & E2 & _)]; rewrite E in E2; [|done].
      injection E2 as <-. by apply Hsafe.
    + eapply IH; [done| |done]. eapply (st_taken _ HI); [done|]. apply taken_unseen; [by eapply st_idle|done].
Qed.

(** A call that returns. *)
Lemma safe_call I m l Q R s : stable I → (∀ s, I s → wp m s (λ _ s', safe l s' Q R)) → I s → safe (m :: l) s Q R.
Proof. intros HI Hm. apply safe_or; [done|]. intros s' Hs'. left. auto. Qed.

Lemma safe_run l s Q R : safe l s Q R → wp_or (run_calls l) s (λ _, Q) R.
Proof. intros Hs. by apply Hs. Qed.
End interrupts.
