(* ===== verification/MTrap.v ===== *)
(** * mtrap.S: the machine-mode trap vector

    The instructions of [mtrap_vector].  [mtrap_vector_cases] says what each kind
    of trap does: the timer call is [mtrap_set_timer] (Trap.v), which the C code
    is verified against; the machine timer interrupt is passed on to supervisor
    mode; anything else prints a message and never returns. *)

From S2P Require Import Prelude Globals Machine Utils Uart Heap HeapSpec Process Trap Asm.

(** ** The code *)

Definition mtrap_save : list instr :=
  [CsrRW T0 (MCsr Mscratch) T0;
   Addi T0 T0 (-40);
   Sd T1 0 T0; Sd T2 8 T0; Sd A0 16 T0; Sd A7 24 T0;
   CsrR T1 (MCsr Mscratch); Sd T1 32 T0;
   CsrR T1 (MCsr Mcause)].

Definition mtrap_restore : list instr :=
  [Ld T2 8 T0; Ld A0 16 T0; Ld A7 24 T0;
   Addi T1 T0 40; CsrW (MCsr Mscratch) T1;
   Ld T1 0 T0; Ld T0 32 T0; Mret].

(** From the test of [mcause] on. *)
Definition mtrap_ecall : list instr :=
  [Blt T1 Zero "handle_m_interrupt";
   Li T2 9; Bne T1 T2 "m_panic";
   Li T2 0; Bne A7 T2 "m_panic";
   Li T1 0x2004000; Sd A0 0 T1;
   Li T1 0x20; CsrC Mip T1;
   Li T1 0x80; CsrS Mie T1;
   CsrR T1 (MCsr Mepc); Addi T1 T1 4; CsrW (MCsr Mepc) T1].

Definition mtrap_timer : list instr :=
  [Slli T1 T1 1; Srli T1 T1 1;
   Li T2 7; Bne T1 T2 "m_panic";
   Li T1 0x80; CsrC Mie T1;
   Li T1 0x20; CsrS Mip T1].

Definition m_panic : list instr :=
  [Li T1 0x10000000;
   Li T2 77; Sb T2 0 T1; Li T2 80; Sb T2 0 T1; Li T2 97; Sb T2 0 T1; Li T2 110; Sb T2 0 T1;
   Li T2 105; Sb T2 0 T1; Li T2 99; Sb T2 0 T1; Li T2 10; Sb T2 0 T1].

Definition mtrap_S : code :=
  [("mtrap_vector", mtrap_save ++ mtrap_ecall ++ mtrap_restore);
   ("handle_m_interrupt", mtrap_timer ++ mtrap_restore);
   ("m_panic", m_panic);
   ("m_panic_loop", [J "m_panic_loop"])].

(** ** Causes *)

Lemma s64_negative v : 0 <= v < 2 ^ 64 → (s64 v <? s64 0) = (2 ^ 63 <=? v).
Proof. intros Hv. unfold s64. change (2 ^ 64) with (2 * 2 ^ 63) in *. dlia. Qed.

(** Shifting left and right by one clears the interrupt bit. *)
Lemma clear_bit_63 v : 2 ^ 63 <= v < 2 ^ 64 → u64 (u64 (v << 1) >> 1) = v - 2 ^ 63.
Proof.
  intros Hv. rewrite shiftl_mul, shiftr_div by lia. unfold u64. change (2 ^ 1) with 2.
  change (2 ^ 64) with (2 * 2 ^ 63) in *. rewrite (Z.mod_small (_ / _)); dlia.
Qed.

Section mtrap.
Context `{Platform} (calls : String.string → hart → M hart) (m_stack_top : Z).
Implicit Types (h : hart) (s : machine).

(** The trap comes with the machine-mode stack in [mscratch]. *)
Record mtrap_ok h : Prop := {
  mo_hart : hart_ok h;
  mo_scratch : h_csr h Mscratch = m_stack_top;
  mo_cause : 0 <= h_csr h Mcause < 2 ^ 64;
  mo_stack : in_ram (m_stack_top - 40) 40 = true;
}.

Definition mtrap_words h : list (Z * Z) :=
  [(0, get_reg h T1); (8, get_reg h T2); (16, get_reg h A0); (24, get_reg h A7); (32, get_reg h T0)].
Definition mtrap_ram h s : gmap Z Z := save_words (m_stack_top - 40) (mtrap_words h) (m_ram s).

(** The hart in the middle of the vector: t0 points to the frame, and besides
    it at most the registers that were saved differ. *)
Record in_vector h h1 : Prop := {
  iv_frame : get_reg h1 T0 = m_stack_top - 40;
  iv_regs : ∀ r, r ∉ [T0; T1; T2; A0; A7] → get_reg h1 r = get_reg h r;
  iv_csr : ∀ c, c ∉ [Mscratch; Mepc] → h_csr h1 c = h_csr h c;
}.

Lemma in_vector_set h h1 r v : r ∈ [T1; T2; A0; A7] → in_vector h h1 → in_vector h (set_reg r v h1).
Proof.
  intros Hr [Hf Hr1 Hc]. rewrite !elem_of_cons, elem_of_nil in Hr. split.
  - rewrite get_set_reg_ne; [done|]. intros ->. intuition congruence.
  - intros r' Hr'. rewrite get_set_reg_ne; [by apply Hr1|]. intros ->. apply Hr'. set_solver.
  - intros c Hcc. rewrite csr_after_set_reg. by apply Hc.
Qed.

Lemma wp_mtrap_save ins h s (Q : hart * next → machine → Prop) :
  mtrap_ok h →
  (∀ h1, in_vector h h1 → get_reg h1 T1 = h_csr h Mcause → (∀ r, r ∈ [T2; A0; A7] → get_reg h1 r = get_reg h r) →
     h_csr h1 Mepc = h_csr h Mepc → wp (run_block calls ins h1) (set_ram (mtrap_ram h s) s) Q) →
  wp (run_block calls (mtrap_save ++ ins) h) s Q.
Proof.
  intros [Hh Hm Hcause Hst] HQ.
  assert (mtrap_save = [CsrRW T0 (MCsr Mscratch) T0; Addi T0 T0 (-40)] ++
    sds T0 [(T1, 0); (T2, 8); (A0, 16); (A7, 24)] ++ [CsrR T1 (MCsr Mscratch)] ++ sds T0 [(T1, 32)] ++
    [CsrR T1 (MCsr Mcause)]) as -> by done.
  rewrite <- !app_assoc. apply wp_block_app. cbn [run_block exec csr_get csr_set].
  apply wp_bind, wp_bind, wp_ret, wp_bind, wp_ret, wp_ret, wp_bind, wp_ret, wp_ret. rewrite Hm. regs.
  set (h1 := set_reg T0 _ (set_reg T0 _ _)).
  assert (get_reg h1 T0 = m_stack_top - 40) as E1.
  { unfold h1. regs. apply in_ram_spec in Hst. unfold RAM_BASE, RAM_END in Hst. rewrite !u64_small; rewrite ?u64_small; lia. }
  apply wp_block_app, (wp_sds _ _ 40); [by rewrite E1|done|]. rewrite E1.
  apply wp_block_app, wp_bind, wp_bind, wp_ret, wp_ret, wp_ret.
  apply wp_block_app, (wp_sds _ _ 40); [regs; by rewrite E1|done|]. regs. rewrite E1.
  apply wp_block_app, wp_bind, wp_bind, wp_ret, wp_ret, wp_ret. regs. cbn [m_ram set_ram].
  rewrite set_ram_ram, <- save_words_app.
  match goal with |- wp _ (set_ram (save_words _ ?l _) _) _ => assert (l = mtrap_words h) as -> end.
  { unfold mtrap_words, h1. cbn [app fmap list_fmap]. regs. by rewrite u64_small by apply Hh. }
  assert (u64 (h_csr h1 Mcause) = h_csr h Mcause) as E2.
  { unfold h1. regs. by apply u64_small. }
  apply HQ; [split|..].
  - by regs.
  - intros r Hr. rewrite !not_elem_of_cons in Hr. destruct Hr as (R0 & R1 & _). unfold h1.
    by rewrite !get_set_reg_ne by done.
  - intros c Hc. rewrite !not_elem_of_cons in Hc. destruct Hc as (C0 & _). unfold h1. by regs.
  - by regs.
  - intros r Hr. rewrite !elem_of_cons, elem_of_nil in Hr. unfold h1. destruct Hr as [->|[->|[->|[]]]]; by regs.
  - unfold h1. by regs.
Qed.

Lemma mtrap_words_ok h : words_ok 40 (mtrap_words h).*1 = true.
Proof. by vm_compute. Qed.

Lemma mtrap_ram_load h s off v : hart_ok h → (off, v) ∈ mtrap_words h → 0 <= v < 2 ^ 64 →
  ram_load 8 (m_stack_top - 40 + off) (mtrap_ram h s) = v.
Proof.
  intros Hh Hin Hv. unfold mtrap_ram. rewrite (save_words_load _ 40 _ _ off v) by (done || apply mtrap_words_ok).
  by apply u64_small.
Qed.

Lemma mtrap_ram_same h s : same_on (λ x, ¬ (m_stack_top - 40 <= x < m_stack_top)) (m_ram s) (mtrap_ram h s).
Proof. intros x Hx. apply (save_words_out _ 40); [apply mtrap_words_ok|lia]. Qed.

Lemma wp_mtrap_restore h h1 s s1 (Q : hart * next → machine → Prop) :
  mtrap_ok h → in_vector h h1 → m_ram s1 = mtrap_ram h s →
  (∀ h2, (∀ r, get_reg h2 r = get_reg h r) → h_csr h2 Mscratch = m_stack_top →
     Q (h2, Leave (Mreturned (mstatus_mpp (h_csr h Mstatus)) (h_csr h1 Mepc))) s1) →
  wp (run_block calls mtrap_restore h1) s1 Q.
Proof.
  intros [Hh Hm Hcause Hst] [Hf Hr Hc] Hram HQ.
  assert (mtrap_restore = lds T0 [(T2, 8); (A0, 16); (A7, 24)] ++ [Addi T1 T0 40; CsrW (MCsr Mscratch) T1] ++
    [Ld T1 0 T0; Ld T0 32 T0; Mret]) as -> by done.
  assert (∀ off r, (off, get_reg h r) ∈ mtrap_words h → u64 (ram_load 8 (m_stack_top - 40 + off) (m_ram s1)) = get_reg h r) as E.
  { intros off r Hin. rewrite Hram, (mtrap_ram_load h s off (get_reg h r)) by (done || apply Hh). apply u64_small, Hh. }
  apply wp_block_app, (wp_lds _ _ 40); rewrite ?Hf; [done|done|by apply (bool_decide_unpack _); vm_compute|].
  cbn [load_regs]. set (h2 := set_reg A7 _ _).
  assert (get_reg h2 T0 = m_stack_top - 40) as Hf2 by (unfold h2; by regs).
  apply wp_block_app, wp_bind, wp_ret, wp_bind, wp_bind, wp_ret, wp_ret, wp_ret. regs. rewrite Hf2.
  assert (in_ram (u64 (m_stack_top - 40 + 0)) 8 = true ∧ u64 (m_stack_top - 40 + 0) = m_stack_top - 40 + 0) as [I0 E0]
    by (apply (frame_word _ 40); [done|lia..]).
  assert (in_ram (u64 (m_stack_top - 40 + 32)) 8 = true ∧ u64 (m_stack_top - 40 + 32) = m_stack_top - 40 + 32) as [I4 E4]
    by (apply (frame_word _ 40); [done|lia..]).
  assert (u64 (m_stack_top - 40 + 40) = m_stack_top) as Et.
  { apply in_ram_spec in Hst. unfold RAM_BASE, RAM_END in Hst. rewrite u64_small; lia. }
  cbn [run_block exec]. apply wp_bind, wp_bind, wp_load; regs; rewrite Hf2; [done|]. apply wp_ret.
  apply wp_bind, wp_bind, wp_load; regs; rewrite Hf2; [done|]. apply wp_ret, wp_bind, wp_ret, wp_ret.
  rewrite E0, E4, Et. set (h3 := set_mcsr Mscratch _ _).
  assert (h_csr h3 Mstatus = h_csr h Mstatus ∧ h_csr h3 Mepc = h_csr h1 Mepc) as [F1 F2].
  { unfold h3, h2. regs. split; [|done]. apply Hc. by apply (bool_decide_unpack _); vm_compute. }
  rewrite !csr_after_set_reg, F1, F2. apply HQ; [|unfold h3; by regs].
  intros r. rewrite get_set_mcsr. destruct (decide (r = T0)) as [->|N0].
  { rewrite get_set_reg by done. apply E. in_list. }
  rewrite get_set_reg_ne by done. destruct (decide (r = T1)) as [->|N1].
  { rewrite get_set_reg by done. apply E. in_list. }
  rewrite get_set_reg_ne by done. unfold h3, h2. rewrite get_set_mcsr, get_set_reg_ne by done.
  destruct (decide (r = A7)) as [->|N7]; [rewrite get_set_reg by done; apply E; in_list|].
  rewrite get_set_reg_ne by done.
  destruct (decide (r = A0)) as [->|Na]; [rewrite get_set_reg by done; apply E; in_list|].
  rewrite get_set_reg_ne by done.
  destruct (decide (r = T2)) as [->|N2]; [rewrite get_set_reg by done; apply E; in_list|].
  rewrite get_set_reg_ne by done. apply Hr. rewrite !not_elem_of_cons, elem_of_nil. intuition congruence.
Qed.
(** ** The panic *)

Lemma wp_panic_byte c s (Q : unit → machine → Prop) :
  0 <= c < 2 ^ 8 → (∀ s', prints s s' [c] → Q tt s') → wp (asm_store 1 0x10000000 c) s Q.
Proof.
  intros Hc HQ. eexists tt, _. split; [reflexivity|]. apply HQ. eexists. split; [by eexists|]. split.
  - repeat constructor; vm_compute; intuition congruence.
  - simpl. f_equal. apply Z.mod_small. simpl. lia.
Qed.

(** [li t2, c; sb t2, 0(t1)] prints a character. *)
Lemma wp_panic_char c ins h s (Q : hart * next → machine → Prop) :
  0 <= c < 2 ^ 8 → get_reg h T1 = 0x10000000 →
  (∀ h' s', get_reg h' T1 = 0x10000000 → prints s s' [c] → wp (run_block calls ins h') s' Q) →
  wp (run_block calls (Li T2 c :: Sb T2 0 T1 :: ins) h) s Q.
Proof.
  intros Hc Ht HQ. apply wp_block_cons, wp_ret, wp_block_cons, wp_bind. regs. rewrite Ht.
  change (u64 (0x10000000 + 0)) with 0x10000000. rewrite u64_small by lia.
  apply wp_panic_byte; [done|]. intros s' P. apply wp_ret. apply HQ; [by regs|done].
Qed.

Lemma panic_loop n h s : asm_run calls n mtrap_S [J "m_panic_loop"] h s = Stop OutOfFuel s.
Proof. induction n as [|n IH]; [done|]. exact IH. Qed.

(** However long one waits: the message, and no end. *)
Lemma panic_spins n h s :
  stops (asm_run calls n mtrap_S (m_panic ++ [J "m_panic_loop"]) h) s OutOfFuel
    (λ s', prints s s' (chars ("MPanic" +:+ nl))).
Proof.
  assert (wp (run_block calls (m_panic ++ [J "m_panic_loop"]) h) s (λ r s',
    ∃ h', r = (h', To "m_panic_loop") ∧ prints s s' (chars ("MPanic" +:+ nl)))) as Hw.
  { apply wp_block_cons, wp_ret, wp_panic_char; [lia|by regs|]. intros h1 s1 E1 P1.
    apply wp_panic_char; [lia|done|]. intros h2 s2 E2 P2. apply wp_panic_char; [lia|done|]. intros h3 s3 E3 P3.
    apply wp_panic_char; [lia|done|]. intros h4 s4 E4 P4. apply wp_panic_char; [lia|done|]. intros h5 s5 E5 P5.
    apply wp_panic_char; [lia|done|]. intros h6 s6 E6 P6. apply wp_panic_char; [lia|done|]. intros h7 s7 E7 P7.
    apply wp_block_cons, wp_ret. eexists. split; [done|]. do 6 (eapply (prints_app _ _ _ [_]); [done|]). done. }
  destruct n as [|n]; cbn [asm_run]; apply stops_bind_r; (eapply wp_mono; [exact Hw|]);
    intros r s' (h' & -> & P); cbv beta iota.
  - by apply stops_halt.
  - exists s'. by rewrite <- (panic_loop n h' s').
Qed.

(** ** The vector *)

(** The machine after the registers were saved. *)
Definition pushed h s : machine := set_ram (mtrap_ram h s) s.

Lemma stops_goto n c ins h s e (Q : machine → Prop) :
  wp (run_block calls ins h) s (λ r s', ∃ h' l ins', r = (h', To l) ∧ code_from l c = Some ins' ∧
    stops (asm_run calls n c ins' h') s' e Q) →
  stops (asm_run calls (S n) c ins h) s e Q.
Proof.
  intros Hw. cbn [asm_run]. apply stops_bind_r. eapply wp_mono; [exact Hw|].
  intros r s' (h' & l & ins' & -> & E & HQ). cbv beta iota. by rewrite E.
Qed.

(** From a label on. *)
Definition after_panic : list instr := m_panic ++ [J "m_panic_loop"].
Definition after_timer : list instr := mtrap_timer ++ mtrap_restore ++ after_panic.
Definition after_vector : list instr := mtrap_save ++ mtrap_ecall ++ mtrap_restore ++ after_timer.

Lemma enter_mtrap :
  code_from "mtrap_vector" mtrap_S = Some after_vector ∧ code_from "handle_m_interrupt" mtrap_S = Some after_timer ∧
  code_from "m_panic" mtrap_S = Some after_panic.
Proof. done. Qed.

(** What comes back to the interrupted code. *)
Definition back h h' : Prop := (∀ r, get_reg h' r = get_reg h r) ∧ h_csr h' Mscratch = m_stack_top.

Lemma wp_restore_and ins h h1 s s1 (Q : hart * next → machine → Prop) :
  mtrap_ok h → in_vector h h1 → m_ram s1 = mtrap_ram h s →
  (∀ h2, back h h2 → Q (h2, Leave (Mreturned (mstatus_mpp (h_csr h Mstatus)) (h_csr h1 Mepc))) s1) →
  wp (run_block calls (mtrap_restore ++ ins) h1) s1 Q.
Proof.
  intros Hok Hiv Hram HQ. apply wp_block_app, (wp_mtrap_restore h h1 s); [done..|]. intros h2 Hr Hc. by apply HQ.
Qed.

(** Up to the first test. *)
Lemma wp_vector_entry h s (Q : hart * next → machine → Prop) :
  mtrap_ok h →
  (∀ h1, in_vector h h1 → get_reg h1 T1 = h_csr h Mcause → get_reg h1 A0 = get_reg h A0 → get_reg h1 A7 = get_reg h A7 →
     h_csr h1 Mepc = h_csr h Mepc →
     if decide (2 ^ 63 <= h_csr h Mcause) then Q (h1, To "handle_m_interrupt") (pushed h s)
     else wp (run_block calls (tail mtrap_ecall ++ mtrap_restore ++ after_timer) h1) (pushed h s) Q) →
  wp (run_block calls after_vector h) s Q.
Proof.
  intros Hok HQ. apply wp_mtrap_save; [done|]. intros h1 Hiv Ht1 Hsame Hepc.
  specialize (HQ h1 Hiv Ht1 (Hsame A0 ltac:(in_list)) (Hsame A7 ltac:(in_list)) Hepc).
  change (mtrap_ecall ++ mtrap_restore ++ after_timer) with
    (Blt T1 Zero "handle_m_interrupt" :: tail mtrap_ecall ++ mtrap_restore ++ after_timer).
  apply wp_block_cons. cbn [exec]. unfold branch. apply wp_ret. rewrite Ht1, get_zero, s64_negative by apply Hok.
  case_decide; [rewrite (proj2 (Z.leb_le _ _)) by done|rewrite (proj2 (Z.leb_gt _ _)) by lia]; exact HQ.
Qed.

(** [li t2, v; bne r, t2, m_panic] *)
Lemma wp_panic_unless r v ins h1 s (Q : hart * next → machine → Prop) :
  r ≠ T2 → 0 <= v < 2 ^ 64 →
  (let h2 := set_reg T2 v h1 in
   if decide (get_reg h1 r = v) then wp (run_block calls ins h2) s Q else Q (h2, To "m_panic") s) →
  wp (run_block calls (Li T2 v :: Bne r T2 "m_panic" :: ins) h1) s Q.
Proof.
  intros Hr Hv HQ. apply wp_block_cons, wp_ret, wp_block_cons. cbn [exec]. unfold branch. apply wp_ret. regs.
  rewrite u64_small by done. cbv zeta in HQ.
  case_decide as E; [rewrite (proj2 (Z.eqb_eq _ _) E)|rewrite (proj2 (Z.eqb_neq _ _) E)]; exact HQ.
Qed.

(** The timer call. *)
Lemma wp_ecall_body ins h h1 s (Q : hart * next → machine → Prop) :
  mtrap_ok h → in_vector h h1 → get_reg h1 A0 = get_reg h A0 → h_csr h1 Mepc = h_csr h Mepc →
  (∀ h2 s2, back h h2 → mtrap_set_timer (get_reg h A0) (pushed h s) = Ok tt s2 →
     Q (h2, Leave (Mreturned (mstatus_mpp (h_csr h Mstatus)) (u64 (u64 (h_csr h Mepc) + 4)))) s2) →
  wp (run_block calls (drop 5 mtrap_ecall ++ mtrap_restore ++ ins) h1) (pushed h s) Q.
Proof.
  intros Hok Hiv Ha0 Hepc HQ. pose proof Hok as [Hh _ _ _].
  apply wp_block_cons, wp_ret, wp_block_cons. cbn [exec]. apply wp_bind.
  assert (asm_store 8 (u64 (get_reg (set_reg T1 0x2004000 h1) T1 + 0)) (get_reg (set_reg T1 0x2004000 h1) A0) =
    io_write MTIMECMP 8 (get_reg h A0)) as ->.
  { regs. change (u64 (u64 33570816 + 0)) with 0x2004000. unfold asm_store. change (in_clint _ 8) with true.
    rewrite Ha0. f_equal. change (get_reg h A0 mod 2 ^ (8 * 8%nat)) with (u64 (get_reg h A0)). apply u64_small, Hh. }
  apply (wp_intro _ _ _ _ _ eq_refl), wp_ret.
  apply wp_block_cons, wp_ret, wp_block_cons, wp_bind, wp_get, wp_bind, wp_bind, wp_modify, wp_ret, wp_ret.
  apply wp_block_cons, wp_ret, wp_block_cons, wp_bind, wp_get, wp_bind, wp_bind, wp_modify, wp_ret, wp_ret.
  apply wp_block_cons, wp_bind, wp_ret, wp_ret, wp_block_cons, wp_ret, wp_block_cons, wp_bind, wp_ret, wp_ret. regs.
  set (h2 := set_mcsr Mepc _ _).
  assert (in_vector h h2) as Hiv2.
  { unfold h2. destruct Hiv as [Hf Hr Hcs]. split.
    - by regs.
    - intros r Hr'. rewrite !not_elem_of_cons in Hr'. destruct Hr' as (N0 & N1 & N2 & N3 & N4 & _). regs.
      apply Hr. rewrite !not_elem_of_cons, elem_of_nil. intuition.
    - intros c Hc. rewrite !not_elem_of_cons in Hc. destruct Hc as (N0 & N1 & _).
      rewrite mcsr_set_mcsr_ne by done. regs. apply Hcs. rewrite !not_elem_of_cons, elem_of_nil. intuition. }
  apply (wp_restore_and ins h h2 s); [done..|]. intros h3 Hb.
  assert (h_csr h2 Mepc = u64 (u64 (h_csr h Mepc) + 4)) as -> by (unfold h2; regs; by rewrite Hepc).
  by apply HQ.
Qed.

(** The machine timer interrupt. *)
Lemma wp_timer_body ins h h1 s (Q : hart * next → machine → Prop) :
  mtrap_ok h → in_vector h h1 → h_csr h1 Mepc = h_csr h Mepc →
  (∀ h2, back h h2 → Q (h2, Leave (Mreturned (mstatus_mpp (h_csr h Mstatus)) (h_csr h Mepc)))
     (set_csr (with_mip (mip (m_csr s) .| 0x20) (with_mie (mie (m_csr s) & Z.lnot 0x80) (m_csr s))) (pushed h s))) →
  wp (run_block calls (drop 4 mtrap_timer ++ mtrap_restore ++ ins) h1) (pushed h s) Q.
Proof.
  intros Hok Hiv Hepc HQ.
  do 2 apply wp_block_cons, wp_ret, wp_block_cons, wp_bind, wp_get, wp_bind, wp_bind, wp_modify, wp_ret, wp_ret.
  eapply (wp_restore_and ins h _ s); [done| |done|].
  - do 2 (apply in_vector_set; [in_list|]). done.
  - intros h3 Hb. rewrite !csr_after_set_reg, Hepc. regs. by apply HQ.
Qed.

(** C14: the machine-mode trap vector.  It uses nothing of memory but forty bytes
    of its own stack.  An environment call with a7 = 0 is exactly
    [mtrap_set_timer], which [set_timer] relies on: the timer is set to a0, the
    pending supervisor interrupt cleared, the machine timer enabled, and the call
    returns behind the [ecall]; a machine timer interrupt is turned into a pending
    supervisor timer interrupt and the machine timer disabled; in both cases all
    registers come back as they were and [mscratch] is ready for the next trap.
    Every other trap, other environment calls among them, prints "MPanic" and
    never returns, however long it is followed. *)
Theorem mtrap_vector_cases n h s :
  mtrap_ok h → let cause := h_csr h Mcause in let mode := mstatus_mpp (h_csr h Mstatus) in
  same_on (λ x, ¬ (m_stack_top - 40 <= x < m_stack_top)) (m_ram s) (m_ram (pushed h s)) ∧
  (cause = 9 → get_reg h A7 = 0 →
     wp (asm_enter calls n mtrap_S "mtrap_vector" h) s (λ '(h', e) s',
       (∀ r, get_reg h' r = get_reg h r) ∧ h_csr h' Mscratch = m_stack_top ∧
       e = Mreturned mode (u64 (u64 (h_csr h Mepc) + 4)) ∧ mtrap_set_timer (get_reg h A0) (pushed h s) = Ok tt s')) ∧
  (cause = 2 ^ 63 + 7 →
     wp (asm_enter calls (S n) mtrap_S "mtrap_vector" h) s (λ '(h', e) s',
       (∀ r, get_reg h' r = get_reg h r) ∧ h_csr h' Mscratch = m_stack_top ∧ e = Mreturned mode (h_csr h Mepc) ∧
       s' = set_csr (with_mip (mip (m_csr s) .| 0x20) (with_mie (mie (m_csr s) & Z.lnot 0x80) (m_csr s))) (pushed h s))) ∧
  (cause ≠ 2 ^ 63 + 7 → cause = 9 ∧ get_reg h A7 = 0 ∨
     stops (asm_enter calls (S (S n)) mtrap_S "mtrap_vector" h) s OutOfFuel
       (λ s', prints (pushed h s) s' (chars ("MPanic" +:+ nl)))).
Proof.
  intros Hok cause mode. pose proof (enter_mtrap) as (Ev & Et & Ep). split; [apply mtrap_ram_same|].
  assert (0 <= cause < 2 ^ 64) as Hc by apply Hok. unfold asm_enter. rewrite Ev. split_and!.
  - intros Hc9 Ha7. apply wp_asm_leave, wp_vector_entry; [done|]. intros h1 Hiv Ht1 Ha0 Ha7' Hepc.
    fold cause in Ht1 |- *. rewrite decide_False by lia. apply (wp_panic_unless T1 9); [done|lia|]. cbv zeta.
    rewrite decide_True by lia. apply (wp_panic_unless A7 0); [done|lia|]. cbv zeta. regs.
    rewrite decide_True by lia. apply (wp_ecall_body _ h); [done| |by regs|by regs|].
    { do 2 (apply in_vector_set; [in_list|]). done. }
    intros h2 s2 [Hr Hs] E. by eexists _, _.
  - intros Hct. apply wp_asm_goto, wp_vector_entry; [done|]. intros h1 Hiv Ht1 _ _ Hepc. fold cause in Ht1 |- *.
    rewrite decide_True by lia. eexists _, _, _. split; [done|]. split; [done|].
    apply wp_asm_leave, wp_block_cons, wp_ret, wp_block_cons, wp_ret. apply (wp_panic_unless T1 7); [done|lia|]. cbv zeta.
    regs. rewrite Ht1, clear_bit_63, decide_True by lia.
    apply (wp_timer_body _ h); [done| |by regs|].
    { do 3 (apply in_vector_set; [in_list|]). done. }
    intros h2 [Hr Hs]. by eexists _, _.
  - intros Hct. destruct (decide (cause = 9 ∧ get_reg h A7 = 0)) as [E|Hne]; [left; tauto|right].
    destruct (decide (2 ^ 63 <= cause)) as [Hi|Hi].
    + apply stops_goto, wp_vector_entry; [done|]. intros h1 Hiv Ht1 _ _ _. fold cause in Ht1 |- *.
      rewrite decide_True by done. eexists _, _, _. split; [done|]. split; [done|].
      apply stops_goto, wp_block_cons, wp_ret, wp_block_cons, wp_ret. apply (wp_panic_unless T1 7); [done|lia|]. cbv zeta.
      regs. rewrite Ht1, clear_bit_63, decide_False by lia.
      eexists _, _, _. split; [done|]. split; [done|]. apply panic_spins.
    + apply stops_goto, wp_vector_entry; [done|]. intros h1 Hiv Ht1 _ Ha7 _. fold cause in Ht1 |- *.
      rewrite decide_False by done. apply (wp_panic_unless T1 9); [done|lia|]. cbv zeta.
      rewrite Ht1. case_decide as E9; [|eexists _, _, _; split; [done|]; split; [done|]; apply panic_spins].
      apply (wp_panic_unless A7 0); [done|lia|]. cbv zeta. regs. rewrite Ha7, decide_False by tauto.
      eexists _, _, _. split; [done|]. split; [done|]. apply panic_spins.
Qed.
End mtrap.
