(* ===== verification/Swtch.v ===== *)
(** * process.S: the context switch

    The instructions of [swtch] and the refinement that links them to the
    scheduler's model: Sched.v keeps the contexts in the records of the process
    table and switches with [switched]; here the contexts are the bytes of
    [sched_context] and of [procs], and [swtch] does to them and to the registers
    what [switched] says. *)

From S2P Require Import Prelude Globals Machine Utils Uart Heap HeapSpec Process Trap Asm TrapVector Sched.

#[global] Instance ctx_ref_eq_dec : EqDecision ctx_ref.
Proof. solve_decision. Defined.

(** ** The code *)

Definition process_S : code :=
  [("swtch",
    [Sd Ra 0 A0; Sd Sp 8 A0; Sd S0 16 A0; Sd S1 24 A0; Sd S2 32 A0; Sd S3 40 A0; Sd S4 48 A0;
     Sd S5 56 A0; Sd S6 64 A0; Sd S7 72 A0; Sd S8 80 A0; Sd S9 88 A0; Sd S10 96 A0; Sd S11 104 A0;
     Ld Ra 0 A1; Ld Sp 8 A1; Ld S0 16 A1; Ld S1 24 A1; Ld S2 32 A1; Ld S3 40 A1; Ld S4 48 A1;
     Ld S5 56 A1; Ld S6 64 A1; Ld S7 72 A1; Ld S8 80 A1; Ld S9 88 A1; Ld S10 96 A1; Ld S11 104 A1;
     Ret])].

(** ** Contexts in memory *)

(** [struct context]: the offsets of its members. *)
Definition context_words (c : context) : list (Z * Z) :=
  [(0, c_ra c); (8, c_sp c); (16, c_s0 c); (24, c_s1 c); (32, c_s2 c); (40, c_s3 c); (48, c_s4 c);
   (56, c_s5 c); (64, c_s6 c); (72, c_s7 c); (80, c_s8 c); (88, c_s9 c); (96, c_s10 c); (104, c_s11 c)].
Definition context_regs : list (reg * Z) :=
  [(Ra, 0); (Sp, 8); (S0, 16); (S1, 24); (S2, 32); (S3, 40); (S4, 48);
   (S5, 56); (S6, 64); (S7, 72); (S8, 80); (S9, 88); (S10, 96); (S11, 104)].
Definition sizeof_context : Z := 112.

(** [struct process]: pid, state, stack, then the context; with the entry
    function and the name it takes 152 bytes. *)
Definition process_context : Z := 16.
Definition sizeof_process : Z := 152.

(** The context [c] is in memory at [a]. *)
Definition context_at (a : Z) (c : context) (m : gmap Z Z) : Prop :=
  Forall (λ '(off, v), ram_load 8 (a + off) m = v) (context_words c).

Lemma context_words_ok c : words_ok sizeof_context (context_words c).*1 = true.
Proof. by vm_compute. Qed.

Lemma context_at_same a c m m' :
  context_at a c m → same_on (λ x, a <= x < a + sizeof_context) m m' → context_at a c m'.
Proof.
  intros Hc Hs. unfold context_at in *. rewrite Forall_forall in *. intros [off v] Hin.
  pose proof (words_ok_in _ _ off (context_words_ok c)) as Hok. destruct Hok as (? & ? & _).
  { by apply (list_elem_of_fmap_2 fst) in Hin. }
  specialize (Hc _ Hin). simpl in *. rewrite <- Hc. eapply same_on_load; [exact Hs|]. simpl. lia.
Qed.

Lemma context_at_save a h m : hart_ok h → context_at a (cpu_of h) (save_words a (context_words (cpu_of h)) m).
Proof.
  intros Hh. unfold context_at. rewrite Forall_forall. intros [off v] Hin.
  rewrite (save_words_load _ sizeof_context _ _ off v) by (done || apply context_words_ok).
  apply u64_small. assert (Forall (λ w, 0 <= w.2 < 2 ^ 64) (context_words (cpu_of h))) as Hf
    by (repeat constructor; apply Hh).
  rewrite Forall_forall in Hf. exact (Hf _ Hin).
Qed.

Lemma cpu_of_load a h c m : context_at a c m → cpu_of (load_regs a context_regs m h) = c.
Proof.
  intros Hc. unfold context_at in Hc. destruct c. unfold context_words in Hc. simpl in Hc.
  repeat (apply Forall_cons in Hc as [? Hc]).
  assert (NoDup context_regs.*1) by (by apply (bool_decide_unpack _); vm_compute).
  unfold cpu_of. f_equal; (etrans; [eapply load_regs_in; [done|done|in_list]|done]).
Qed.

(** ** The switch *)

Section swtch.
Context `{Platform} (calls : String.string → hart → M hart).
Implicit Types (h : hart) (s : machine).

Lemma wp_swtch n old new h s (Q : hart * exit → machine → Prop) :
  in_ram old 112 = true → in_ram new 112 = true → get_reg h A0 = old → get_reg h A1 = new →
  (let m := save_words old (context_words (cpu_of h)) (m_ram s) in
   let h' := load_regs new context_regs m h in
   Q (h', Returned (get_reg h' Ra)) (set_ram m s)) →
  wp (asm_enter calls n process_S "swtch" h) s Q.
Proof.
  intros Ho Hn H0' H1' HQ. unfold asm_enter.
  change (code_from _ process_S) with (Some (sds A0 context_regs ++ lds A1 context_regs ++ [Ret])).
  apply wp_asm_leave, wp_block_app, (wp_sds _ _ 112); rewrite ?H0'; [done|by vm_compute|].
  change ((λ '(r, off), (off, get_reg h r)) <$> context_regs) with (context_words (cpu_of h)).
  apply wp_block_app, (wp_lds _ _ 112); rewrite ?H1'; [done|by vm_compute|by apply (bool_decide_unpack _); vm_compute|].
  apply wp_bind, wp_ret, wp_ret. eexists _, _. split; [done|]. exact HQ.
Qed.

(** ** Refinement *)

(** The addresses of the two variables process.c keeps contexts in. *)
Context (sched_context_ procs_ : Z).
Definition ctx_addr (r : ctx_ref) : Z :=
  match r with SchedCtx => sched_context_ | ProcCtx i => procs_ + sizeof_process * i + process_context end.

Definition ctx_valid (r : ctx_ref) : Prop := match r with SchedCtx => True | ProcCtx i => (i < NPROC)%nat end.

(** The linker places the two variables in RAM, apart from each other. *)
Context (sched_room : in_ram sched_context_ 112 = true)
        (procs_room : in_ram procs_ (Z.to_nat (sizeof_process * NPROC)) = true)
        (apart : sched_context_ + 112 <= procs_ ∨ procs_ + sizeof_process * NPROC <= sched_context_).

(** The contexts of the model are in memory. *)
Definition contexts_at (v : sched_vars) (m : gmap Z Z) : Prop :=
  context_at sched_context_ (sched_context v) m ∧
  ∀ i p, procs v !! i = Some p → context_at (ctx_addr (ProcCtx i)) (p_context p) m.

Lemma context_in_ram r : ctx_valid r → in_ram (ctx_addr r) 112 = true.
Proof.
  destruct r as [|i]; [done|]. simpl. intros Hi. apply in_ram_spec in procs_room.
  unfold sizeof_process, process_context, NPROC in *. apply in_ram_spec. lia.
Qed.

Lemma ctx_apart r r' : ctx_valid r → ctx_valid r' → r ≠ r' →
  ctx_addr r + 112 <= ctx_addr r' ∨ ctx_addr r' + 112 <= ctx_addr r.
Proof.
  unfold sizeof_process, NPROC in *. destruct r as [|i], r' as [|j]; simpl; unfold sizeof_process, process_context, NPROC;
    intros Hi Hj Hne; try lia; [done|]. assert (i ≠ j) by congruence. lia.
Qed.

(** C10: [swtch] is the switch of the scheduler's model.  Called with the addresses
    of two different contexts, the instructions of process.S leave in memory the
    contexts [switched] computes and in the registers the context it loads, and
    return to the address that context holds; all other registers, the rest of
    memory and of the machine are unchanged. *)
Theorem swtch_refines n old new h s m' cpu' :
  hart_ok h → length (procs (m_sched s)) = NPROC → ctx_valid old → ctx_valid new → old ≠ new →
  get_reg h A0 = ctx_addr old → get_reg h A1 = ctx_addr new → contexts_at (m_sched s) (m_ram s) →
  switched old new (cpu_of h) s = (m', cpu') →
  wp (asm_enter calls n process_S "swtch" h) s (λ '(h', e) s',
    contexts_at (m_sched m') (m_ram s') ∧ cpu_of h' = cpu' ∧ e = Returned (c_ra cpu') ∧
    (∀ r, r ∉ context_regs.*1 → get_reg h' r = get_reg h r) ∧ h_csr h' = h_csr h ∧
    s' = set_ram (m_ram s') s ∧
    same_on (λ x, ¬ (ctx_addr old <= x < ctx_addr old + sizeof_context)) (m_ram s) (m_ram s')).
Proof.
  intros Hh Hlen Ho Hn Hne Ha0 Ha1 [Hsc Hps] [= <- <-].
  apply (wp_swtch _ (ctx_addr old) (ctx_addr new)); [by apply context_in_ram..|done|done|]. cbv zeta.
  set (m := save_words _ _ _). set (h' := load_regs _ _ m h).
  assert (same_on (λ x, ¬ (ctx_addr old <= x < ctx_addr old + sizeof_context)) (m_ram s) m) as Hs.
  { intros x Hx. apply (save_words_out _ sizeof_context); [apply context_words_ok|lia]. }
  assert (∀ r c, ctx_valid r → r ≠ old → context_at (ctx_addr r) c (m_ram s) → context_at (ctx_addr r) c m) as Hkeep.
  { intros r c Hr Hro Hc. eapply context_at_same; [exact Hc|]. eapply same_on_weaken; [exact Hs|].
    destruct (ctx_apart r old) as [?|?]; [done..| |]; unfold sizeof_context; simpl; lia. }
  assert (context_at (ctx_addr old) (cpu_of h) m) as Hold by (by apply context_at_save).
  assert (context_at (ctx_addr new) (swtch_load new (swtch_save old (cpu_of h) (m_sched s))) m) as Hnew.
  { apply Hkeep; [done|done|]. destruct new as [|j].
    - destruct old; [done|]. exact Hsc.
    - destruct (lookup_lt_is_Some_2 (procs (m_sched s)) j) as [p Hp]; [simpl in Hn; lia|]. specialize (Hps _ _ Hp).
      assert (procs (swtch_save old (cpu_of h) (m_sched s)) !! j = Some p) as E.
      { destruct old as [|i]; [done|]. simpl. rewrite list_lookup_alter_ne by congruence. done. }
      unfold swtch_load. by rewrite E. }
  pose proof (cpu_of_load _ h _ _ Hnew) as Hcpu. fold h' in Hcpu. split_and!.
  - cbn [m_sched set_sched]. split.
    + destruct old as [|i]; [exact Hold|]. by apply (Hkeep SchedCtx).
    + intros j p Hp. destruct (decide (old = ProcCtx j)) as [->|Hoj].
      * simpl in Hp. rewrite list_lookup_alter, decide_True in Hp by done. destruct (procs (m_sched s) !! j) as [q|]; [|done].
        injection Hp as <-. exact Hold.
      * assert (procs (m_sched s) !! j = Some p) as Hp'.
        { destruct old as [|i]; [done|]. simpl in Hp. by rewrite list_lookup_alter_ne in Hp by congruence. }
        apply (Hkeep (ProcCtx j)); [apply lookup_lt_Some in Hp'; simpl; lia|congruence|by apply Hps].
  - exact Hcpu.
  - by rewrite <- Hcpu.
  - intros r Hr. by apply load_regs_out.
  - apply load_regs_csr.
  - done.
  - exact Hs.
Qed.
End swtch.
