(* ===== verification/Main.v ===== *)
(** * main.c: the kernel's entry point

    [_start] (Start.S) clears [.bss], relocates the kernel and calls [main],
    which initialises every component in turn and starts the scheduler.  This file
    has the definitions, the probing of a device slot, and the two tasks as
    processes; Boot.v proves that the kernel boots, and Start.v that the
    instructions of Start.S are the function [_start]. *)

From S2P Require Import Prelude Globals Machine Utils Uart Heap HeapSpec Paging PagingSpec KernelMap.
From S2P Require Import Packet Virtio VirtioSpec DeviceIo Virtq VirtioNet VirtioRx VirtioStart.
From S2P Require Import Dtb DtbSpec Process Trap Asm TrapVector Sched Interrupts.

Section main.
Context `{Platform} `{Code}.

(** [for (volatile int d = 0; d < 10000000; d++);] *)
Definition delay : M unit := for_from 0 (Z.to_nat 10000000) (λ _, ret tt).

Definition taskA : M unit :=
  for_from 0 5 (λ i,
    uart_puts (lit "Task A is running (step ") ;;
    uart_putc (ch_0 + i) ;;
    uart_puts (lit (")." ++ nl)) ;;
    delay).

Definition taskB : M unit :=
  for_from 0 5 (λ i,
    uart_puts (lit "Task B is running (step ") ;;
    uart_putc (ch_0 + i) ;;
    uart_puts (lit (")." ++ nl)) ;;
    delay).

(** [main] up to its call of [scheduler]; [false] when it returns before.  The
    address of the device tree, of the array in [virt_find_all_devices] and of
    the two tasks are arguments. *)
Definition main (_dtb_addr mac_buf taskA taskB : Z) : M bool :=
  v <- mem_init;
  if negb (v =? 0) then ret false
  else
  uart_init 115200 100000000 ;;
  uart_puts (lit ("Hello, World!" ++ nl)) ;;
  trap_init ;;
  uart_puts (lit ("Trap handler initialized." ++ nl)) ;;
  set_timer 1000000 ;;
  enable_timer_interrupt ;;
  intr_on ;;
  fdt_traverse _dtb_addr dtb_callback ;;
  virt_find_all_devices mac_buf ;;
  uart_puts (lit ("Initializing process subsystem..." ++ nl)) ;;
  proc_init ;;
  uart_puts (lit ("Creating Task A and Task B..." ++ nl)) ;;
  proc_create taskA (Some (lit "taskA")) ;;
  proc_create taskB (Some (lit "taskB")) ;;
  uart_puts (lit ("Starting scheduler..." ++ nl)) ;;
  ret true.

(** [main] in two parts: until interrupts are on, and the calls that follow, one
    by one; [virt_find_all_devices] is the probing of eight slots. *)
Definition main_head : M bool :=
  v <- mem_init;
  if negb (v =? 0) then ret false
  else
  uart_init 115200 100000000 ;;
  uart_puts (lit ("Hello, World!" ++ nl)) ;;
  trap_init ;;
  uart_puts (lit ("Trap handler initialized." ++ nl)) ;;
  set_timer 1000000 ;;
  enable_timer_interrupt ;;
  intr_on ;;
  ret true.

Definition main_tasks (taskA taskB : Z) : list (M unit) :=
  [uart_puts (lit ("Initializing process subsystem..." ++ nl));
   proc_init;
   uart_puts (lit ("Creating Task A and Task B..." ++ nl));
   proc_create taskA (Some (lit "taskA")) ;; ret tt;
   proc_create taskB (Some (lit "taskB")) ;; ret tt;
   uart_puts (lit ("Starting scheduler..." ++ nl))].

Definition main_devices (mac_buf taskA taskB : Z) : list (M unit) :=
  uart_puts (lit ("Scanning for Virtio MMIO devices..." ++ nl)) ::
  (probe_slot mac_buf <$> seqZ 1 VIRTIO_SLOTS) ++ main_tasks taskA taskB.

Definition main_calls (_dtb_addr mac_buf taskA taskB : Z) : list (M unit) :=
  fdt_traverse _dtb_addr dtb_callback :: main_devices mac_buf taskA taskB.

(** What [main] does when [scheduler] returns. *)
Definition main_end : M unit := uart_puts (lit ("End of main." ++ nl)).

(** ** Start.S *)

(** The static variables as [.bss] holds them when it is cleared. *)
Definition zero_queue : virtio_net_queue := NetQueue 0 0 0 0 0 (replicate (Z.to_nat DESC_QUEUE_SIZE) 0).
Definition zero_proc : process := Process 0 PROC_UNUSED 0 ctx_zero 0 (replicate 16 0).

(** The loop over [.bss], in words of eight bytes.  The variables that the model
    keeps in records are part of [.bss], too. *)
Definition clear_words (_sbss _ebss : Z) : M unit :=
  for_from 0 (Z.to_nat ((_ebss - _sbss + 7) / 8)) (λ i, store 8 (_sbss + 8 * i) 0).
Definition zero_vars : M unit :=
  modify (set_heap (HeapVars 0 0 0 0)) ;;
  modify (set_net (replicate (Z.to_nat VIRTIO_NET_QUEUE_COUNT) zero_queue)) ;;
  modify (set_sched (SchedVars (replicate NPROC zero_proc) None ctx_zero)).
Definition clear_bss (_sbss _ebss : Z) : M unit := clear_words _sbss _ebss ;; zero_vars.

(** Start.S up to the call of [main], and then [m]. *)
Definition start_with `{Image} {A} (_sbss : Z) (m : M A) : M A :=
  clear_bss _sbss (virt_to_phys __heap_start) ;;
  relocate_kernel ;;
  upd_csr (with_mie 0) ;;
  m.

(** [_start] with the address of the device tree in a1.  Of the machine-mode
    registers it sets, [mie] is part of the machine. *)
Definition _start `{Image} (_sbss a1 mac_buf taskA taskB : Z) : M bool :=
  clear_bss _sbss (virt_to_phys __heap_start) ;;
  relocate_kernel ;;
  upd_csr (with_mie 0) ;;
  main a1 mac_buf taskA taskB.
End main.

(** Runs both sides of an equation of programs up to where they differ. *)
Ltac follow := unfold bind, ret; repeat match goal with
  | |- context [match ?m ?s with Ok _ _ => _ | Stop _ _ => _ end] =>
      is_var s; destruct (m s) as [? ?|]; [|done]
  end.

Lemma calls_cons `{Platform} m l s : run_calls (m :: l) s = (m ;; run_calls l) s.
Proof. done. Qed.

Lemma find_devices_split `{Platform} mac_buf s :
  virt_find_all_devices mac_buf s =
  run_calls (uart_puts (lit ("Scanning for Virtio MMIO devices..." ++ nl)) :: (probe_slot mac_buf <$> seqZ 1 VIRTIO_SLOTS)) s.
Proof. unfold virt_find_all_devices. rewrite calls_cons. follow. apply run_calls_for. Qed.

Lemma devices_split `{Platform} `{Code} mac_buf taskA taskB s :
  run_calls (main_devices mac_buf taskA taskB) s =
  (virt_find_all_devices mac_buf ;; run_calls (main_tasks taskA taskB)) s.
Proof. unfold main_devices. rewrite app_comm_cons, run_calls_app. unfold bind. by rewrite find_devices_split. Qed.

(** The two parts make up [main]. *)
Lemma main_split `{Platform} `{Code} dtb mac_buf taskA taskB s :
  main dtb mac_buf taskA taskB s =
  (b <- main_head; if b then run_calls (main_calls dtb mac_buf taskA taskB) ;; ret true else ret false) s.
Proof.
  unfold main, main_head, main_calls. unfold bind, ret. destruct (mem_init s) as [v s1|]; [|done].
  destruct (negb _); [done|]. follow. rewrite calls_cons. follow. rewrite devices_split. follow.
  cbn [main_tasks run_calls foldr]. by follow.
Qed.

(** ** Finding devices *)

(** No VirtIO slot but [card], if that is one, holds a network card: no other
    device ID register ever reads 1. *)
Class OnlyCard `{Platform} (card : option Z) : Prop := only_card : ∀ d device,
  slot_addr device → (dev_read d (device + 0x008) 4).1 mod 2 ^ 32 = 1 → card = Some device.

Section devices.
Context `{Platform} {TX : UartTx} (card : option Z) {OC : OnlyCard card} (W : Z → Prop) {DW : DmaWithin W}.
Implicit Types (s : machine).

Definition slot_at (i : Z) : Z := VIRTIO_SIZE * i + GPIO_BASE_ADDR.

(** Probing a slot: some registers are read and something is printed, and then
    perhaps a network card is started. *)
Lemma probe_cases mac_buf i s (Q : unit → machine → Prop) (R : machine → Prop) : 1 <= i <= VIRTIO_SLOTS →
  (∀ s', calm s s' → Q tt s') →
  (∀ s1, card = Some (slot_at i) → calm s s1 → wp_or (start_net_device mac_buf (slot_at i)) s1 Q R) →
  wp_or (probe_slot mac_buf i) s Q R.
Proof.
  intros Hi HQ Hcard. assert (slot_addr (slot_at i)) as Hd by (by exists i). unfold probe_slot. fold (slot_at i).
  apply wp_or_step, wp_reg_read; [done|done|]. intros s1 C1. destruct (negb _); [left; by apply wp_ret, HQ|].
  apply wp_or_step, wp_reg_read; [done|done|]. intros s2 C2. pose proof (calm_trans _ _ _ C1 C2) as C. clear C1 C2.
  destruct (negb _); [left; by apply wp_ret, HQ|].
  apply wp_or_step, wp_io; [by apply does_puts|]. intros s3 C3. apply wp_or_step, wp_io; [apply does_b2x|]. intros s4 C4.
  apply wp_or_step, wp_io; [by apply does_puts|]. intros s5 C5. apply wp_or_step, wp_reg_read; [done|done|]. intros s6 C6.
  assert (calm s s6) as C' by (do 4 (eapply calm_trans; [|done]); done). clear C C3 C4.
  assert (∀ m, does_io m → wp_or m s6 Q R) as Hio.
  { intros m Hm. left. apply wp_io; [done|]. intros s' Cm. apply HQ. by eapply calm_trans. }
  destruct (_ =? 0); [by apply Hio, does_puts|]. destruct (Z.eqb_spec ((dev_read (m_dev s5) (slot_at i + 8) 4).1 mod 2 ^ 32) 1) as [E|_].
  { apply Hcard; [by eapply only_card|done]. }
  destruct (_ =? 2); apply Hio; [by apply does_puts|].
  apply does_bind; [by apply does_puts|]. intros t. apply wp_bind, wp_reg_read; [done|done|]. intros t1 T1.
  eapply wp_io; [|intros s' Ct; by eapply calm_trans]. apply does_bind; [apply does_b2x|apply does_putc].
Qed.

(** The card can be started from the free pages [L]: the queues become [rx] and
    [tx], and [L'] is left. *)
Record fits (mac_buf : Z) (rx tx : virtio_net_queue) (L L' : list Z) : Prop := {
  ft_rx : rx = fresh_queue (q_ring rx) (q_buffers rx) zero_queue;
  ft_tx : tx = fresh_queue (q_ring tx) (q_buffers tx) zero_queue;
  ft_layout : net_layout L = Some ((q_ring rx, q_buffers rx), (q_ring tx, q_buffers tx), L');
  ft_card : card_ok W mac_buf rx tx L;
}.

(** A started card does not return a buffer: with paging and interrupts on, the
    pages [L'] still free, both queues sound and no process created, the driver
    polls, and nothing but its fences happens, until the bound is used up. *)
Definition no_answer (rx tx : virtio_net_queue) (L' : list Z) s' : Prop :=
  card ≠ None ∧ heap_inv s' L' ∧
  m_sched s' = SchedVars (replicate NPROC zero_proc) None ctx_zero ∧ SIE (sstatus (m_csr s')) = true ∧
  ∃ s4, queues_live rx tx L' s4 ∧ nsteps (silent rx) fuel s4 s'.
End devices.

(** ** The tasks as processes *)

Section tasks.
Context `{Platform} `{CodeRet} {TX : UartTx}.
Implicit Types (s : machine).

(** The line a task prints in step [i]. *)
Definition task_line (name : String.string) (i : Z) : list Z :=
  chars ("Task " ++ name ++ " is running (step ") ++ [ch_0 + i] ++ chars (")." ++ nl).

Lemma says_delay r : says r delay [].
Proof.
  intros s _. unfold delay. generalize (Z.to_nat 10000000). intros n.
  apply (wp_for (λ _ s', s' = s)); [done| |].
  - intros i s' _ ->. by apply wp_ret.
  - intros s' ->. apply prints_nil.
Qed.

Lemma says_task r (l1 l2 : String.string) : printable (chars l1) = true → printable (chars l2) = true →
  says r (for_from 0 5 (λ i, uart_puts (lit l1) ;; uart_putc (ch_0 + i) ;; uart_puts (lit l2) ;; delay))
    (concat ((λ i, chars l1 ++ [ch_0 + i] ++ chars l2) <$> [0; 1; 2; 3; 4])).
Proof.
  intros Hl1 Hl2. apply (says_for r (λ i, chars l1 ++ [ch_0 + i] ++ chars l2) 0 5). intros i Hi.
  apply says_bind; [by apply says_lit|]. apply says_bind.
  - pose proof (says_putc r (ch_0 + i)) as Hs. rewrite u8_small in Hs by (unfold ch_0; lia). exact Hs.
  - rewrite <- (app_nil_r (chars l2)). apply says_bind; [by apply says_lit|apply says_delay].
Qed.

(** A task prints its five lines, and its run is a step the transition system
    allows a process. *)
Lemma task_step (m : M unit) out s h h' fr su :
  (∀ r, says r m out) → ∃ s', m s = Ok tt s' ∧ prints s s' out ∧
    code_step (Sys s h PProc fr su) (Sys s' h' PProc fr su).
Proof.
  intros Hm. destruct (Hm (m_ram s) s eq_refl) as ([] & s' & E & P). exists s'. split_and!; [done..|].
  apply step_run; [by eapply prints_sched|by eapply prints_csr|]. apply frames_kept_ram. by eapply prints_ram.
Qed.

Lemma taskA_step s h h' fr su : ∃ s', taskA s = Ok tt s' ∧
  prints s s' (concat (task_line "A" <$> [0; 1; 2; 3; 4])) ∧ code_step (Sys s h PProc fr su) (Sys s' h' PProc fr su).
Proof. apply task_step. intros r. by apply says_task. Qed.

Lemma taskB_step s h h' fr su : ∃ s', taskB s = Ok tt s' ∧
  prints s s' (concat (task_line "B" <$> [0; 1; 2; 3; 4])) ∧ code_step (Sys s h PProc fr su) (Sys s' h' PProc fr su).
Proof. apply task_step. intros r. by apply says_task. Qed.
End tasks.
