(* ===== verification/Boot.v ===== *)
(** * The boot, from the first instruction to the scheduler

    [_start] and [main] (Main.v) put the components together; the theorems show
    that what each of them promises is enough for the next ([kernel_boots]), and
    also when interrupts come between the calls of [main]
    ([kernel_boots_interrupted]).  With a network card there is a second outcome
    besides a kernel that is up: the card never returns a buffer, and the driver
    polls it ([card_silent]).  Between two calls [boundary] holds, which no
    interrupt can make false. *)

From S2P Require Import Prelude Globals Machine Utils Uart Heap HeapSpec Paging PagingSpec KernelMap.
From S2P Require Import Packet Virtio VirtioSpec DeviceIo Virtq VirtioNet VirtioRx VirtioStart.
From S2P Require Import Dtb DtbSpec Process Trap Asm TrapVector Sched Finish Interrupts Main.

Section boot.
Context `{Platform} {TX : UartTx} `{Code}.
Implicit Types (s : machine).

(** ** Turning interrupts on *)

(** The variables of the kernel are as before; of the control registers, the
    translation is. *)
Definition same_vars s s' : Prop :=
  m_ram s' = m_ram s ∧ m_heap s' = m_heap s ∧ m_net s' = m_net s ∧ m_sched s' = m_sched s ∧
  satp (m_csr s') = satp (m_csr s).

Lemma same_vars_trans s1 s2 s3 : same_vars s1 s2 → same_vars s2 s3 → same_vars s1 s3.
Proof. unfold same_vars. intuition congruence. Qed.
Lemma calm_same s s' : calm s s' → same_vars s s'.
Proof. intros (? & ? & ? & ? & ?)%calm_vars. unfold same_vars. intuition congruence. Qed.

(** Traps go to [trap_vector], and the timer may interrupt. *)
Definition irq_ready (c : csrs) : Prop :=
  stvec c = trap_vector ∧ Z.testbit (sie c) 5 = true ∧ SIE (sstatus c) = true.

Lemma wp_set_timer interval s (Q : unit → machine → Prop) :
  (∀ s1, calm s s1 → Q tt (set_csr (timer_csr (m_csr s)) s1)) → wp (set_timer interval) s Q.
Proof.
  intros HQ. unfold set_timer. apply wp_bind, wp_get_time. intros s1 X1.
  assert (m_csr s1 = m_csr s) as E1 by (by destruct X1 as [? ->]).
  unfold mtrap_set_timer, wp, bind, io_write, upd_csr, modify. eexists _, _. split; [done|].
  rewrite <- E1 in HQ. apply (HQ (set_trace _ (set_dev _ s1))). eapply calm_trans; [by exists []|].
  eexists. by eexists.
Qed.

Lemma wp_enable_irq {A} (k : M A) s (Q : A → machine → Prop) :
  (∀ s', same_vars s s' → irq_ready (m_csr s') → wp k s' Q) →
  wp (trap_init ;; uart_puts (lit ("Trap handler initialized." ++ nl)) ;; set_timer 1000000 ;;
      enable_timer_interrupt ;; intr_on ;; k) s Q.
Proof.
  intros HQ. apply wp_bind, wp_modify. apply wp_bind, wp_io; [by apply does_puts|]. intros s1 C1.
  apply wp_bind, wp_set_timer. intros s2 C2. apply wp_bind, wp_modify. apply wp_bind, wp_modify.
  destruct (calm_vars _ _ C1) as (E1 & E2 & E3 & E4 & E5), (calm_vars _ _ C2) as (F1 & F2 & F3 & F4 & F5).
  apply HQ; unfold same_vars, irq_ready; rewrite E3.
  - simpl in *. split_and!; [congruence..|done].
  - cbn [m_csr set_csr stvec sie sstatus with_sie with_sstatus with_mie with_mip with_stvec timer_csr].
    split_and!; [done| |]; unfold SIE; rewrite Z.lor_spec, orb_true_iff; by right.
Qed.

(** ** The process table *)

Definition zero_sched : sched_vars := SchedVars (replicate NPROC zero_proc) None ctx_zero.

(** The process [proc_create] makes for a task. *)
Definition task_proc (i : nat) (stack entry : Z) (name : String.string) : process :=
  new_proc i stack entry (chars name) zero_proc.

Definition with_task (i : nat) (stack entry : Z) (name : String.string) (v : sched_vars) : sched_vars :=
  SchedVars (<[i := task_proc i stack entry name]> (procs v)) (current_process v) (sched_context v).

Definition task_table (a b entryA entryB : Z) : sched_vars :=
  with_task 1 b entryB "taskB" (with_task 0 a entryA "taskA" zero_sched).

Lemma tasks_fresh a b entryA entryB :
  sched_wf (task_table a b entryA entryB) → fresh_table (task_table a b entryA entryB).
Proof.
  intros Hwf. split; [done|done|]. intros i p Hp. destruct i as [|[|i]]; simpl in Hp; simplify_eq; [by right..|].
  apply (lookup_replicate_1 14) in Hp as [-> _]. by left.
Qed.

(** What holds when [main] calls [scheduler]: of the pages [L] that were free,
    [n] hold page tables, two are the stacks of the tasks, and the rest is still
    free; paging is on with the kernel's address space; interrupts are on; and
    the process table holds the two tasks and nothing else. *)
Record kernel_ready (n : nat) (L : list Z) (entryA entryB : Z) s : Prop := {
  kr_heap : ∃ k a b L', L = k ++ a :: b :: L' ∧ length k = n ∧ heap_inv s L' ∧
    m_sched s = task_table a b entryA entryB;
  kr_wf : sched_wf (m_sched s);
  kr_mode : satp_mode (satp (m_csr s)) = 8;
  kr_map : ∀ va, sv39 (m_ram s) (satp_table (satp (m_csr s))) va = kernel_map va;
  kr_irq : irq_ready (m_csr s);
}.
End boot.

(** ** Between two calls *)

Section boundary.
Context `{Platform} {TX : UartTx} `{Code} `{Image} {IO : ImageOk}.
Context (m1 : gmap Z Z) (stp : Z).
Implicit Types (s : machine) (K : Z → Prop) (N : list virtio_net_queue → Prop).

(** The pages [L] are free, the bytes [K] of memory are those of [m1], paging
    and interrupts are set up, and the static variables of process.c and
    virt_mmio.c are known. *)
Record boundary K (L : list Z) (v : sched_vars) N s : Prop := {
  bd_heap : heap_inv s L;
  bd_ram : same_on K m1 (m_ram s);
  bd_satp : satp (m_csr s) = stp;
  bd_irq : irq_ready (m_csr s);
  bd_sched : m_sched s = v;
  bd_net : N (m_net s);
}.

Lemma heap_off_stack x : in_pages init_pages x → ¬ on_stack x.
Proof.
  intros (a & (i & Hi & ->)%elem_of_pages & Hx) [Hs _]. destruct init_between as [_ He].
  rewrite PAGE_SIZE_eq in *. dlia.
Qed.

Lemma boundary_stable K L v N : (∀ x, K x → ¬ on_stack x) → (∀ a, a ∈ L → a ∈ init_pages) →
  current_process v = None → stable (boundary K L v N).
Proof.
  intros HK HL Hv. split; [by intros s [? ? ? (_ & _ & ?) <- ?]|by intros s [? ? ? (_ & _ & ?) <- ?]|].
  intros s s' [B1 B2 B3 (I1 & I2 & I3) B5 B6] ((_ & H2 & N2 & V2 & J1 & J2 & J3) & Hsie & Hr). split.
  - eapply (heap_inv_ext (set_ram (m_ram s') s)); [done|done|]. apply heap_inv_same; [done|].
    eapply same_on_weaken; [exact Hr|]. intros x (a & Ha & Hx). apply heap_off_stack. exists a. auto.
  - etrans; [exact B2|]. by eapply same_on_weaken.
  - by rewrite J3.
  - split_and!; [by rewrite J2|by rewrite J1|by rewrite Hsie].
  - by rewrite V2.
  - by rewrite N2.
Qed.

Lemma boundary_calm K L v N s s' : calm s s' → boundary K L v N s → boundary K L v N s'.
Proof.
  intros C [B1 B2 B3 B4 B5 B6]. destruct (calm_vars _ _ C) as (E1 & E2 & E3 & E4 & E5).
  split; rewrite ?E1, ?E3, ?E4, ?E5; try done. by eapply calm_heap.
Qed.

Lemma boundary_weaken K K' N N' L v s : (∀ x, K' x → K x) → (∀ n, N n → N' n) →
  boundary K L v N s → boundary K' L v N' s.
Proof. intros HK HN []. split; auto. by eapply same_on_weaken. Qed.

(** Printing between two calls. *)
Lemma safe_puts K L v N str l s Q R : printable (chars str) = true → stable (boundary K L v N) →
  (∀ s', boundary K L v N s' → safe l s' Q R) → boundary K L v N s → safe (uart_puts (lit str) :: l) s Q R.
Proof.
  intros Hp Hst Hl. apply safe_call; [done|]. intros s1 Hs1. apply wp_io; [by apply does_puts|].
  intros s2 C2. apply Hl. by eapply boundary_calm.
Qed.

(** ** Creating the tasks *)

Lemma sched_wf_zero : sched_wf zero_sched.
Proof.
  split; unfold zero_sched; cbn [procs]; [done| |by intros i p [-> _]%lookup_replicate_1].
  intros i p [-> _]%lookup_replicate_1. unfold name_ok. cbn [p_name zero_proc].
  split_and!; [done|in_list|apply Forall_replicate; lia].
Qed.

Lemma wp_create_task K L v N i a entry name s :
  sched_wf v → find_unused (procs v) = Some i → procs v !! i = Some zero_proc →
  Forall (λ c, 0 < c < 2 ^ 8) (chars name) → take 15 (chars name) = chars name →
  boundary K (a :: L) v N s →
  wp (proc_create entry (Some (lit name)) ;; ret tt) s
    (λ _ s', boundary K L (with_task i a entry name v) N s' ∧ sched_wf (with_task i a entry name v)).
Proof.
  intros Hwf Hi Hold Hc Ht [B1 B2 B3 B4 B5 B6]. subst v.
  apply wp_bind. eapply wp_mono; [apply (wp_proc_create s (a :: L) _ _ (chars name)); [done|done|by apply cstr_at_lit]|].
  intros v s' [Hwf' Hs']. rewrite Hi, Ht in Hs'. destruct Hs' as (_ & HI' & old & fl & Hold' & _ & E).
  unfold slot in Hold'. rewrite Hold in Hold'. injection Hold' as <-. apply wp_ret.
  assert (m_sched s' = with_task i a entry name (m_sched s)) as V by (by rewrite E).
  rewrite V in Hwf'. split; [|done]. split; [done| | | |done|]; by rewrite E.
Qed.

Lemma task_name_ok (name : String.string) : name = "taskA"%string ∨ name = "taskB"%string →
  Forall (λ c, 0 < c < 2 ^ 8) (chars name) ∧ take 15 (chars name) = chars name.
Proof. intros [-> | ->]; (split; [by repeat constructor|done]). Qed.

(** The calls from [proc_init] on. *)
Lemma safe_tasks K L a b entryA entryB N s Q R :
  (∀ x, K x → ¬ on_stack x) → (∀ p, p ∈ a :: b :: L → p ∈ init_pages) →
  (∀ s', boundary K L (task_table a b entryA entryB) N s' → sched_wf (m_sched s') → Q s') →
  boundary K (a :: b :: L) zero_sched N s → safe (main_tasks entryA entryB) s Q R.
Proof.
  intros HK HL HQ. unfold main_tasks.
  assert (∀ v, current_process v = None → stable (boundary K (a :: b :: L) v N) ∧ stable (boundary K (b :: L) v N) ∧
    stable (boundary K L v N)) as St.
  { intros v Hv. split_and!; (apply boundary_stable; [done| |done]); set_solver. }
  apply safe_puts; [done|by apply St|]. intros s1. apply safe_call; [by apply St|]. intros s2 B2.
  eapply wp_mono; [apply proc_init_ok|]. { by rewrite (bd_sched _ _ _ _ _ B2). }
  intros [] s3 E3. rewrite (bd_sched _ _ _ _ _ B2) in E3.
  assert (boundary K (a :: b :: L) zero_sched N s3) as B3.
  { destruct B2 as [HI]. rewrite E3. split; [by apply (heap_inv_ext s2)|done..]. }
  clear E3. revert B3. apply safe_puts; [done|by apply St|]. intros s4.
  apply safe_call; [by apply St|]. intros s5 B5. destruct (task_name_ok "taskA") as [Hc Ht]; [by left|].
  eapply wp_mono; [apply (wp_create_task K (b :: L) zero_sched N 0 a); [apply sched_wf_zero|done..]|]. intros [] s6 [B6 Wf6].
  revert B6. apply safe_call; [by apply St|]. intros s7 B7. clear Hc Ht. destruct (task_name_ok "taskB") as [Hc Ht]; [by right|].
  eapply wp_mono; [apply (wp_create_task K L (with_task 0 a entryA "taskA" zero_sched) N 1 b); done|]. intros [] s8 [B8 Wf8].
  revert B8. apply safe_puts; [done|by apply St|]. intros s9. apply safe_done; [by apply St|].
  intros s' B'. apply HQ; [done|]. by rewrite (bd_sched _ _ _ _ _ B').
Qed.
End boundary.

(** ** Finding devices *)

Section devices.
Context `{Platform} {TX : UartTx} `{Code} `{Image} {IO : ImageOk}.
Context (card : option Z) {OC : OnlyCard card} (W : Z → Prop) {DW : DmaWithin W}.
Context (m1 : gmap Z Z) (stp : Z) (K : Z → Prop) (mac_buf : Z) (rx tx : virtio_net_queue) (L : list Z).
Context (stack_apart : ∀ x, K x → ¬ on_stack x) (L_init : ∀ a, a ∈ L → a ∈ init_pages).
Context (L_fits : card ≠ None → fits W mac_buf rx tx L (drop 260 L)) (L_keeps : card ≠ None → ∀ x, K x → untouched mac_buf L x).
Implicit Types (s : machine).

Definition zero_net : list virtio_net_queue := [zero_queue; zero_queue].

(** No card was found in the slots below [i], or it was and is running. *)
Definition probing (i : Z) s : Prop :=
  boundary m1 stp K L zero_sched (λ n, n = zero_net) s ∨
  ∃ j, (j < i ∧ card = Some (slot_at j)) ∧ boundary m1 stp K (drop 260 L) zero_sched (λ _, True) s.

Lemma probing_stable i : stable (probing i).
Proof.
  apply stable_or; [by apply boundary_stable|]. apply stable_ex. intros j. apply stable_pure.
  apply boundary_stable; [done| |done]. intros a Ha. apply L_init. rewrite <- (take_drop 260 L). set_solver.
Qed.

Lemma probing_calm i s s' : calm s s' → probing i s → probing i s'.
Proof.
  intros C [Hs|(j & Hj & Hs)]; [left|right; exists j; split; [done|]]; by eapply boundary_calm.
Qed.

Lemma probe_next i s : 1 <= i <= VIRTIO_SLOTS → probing i s →
  wp_or (probe_slot mac_buf i) s (λ _ s', probing (i + 1) s') (no_answer card rx tx (drop 260 L)).
Proof.
  intros Hi Hs. apply (probe_cases card); [done| |].
  - intros s' C. apply (probing_calm _ s); [done|]. destruct Hs as [?|(j & [? ?] & ?)]; [by left|right].
    exists j. split; [split; [lia|done]|done].
  - intros s1 Ei C1. destruct Hs as [Hs|(j & [Hj Ej] & _)].
    2:{ rewrite Ei in Ej. injection Ej. unfold slot_at, VIRTIO_SIZE. lia. }
    apply (boundary_calm _ _ _ _ _ _ _ _ C1) in Hs. destruct Hs as [B1 B2 B3 B4 B5 B6].
    assert (card ≠ None) as Hc by (by rewrite Ei). destruct (L_fits Hc) as [Er Et Hl Hok].
    assert (slot_addr (slot_at i)) as Hd by (exists i; split; [unfold VIRTIO_SLOTS in *; lia|done]).
    rewrite Er, Et in Hok.
    eapply wp_or_mono; [apply (start_net_device_cases (slot_at i) Hd W mac_buf zero_queue zero_queue
      (q_ring rx) (q_buffers rx) (q_ring tx) (q_buffers tx) L (drop 260 L)); [done|done|done|done|exact Hl|exact Hok]| |].
    + intros [] s2 (_ & HI & Ec & Es & Hr). right. exists i. split; [split; [lia|done]|].
      split; [done| |by rewrite Ec|by rewrite Ec|by rewrite Es|done].
      etrans; [exact B2|]. eapply same_on_weaken; [exact Hr|]. intros x Hx. by apply L_keeps.
    + intros s2 ((s0 & _ & s3 & _ & mac & s4 & s5 & _ & _ & Hl5 & Hst) & HI & Ec & Es & _).
      rewrite <- Er, <- Et in Hl5. rewrite <- Er in Hst. destruct B4 as (_ & _ & Hsie).
      split_and!; [done|done|by rewrite Es|by rewrite Ec|by exists s5].
Qed.

Lemma safe_probes i (k : nat) l s Q : 1 <= i → i + k = VIRTIO_SLOTS + 1 →
  (∀ s', probing (VIRTIO_SLOTS + 1) s' → safe l s' Q (no_answer card rx tx (drop 260 L))) →
  probing i s → safe ((probe_slot mac_buf <$> seqZ i k) ++ l) s Q (no_answer card rx tx (drop 260 L)).
Proof.
  revert i s. induction k as [|k IH]; intros i s Hi Hk Hl Hs.
  - apply Hl. by replace (VIRTIO_SLOTS + 1) with i by lia.
  - rewrite seqZ_cons by lia. replace (Z.pred (S k)) with (Z.of_nat k) by lia. revert Hs. cbn [fmap list_fmap app].
    apply safe_or; [apply probing_stable|]. intros s1 Hs1.
    eapply wp_or_mono; [apply probe_next; [lia|done]| |done]. intros [] s2 Hs2.
    apply IH; [lia|lia|done|done].
Qed.

(** [n] pages are in use: [n0], and those of the queues if a card was started. *)
Definition in_use (n0 n : nat) : Prop := n = n0 ∨ card ≠ None ∧ n = (n0 + 260)%nat.

(** From the search for devices on. *)
Lemma safe_devices entryA entryB s Q :
  (2 <= length L)%nat → (card ≠ None → (262 <= length L)%nat) →
  (∀ n a b L' s', in_use 0 n → drop n L = a :: b :: L' →
     boundary m1 stp K L' (task_table a b entryA entryB) (λ _, True) s' → sched_wf (m_sched s') → Q s') →
  boundary m1 stp K L zero_sched (λ n, n = zero_net) s →
  safe (main_devices mac_buf entryA entryB) s Q (no_answer card rx tx (drop 260 L)).
Proof.
  intros Hlen Hcard HQ. unfold main_devices. apply safe_puts; [done|by apply boundary_stable|]. intros s1 Hs1.
  apply (safe_probes 1 8); [done|done| |by left]. clear s1 Hs1. intros s1 Hs1.
  assert (∃ n, in_use 0 n ∧ (n + 2 <= length L)%nat ∧ boundary m1 stp K (drop n L) zero_sched (λ _, True) s1)
    as (n & Hn & Hl & B).
  { destruct Hs1 as [B|(j & [_ Ej] & B)].
    - exists 0%nat. split_and!; [by left|lia|]. by eapply boundary_weaken.
    - assert (card ≠ None) as Hc by (by rewrite Ej). exists 260%nat. split_and!; [by right| |done].
      specialize (Hcard Hc). lia. }
  destruct (drop n L) as [|a [|b L']] eqn:E; [apply (f_equal length) in E; rewrite length_drop in E; simpl in E; lia..|].
  apply (safe_tasks m1 stp K L' a b _ _ (λ _, True)); [done| | |done].
  - intros p Hp. apply L_init. rewrite <- (take_drop n L), E. set_solver.
  - intros s' B' Hwf. by eapply HQ.
Qed.
End devices.

(** ** [main] *)

Section main.
Context `{Platform} {TX : UartTx} `{Code} `{Image} {IO : ImageOk} {BO : BootTableOk}.
Context (card : option Z) {OC : OnlyCard card} (W : Z → Prop) {DW : DmaWithin W} (rx tx : virtio_net_queue).
Implicit Types (s : machine).

(** The bytes of the page tables [t]. *)
Definition table_part (t : gmap path Z) (x : Z) : Prop := ∃ p a, t !! p = Some a ∧ a <= x < a + PAGE_SIZE.

(** Interrupts are on, paging is set up, and of the free pages [L] of [s] the
    first three now hold tables. *)
Record head_done s (L : list Z) s' root k L2 t : Prop := {
  hd_pages : L = root :: k ++ L2 ∧ length k = 2%nat;
  hd_tables : pt_inv (m_ram s') root t;
  hd_apart : ∀ p a, t !! p = Some a → a ∈ L ∧ a ∉ L2;
  hd_heap : heap_inv s' L2;
  hd_map : ∀ va, sv39 (m_ram s') root va = kernel_map va;
  hd_satp : satp_mode (satp (m_csr s')) = 8 ∧ satp_table (satp (m_csr s')) = root;
  hd_vars : m_sched s' = m_sched s ∧ m_net s' = m_net s;
  hd_irq : irq_ready (m_csr s');
  hd_ram : same_on (λ x, ¬ in_pages L x) (m_ram s) (m_ram s');
}.

Lemma wp_main_head s L : heap_inv s L → (3 <= length L)%nat →
  wp main_head s (λ v s', v = true ∧ ∃ root k L2 t, head_done s L s' root k L2 t).
Proof.
  intros HI HL. unfold main_head. apply wp_bind. eapply wp_mono; [by apply wp_mem_init|].
  intros v s1 (-> & root & s0 & L1 & -> & (k & L2 & t & -> & Hk & [[HI1 HP Hsep] Htab] & Hmap & Hm & Ht & Hs & h & r & E1) & h0 & r0 & E0 & Hs0).
  cbn [Z.eqb negb]. assert (m_sched s1 = m_sched s ∧ m_net s1 = m_net s) as [V1 N1] by (by rewrite E1, E0).
  assert (same_on (λ x, ¬ in_pages (root :: k ++ L2) x) (m_ram s) (m_ram s1)) as R1.
  { etrans; [exact Hs0|]. by rewrite E0 in Hs. }
  clear E1 E0 Hs Hs0.
  apply wp_bind, wp_io; [apply does_uart_init|]. intros s2 C2.
  apply wp_bind, wp_io; [by apply does_puts|]. intros s3 C3.
  apply wp_enable_irq. intros s4 S4 I4. apply wp_ret. split; [done|]. exists root, k, L2, t.
  pose proof (same_vars_trans _ _ _ (calm_same _ _ (calm_trans _ _ _ C2 C3)) S4) as (R4 & H4 & N4 & V4 & T4).
  split; rewrite ?R4, ?T4; [done|done| |by apply (heap_inv_ext s1)|done|done|by rewrite V4, N4|done|done].
  intros p a Hp. split; [by eapply Htab|by eapply Hsep].
Qed.

(** What the device tree and the devices need of the state in which [main] is
    called: the blob is not in the heap, a card finds its pages. *)
Record main_fits dtb off items mac_buf (L : list Z) s : Prop := {
  mf_heap : heap_inv s L;
  mf_init : ∀ a, a ∈ L → a ∈ init_pages;
  mf_room : (5 <= length L)%nat;
  mf_vars : m_sched s = zero_sched ∧ m_net s = zero_net;
  mf_blob : blob_at (m_ram s) dtb off items;
  mf_benign : Forall benign items;
  mf_outside : ∀ x, blob_part dtb off items x → ¬ in_pages L x;
  mf_card : card ≠ None → (265 <= length L)%nat ∧ fits W mac_buf rx tx (drop 3 L) (drop 263 L) ∧
    ∀ x, mac_buf <= x < mac_buf + 6 → ¬ in_pages L x;
}.

Section calls.
Context dtb off items mac_buf L s (MF : main_fits dtb off items mac_buf L s).
Context s' root k L2 t (HD : head_done s L s' root k L2 t) (entryA entryB : Z).

Lemma table_in_heap x : table_part t x → in_pages L x.
Proof. intros (p & a & Hp & Hx). exists a. split; [|done]. by apply (hd_apart _ _ _ _ _ _ _ HD p). Qed.

Lemma table_off_stack x : table_part t x → ¬ on_stack x.
Proof.
  intros (a & Ha & Hx)%table_in_heap. apply heap_off_stack. exists a. split; [|done].
  by apply (mf_init _ _ _ _ _ _ MF).
Qed.

Lemma table_not_free x : table_part t x → ¬ in_pages L2 x.
Proof.
  intros (p & a & Hp & Hx) (b & Hb & Hxb). destruct (hd_apart _ _ _ _ _ _ _ HD _ _ Hp) as [_ Hn].
  destruct (pt_page _ _ _ (hd_tables _ _ _ _ _ _ _ HD) _ _ Hp) as [Ha _].
  pose proof (proj1 (Forall_forall _ _) (hi_pages _ _ (hd_heap _ _ _ _ _ _ _ HD)) b Hb) as [Hal _].
  destruct (aligned_apart a b) as [?|?]; [done|done| |lia|lia]. by intros ->.
Qed.

Lemma rest_init a : a ∈ L2 → a ∈ init_pages.
Proof. intros Ha. apply (mf_init _ _ _ _ _ _ MF). destruct (hd_pages _ _ _ _ _ _ _ HD) as [-> _]. set_solver. Qed.

Lemma drop_rest n : drop (3 + n) L = drop n L2.
Proof. destruct (hd_pages _ _ _ _ _ _ _ HD) as [-> Hk]. rewrite <- Hk. simpl. by rewrite drop_app_add. Qed.

(** At the last boundary the kernel is ready. *)
Lemma boundary_ready n a b L' sf : drop n L2 = a :: b :: L' →
  boundary (m_ram s') (satp (m_csr s')) (table_part t) L' (task_table a b entryA entryB) (λ _, True) sf →
  sched_wf (m_sched sf) → kernel_ready (3 + n) L entryA entryB sf.
Proof.
  intros E [B1 B2 B3 B4 B5 _] Hwf. destruct (hd_satp _ _ _ _ _ _ _ HD) as [Hm Ht].
  split; [|done|by rewrite B3| |done].
  - exists (take (3 + n) L), a, b, L'. rewrite <- E, <- drop_rest, take_drop. split_and!; [done| |done|done].
    rewrite <- drop_rest in E. apply (f_equal length) in E. rewrite length_drop in E. simpl in E.
    rewrite length_take. lia.
  - intros va. rewrite B3, Ht, <- (hd_map _ _ _ _ _ _ _ HD).
    apply (sv39_same _ _ _ t); [exact (hd_tables _ _ _ _ _ _ _ HD)|]. intros p c x Hp Hx. apply B2. by exists p, c.
Qed.

Lemma safe_main_devices K s1 (Q : machine → Prop) :
  (∀ x, table_part t x → K x) →
  (∀ n sf, in_use card 3 n → kernel_ready n L entryA entryB sf → Q sf) →
  boundary (m_ram s') (satp (m_csr s')) K L2 zero_sched (λ n, n = zero_net) s1 →
  safe (main_devices mac_buf entryA entryB) s1 Q (no_answer card rx tx (drop 263 L)).
Proof.
  intros HK HQ B. pose proof drop_rest as Hd. destruct MF as [_ _ Hroom _ _ _ _ Hcard].
  destruct (hd_pages _ _ _ _ _ _ _ HD) as [EL Hk]. assert (length L = S (2 + length L2)) as El.
  { rewrite EL. simpl. by rewrite length_app, Hk. }
  rewrite (Hd 260%nat : drop 263 _ = _).
  apply (safe_devices card W (m_ram s') (satp (m_csr s')) (table_part t) mac_buf rx tx L2).
  - exact table_off_stack.
  - exact rest_init.
  - intros Hc. destruct (Hcard Hc) as (_ & Hf & _). by rewrite (Hd 0%nat : drop 3 _ = _), (Hd 260%nat : drop 263 _ = _) in Hf.
  - intros Hc x Hx. split; [by apply table_not_free|]. destruct (decide (mac_buf <= x < mac_buf + 6)) as [Hin|]; [|lia].
    exfalso. destruct (Hcard Hc) as (_ & _ & Hmac). by apply (Hmac x Hin), table_in_heap.
  - lia.
  - intros Hc. destruct (Hcard Hc) as [? _]. lia.
  - intros n a b L' sf Hn E Bf Hwf. apply (HQ (3 + n)%nat).
    + destruct Hn as [->|[? ->]]; [by left|by right].
    + by eapply boundary_ready.
  - by apply (boundary_weaken _ _ K _ (λ n, n = zero_net)).
Qed.

Lemma main_boundary K s1 : s1 = s' →
  boundary (m_ram s') (satp (m_csr s')) K L2 zero_sched (λ n, n = zero_net) s1.
Proof.
  intros ->. destruct HD as [_ _ _ HI _ _ [V N] Hi _], (mf_vars _ _ _ _ _ _ MF) as [V0 N0].
  split; [done|done|done|done|congruence|congruence].
Qed.

Lemma blob_kept : blob_at (m_ram s') dtb off items.
Proof. eapply blob_at_same; [exact (hd_ram _ _ _ _ _ _ _ HD)|apply MF|apply MF]. Qed.

(** All calls, whatever interrupts come. *)
Lemma safe_main_calls (Q : machine → Prop) :
  (∀ x, blob_part dtb off items x → ¬ on_stack x) →
  (∀ n sf, in_use card 3 n → kernel_ready n L entryA entryB sf → Q sf) →
  safe (main_calls dtb mac_buf entryA entryB) s' Q (no_answer card rx tx (drop 263 L)).
Proof.
  intros Hb HQ. unfold main_calls. set (K x := table_part t x ∨ blob_part dtb off items x).
  apply (safe_call (boundary (m_ram s') (satp (m_csr s')) K L2 zero_sched (λ n, n = zero_net)));
    [|intros s1 B|by apply main_boundary].
  - apply boundary_stable; [|exact rest_init|done]. intros x [Hx|Hx]; [by apply table_off_stack|by apply Hb].
  - eexists _, _. split.
    + apply (traverse_returns s1 dtb off items); [|apply MF].
      eapply blob_at_same; [exact (bd_ram _ _ _ _ _ _ _ B)|by right|exact blob_kept].
    + eapply (safe_main_devices K); [by left|done|done].
Qed.

(** The same without interrupts, and without a condition on the stack. *)
Lemma main_calls_cases (Q : machine → Prop) :
  (∀ n sf, in_use card 3 n → kernel_ready n L entryA entryB sf → Q sf) →
  wp_or (run_calls (main_calls dtb mac_buf entryA entryB)) s' (λ _, Q) (no_answer card rx tx (drop 263 L)).
Proof.
  intros HQ. apply wp_or_step. eexists _, _. split; [apply (traverse_returns s' dtb off items); [exact blob_kept|apply MF]|].
  apply safe_run, (safe_main_devices (table_part t)); [done|done|by apply main_boundary].
Qed.
End calls.

Lemma main_cases dtb off items mac_buf entryA entryB s L : main_fits dtb off items mac_buf L s →
  wp_or (main dtb mac_buf entryA entryB) s
    (λ v s', v = true ∧ ∃ n, in_use card 3 n ∧ kernel_ready n L entryA entryB s') (no_answer card rx tx (drop 263 L)).
Proof.
  intros MF. unfold wp_or, wp, stops. rewrite main_split. apply wp_or_step.
  eapply wp_mono; [apply (wp_main_head s L); [apply MF|pose proof (mf_room _ _ _ _ _ _ MF); lia]|].
  intros v s' (-> & root & k & L2 & t & HD). apply wp_or_bind.
  eapply wp_or_mono; [eapply (main_calls_cases _ _ _ _ _ _ MF _ _ _ _ _ HD _ _ (λ sf, ∃ n, in_use card 3 n ∧ kernel_ready n L entryA entryB sf))| |done].
  - intros n sf Hn Hr. by exists n.
  - intros [] sf HQ. left. by apply wp_ret.
Qed.
End main.

(** ** The tasks *)

Section tasks.
Context `{Platform} {TX : UartTx} `{CodeRet}.
Implicit Types (s : machine).

(** The code at the two entry addresses. *)
Definition task_code (entryA e : Z) : M unit := if decide (e = entryA) then taskA else taskB.
Definition task_out (entryA e : Z) : list Z :=
  concat (task_line (if decide (e = entryA) then "A" else "B") <$> [0; 1; 2; 3; 4]).

Lemma task_code_says entryA e r : says r (task_code entryA e) (task_out entryA e).
Proof. unfold task_code, task_out. case_decide; by apply says_task. Qed.

(** All the kernel prints after [main] has called [scheduler]. *)
Definition kernel_says : list Z :=
  concat (task_line "A" <$> [0; 1; 2; 3; 4]) ++ chars ("Process 'taskA' finished execution. Exiting..." ++ nl) ++
  concat (task_line "B" <$> [0; 1; 2; 3; 4]) ++ chars ("Process 'taskB' finished execution. Exiting..." ++ nl) ++
  chars ("scheduler: no active processes remaining. Exiting scheduler." ++ nl) ++
  chars ("End of main." ++ nl).

Lemma tasks_say a b entryA entryB : entryA ≠ entryB →
  concat (proc_output (task_out entryA) <$> procs (task_table a b entryA entryB)) ++
    chars ("scheduler: no active processes remaining. Exiting scheduler." +:+ nl) ++ chars ("End of main." ++ nl) =
  kernel_says.
Proof.
  intros Hne. assert (procs (task_table a b entryA entryB) =
    task_proc 0 a entryA "taskA" :: task_proc 1 b entryB "taskB" :: replicate 14 zero_proc) as -> by done.
  cbn [fmap list_fmap concat]. fold (proc_output (task_out entryA) <$> replicate 14 zero_proc).
  assert (concat (proc_output (task_out entryA) <$> replicate 14 zero_proc) = []) as Hz by done.
  cbn [fmap] in Hz |- *. unfold kernel_says. rewrite Hz.
  assert (∀ i st e nm, proc_output (task_out entryA) (task_proc i st e nm) =
    task_out entryA e ++ farewell (task_proc i st e nm)) as Ho by done.
  rewrite !Ho. unfold task_out. cbn [p_entry task_proc new_proc]. rewrite decide_True, decide_False by done.
  change (farewell (task_proc 0 a entryA "taskA")) with (chars ("Process 'taskA' finished execution. Exiting..." ++ nl)).
  change (farewell (task_proc 1 b entryB "taskB")) with (chars ("Process 'taskB' finished execution. Exiting..." ++ nl)).
  by rewrite app_nil_r, <- !app_assoc.
Qed.

(** When nothing interrupts the tasks, each runs to its end, and so does [main]. *)
Lemma tasks_run a b entryA entryB s h :
  m_sched s = task_table a b entryA entryB → sched_wf (task_table a b entryA entryB) →
  entryA ≠ 0 → entryB ≠ 0 → entryA ≠ entryB →
  ∃ y s', rtc (solo (task_code entryA)) (start s h) y ∧ y_pc y = PExited ∧
    main_end (y_m y) = Ok tt s' ∧ outputs s s' kernel_says.
Proof.
  intros V Hwf HA HB HAB.
  destruct (solo_run (task_code entryA) (task_out entryA) (task_code_says entryA) s h) as (y & Hrun & Hpc & Ho).
  { by rewrite V. }
  { intros j p Hp. unfold slot in Hp. rewrite V in Hp. pose proof (wf_name _ Hwf _ _ Hp) as Hn.
    destruct j as [|[|j]]; [right; injection Hp as <-; by split..|left].
    by apply (lookup_replicate_1 14) in Hp as [-> _]. }
  assert (wp main_end (y_m y) (λ _ s', prints (y_m y) s' (chars ("End of main." ++ nl)))) as ([] & s' & E & P)
    by (by apply wp_puts_lit).
  exists y, s'. split_and!; [done..|]. rewrite <- (tasks_say a b entryA entryB), app_assoc by done.
  eapply outputs_trans; [|by apply outputs_prints]. by rewrite <- V.
Qed.
End tasks.

(** ** [_start] *)

Section start.
Context `{Platform} {TX : UartTx} (card : option Z) {OC : OnlyCard card} (W : Z → Prop) {DW : DmaWithin W}.
Context `{Image} {IO : ImageOk} {BO : BootTableOk}.
Implicit Types (s : machine).

(** The end of [.bss], as [_start] addresses it. *)
Definition _ebss : Z := virt_to_phys __heap_start.

(** All [_start] writes to memory. *)
Definition boot_writes (_sbss x : Z) : Prop := _sbss <= x < _ebss + 8 ∨ in_pages init_pages x.

Lemma ebss_room : (0 < length init_pages)%nat → _ebss + 8 <= RAM_END.
Proof.
  unfold init_pages. rewrite length_pages. intros Hn. destruct init_between. pose proof image_stack.
  unfold _ebss. rewrite PAGE_SIZE_eq in Hn. dlia.
Qed.

Lemma byte_at_clear a r x : a <= x < a + 8 → byte_at (ram_store 8 a 0 r) x = 0.
Proof.
  intros Hx. rewrite ram_store_write. replace x with (a + Z.to_nat (x - a)) by lia.
  change (le_bytes 8 0) with (replicate 8 0). rewrite (byte_at_write_in _ _ _ _ 0); [done|].
  apply lookup_replicate_2. lia.
Qed.

Lemma wp_clear_bss _sbss s (Q : unit → machine → Prop) :
  RAM_BASE <= _sbss <= _ebss → _ebss + 8 <= RAM_END →
  (∀ s', (∀ x, _sbss <= x < _ebss → byte_at (m_ram s') x = 0) →
     same_on (λ x, ¬ (_sbss <= x < _ebss + 8)) (m_ram s) (m_ram s') →
     m_sched s' = zero_sched → m_net s' = zero_net → Q tt s') →
  wp (clear_bss _sbss _ebss) s Q.
Proof.
  intros Hlo Hhi HQ. unfold clear_bss, clear_words, zero_vars. apply wp_bind. set (n := Z.to_nat _).
  apply (wp_for (λ j s', (∀ x, _sbss <= x < _sbss + 8 * j → byte_at (m_ram s') x = 0) ∧
    same_on (λ x, ¬ (_sbss <= x < _ebss + 8)) (m_ram s) (m_ram s'))).
  - split; [intros; lia|done].
  - intros j s' Hj [Hz Hs]. apply wp_store; [apply in_ram_true; unfold n in *; dlia|]. simpl. split.
    + intros x Hx. destruct (decide (_sbss + 8 * j <= x)); [apply byte_at_clear; lia|].
      rewrite byte_at_store_out by lia. apply Hz. lia.
    + intros x Hx. rewrite byte_at_store_out by (unfold n in *; dlia). by apply Hs.
  - intros s' [Hz Hs]. apply wp_bind, wp_modify, wp_bind, wp_modify, wp_modify. apply HQ; simpl; [|done..].
    intros x Hx. apply Hz. unfold n. dlia.
Qed.

(** Where the queues of a card come to lie: behind the five page tables. *)
Definition net_start : Z := init_heap_start + PAGE_SIZE * 5.
Definition boot_rx : virtio_net_queue := fresh_queue net_start (net_start + PAGE_SIZE * 2) zero_queue.
Definition boot_tx : virtio_net_queue :=
  fresh_queue (net_start + PAGE_SIZE * 130) (net_start + PAGE_SIZE * 132) zero_queue.

(** The network card, if there is one, finds a heap that is large enough and writes
    only what its queues allow it to; the local array for its MAC address is not
    part of the heap.  Whether it returns buffers is left open. *)
Record boot_card (mac_buf : Z) : Prop := {
  bc_room : (267 <= length init_pages)%nat;
  bc_mac : in_ram mac_buf 6 = true;
  bc_apart : ∀ x, mac_buf <= x < mac_buf + 6 → ¬ in_pages init_pages x;
  bc_dma : ∀ x, W x → device_part boot_rx x ∨ device_part boot_tx x;
}.

Lemma in_pages_drop n L x : in_pages (drop n L) x → in_pages L x.
Proof. intros (a & Ha & Hx). exists a. split; [|done]. rewrite <- (take_drop n L). set_solver. Qed.

Lemma boot_card_fits mac_buf : boot_card mac_buf →
  fits W mac_buf boot_rx boot_tx (drop 5 init_pages) (drop 265 init_pages).
Proof.
  intros [Hroom Hmac Hout Hdma]. set (m := (length init_pages - 265)%nat).
  assert (init_pages = pages init_heap_start (5 + (260 + m))) as E.
  { unfold m. revert Hroom. unfold init_pages. rewrite length_pages. intros Hr. f_equal. lia. }
  assert (drop 5 init_pages = pages net_start (260 + m)) as E5.
  { rewrite E, pages_app. apply drop_app_length'. by rewrite length_pages. }
  assert (drop 265 init_pages = pages (net_start + PAGE_SIZE * 260) m) as E265.
  { change 265%nat with (5 + 260)%nat. rewrite <- drop_drop, E5, pages_app. apply drop_app_length'. by rewrite length_pages. }
  split; [done|done| |].
  - rewrite E5, E265. apply net_layout_pages.
  - split; [done|done|]. intros x Hx Hin. apply (Hout x Hx). by eapply in_pages_drop.
Qed.

(** What the boot asks of its surroundings: a blob outside all it writes, at least
    seven pages for the heap, and no network card or one that keeps to its queues. *)
Record boot_ok _sbss dtb off items mac_buf s : Prop := {
  bo_bss : RAM_BASE <= _sbss <= boot_page_table;
  bo_room : (7 <= length init_pages)%nat;
  bo_blob : blob_at (m_ram s) dtb off items;
  bo_benign : Forall benign items;
  bo_outside : ∀ x, blob_part dtb off items x → ¬ boot_writes _sbss x;
  bo_card : card ≠ None → boot_card mac_buf;
}.

(** Everything before [main], which finds what it needs. *)
Lemma start_with_cases {A} (m : M A) _sbss dtb off items mac_buf s (Q : A → machine → Prop) (R : machine → Prop) :
  boot_ok _sbss dtb off items mac_buf s →
  (∀ k L s1, init_pages = k ++ L → length k = 2%nat →
     main_fits card W boot_rx boot_tx dtb off items mac_buf L s1 → wp_or m s1 Q R) →
  wp_or (start_with _sbss m) s Q R.
Proof.
  intros [Hbss Hlen Hblob Hben Hout Hcard] HQ. unfold start_with. apply wp_or_step. fold _ebss.
  destruct boot_below as [_ Hboot]. fold _ebss in Hboot. rewrite PAGE_SIZE_eq in Hboot.
  apply wp_clear_bss; [lia|apply ebss_room; lia|]. intros s1 Hz Hs1 V1 N1.
  apply wp_or_step. eapply wp_mono; [apply wp_relocate_kernel; [|lia]|].
  { intros x Hx. apply Hz. rewrite PAGE_SIZE_eq in Hx. lia. }
  intros [] s2 (k & L & t & EL & Hk & [[HI _ _] _] & _ & _ & _ & Hs2 & h & r & E2).
  assert (∀ n, drop (2 + n) init_pages = drop n L) as Hdrop by (intros n; by rewrite EL, <- Hk, drop_app_add).
  assert (∀ x, in_pages L x → in_pages init_pages x) as Hsub by (intros x Hx; by apply (in_pages_drop 2); rewrite (Hdrop 0%nat : drop 2 _ = _)).
  assert (length L = length init_pages - 2)%nat as HL by (rewrite EL, length_app; lia).
  apply wp_or_step, wp_modify, (HQ k L); [done|done|]. split.
  - by apply (heap_inv_ext s2).
  - intros a Ha. rewrite EL. set_solver.
  - lia.
  - simpl. by rewrite E2.
  - eapply blob_at_same; [exact Hs2| |eapply blob_at_same; [exact Hs1| |exact Hblob]];
      intros x Hx%Hout Hin; apply Hx; [|by left].
    destruct Hin as (a & [->|Ha]%elem_of_cons & Hxa); [left; rewrite PAGE_SIZE_eq in Hxa; lia|right; by exists a].
  - done.
  - intros x Hx Hin. apply (Hout x Hx). right. by apply Hsub.
  - intros Hc. pose proof (Hcard Hc) as Hbc. split_and!; [pose proof (bc_room _ Hbc); lia| |].
    + rewrite <- (Hdrop 3%nat), <- (Hdrop 263%nat). by apply boot_card_fits.
    + intros x Hx Hin. by apply (bc_apart _ Hbc x Hx), Hsub.
Qed.

(** The kernel is up: everything is in place for the scheduler; control stays in
    the code from there in all runs in which no interrupt comes where the code is
    not prepared for it ([orderly_run]), and these are all runs but those that go
    on after such an interrupt ([raced]); and if the tasks are left alone they run
    one after the other, the scheduler exits and [main] ends. *)
Definition kernel_up `{CodeRet} (entryA entryB : Z) s : Prop :=
  (∃ n, in_use card 5 n ∧ kernel_ready n init_pages entryA entryB s) ∧
  (∀ y, (orderly_run s y → ∀ a, y_pc y ≠ PWild a) ∧ (reachable s y → orderly_run s y ∨ raced s y)) ∧
  (entryA ≠ 0 → entryB ≠ 0 → entryA ≠ entryB → ∀ h, ∃ y s',
     rtc (solo (task_code entryA)) (start s h) y ∧ y_pc y = PExited ∧
     main_end (y_m y) = Ok tt s' ∧ outputs s s' kernel_says).

(** The kernel waits for its card: the driver polls the receive queue, and the card
    returns nothing until the bound is used up. *)
Definition card_silent : machine → Prop := no_answer card boot_rx boot_tx (drop 265 init_pages).

Lemma ready_up `{CodeRet} k L n entryA entryB s : init_pages = k ++ L → length k = 2%nat →
  in_use card 3 n → kernel_ready n L entryA entryB s → kernel_up entryA entryB s.
Proof.
  intros EL Hk Hn [(k' & a & b & L' & E & Hk' & HI' & V') Hwf Hm Hmap Hi]. split.
  - exists (2 + n)%nat. split; [destruct Hn as [->|[? ->]]; [by left|by right]|].
    split; [|done..]. exists (k ++ k'), a, b, L'.
    split_and!; [by rewrite EL, E, <- app_assoc|rewrite length_app; lia|done|done].
  - rewrite V' in Hwf. split.
    + intros y. split; [|apply reachable_cases]. intros Hr c Hy.
      assert (fresh_table (m_sched s)) as Hf by (rewrite V'; by apply tasks_fresh).
      pose proof (si_pc _ (run_inv _ _ Hf Hr)) as Hpc. unfold pc_ok in Hpc. by rewrite Hy in Hpc.
    + intros HA HB HAB h. by apply (tasks_run a b entryA entryB).
Qed.

Lemma rest_silent k L : init_pages = k ++ L → length k = 2%nat →
  no_answer card boot_rx boot_tx (drop 263 L) = card_silent.
Proof. intros EL Hk. unfold card_silent. f_equal. by rewrite EL, <- (drop_app_add k L 263), Hk. Qed.

(** C5: the kernel boots. Let [_start] be entered with a device tree blob that
    lies outside [.bss] and the heap and whose property values do not continue one
    of the two names the callback knows, with at least seven pages for the heap,
    and with no network card or one that writes only into its queues. Then
    [_start] reaches the scheduler, whatever else is in memory; with a card there
    is one other outcome, in which the card was started but returns no buffer for
    as long as the fuel of the model lasts, and the driver does nothing but poll
    it (a card that respects the flags of the descriptors forces it,
    [split_card_hangs]). When the scheduler is reached, the allocator is sound and
    has given away exactly the pages of five page tables, of the 260 pages of the
    queues if a card was found, and of two stacks; paging is on with the kernel's
    address space, traps go to [trap_vector] with the timer enabled, the process
    table holds [taskA] and [taskB] ready to run, each with its own stack. From
    there, whatever the tasks do that leaves the variables of the scheduler, the
    control registers and the frames of trap.S alone, control stays in the code as
    long as the timer does not interrupt [scheduler] between process.c:100 and the
    end of the [swtch] on line 103, nor a [yield] between lines 136 and 138
    ([scheduler_race] and [lost_yielder] are what happens otherwise); and when
    nothing interrupts the tasks, task A prints its five lines and ends, then task
    B does, the scheduler finds no process left and exits, and [main] ends with
    its last line. *)
Theorem kernel_boots `{CodeRet} _sbss dtb off items mac_buf entryA entryB s :
  boot_ok _sbss dtb off items mac_buf s →
  wp_or (_start _sbss dtb mac_buf entryA entryB) s (λ v s', v = true ∧ kernel_up entryA entryB s') card_silent.
Proof.
  intros Hok. eapply (start_with_cases (main _ _ _ _)); [exact Hok|]. intros k L s1 EL Hk MF.
  rewrite <- (rest_silent k L) by done. eapply wp_or_mono; [by eapply main_cases| |done].
  intros v s' (-> & n & Hn & Hr). split; [done|]. by eapply ready_up.
Qed.

(** C6: interrupts during the boot do no harm.  [main] is what it does until
    interrupts are on, followed by its calls, each slot of
    [virt_find_all_devices] a call of its own.  From the moment interrupts are on,
    let the hardware interrupt between any two calls, as often as it likes, by the
    timer, a device or software, wherever on the kernel's stack the frame comes to
    lie: every run of the instructions of trap.S goes back to where it came from
    with all registers as they were, and from every point that can be reached so
    the remaining calls return and leave a kernel that is up ([kernel_up]), the
    same as without interrupts; only a network card that does not return a buffer
    keeps a call from returning ([card_silent]). *)
Theorem kernel_boots_interrupted `{CodeRet} _sbss dtb off items mac_buf entryA entryB s :
  boot_ok _sbss dtb off items mac_buf s → (∀ x, blob_part dtb off items x → ¬ on_stack x) →
  (∀ s1, _start _sbss dtb mac_buf entryA entryB s1 =
     start_with _sbss (b <- main_head;
       if b then run_calls (main_calls dtb mac_buf entryA entryB) ;; ret true else ret false) s1) ∧
  wp (start_with _sbss main_head) s (λ v s', v = true ∧
    safe (main_calls dtb mac_buf entryA entryB) s' (kernel_up entryA entryB) card_silent).
Proof.
  intros Hok Hst. split.
  - intros s1. unfold _start, start_with. follow. apply main_split.
  - apply (wp_or_wp _ _ _ (λ _, False)); [|tauto]. eapply start_with_cases; [exact Hok|]. intros k L s1 EL Hk MF. left.
    eapply wp_mono; [apply (wp_main_head s1 L); [apply MF|pose proof (mf_room _ _ _ _ _ _ _ _ _ _ MF); lia]|].
    intros v s' (-> & root & k' & L2 & t & HD). split; [done|]. rewrite <- (rest_silent k L) by done.
    eapply safe_main_calls; [done|done|exact MF|exact HD|done|].
    intros n sf Hn Hr. by eapply ready_up.
Qed.
End start.
