(* ===== verification/Start.v ===== *)
(** * Start.S: the first instructions

    The instructions from the entry point to the call of [main].  Main.v gives
    the boot as a C-like function [_start]; [start_refines] says that the
    assembly is that function, and what the machine-mode registers hold when the
    kernel enters supervisor mode. *)

From S2P Require Import Prelude Globals Machine Utils Uart Heap HeapSpec Paging PagingSpec KernelMap.
From S2P Require Import Packet Virtio VirtioSpec Dtb DtbSpec Process Trap Asm Sched Main Boot.

(** Symbols of the assembly files and of linker.ld. *)
Class StartSyms := {
  __stack_top : Z;
  _dtb_addr : Z;
  _sbss : Z;
  kernel_entry : Z;
  mtrap_vector : Z;
  m_stack_top : Z;
}.

Section start.
Context `{Platform} `{StartSyms} `{Image} `{Code}.
Implicit Types (h : hart) (s : machine) (clob : reg → Z).

(** ** The code *)

Definition start_entry : list instr :=
  [La Sp __stack_top;
   La T0 _dtb_addr; Sd A1 0 T0;
   La T0 _sbss; La T1 _ebss].

Definition start_clear : list instr :=
  [Bgeu T0 T1 "2"; Sd Zero 0 T0; Addi T0 T0 8; J "1"].

Definition start_modes : list instr :=
  [CsrW Mie Zero;
   La T0 mtrap_vector; CsrW (MCsr Mtvec) T0;
   La T0 m_stack_top; CsrW (MCsr Mscratch) T0;
   Li T0 (-1); CsrW (MCsr Mcounteren) T0;
   Li T0 (-1); CsrW (MCsr Pmpaddr0) T0; Li T1 0x8f; CsrW (MCsr Pmpcfg0) T1;
   Li T0 0xfdff; CsrW (MCsr Medeleg) T0;
   Li T0 0x222; CsrW (MCsr Mideleg) T0;
   Li T0 (3 << 11); CsrC (MCsr Mstatus) T0;
   Li T0 (1 << 11); CsrS (MCsr Mstatus) T0;
   La T0 kernel_entry; CsrW (MCsr Mepc) T0;
   Mret].

Definition start_S : code :=
  [("_start", start_entry);
   ("1", start_clear);
   ("2", Call "relocate_kernel" :: start_modes);
   ("kernel_entry", [La Sp __stack_top; Call "main"]);
   ("3", [J "3"])].

(** The C functions it calls.  When C code runs for the first time, its static
    variables are what [.bss] holds. *)
Definition start_calls clob (main : hart → M hart) (f : String.string) (h : hart) : M hart :=
  if decide (f = "relocate_kernel") then c_call (λ _, zero_vars ;; relocate_kernel) clob h
  else if decide (f = "main") then main h
  else halt Undefined.

(** From a label on. *)
Definition at_entry : list instr := [La Sp __stack_top; Call "main"; J "3"].
Definition at_2 : list instr := Call "relocate_kernel" :: start_modes ++ at_entry.
Definition at_1 : list instr := start_clear ++ at_2.

Lemma start_labels :
  code_from "_start" start_S = Some (start_entry ++ at_1) ∧ code_from "1" start_S = Some at_1 ∧
  code_from "2" start_S = Some at_2 ∧ code_from "kernel_entry" start_S = Some at_entry ∧
  code_from "3" start_S = Some [J "3"].
Proof. done. Qed.

(** ** The loop over .bss *)

Context (calls : String.string → hart → M hart).
Context (bss_low : RAM_BASE <= _sbss) (bss_high : _sbss <= _ebss) (bss_room : _ebss + 8 <= RAM_END).

Definition bss_words : nat := Z.to_nat ((_ebss - _sbss + 7) / 8).

Lemma wp_clear_asm k i n h s (Q : hart * exit → machine → Prop) :
  (i + k)%nat = bss_words → get_reg h T0 = _sbss + 8 * i → get_reg h T1 = _ebss →
  (∀ h' s', for_from i k (λ i, store 8 (_sbss + 8 * i) 0) s = Ok tt s' → h_csr h' = h_csr h →
     wp (asm_run calls n start_S at_2 h') s' Q) →
  wp (asm_run calls (k + S n) start_S at_1 h) s Q.
Proof.
  pose proof start_labels as (_ & E1 & E2 & _). unfold RAM_BASE, RAM_END in *.
  revert i h s. induction k as [|k IH]; intros i h s Hk Ht0 Ht1 HQ.
  - apply wp_asm_goto, wp_block_cons. cbn [exec]. unfold branch. apply wp_ret. rewrite Ht0, Ht1.
    rewrite (proj2 (Z.leb_le _ _)) by (unfold bss_words in *; dlia). eexists _, _, _. split; [done|]. split; [exact E2|].
    by apply HQ.
  - change (S k + S n)%nat with (S (k + S n)). apply wp_asm_goto, wp_block_cons. cbn [exec]. unfold branch. apply wp_ret.
    assert (_sbss + 8 * i < _ebss) as Hlt by (unfold bss_words in *; dlia).
    assert (in_ram (_sbss + 8 * i) 8 = true) as Hin by (apply in_ram_true; unfold RAM_BASE, RAM_END; lia).
    rewrite Ht0, Ht1, (proj2 (Z.leb_gt _ _)) by done.
    apply wp_block_cons, wp_bind. rewrite Ht0, Z.add_0_r, (u64_small (_sbss + 8 * i)) by lia.
    apply wp_asm_store; [done|]. apply wp_ret, wp_block_cons, wp_ret, wp_block_cons, wp_ret.
    eexists _, _, _. split; [done|]. split; [exact E1|]. apply (IH (S i)); [lia| |by regs|].
    + regs. rewrite Ht0, u64_small; lia.
    + intros h' s' E Hc. apply HQ; [|by rewrite Hc; regs]. cbn [for_from].
      unfold bind, store at 1. rewrite Hin. replace (i + 1) with (Z.of_nat (S i)) by lia. exact E.
Qed.

(** ** The modes *)

(** What the machine-mode registers hold when the kernel enters supervisor mode:
    traps to machine mode go to [mtrap_vector] with its stack in [mscratch], and
    all others, but environment calls from supervisor mode, are delegated. *)
Record modes_set h : Prop := {
  ms_mtvec : h_csr h Mtvec = mtrap_vector;
  ms_mscratch : h_csr h Mscratch = m_stack_top;
  ms_medeleg : ∀ i, 0 <= i < 16 → Z.testbit (h_csr h Medeleg) i = negb (i =? EXC_ENV_CALL_S);
  ms_mideleg : ∀ i, 0 <= i → Z.testbit (h_csr h Mideleg) i = bool_decide (i ∈ [IRQ_S_SOFT; IRQ_S_TIMER; IRQ_S_EXT]);
  ms_counter : h_csr h Mcounteren = 2 ^ 64 - 1;
  ms_pmp : h_csr h Pmpaddr0 = 2 ^ 64 - 1 ∧ h_csr h Pmpcfg0 = 0x8f;
}.

Lemma mpp_supervisor st : mstatus_mpp (st & Z.lnot (3 << 11) .| (1 << 11)) = 1.
Proof.
  unfold mstatus_mpp. bitwise i. rewrite Z.lnot_spec by lia.
  destruct (decide (i = 0)) as [->|]; [by rewrite andb_false_r|].
  destruct (decide (i = 1)) as [->|]; [by rewrite andb_false_r|].
  rewrite (testbit_high 2 3) by lia. rewrite andb_false_r. symmetry. apply (testbit_high 1 1); lia.
Qed.
(** Symbols are 64-bit addresses. *)
Record syms_ok : Prop := {
  so_mtvec : 0 <= mtrap_vector < 2 ^ 64;
  so_stack : 0 <= m_stack_top < 2 ^ 64;
  so_entry : 0 <= kernel_entry < 2 ^ 64;
  so_dtb : in_ram _dtb_addr 8 = true;
}.

Ltac csr_step := first
  [ apply wp_block_cons, wp_ret
  | apply wp_block_cons, wp_bind, wp_ret, wp_ret
  | apply wp_block_cons, wp_bind, wp_ret, wp_bind, wp_ret, wp_ret ].

Lemma wp_start_modes ins h s (Q : hart * next → machine → Prop) :
  syms_ok →
  (∀ h', modes_set h' → Q (h', Leave (Mreturned 1 kernel_entry)) (set_csr (with_mie 0 (m_csr s)) s)) →
  wp (run_block calls (start_modes ++ ins) h) s Q.
Proof.
  intros [Hm Hst He _] HQ. unfold start_modes. cbn [app].
  apply wp_block_cons, wp_bind, wp_bind, wp_modify, wp_ret, wp_ret. do 20 csr_step.
  apply wp_block_cons. cbn [exec]. apply wp_ret. regs. rewrite !(u64_small kernel_entry) by done.
  change (u64 (3 << 11)) with (3 << 11). change (u64 (1 << 11)) with (1 << 11). rewrite mpp_supervisor.
  apply HQ. split; regs; try done.
  - by apply u64_small.
  - by apply u64_small.
  - intros i Hi. change (u64 0xfdff) with 0xfdff. unfold EXC_ENV_CALL_S.
    assert (i ∈ seqZ 0 16) as Hin by (apply elem_of_seqZ; lia). clear Hi. revert i Hin. apply Forall_forall.
    by repeat constructor.
  - intros i Hi. change (u64 0x222) with 0x222. destruct (decide (i < 10)).
    + assert (i ∈ seqZ 0 10) as Hin by (apply elem_of_seqZ; lia). clear Hi l. revert i Hin. apply Forall_forall.
      by repeat constructor.
    + rewrite (testbit_high 10) by lia. rewrite bool_decide_false; [done|].
      rewrite !elem_of_cons, elem_of_nil. unfold IRQ_S_SOFT, IRQ_S_TIMER, IRQ_S_EXT. lia.
Qed.
End start.

(** ** The boot *)

Section boot.
Context `{Platform} `{StartSyms} `{Image} {IO : ImageOk} {BO : BootTableOk} `{Code}.
Implicit Types (h : hart) (s : machine) (clob : reg → Z).

Lemma start_loop_end calls n h s : asm_run calls n start_S [J "3"] h s = Stop OutOfFuel s.
Proof. induction n as [|n IH]; [done|]. exact IH. Qed.

(** The machine after the address of the device tree was stored. *)
Definition dtb_stored h s : machine := set_ram (ram_store 8 _dtb_addr (get_reg h A1) (m_ram s)) s.

(** C7: the assembly at the entry point is the function [_start] of Main.v.
    Entered in machine mode with the address of the device tree in a1 and a heap
    of at least two pages, it stores that address, clears [.bss] word by word,
    relocates the kernel and enters supervisor mode at [kernel_entry] in the state
    in which [_start] calls [main], with the address of the device tree still in
    [_dtb_addr], paging on, machine interrupts off, traps to machine mode going to
    [mtrap_vector] on its own stack, and all other traps but environment calls
    delegated.  There [main] is called at the top of the stack, and when it
    returns nothing happens any more. *)
Theorem start_refines n clob main_call h s mac_buf taskA taskB :
  syms_ok → hart_ok h → (bss_words <= n)%nat →
  RAM_BASE <= _sbss <= boot_page_table → (2 <= length init_pages)%nat →
  (∀ x, _dtb_addr <= x < _dtb_addr + 8 → ¬ boot_writes _sbss x) →
  wp (asm_enter (start_calls clob main_call) (S n) start_S "_start" h) s (λ '(h1, e) s1,
    e = Mreturned 1 kernel_entry ∧ modes_set h1 ∧ mie (m_csr s1) = 0 ∧
    _start _sbss (get_reg h A1) mac_buf taskA taskB (dtb_stored h s) =
      main (get_reg h A1) mac_buf taskA taskB s1 ∧
    ram_load 8 _dtb_addr (m_ram s1) = get_reg h A1 ∧
    (∀ va, sv39 (m_ram s1) (satp_table (satp (m_csr s1))) va = kernel_map va) ∧ satp_mode (satp (m_csr s1)) = 8) ∧
  ∀ n' h1 s1, let r := main_call (set_reg Sp __stack_top h1) s1 in
    asm_enter (start_calls clob main_call) (S n') start_S "kernel_entry" h1 s1 =
      match r with Ok _ s2 => Stop OutOfFuel s2 | Stop e s2 => Stop e s2 end.
Proof.
  intros Hsy Hh Hn Hbss Hlen Hdtb. pose proof start_labels as (Es & E1 & E2 & Ek & E3). split.
  - unfold asm_enter. rewrite Es. destruct boot_below as [_ Hboot]. fold _ebss in Hboot. rewrite PAGE_SIZE_eq in Hboot.
    pose proof (ebss_room ltac:(lia)) as Hroom. destruct (wp_clear_bss _sbss (dtb_stored h s) (λ _ s', (∀ x, _sbss <= x < _ebss → byte_at (m_ram s') x = 0) ∧
      same_on (λ x, ¬ (_sbss <= x < _ebss + 8)) (m_ram (dtb_stored h s)) (m_ram s'))) as ([] & s1 & Ebss & Hz & Hs1);
      [lia|done|auto|].
    destruct (wp_relocate_kernel s1) as ([] & s2 & Erel & k & L & t & EL & Hk & _ & Hmap & Hmode & Htab & Hs2 & h2 & r2 & E2').
    { intros x Hx. apply Hz. rewrite PAGE_SIZE_eq in Hx. lia. }
    { done. }
    pose proof Hsy as [_ _ _ Hd]. unfold clear_bss, bind in Ebss.
    destruct (clear_words _sbss _ebss (dtb_stored h s)) as [[] sw|] eqn:Ew; [|done].
    apply wp_asm_prefix. apply wp_block_cons, wp_ret, wp_block_cons, wp_ret, wp_block_cons, wp_bind.
    regs. rewrite Z.add_0_r. pose proof (proj1 (in_ram_spec _ _) Hd) as Hd'. unfold RAM_BASE, RAM_END in Hd'.
    rewrite !(u64_small _dtb_addr) by (rewrite ?u64_small; lia). apply wp_asm_store; [done|]. apply wp_ret.
    apply wp_block_cons, wp_ret, wp_block_cons, wp_ret, wp_ret. eexists. split; [done|].
    destruct (Nat.le_exists_sub _ _ Hn) as (m & -> & _). rewrite Nat.add_comm. replace (S (bss_words + m)) with (bss_words + S m)%nat by lia.
    change (set_ram _ s) with (dtb_stored h s).
    assert (RAM_BASE <= _sbss ∧ _sbss <= _ebss ∧ _ebss + 8 <= RAM_END) as (B1 & B2 & B3) by lia.
    apply (wp_clear_asm _ B1 B2 B3 bss_words 0);
      [done|regs; rewrite u64_small; unfold RAM_BASE, RAM_END in *; lia|regs; rewrite u64_small; unfold RAM_BASE, RAM_END in *; lia|].
    intros h3 sw' Ew' Hc3.
    assert (sw' = sw) as -> by (change (clear_words _sbss _ebss (dtb_stored h s) = Ok tt sw') in Ew'; congruence).
    apply wp_asm_leave, wp_block_cons. unfold exec. apply wp_bind. unfold start_calls at 1. rewrite decide_True by done.
    apply wp_c_call, wp_bind. eexists _, _. split; [exact Ebss|]. eexists _, _. split; [exact Erel|].
    intros h4 _ _. apply wp_ret, wp_start_modes; [done|]. intros h5 Hm5. eexists _, _. split; [done|].
    split_and!; [done|done|done| | |by simpl; rewrite Htab|done].
    + unfold _start, clear_bss. fold _ebss. unfold bind. by rewrite Ew, Ebss, Erel.
    + cbn [m_ram set_csr].
      rewrite (same_on_load _ 8 _ _ _ Hs2), (same_on_load _ 8 _ _ _ Hs1);
        [unfold dtb_stored; cbn [m_ram set_ram]; rewrite ram_load_store_eq; apply u64_small, Hh|..].
      * intros x Hx Hin. apply (Hdtb x Hx). by left.
      * intros x Hx (a & [->|Ha]%elem_of_cons & Hxa); apply (Hdtb x Hx);
          [left; rewrite PAGE_SIZE_eq in Hxa; lia|right; by exists a].
  - intros n' h1 s1 r. unfold asm_enter. rewrite Ek. unfold at_entry. cbn [asm_run run_block exec]. unfold bind, ret.
    unfold start_calls. rewrite decide_False, decide_True by done. fold r. destruct r as [h2 s2|e s2]; [|done].
    rewrite E3. apply start_loop_end.
Qed.
End boot.
