(* ===== verification/Testbench.v ===== *)
(** * A concrete platform

    A machine on which the definitions run and at which the hypotheses of the
    theorems hold: device registers that read back what was written, a UART
    that is always ready, devices that do no DMA. *)

From S2P Require Import Prelude Globals Machine Utils Uart Heap HeapSpec Paging PagingSpec KernelMap.

(** Registers as a map; the line status register always shows data ready and
    an empty transmitter. *)
Definition bench_read (d : gmap Z Z) (a : Z) (n : nat) : Z * gmap Z Z :=
  if a =? UART_LSR then (0x61, d) else (default 0 (d !! a), d).

#[refine] Instance bench : Platform := {|
  dev := gmap Z Z;
  dev_read := bench_read;
  dev_write := λ d a _ v, <[a := v]> d;
  dev_sync := λ d _, ([], d);
  dev_time := λ d, (1000, d);
  fuel := Z.to_nat (2 ^ 13);
|}.
Proof. lia. Defined.

#[global] Instance bench_tx : UartTx.
Proof.
  intros d. pose proof fuel_min as Hf. destruct fuel as [|n] eqn:E; [simpl in Hf; lia|].
  by left.
Qed.

Definition ctx0 : context := Context_ 0 0 0 0 0 0 0 0 0 0 0 0 0 0.

(** The machine with memory [r] and heap variables [h]. *)
Definition bench_machine (r : gmap Z Z) (h : heap_vars) : machine :=
  Machine _ r ∅ [] (Csrs 2 0 0 0 0 0 0 0 0) h [] (SchedVars [] None ctx0).

(** Three free pages of a 64 KiB heap; the first two of the list are not
    neighbours. *)
Definition heap3 : machine :=
  bench_machine
    (ram_store 8 0x80102000 0x80100000 (ram_store 8 0x80100000 0x80101000
      (ram_store 8 0x80101000 0 ∅)))
    (HeapVars 0x80102000 0x80100000 0x80110000 3).

Definition heap3_pages : list Z := [0x80102000; 0x80100000; 0x80101000].

Lemma heap3_inv : heap_inv heap3 heap3_pages.
Proof.
  split; [vm_compute; intuition congruence|vm_compute; intuition congruence| |
          repeat constructor; vm_compute; congruence|done].
  by apply (bool_decide_unpack _); vm_compute.
Qed.

(** A kernel image that ends at 0x80010000 under the linker script. *)
#[global] Instance bench_image : Image := {|
  __heap_start := 0x80010008;
  __stack_limit := KERNEL_BASE_VA + 0x8000000 - 0x4000;
  boot_page_table := 0x80008000;
|}.

#[global] Instance bench_image_ok : ImageOk.
Proof. split; vm_compute; intuition congruence. Qed.

(** ** The allocator's theorems at concrete inputs *)

(** Two pages are taken from the middle of the list. *)
Lemma mem_alloc_refines_witness :
  alloc_spec (npages 5000) heap3_pages = Some (0x80100000, [0x80102000]) ∧
  wp (mem_alloc 5000) heap3 (λ p s', p = 0x80100000 ∧ heap_inv s' [0x80102000]).
Proof.
  split; [by vm_compute|].
  eapply wp_mono; [apply (mem_alloc_refines heap3 heap3_pages 5000); [apply heap3_inv|lia]|].
  intros p s'. change (alloc_spec (npages 5000) heap3_pages) with
    (Some (0x80100000, [0x80102000])).
  intros (? & ? & _). done.
Defined.

Lemma mem_free_refines_witness :
  wp (mem_free (KERNEL_BASE_VA + 0x103000)) heap3
    (λ _ s', heap_inv s' (0x80103000 :: heap3_pages) ∧ s' = pushed 0x80103000 heap3) ∧
  wp (mem_free 0x80103001) heap3 (λ _ s', s' = heap3).
Proof.
  split.
  - apply (proj1 (mem_free_refines heap3 heap3_pages (KERNEL_BASE_VA + 0x103000) heap3_inv)).
    + done.
    + vm_compute. intuition congruence.
    + by apply (bool_decide_unpack _); vm_compute.
  - apply (proj2 (mem_free_refines heap3 heap3_pages 0x80103001 heap3_inv)). right. by intros (Hal & _).
Defined.

Lemma mem_routines_witness :
  wp (mem_copy 0x80200000 0x80102000 8) heap3 (λ _ s',
    s' = set_ram (ram_write 0x80200000 [0; 0; 0x10; 0x80; 0; 0; 0; 0] (m_ram heap3)) heap3).
Proof. apply (mem_routines_correct 0x80200000 0x80102000 0 8 heap3); [done|done|lia]. Defined.

(** The machine after [page_allocator_init], and after one allocation. *)
Definition run_state {A} (m : M A) (s : machine) : machine :=
  match m s with Ok _ s' | Stop _ s' => s' end.
Definition booted : machine := run_state page_allocator_init heap3.

Lemma allocator_safety_witness :
  ∃ l, heap_inv booted l ∧ NoDup (@nil Z) ∧ (∀ a, a ∈ l → a ∉ @nil Z) ∧ l ++ [] ≡ₚ init_pages.
Proof.
  refine (proj1 (allocator_safety heap3 booted booted [] _ (rtc_refl _ _))).
  unfold booted, run_state. destruct (wp_page_allocator_init heap3) as ([] & s' & E & _).
  rewrite E. reflexivity.
Defined.

(** ** Strings and numbers at concrete inputs *)

Lemma string_comp_zero_witness :
  wp (string_comp (lit "virtio") (lit "virtio")) heap3 (λ v s', s' = heap3 ∧
    (v = 0 ↔ chars "virtio" = chars "virtio")).
Proof.
  apply string_comp_zero; [..|pose proof fuel_min; simpl; lia|pose proof fuel_min; simpl; lia];
    (split_and!; [apply chars_at_lit|by repeat constructor|by left]).
Defined.

Lemma hex_roundtrip_witness :
  wp (uart_b2x 0xBEEF) heap3 (λ _ s', ∃ ds,
    prints heap3 s' (chars "0x" ++ ds) ∧ length ds = 8%nat ∧
    ∀ t p, chars_at t p ds → wp (h2i p 8) t (λ v t', v = 0xBEEF ∧ t' = t)).
Proof. apply hex_roundtrip; lia. Defined.

Lemma uart_dec_correct_witness :
  wp (uart_dec 4294967295) heap3 (λ _ s', ∃ ds, decimal_of 4294967295 ds ∧ prints heap3 s' ds).
Proof. apply (proj1 (uart_dec_correct 4294967295 heap3)). lia. Defined.

Lemma page_allocator_init_witness :
  wp page_allocator_init heap3 (λ _ s', heap_inv s' init_pages ∧ Z.of_nat (length init_pages) = 4096).
Proof.
  eapply wp_mono; [apply page_allocator_init_ok|]. intros _ s' [HI _]. split; [done|].
  by vm_compute.
Defined.

(** ** Page tables at concrete inputs *)

(** An empty root outside the heap. *)
Definition root0 : Z := 0x80200000.

Lemma root0_zero x : root0 <= x < root0 + PAGE_SIZE → byte_at (m_ram heap3) x = 0.
Proof.
  unfold root0. rewrite PAGE_SIZE_eq. intros Hx. unfold heap3, bench_machine. cbn [m_ram].
  rewrite !byte_at_store_out by lia. done.
Qed.

Lemma root0_pg_inv : pg_inv heap3 heap3_pages root0 (root_only root0).
Proof.
  split; [apply heap3_inv|by apply pt_inv_empty; [..|apply root0_zero]|].
  unfold root_only. intros p a [_ <-]%lookup_singleton_Some.
  by apply (bool_decide_unpack _); vm_compute.
Qed.

Lemma root0_no_superpage va : no_superpage (m_ram heap3) root0 va.
Proof. intros e lv. by rewrite empty_walk by apply root0_zero. Qed.

Lemma map_page_correct_witness :
  wp (map_page root0 0x40000000 0x80300000 (PTE_R .| PTE_W)) heap3 (λ _ s',
    sv39 (m_ram s') root0 0x40000123 = Some (0x80300123, 7)).
Proof.
  eapply wp_mono; [apply (map_page_correct heap3 heap3_pages root0 (root_only root0));
    [apply root0_pg_inv|apply root0_no_superpage|done|lia|vm_compute; intuition congruence|by vm_compute; lia]|].
  intros _ s' (k & L' & t' & _ & _ & _ & Hsv & _). by rewrite (Hsv 0x40000123).
Defined.

(** A heap with no free page. *)
Definition heap0 : machine := bench_machine ∅ (HeapVars 0 0x80100000 0x80110000 0).

Lemma heap0_inv : heap_inv heap0 [].
Proof. split; [vm_compute; intuition congruence|done|constructor|constructor|done]. Qed.

Lemma map_page_out_of_memory_witness :
  stops (map_page root0 0x40000000 0x80300000 (PTE_R .| PTE_W)) heap0 (Fault 0) (λ _, True).
Proof.
  apply (map_page_out_of_memory heap0 [] root0 (root_only root0)).
  - split; [apply heap0_inv|by apply pt_inv_empty|]. intros p a _. apply not_elem_of_nil.
  - intros e lv. by rewrite empty_walk.
  - vm_compute. lia.
Defined.

(** A table with one page mapped: [0x40000000] to [0x80300000]. *)
Definition leaf0 : Z := PA2PTE 0x80300000 .| (PTE_R .| PTE_W) .| PTE_V.
Definition one_page : gmap Z Z :=
  leaf_written (installed (installed ∅ 1 0x40000000 root0 0x80201000) 0 0x40000000 0x80201000 0x80202000)
    0 0x40000000 0x80202000 leaf0.
Definition one_page_tree : gmap path Z :=
  installed_tree (installed_tree (root_only root0) 1 0x40000000 0x80201000) 0 0x40000000 0x80202000.

Lemma one_page_inv :
  pt_inv (installed (installed ∅ 1 0x40000000 root0 0x80201000) 0 0x40000000 0x80201000 0x80202000)
    root0 one_page_tree.
Proof.
  assert (∀ p, root_only root0 !! p ≠ Some 0x80201000) as Hfresh
    by (unfold root_only; by intros p [_ ?]%lookup_singleton_Some).
  assert (pt_inv ∅ root0 (root_only root0)) as H0 by (by apply pt_inv_empty).
  assert (pt_inv (installed ∅ 1 0x40000000 root0 0x80201000) root0
    (installed_tree (root_only root0) 1 0x40000000 0x80201000)) as H1
    by (apply pt_installed; [done|lia|done..]).
  apply pt_installed; [done|lia|done| |done|done|].
  - by rewrite (load_installed_new _ _ _ H0) by (done || lia || apply VPN_range).
  - unfold installed_tree, root_only. intros p. rewrite lookup_insert. case_decide; [done|].
    by intros [_ ?]%lookup_singleton_Some.
Qed.

Lemma one_page_load : ram_load 8 (pte_addr 0x80202000 (VPN 0 0x40000123)) one_page = leaf0.
Proof.
  replace (VPN 0 0x40000123) with (VPN 0%nat 0x40000000) by (by vm_compute).
  unfold one_page. apply load_leaf. by vm_compute.
Qed.

Lemma one_page_inv' : pt_inv one_page root0 one_page_tree.
Proof. apply pt_leaf_written; [apply one_page_inv|lia|done|done|done|done|lia]. Qed.

Lemma one_page_walk : walk one_page 2 root0 0x40000123 = Some (leaf0, 0%nat).
Proof. apply (walk_leaf_at _ _ _ one_page_inv); [lia|done|done|done|done|lia|done]. Qed.

(** A table with one gigapage: the RAM at its own address. *)
Definition giga0 : gmap Z Z := leaf_written ∅ 2 BASE_ADDR root0 giga_entry.

Lemma giga0_inv : pt_inv giga0 root0 (root_only root0).
Proof. apply pt_leaf_written; [by apply pt_inv_empty|lia|done..]. Qed.

Lemma giga0_walk : walk giga0 2 root0 0x80001234 = Some (giga_entry, 2%nat).
Proof.
  assert (pt_inv ∅ root0 (root_only root0)) as HI by (by apply pt_inv_empty).
  apply (walk_leaf_at _ _ _ HI); [lia|done..].
Qed.

Lemma va2pa_correct_witness :
  wp (va2pa root0 0x40000123) (bench_machine one_page (m_heap heap3)) (λ pa s', pa = 0x80300123) ∧
  wp (va2pa root0 0x80001234) (bench_machine giga0 (m_heap heap3)) (λ pa s', pa = 0) ∧
  sv39 giga0 root0 0x80001234 = Some (0x80001234, 15).
Proof.
  split.
  - pose proof one_page_load as Hleaf. pose proof one_page_inv' as HI. pose proof one_page_walk as Hw.
    set (s := bench_machine one_page (m_heap heap3)).
    assert (m_ram s = one_page) as Hr by reflexivity. clearbody s. rewrite <- Hr in HI, Hw, Hleaf.
    destruct (va2pa_correct s root0 one_page_tree 0x40000123 HI) as [Hva _].
    eapply wp_mono; [apply Hva|].
    + intros e lv E. congruence.
    + intros pt Hpt. assert (pt = 0x80202000) as -> by (vm_compute in Hpt; congruence).
      cbv zeta. rewrite Hleaf. by vm_compute.
    + intros pa s' [_ ->]. by rewrite sv39_walk, Hw.
  - destruct (va2pa_correct (bench_machine giga0 (m_heap heap3)) root0 (root_only root0) 0x80001234 giga0_inv) as [_ Hgiga].
    destruct (Hgiga giga_entry) as [Hva Hsv]; [apply giga0_walk|by vm_compute|by vm_compute|by vm_compute|].
    split; [|exact Hsv]. eapply wp_mono; [exact Hva|]. by intros pa s' [-> _].
Defined.

#[global] Instance bench_boot_ok : BootTableOk.
Proof. split; vm_compute; intuition congruence. Qed.

Lemma relocate_kernel_witness :
  wp relocate_kernel heap3 (λ _ s', sv39 (m_ram s') boot_page_table 0xFFFFFFC080001000 = Some (0x80001000, 15)
    ∧ sv39 (m_ram s') boot_page_table 0x10008004 = Some (0x10008004, 7)
    ∧ sv39 (m_ram s') boot_page_table 0x10009000 = None).
Proof.
  eapply wp_mono; [apply relocate_kernel_ok|].
  - intros x Hx. unfold heap3, bench_machine. cbn [m_ram].
    change boot_page_table with 0x80008000 in Hx. rewrite PAGE_SIZE_eq in Hx.
    rewrite !byte_at_store_out by lia. done.
  - assert (Z.of_nat (length init_pages) = 4096) by (by vm_compute). lia.
  - intros _ s' (k & L' & t' & _ & _ & _ & Hsv & _). rewrite !Hsv. done.
Defined.

Lemma mem_init_cases_witness :
  wp mem_init heap3 (λ v s', v = 0 ∧ satp_table (satp (m_csr s')) = 0x80102000).
Proof.
  eapply wp_mono; [refine (proj1 (mem_init_cases heap3 heap3_pages heap3_inv) _); simpl; lia|].
  intros v s' (-> & root & s1 & L' & E & (k & L2 & t' & _ & _ & _ & _ & _ & Hs & _) & _).
  split; [done|]. by injection E as <- _.
Defined.
