(* ===== verification/TestbenchSched.v ===== *)
(** * Processes on the concrete platform

    A process table with two tasks, runs of the scheduler on it, and the
    theorems about processes, traps and scheduling at these states. *)

From stdpp Require Import relations.
From S2P Require Import Prelude Globals Machine Utils Uart Heap HeapSpec Process Trap Asm TrapVector Sched Finish Testbench.

#[global] Instance bench_code : Code := {| forkret := 0x80001000; trap_vector := 0x80002000 |}.

#[global] Instance bench_code_ret : CodeRet := {|
  sched_ret := 0x80003000;
  yield_ret := 0x80004000;
  code_distinct := bool_decide_unpack (NoDup [0; 0x80001000; 0x80003000; 0x80004000]) I;
|}.

(** ** The process table *)

Definition unused : process := Process 0 PROC_UNUSED 0 ctx_zero 0 (replicate 16 0).

Definition empty_table : machine :=
  set_sched (SchedVars (replicate 16 unused) None ctx_zero) heap3.

Lemma unused_name : name_ok unused.
Proof.
  split_and!; [done|by apply (bool_decide_unpack _); vm_compute|].
  by repeat constructor; vm_compute.
Qed.

Lemma empty_table_wf : sched_wf (m_sched empty_table).
Proof.
  split; [done|..]; intros i p [-> _]%lookup_replicate; [apply unused_name|done].
Qed.

Lemma empty_table_heap : heap_inv empty_table heap3_pages.
Proof. by apply (heap_inv_ext heap3); [..|apply heap3_inv]. Qed.

Lemma proc_create_cases_witness :
  wp (proc_create 0x80005000 (Some (lit "taskA"))) empty_table (λ r s', r = Some 0%nat ∧
    p_context <$> slot s' 0 = Some (with_ra forkret (with_sp 0x80103000 ctx_zero))).
Proof.
  eapply wp_mono; [apply (proc_create_cases empty_table heap3_pages _ _ (chars "taskA"));
    [apply empty_table_wf|apply empty_table_heap|by apply cstr_at_lit; repeat constructor; vm_compute]|].
  intros r s' (_ & Hr). change (find_unused _) with (Some 0%nat) in Hr.
  destruct Hr as (-> & _ & old & fl & _ & _ & ->). done.
Defined.

(** ** Traps *)

(** A trap frame at [0x80300000] with the cause [cause] and the [sstatus] of a
    trap taken with interrupts enabled. *)
Definition frame0 : Z := 0x80300000.
Definition with_frame (cause : Z) (s : machine) : machine :=
  set_ram (ram_store 8 (ctx_sstatus frame0) (trap_entry 2)
    (ram_store 8 (ctx_scause frame0) cause (m_ram s))) s.

Lemma handle_exception_halts_witness :
  stops (handle_exception frame0) (with_frame EXC_LOAD_PAGE_FAULT heap3) Spin (λ s', ∃ out,
    prints (with_frame EXC_LOAD_PAGE_FAULT heap3) s' out).
Proof.
  eapply stops_mono; [apply handle_exception_halts|].
  - done.
  - by apply (bool_decide_unpack _); vm_compute.
  - intros s' (name & _ & Hp). eauto.
Defined.

Lemma handle_exception_unknown_witness :
  stops (handle_exception frame0) (with_frame 24 heap3) Undefined (λ s', True) ∧
  stops (handle_exception frame0) (with_frame 10 heap3) (Fault 0) (λ s', True).
Proof.
  split.
  - eapply stops_mono; [apply (handle_exception_unknown (with_frame 24 heap3) frame0); [done|]|done].
    by apply (bool_decide_unpack _); vm_compute.
  - eapply stops_mono; [apply (handle_exception_unknown (with_frame 10 heap3) frame0); [done|]|done].
    by apply (bool_decide_unpack _); vm_compute.
Defined.

Lemma trap_handler_interrupt_witness :
  wp (trap_handler frame0) (with_frame (2 ^ 63 + 5) empty_table) (λ _ s', ∃ out,
    timer_rearmed out (with_frame (2 ^ 63 + 5) empty_table) s').
Proof.
  eapply wp_mono; [refine (proj1 (proj2 (proj2 (trap_handler_interrupt
    (with_frame (2 ^ 63 + 5) empty_table) frame0 5 _ _ _))) eq_refl); [done|by vm_compute|lia]|].
  intros [] s' Ht. by eexists.
Defined.

(** ** Scheduling *)

Definition task (i : nat) (stack : Z) : process :=
  Process (i + 1) PROC_RUNNABLE stack (with_ra forkret (with_sp (stack + 4096) ctx_zero)) 0x80005000
    (replicate 16 0).

(** A table whose first slot holds a task; with one more task, and with none. *)
Definition table (rest : list process) : machine :=
  set_sched (SchedVars (task 0 0x80100000 :: rest) None ctx_zero) heap3.
Definition one_more : list process := task 1 0x80101000 :: replicate 14 unused.
Definition none_more : list process := replicate 15 unused.

Lemma two_tasks_fresh : fresh_table (m_sched (table one_more)).
Proof.
  split; [split; [done|..]|done|].
  - intros [|[|i]] p Hp; [injection Hp as <-; apply unused_name..|].
    apply lookup_replicate in Hp as [-> _]. apply unused_name.
  - intros [|[|i]] p Hp; [injection Hp as <-; done..|]. by apply lookup_replicate in Hp as [-> _].
  - intros [|[|i]] p Hp; [injection Hp as <-; by right..|]. apply lookup_replicate in Hp as [-> _]. by left.
Qed.

Lemma one_task_fresh : fresh_table (m_sched (table none_more)).
Proof.
  split; [split; [done|..]|done|].
  - intros [|i] p Hp; [injection Hp as <-; apply unused_name|].
    apply lookup_replicate in Hp as [-> _]. apply unused_name.
  - intros [|i] p Hp; [injection Hp as <-; done|]. by apply lookup_replicate in Hp as [-> _].
  - intros [|i] p Hp; [injection Hp as <-; by right|]. apply lookup_replicate in Hp as [-> _]. by left.
Qed.

(** Registers that can be told apart. *)
Definition hart_at (sp : Z) : hart := Hart (λ r, if decide (r = Sp) then sp else reg_num r) (λ _, 0).

Lemma hart_at_ok sp : 0 <= sp < 2 ^ 64 → hart_ok (hart_at sp).
Proof. intros Hsp r. destruct (decide (r = Sp)) as [->|Hr]; [exact Hsp|]. by destruct r; first [done|vm_compute]. Qed.

Definition sched_hart : hart := hart_at 0x80300000.
Definition task_hart : hart := hart_at 0x80101000.

(** The timer interrupts code with the stack pointer [sp]. *)
Lemma timer_irq y sp :
  sstatus (m_csr (y_m y)) = 2 → 0x80001000 <= sp < 0x80400000 → y_susp y = ∅ → frames (y_pc y) = [] →
  (y_pc y = PProc → hart_at sp = y_h y) → irq y (hart_at sp) 0x80005010 0 IRQ_S_TIMER.
Proof.
  intros Hs Hsp Hsu Hfr Hh. assert (get_reg (hart_at sp) Sp = sp) as E by done. split; [by rewrite Hs|in_list| |done|].
  - split; [apply hart_at_ok; lia| |apply in_ram_true; unfold frame_at, RAM_BASE, RAM_END in *; lia].
    unfold csrs_ok. cbn [sstatus sepc scause stval trap_csr]. rewrite Hs. split_and!; first [lia|by vm_compute].
  - intros ctx (k & Hk & _ & Hin). exfalso. destruct Hk as [<-|[i Hi]]; [by rewrite Hfr in Hin; apply elem_of_nil in Hin|].
    by rewrite Hsu in Hi.
Qed.

Section first.
Context (rest : list process).

(** The first task is chosen, and then it computes. *)
Definition chosen0 : sys :=
  Sys (set_current (Some 0%nat) (set_proc 0 (set_state PROC_RUNNING (task 0 0x80100000)) (table rest))) sched_hart
    (PChosen 0 false) (0%nat, false) ∅.
Definition running0 : sys :=
  Sys (switched SchedCtx (ProcCtx 0) (with_ra sched_ret (cpu_of sched_hart)) (y_m chosen0)).1 task_hart PProc (0%nat, false) ∅.

Lemma pass_chosen0 : rtc (λ a b, orderly a b ∧ ∀ f, y_pc b ≠ PPicked 1 f) (start (table rest) sched_hart) chosen0.
Proof.
  eapply rtc_l; [split; [left; by apply step_pick|done]|]. apply rtc_once. split; [left; apply step_current|done].
Qed.

Lemma run_chosen0 : orderly_run (table rest) chosen0.
Proof. exists sched_hart. eapply (rtc_congruence id); [|apply pass_chosen0]. by intros a b [? _]. Qed.

Lemma run_running0 : orderly_run (table rest) running0.
Proof.
  destruct run_chosen0 as [h Hr]. exists h. etrans; [exact Hr|].
  eapply rtc_l; [left; exact (step_dispatch _ _ sched_hart 0 false _ _ _ _ eq_refl)|]. apply rtc_once. left. by apply step_run.
Qed.

(** It calls [yield]. *)
Definition yielding0 : sys :=
  Sys (set_proc 0 (task 0 0x80100000) (y_m running0)) task_hart (PYielding 0) (0%nat, false) ∅.

Lemma run_yielding0 : orderly_run (table rest) yielding0.
Proof.
  destruct run_running0 as [h Hr]. exists h. eapply rtc_r; [exact Hr|]. left. apply step_yield.
  exact (yield_marks (y_m running0) 0 (set_state PROC_RUNNING (task 0 0x80100000)) eq_refl eq_refl).
Qed.

(** The timer interrupts it while it computes: the scheduler takes over. *)
Lemma preempted0 : ∃ m1, preempt running0 (Sys m1 (load_ctx (with_ra sched_ret (cpu_of sched_hart)) task_hart) PBack (0%nat, false)
    {[0%nat := PReturn (frame_at task_hart) 0x80005010 PProc]}) ∧
  current_process (m_sched m1) = None ∧ length (procs (m_sched m1)) = S (length rest) ∧
  ∀ j, slot m1 j = if decide (j = 0%nat) then Some (set_context (with_ra yield_ret (cpu_of task_hart)) (task 0 0x80100000))
    else slot (table rest) j.
Proof.
  destruct (preempt_possible running0 task_hart task_hart 0x80005010 0 0 (set_state PROC_RUNNING (task 0 0x80100000)))
    as (s1 & [Es _ _ _] & Hp); [by apply timer_irq|done|done|].
  set (p0 := set_state PROC_RUNNING (task 0 0x80100000)) in *. set (y1 := leave _ _ _ _ _ _) in Hp.
  assert (m_sched s1 = m_sched (y_m running0)) as E by done. exists (y_m y1). split_and!.
  - replace (Sys _ _ _ _ _) with y1; [exact Hp|]. unfold y1. etrans; [apply leave_pc; cbn; by rewrite E|]. cbn. by rewrite E.
  - done.
  - unfold y1, leave. cbn. by rewrite length_alter, length_insert, E.
  - intros j. unfold y1. rewrite slot_leave. case_decide as Hj.
    + rewrite yielded_slot by (unfold slot; by rewrite E). done.
    + change (slot (set_proc 0 (halted p0) s1) j = slot (table rest) j). rewrite slot_set_proc_ne by done.
      unfold slot. rewrite E. by destruct j.
Qed.
End first.

Lemma scheduler_safety_witness :
  (∀ a, y_pc (running0 one_more) ≠ PWild a) ∧
  ∃ i p, slot (y_m (running0 one_more)) i = Some p ∧ p_state p = PROC_RUNNING.
Proof.
  destruct (proj2 (scheduler_safety (table one_more) (running0 one_more) two_tasks_fresh) (run_running0 one_more))
    as (Hw & _ & Hrun & _). split; [exact Hw|]. destruct (Hrun (or_introl eq_refl)) as (i & p & _ & Hp & Hst).
  exists i, p. split; [exact Hp|exact Hst].
Defined.

Lemma scheduler_progress_witness : ∃ y', rtc code_step (running0 one_more) y' ∧ y_pc y' = PExited.
Proof. exact (proj2 (proj2 (scheduler_progress (table one_more) (running0 one_more) two_tasks_fresh (run_running0 one_more)))). Defined.

Lemma round_robin_witness : before 1 (chosen0 one_more) ∧ slot (y_m (chosen0 one_more)) 1 = Some (task 1 0x80101000).
Proof.
  apply (round_robin (table one_more) (start (table one_more) sched_hart) (chosen0 one_more) 1 (task 1 0x80101000)).
  - apply two_tasks_fresh.
  - exists sched_hart. apply rtc_refl.
  - done.
  - done.
  - unfold before. simpl. lia.
  - apply pass_chosen0.
Defined.

(** The timer interrupts the scheduler before it switches to the first task. *)
Lemma scheduler_race_witness :
  ∃ y', race (chosen0 one_more) y' ∧ y_pc y' = PWild 0 ∧
    ∃ p', slot (y_m y') 0 = Some p' ∧ p_state p' = PROC_RUNNABLE ∧ p_context p' = with_ra yield_ret (cpu_of sched_hart).
Proof.
  exact (scheduler_race (table one_more) (y_m (chosen0 one_more)) sched_hart 0 false (0%nat, false) ∅ sched_hart sched_hart
    0x80005010 0 two_tasks_fresh (run_chosen0 one_more) eq_refl
    (iq_trap _ _ _ _ _ (timer_irq (chosen0 one_more) 0x80300000 eq_refl ltac:(lia) eq_refl eq_refl ltac:(done))) eq_refl).
Defined.

(** The timer interrupts the only task in [yield]. *)
Lemma lost_yielder_witness :
  ∃ y1 y2, race (yielding0 none_more) y1 ∧ rtc code_step y1 y2 ∧
    ∀ y, rtc tame y2 y → p_state <$> slot (y_m y) 0 = Some PROC_RUNNING ∧ ¬ running 0 y ∧ y_pc y ≠ PExited.
Proof.
  apply (lost_yielder (table none_more) (y_m (yielding0 none_more)) task_hart 0 (0%nat, false) ∅ task_hart task_hart 0x80005010 0).
  - apply one_task_fresh.
  - apply run_yielding0.
  - by apply timer_irq.
  - intros [|j] p Hj Hp; [done|]. by apply lookup_replicate in Hp as [-> _].
Defined.

(** The timer interrupts the first task; the scheduler goes on to the second. *)
Lemma fresh_not_preemptible_witness :
  ∃ y1 y2, preempt (running0 one_more) y1 ∧ rtc step y1 y2 ∧ running 1 y2 ∧
    SIE (sstatus (m_csr (y_m y2))) = false ∧ ∀ y3, ¬ irq_step y2 y3 ∧ ¬ preempt y2 y3.
Proof.
  destruct (preempted0 one_more) as (m1 & Hp & Hc & Hl & Hs). set (y1 := Sys _ _ _ _ _) in Hp.
  assert (slot m1 1 = Some (task 1 0x80101000)) as H1 by (by rewrite Hs).
  set (m2 := set_current (Some 1%nat) (set_proc 1 (set_state PROC_RUNNING (task 1 0x80101000)) (set_current None m1))).
  assert (slot m2 1 = Some (set_state PROC_RUNNING (task 1 0x80101000))) as H2.
  { change (<[1%nat := set_state PROC_RUNNING (task 1 0x80101000)]> (procs (m_sched m1)) !! 1%nat =
      Some (set_state PROC_RUNNING (task 1 0x80101000))). apply list_lookup_insert_eq. rewrite Hl. simpl. lia. }
  set (h := load_ctx (with_ra sched_ret (cpu_of sched_hart)) task_hart).
  set (su := {[0%nat := PReturn (frame_at task_hart) 0x80005010 PProc]} : gmap nat pc).
  set (y2 := Sys (switched SchedCtx (ProcCtx 1) (with_ra sched_ret (cpu_of h)) m2).1
    (load_ctx (p_context (task 1 0x80101000)) h) PProc (1%nat, true) su).
  assert (rtc (λ a b, step a b ∧ ∀ ctx epc k, y_pc b ≠ PReturn ctx epc k) y1 y2) as Hr.
  { eapply rtc_l; [split; [left; left; apply step_back|done]|].
    eapply rtc_l; [split; [left; left; by apply step_pick|done]|].
    eapply rtc_l; [split; [left; left; apply step_current|done]|]. apply rtc_once. split; [left; left|done].
    assert (y2 = enter 1 (y_m y2) (y_h y2) (1%nat, true) su) as -> by reflexivity.
    apply (step_dispatch m2 h h). rewrite dispatch_sched, H2. reflexivity. }
  exists y1, y2. split; [exact Hp|]. split; [|split; [by split|]].
  - eapply (rtc_congruence id); [|exact Hr]. by intros a b [? _].
  - exact (fresh_not_preemptible (table one_more) (running0 one_more) y1 y2 two_tasks_fresh (run_running0 one_more) eq_refl Hp Hr).
Defined.

(** ** There and back *)

(** A run to a state in which process [i] computes has a first such state. *)
Lemma first_running i y y' : rtc code_step y y' → ¬ running i y → running i y' →
  ∃ y2 y3, rtc (λ a b, orderly a b ∧ ¬ running i b) y y2 ∧ orderly y2 y3 ∧ running i y3.
Proof.
  intros Hr. induction Hr as [y|y y1 y' Hs _ IH]; intros Hn Hy; [done|].
  destruct (decide (current_process (vars y1) = Some i)) as [Hc|Hc].
  - assert (running i y1 ∨ ¬ running i y1) as [Hy1|Hy1].
    { unfold running. destruct (y_pc y1); (by left) || (right; by intros []). }
    + exists y, y1. split_and!; [apply rtc_refl|by left|done].
    + destruct IH as (y2 & y3 & Hr & Ho & H3); [done..|]. exists y2, y3. split_and!; [|done..].
      eapply rtc_l; [|exact Hr]. split; [by left|done].
  - destruct IH as (y2 & y3 & Hr & Ho & H3); [by intros []|done|]. exists y2, y3. split_and!; [|done..].
    eapply rtc_l; [|exact Hr]. split; [by left|by intros []].
Qed.

(** The only task is dispatched again after it lost the processor. *)
Lemma again m1 h k p : orderly_run (table none_more) (Sys m1 h PBack (0%nat, false) {[0%nat := k]}) →
  length (procs (m_sched m1)) = 16%nat → slot m1 0 = Some p → p_state p = PROC_RUNNABLE →
  (∀ j q, (1 <= j)%nat → slot m1 j = Some q → p_state q ≠ PROC_RUNNABLE) →
  ∃ y2 y3, rtc (λ a b, orderly a b ∧ ¬ running 0 b) (Sys m1 h PBack (0%nat, false) {[0%nat := k]}) y2 ∧
    orderly y2 y3 ∧ running 0 y3.
Proof.
  intros Hr Hl Hp Hst Hno. set (y1 := Sys _ _ _ _ _) in *. set (m2 := set_current None m1).
  set (m3 := set_current (Some 0%nat) (set_proc 0 (set_state PROC_RUNNING p) m2)).
  assert (rtc code_step y1 (Sys m3 h (PChosen 0 false) (0%nat, false) {[0%nat := k]})) as T1.
  { eapply rtc_l; [apply step_back|]. etrans; [apply (scan_to code_step m2 h true (0%nat, false) _ 1 15); [done|done|done|]|].
    - intros j q [Hj _]. by apply Hno.
    - eapply rtc_l; [apply step_again|]. eapply rtc_l; [by apply step_pick|]. apply rtc_once, step_current. }
  assert (sys_inv (Sys m3 h (PChosen 0 false) (0%nat, false) {[0%nat := k]})) as Hinv.
  { eapply code_steps_inv; [|exact T1]. eapply run_inv; [apply one_task_fresh|exact Hr]. }
  destruct (dispatch_chosen _ _ _ _ _ _ Hinv) as (m4 & h4 & su4 & T2 & _).
  eapply first_running; [etrans; [exact T1|exact T2]|by intros []|]. split; [done|].
  pose proof (si_pc _ (code_steps_inv _ _ Hinv T2)) as (Hc & _). exact Hc.
Qed.

(** It calls [swtch] in [yield]. *)
Definition switching0 : sys := Sys (set_current None (y_m (yielding0 none_more))) task_hart (PSwitch 0 PProc) (0%nat, false) ∅.

Lemma run_switching0 : orderly_run (table none_more) switching0.
Proof. destruct (run_yielding0 none_more) as [h Hr]. exists h. eapply rtc_r; [exact Hr|]. left. apply step_null. Qed.

Definition left0 : sys := leave 0 task_hart PProc (y_m switching0) (0%nat, false) ∅.

(** It gives up the processor and comes back with the registers of [yield]; the
    timer preempts it, and it comes back with all its registers. *)
Lemma switch_roundtrip_witness :
  (∃ y2 y3, rtc (λ a b, orderly a b ∧ ¬ running 0 b) left0 y2 ∧ orderly y2 y3 ∧ running 0 y3 ∧
    cpu_of (y_h y3) = with_ra yield_ret (cpu_of task_hart)) ∧
  (∃ y1 y2 y3, preempt (running0 none_more) y1 ∧
    rtc (λ a b, orderly a b ∧ ¬ running 0 b) y1 y2 ∧ orderly y2 y3 ∧ running 0 y3 ∧
    ∀ r, get_reg (y_h y3) r = get_reg task_hart r).
Proof.
  split.
  - assert (code_step switching0 left0) as Hc by apply step_switch.
    assert (orderly_run (table none_more) left0) as Hr.
    { destruct run_switching0 as [h Hr]. exists h. eapply rtc_r; [exact Hr|]. by left. }
    destruct (again _ _ _ (set_context (with_ra yield_ret (cpu_of task_hart)) (task 0 0x80100000)) Hr) as (y2 & y3 & H12 & H23 & H3).
    + reflexivity.
    + reflexivity.
    + reflexivity.
    + intros [|j] q Hj Hq; [lia|]. by apply lookup_replicate in Hq as [-> _].
    + exists y2, y3. split; [exact H12|]. split; [exact H23|]. split; [exact H3|].
      exact (proj1 (switch_roundtrip (table none_more) switching0 0 left0 y2 y3 one_task_fresh run_switching0 H12 H23 H3) eq_refl Hc).
  - destruct (preempted0 none_more) as (m1 & Hp & Hc & Hl & Hs). set (y1 := Sys _ _ _ _ _) in Hp.
    assert (orderly_run (table none_more) y1) as Hr.
    { destruct (run_running0 none_more) as [h Hr]. exists h. eapply rtc_r; [exact Hr|]. right. right. split; [exact Hp|by intros []]. }
    destruct (again _ _ _ (set_context (with_ra yield_ret (cpu_of task_hart)) (task 0 0x80100000)) Hr) as (y2 & y3 & H12 & H23 & H3).
    + exact Hl.
    + by rewrite Hs.
    + done.
    + intros [|j] q Hj Hq; [lia|]. rewrite Hs in Hq. by apply lookup_replicate in Hq as [-> _].
    + exists y1, y2, y3. split; [exact Hp|]. split; [exact H12|]. split; [exact H23|]. split; [exact H3|].
      destruct (proj2 (switch_roundtrip (table none_more) (running0 none_more) 0 y1 y2 y3 one_task_fresh (run_running0 none_more)
        H12 H23 H3) (conj eq_refl eq_refl) Hp) as (epc & _ & Hregs & _). exact Hregs.
Defined.
