(* ===== verification/TestbenchAsm.v ===== *)
(** * The assembly on the concrete platform

    A hart with registers that can be told apart, and the theorems about trap.S,
    mtrap.S, process.S and Start.S at concrete states. *)

From S2P Require Import Prelude Globals Machine Utils Uart Heap HeapSpec Paging PagingSpec KernelMap Process Trap.
From S2P Require Import Asm Sched TrapVector MTrap Swtch Main Boot Start Testbench TestbenchSched.

(** Every register holds its number, but for the stack pointer and a7, a machine
    in machine mode after the cause [cause]. *)
Definition hart0 (cause : Z) : hart :=
  Hart (λ r, if decide (r = Sp) then 0x80400000 else if decide (r = A7) then 0 else reg_num r)
    (λ c, if decide (c = Mscratch) then 0x80500000 else if decide (c = Mcause) then cause
          else if decide (c = Mepc) then 0x80001234 else 0).

Lemma hart0_ok cause : hart_ok (hart0 cause).
Proof. intros r. by destruct r; vm_compute. Qed.

(** No call comes back. *)
Definition no_calls `{Platform} (f : String.string) (h : hart) : M hart := halt Undefined.

Lemma trap_ok0 code : 0 <= code < 2 ^ 64 → trap_ok (hart0 0) 0x80001234 code 0 empty_table.
Proof.
  intros Hc. split; [apply hart0_ok| |done].
  unfold csrs_ok. cbn [sstatus sepc scause stval trap_csr]. split_and!; first [lia|by vm_compute].
Qed.

(** A timer interrupt, and the frame it leaves. *)
Lemma trap_vector_roundtrip_witness :
  wp (run_block no_calls trap_save (hart0 0)) (interrupted 0x80001234 (2 ^ 63 + 5) 0 empty_table) (λ '(h1, n) s1,
    get_reg h1 A0 = 0x80400000 - 288 ∧ trapped (0x80400000 - 288) empty_table s1).
Proof.
  eapply wp_mono; [apply (trap_vector_roundtrip no_calls (hart0 0) empty_table 0x80001234 (2 ^ 63 + 5) 0)|].
  - by apply trap_ok0.
  - intros [h1 n] s1 (_ & Ha & _ & _ & _ & _ & _ & Ht & _). split; [exact Ha|]. by apply Ht.
Defined.

Lemma interrupt_transparent_witness :
  wp (asm_enter (trap_calls (λ _, 99)) 0 trap_S "trap_vector" (hart0 0)) (interrupted 0x80001234 (2 ^ 63 + 5) 0 empty_table)
    (λ '(h', e) s', e = Sreturned true 0x80001234 ∧ get_reg h' T0 = 5 ∧ SIE (sstatus (m_csr s')) = true).
Proof.
  eapply wp_mono; [apply (interrupt_transparent 0 (λ _, 99) (hart0 0) empty_table 0x80001234 0 5)|].
  - by apply trap_ok0.
  - split; [in_list|done].
  - intros [h' e] s' (He & Hr & _ & Hs & _). split_and!; [exact He|by rewrite Hr|by rewrite Hs].
Defined.

(** ** Switches *)

(** The contexts of the empty table are in memory that was never written. *)
Lemma zero_contexts : contexts_at 0x80600000 0x80610000 (m_sched empty_table) (m_ram empty_table).
Proof.
  split; [repeat constructor; by vm_compute|]. intros i p [-> Hi]%lookup_replicate.
  do 16 (destruct i as [|i]; [repeat constructor; by vm_compute|]). lia.
Qed.

Definition hart_switch : hart :=
  Hart (λ r, if decide (r = A0) then 0x80600000 else if decide (r = A1) then 0x80610010 else reg_num r) (λ _, 0).

Lemma swtch_refines_witness :
  wp (asm_enter no_calls 0 process_S "swtch" hart_switch) empty_table (λ '(h', e) s',
    cpu_of h' = ctx_zero ∧ e = Returned 0 ∧ context_at 0x80600000 (cpu_of hart_switch) (m_ram s')).
Proof.
  assert (0x80600000 + 112 <= 0x80610000 ∨ 0x80610000 + sizeof_process * NPROC <= 0x80600000) as Ha by (left; lia).
  eapply wp_mono; [apply (swtch_refines no_calls 0x80600000 0x80610000 eq_refl eq_refl Ha 0 SchedCtx (ProcCtx 0)
    hart_switch empty_table (switched SchedCtx (ProcCtx 0) (cpu_of hart_switch) empty_table).1
    (switched SchedCtx (ProcCtx 0) (cpu_of hart_switch) empty_table).2)|].
  - intros r. by destruct r; vm_compute.
  - done.
  - done.
  - unfold ctx_valid, NPROC. lia.
  - done.
  - done.
  - done.
  - apply zero_contexts.
  - reflexivity.
  - intros [h' e] s' ([Hs _] & Hc & He & _). split_and!; [exact Hc|exact He|exact Hs].
Defined.

(** ** Machine mode *)

Lemma mtrap_ok0 cause : 0 <= cause < 2 ^ 64 → mtrap_ok 0x80500000 (hart0 cause).
Proof. intros Hc. split; [apply hart0_ok|done|exact Hc|done]. Qed.

Lemma mtrap_vector_cases_witness :
  wp (asm_enter no_calls 0 mtrap_S "mtrap_vector" (hart0 9)) heap3 (λ '(h', e) s',
    e = Mreturned 0 0x80001238 ∧ get_reg h' T1 = 6) ∧
  stops (asm_enter no_calls 2 mtrap_S "mtrap_vector" (hart0 2)) heap3 OutOfFuel (λ s',
    prints (pushed 0x80500000 (hart0 2) heap3) s' (chars ("MPanic" +:+ nl))).
Proof.
  split.
  - destruct (mtrap_vector_cases no_calls 0x80500000 0 (hart0 9) heap3 (mtrap_ok0 9 ltac:(lia))) as (_ & He & _).
    eapply wp_mono; [exact (He eq_refl eq_refl)|]. clear He. intros [h' e] s' (Hr & _ & He & _). split; [exact He|by rewrite Hr].
  - destruct (mtrap_vector_cases no_calls 0x80500000 0 (hart0 2) heap3 (mtrap_ok0 2 ltac:(lia))) as (_ & _ & _ & Hp).
    destruct (Hp ltac:(done)) as [[E _]|Hs]; [done|exact Hs].
Defined.

(** ** The boot *)

#[global] Instance bench_syms : StartSyms := {|
  __stack_top := 0x88000000;
  _dtb_addr := 0x80006000;
  _sbss := 0x80007000;
  kernel_entry := 0x80000100;
  mtrap_vector := 0x80000200;
  m_stack_top := 0x80006800;
|}.

Lemma start_refines_witness :
  wp (asm_enter (start_calls (λ _, 99) (λ h, ret h)) (S bss_words) start_S "_start" (hart0 0)) heap3 (λ '(h1, e) s1,
    e = Mreturned 1 0x80000100 ∧ ram_load 8 _dtb_addr (m_ram s1) = 11).
Proof.
  eapply wp_mono; [apply (start_refines bss_words (λ _, 99) (λ h, ret h) (hart0 0) heap3 0 0 0)|].
  - split; [by vm_compute..|done].
  - apply hart0_ok.
  - done.
  - by vm_compute.
  - assert (Z.of_nat (length init_pages) = 4096) by (by vm_compute). lia.
  - assert (_ebss = 0x80010008 ∧ init_heap_start = 0x80011000) as [E1 E2] by (by vm_compute).
    intros x Hx [Hb|(a & (i & Hi & ->)%elem_of_pages & Ha)]; unfold _dtb_addr, _sbss, bench_syms in *; [lia|].
    rewrite E2, PAGE_SIZE_eq in Ha. lia.
  - intros [h1 e] s1 (He & _ & _ & _ & Hl & _). split; [exact He|]. rewrite Hl. by vm_compute.
Defined.
