(* ===== verification/TestbenchNet.v ===== *)
(** * A concrete network card

    A machine with a virtio card that returns every buffer at the next fence:
    the theorems about the driver and its packets at concrete inputs. *)

From S2P Require Import Prelude Globals Machine Utils Uart Heap HeapSpec Paging Packet Virtio VirtioSpec Virtq.
From S2P Require Import DeviceIo VirtioNet VirtioRx VirtioTx VirtioStart.

(** ** The card

    Its registers read back what was written, except that slot 1 shows a network
    card, which offers VERSION_1 and 256 descriptors, and that the other slots are
    empty.  At a fence it copies [avail.idx] of both
    queues to [used.idx]. *)

Definition rx_ring : Z := 0x80200000.
Definition rx_bufs : Z := 0x80202000.
Definition tx_ring : Z := 0x80282000.
Definition tx_bufs : Z := 0x80284000.
Definition slot1 : Z := 0x10001000.

Definition nic_read (d : gmap Z Z) (a : Z) (n : nat) : Z * gmap Z Z :=
  if a =? UART_LSR then (0x61, d)
  else if a =? slot1 then (VIRTIO_MAGIC, d)
  else if a =? slot1 + 0x00c then (QEMU_VENDOR_ID, d)
  else if a mod VIRTIO_SIZE =? 0x008 then (if a =? slot1 + 0x008 then 1 else 0, d)
  else if a =? slot1 + VIRTIO_MMIO_DEVICE_FEATURES then (1, d)
  else if a =? slot1 + VIRTIO_MMIO_QUEUE_NUM_MAX then (256, d)
  else (default 0 (d !! a), d).

Definition nic_sync (d : gmap Z Z) (r : gmap Z Z) : list (Z * Z) * gmap Z Z :=
  ([(used_idx rx_ring, byte_at r (avail_idx rx_ring)); (used_idx rx_ring + 1, byte_at r (avail_idx rx_ring + 1));
    (used_idx tx_ring, byte_at r (avail_idx tx_ring)); (used_idx tx_ring + 1, byte_at r (avail_idx tx_ring + 1))], d).

#[refine] Instance nic : Platform := {|
  dev := gmap Z Z;
  dev_read := nic_read;
  dev_write := λ d a _ v, <[a := v]> d;
  dev_sync := nic_sync;
  dev_time := λ d, (1000, d);
  fuel := Z.to_nat (2 ^ 13);
|}.
Proof. lia. Defined.

#[global] Instance nic_tx : UartTx.
Proof.
  intros d. pose proof fuel_min as Hf. destruct fuel as [|n] eqn:E; [simpl in Hf; lia|]. by left.
Qed.

(** The card writes the used indices. *)
Definition nic_dma (x : Z) : Prop :=
  used_idx rx_ring <= x < used_idx rx_ring + 2 ∨ used_idx tx_ring <= x < used_idx tx_ring + 2.

#[global] Instance nic_dma_within : DmaWithin nic_dma.
Proof. intros d r. repeat constructor; unfold nic_dma; simpl; lia. Qed.

Definition net_queue (ring bufs : Z) : virtio_net_queue := NetQueue ring bufs 256 0 0 (replicate 256 0).
Definition rxq : virtio_net_queue := net_queue rx_ring rx_bufs.
Definition txq : virtio_net_queue := net_queue tx_ring tx_bufs.

(** Descriptors that point to their buffers; one receive buffer is offered, and
    two pages are free. *)
Definition desc_mem (ring bufs : Z) (r : gmap Z Z) : gmap Z Z :=
  foldl (λ r i, ram_store 8 (desc_addr ring i) (bufs + 2048 * i) r) r (seqZ 0 256).
Definition nic_ram : gmap Z Z :=
  ram_store 8 0x80102000 0 (ram_store 8 0x80101000 0x80102000 (
    ram_store 2 (avail_idx rx_ring) 1 (ram_write 0x80400000 [1; 2; 3]
      (desc_mem tx_ring tx_bufs (desc_mem rx_ring rx_bufs ∅))))).

Definition nic_machine : machine :=
  Machine _ nic_ram ∅ [] (Csrs 2 0 0 0 0 0 0 0 0) (HeapVars 0x80101000 0x80100000 0x80110000 2) [rxq; txq]
    (SchedVars [] None (Context_ 0 0 0 0 0 0 0 0 0 0 0 0 0 0)).

Lemma net_queue_ok ring bufs :
  forallb (λ i, ram_load 8 (desc_addr ring i) nic_ram =? bufs + 2048 * i) (seqZ 0 256) = true →
  in_ram ring (Z.to_nat sizeof_virtq) = true →
  in_ram bufs (Z.to_nat (QUEUE_BUF_SIZE * DESC_QUEUE_SIZE)) = true →
  ring + sizeof_virtq <= bufs → queue_ok nic_ram (net_queue ring bufs).
Proof.
  intros Hf Hr Hb Hap. split; [done|done|done|by left| |simpl; lia|simpl; lia|done].
  intros i Hi. rewrite forallb_forall in Hf.
  apply Z.eqb_eq, Hf, list_elem_of_In, elem_of_seqZ. lia.
Qed.

Lemma rxq_ok : queue_ok nic_ram rxq.
Proof. apply net_queue_ok; [by vm_compute|done|done|done]. Qed.
Lemma txq_ok : queue_ok nic_ram txq.
Proof. apply net_queue_ok; [by vm_compute|done|done|done]. Qed.

Lemma slot1_addr : slot_addr slot1.
Proof. exists 1. split; [done|reflexivity]. Qed.

(** ** The driver's theorems at concrete inputs *)

Lemma negotiation_witness :
  wp (virt_mmio_negotiation slot1) nic_machine (negotiated slot1 rxq txq nic_machine).
Proof.
  apply (negotiation_protocol slot1 slot1_addr rxq txq nic_machine);
    [reflexivity|reflexivity|split; [reflexivity|split; [reflexivity|done]]..].
Defined.

(** The handshake succeeds with this card. *)
Example negotiation_runs :
  match virt_mmio_negotiation slot1 nic_machine with Ok v _ => v = 0 | Stop _ _ => False end.
Proof. by vm_compute. Qed.

Lemma nic_rx_owned : driver_owned nic_dma rxq.
Proof.
  intros x Hx. unfold driver_part, nic_dma, used_idx, virtq_used, virtq_avail, DESC_QUEUE_SIZE in *.
  change (q_ring rxq) with rx_ring in Hx. unfold rx_ring, tx_ring in *. lia.
Qed.
Lemma nic_tx_owned : driver_owned nic_dma txq.
Proof.
  intros x Hx. unfold driver_part, nic_dma, used_idx, virtq_used, virtq_avail, DESC_QUEUE_SIZE in *.
  change (q_ring txq) with tx_ring in Hx. unfold rx_ring, tx_ring in *. lia.
Qed.
Lemma nic_tx_bufs x :
  q_buffers txq <= x < q_buffers txq + QUEUE_BUF_SIZE * DESC_QUEUE_SIZE → ¬ nic_dma x.
Proof.
  change (q_buffers txq) with tx_bufs. intros Hx.
  unfold nic_dma, used_idx, virtq_used, virtq_avail, tx_bufs, rx_ring, tx_ring, QUEUE_BUF_SIZE, DESC_QUEUE_SIZE in *.
  lia.
Qed.

Definition hello_send : list Z := chars ("Sending data via Virtio Network Device..." ++ nl).

Lemma send_witness :
  wp (virt_mmio_net_send slot1 0x80400000 3) nic_machine (λ _ s',
    ∃ d, first_free (q_in_use txq) 0 d ∧ sent slot1 nic_dma nic_machine txq d [1; 2; 3] s').
Proof.
  eapply wp_mono.
  { apply (send_correct slot1 slot1_addr nic_dma 0x80400000 3 nic_machine txq);
      [reflexivity|exact txq_ok|exact nic_tx_owned|exact nic_tx_bufs|lia|reflexivity|right; by compute]. }
  intros [] s' [[Hlt _]|[(_ & Hall & _)|(_ & d & Hd & Hs)]].
  - by compute in Hlt.
  - exfalso. apply (Hall 0); [lia|reflexivity].
  - exists d. split; [exact Hd|].
    change [1; 2; 3] with (ram_bytes (Z.to_nat 3) 0x80400000 (m_ram nic_machine)). exact Hs.
Defined.

(** One fence later the card has returned the buffer. *)
Lemma nic_posts q s (n : nat) :
  (0 < n)%nat → q_ring q = rx_ring ∨ q_ring q = tx_ring →
  ram_load 2 (avail_idx (q_ring q)) (m_ram s) ≠ q_last_used_idx q → posts n q s.
Proof.
  intros Hn Hring Hne. destruct n as [|n]; [lia|]. intros s' Hf. left.
  unfold fenced, mem_barrier in Hf. simpl in Hf. simplify_eq. unfold used_now. cbn [m_ram set_trace set_dev set_ram].
  intros E. apply Hne. rewrite <- E. clear Hne E.
  unfold ram_load. rewrite !Z.mul_0_r, !Z.add_0_r.
  destruct Hring as [-> | ->];
    repeat first [rewrite byte_at_insert_eq | rewrite byte_at_insert_ne by done];
    by rewrite !Z.mod_small by apply byte_at_range.
Qed.

Lemma poll_rx_witness :
  wp (virt_mmio_net_poll_rx slot1 0 2048) nic_machine (λ _ s', ∃ s0 s1 s2 ok,
    prints nic_machine s0 (chars ("Polling for received data via Virtio Network Device..." ++ nl)) ∧
    waited rxq s0 s1 ∧ took slot1 2048 rxq s1 ok s2 ∧
    prints s2 s' (if ok then chars ("Finished polling for received data." ++ nl) else [])).
Proof.
  apply (poll_rx_correct slot1 slot1_addr nic_dma 0 2048 nic_machine rxq);
    [reflexivity|exact rxq_ok|exact nic_rx_owned|].
  intros s0 P0. apply nic_posts; [pose proof fuel_min; lia|by left|].
  rewrite (prints_ram _ _ _ P0). by vm_compute.
Defined.

(** ** The transmit path *)

Definition nic_pages : list Z := [0x80101000; 0x80102000].

Lemma nic_heap_inv : heap_inv nic_machine nic_pages.
Proof.
  split; [vm_compute; intuition congruence|vm_compute; intuition congruence| |
          repeat constructor; vm_compute; congruence|done].
  by apply (bool_decide_unpack _); vm_compute.
Qed.

Lemma nic_pages_range x : in_pages nic_pages x → 0x80101000 <= x < 0x80103000.
Proof.
  intros (a & Ha & Hx). rewrite PAGE_SIZE_eq in Hx.
  apply elem_of_cons in Ha as [->|Ha]; [lia|]. apply list_elem_of_singleton in Ha as ->. lia.
Qed.

Lemma tx_part_apart x : driver_part txq x → ¬ in_pages nic_pages x.
Proof.
  intros Hx Hp%nic_pages_range. unfold driver_part, virtq_used, virtq_avail, DESC_QUEUE_SIZE in Hx.
  change (q_ring txq) with tx_ring in Hx. unfold tx_ring in Hx. lia.
Qed.

Lemma tx_sends_payload_witness :
  wp (virt_mmio_net_tx slot1 0x80400000 3) nic_machine (λ v s', v = 0 ∧ ∃ s1 s2 d,
    heap_inv s1 [0x80102000] ∧ sent slot1 nic_dma s1 txq d [1; 2; 3] s2 ∧ m_heap s' = m_heap s1).
Proof.
  eapply wp_mono.
  { apply (tx_sends_payload slot1 slot1_addr nic_dma 0x80400000 3 nic_machine nic_pages txq).
    - exact nic_heap_inv.
    - reflexivity.
    - exact txq_ok.
    - exact nic_tx_owned.
    - exact nic_tx_bufs.
    - exists 0. split; [lia|reflexivity].
    - by compute.
    - reflexivity.
    - right. by compute.
    - intros x [Hx|Hx]; [intros Hp%nic_pages_range; lia|by apply tx_part_apart].
    - intros d s1 s2 s3 Hsame Hsent P3. apply nic_posts; [pose proof fuel_min; lia|by right|].
      change (q_ring (tx_queue txq d)) with (q_ring txq).
      rewrite (prints_ram _ _ _ P3), (sent_avail slot1 nic_dma _ _ _ _ _ nic_tx_owned Hsent).
      rewrite (same_on_load _ _ _ _ _ Hsame); [by vm_compute|].
      intros x Hx. apply tx_part_apart. revert Hx. unfold driver_part, avail_idx, virtq_used, virtq_avail, DESC_QUEUE_SIZE. lia. }
  change (alloc_spec (npages (3 + 54)) nic_pages) with (Some (0x80101000, [0x80102000])).
  intros v s' [(_ & E & _)|(-> & packet & l' & s1 & E & HI & _ & Hh & d & s2 & s3 & s4 & _ & Hs & _)]; [done|].
  injection E as _ <-. split; [reflexivity|]. exists s1, s2, d.
  change [1; 2; 3] with (ram_bytes (Z.to_nat 3) 0x80400000 (m_ram nic_machine)). split; [exact HI|split; [exact Hs|exact Hh]].
Defined.

(** It runs to the end. *)
Example tx_runs :
  match virt_mmio_net_tx slot1 0x80400000 3 nic_machine with Ok v _ => v = 0 | Stop _ _ => False end.
Proof. by vm_compute. Qed.

(** ** Packets *)

Definition mac1 : list Z := [0x52; 0x54; 0; 0x12; 0x34; 0x56].

Lemma build_eth_frame_witness :
  wp (build_eth_frame 0x80410000 bcast_mac mac1 ETH_P_ARP 0x80400000 3) nic_machine (λ _ s',
    s' = set_ram (ram_write 0x80410000 (bcast_mac ++ mac1 ++ [8; 6] ++ [1; 2; 3]) (m_ram nic_machine)) nic_machine).
Proof.
  apply (build_eth_frame_correct 0x80410000 bcast_mac mac1 ETH_P_ARP 0x80400000 3 nic_machine);
    [reflexivity|reflexivity|by compute|lia|reflexivity|reflexivity|left; by compute].
Defined.

Lemma arp_roundtrip_witness :
  wp (build_arp_response 0x80410000 mac1 0x0f02000a bcast_mac 0x0202000a) nic_machine (λ _ s1,
    wp (parse_arp 0x80410000) s1 (λ _ s2, ∃ t1 t2, dotted 0x0f02000a t1 ∧ dotted 0x0202000a t2 ∧
      prints s1 s2 (chars "  ARP: Reply from " ++ t1 ++ chars " to " ++ t2 ++ [ch_nl]))).
Proof.
  eapply wp_mono; [apply (arp_roundtrip 0x80410000 mac1 0x0f02000a bcast_mac 0x0202000a nic_machine);
    [reflexivity|reflexivity|lia|lia|reflexivity]|].
  intros [] s1 [_ Hp]. exact Hp.
Defined.

(** ** Setting up the queues *)

(** A card whose queues were not set up yet and 300 free pages. *)
Definition fresh_pages : list Z := (λ i, 0x80200000 + 4096 * i) <$> seqZ 0 300.
Definition fresh_ram : gmap Z Z :=
  foldr (λ a r, ram_store 8 a (if a =? 0x80200000 + 4096 * 299 then 0 else a + 4096) r) ∅ fresh_pages.
Definition zero_nic_queue : virtio_net_queue := NetQueue 0 0 0 0 0 (replicate 256 0).
Definition fresh_nic : machine :=
  set_ram fresh_ram (set_heap (HeapVars 0x80200000 0x80200000 0x80400000 300)
    (set_net [zero_nic_queue; zero_nic_queue] nic_machine)).

(** The free list, checked by computation. *)
Fixpoint chainb (r : gmap Z Z) (p : Z) (l : list Z) : bool :=
  match l with
  | [] => p =? 0
  | a :: l' => (p =? a) && negb (a =? 0) && chainb r (ram_load 8 a r) l'
  end.

Lemma chainb_chain r p l : chainb r p l = true → chain r p l.
Proof.
  revert p. induction l as [|a l IH]; intros p; simpl; [lia|].
  rewrite !andb_true_iff, negb_true_iff, Z.eqb_eq, Z.eqb_neq. intros [[-> Ha] Hc]. auto.
Qed.

Lemma fresh_nic_inv : heap_inv fresh_nic fresh_pages.
Proof.
  split; [vm_compute; intuition congruence|apply chainb_chain; by vm_compute| | |by vm_compute].
  - apply NoDup_fmap_2; [intros i j; lia|apply NoDup_seqZ].
  - apply Forall_forall. intros a (i & -> & Hi%elem_of_seqZ)%list_elem_of_fmap.
    unfold heap_page, aligned. rewrite PAGE_SIZE_eq. simpl. dlia.
Qed.

Lemma virtq_init_witness :
  wp (virt_mmio_net_virtq_init slot1) fresh_nic (λ v s',
    v = 0 ∧ ∃ s1 rx tx, queues_ready fresh_pages fresh_nic s1 rx tx).
Proof.
  eapply wp_mono; [eapply (virtq_init_correct slot1 fresh_nic fresh_pages); [exact fresh_nic_inv|reflexivity]|].
  intros v s'. destruct (net_layout fresh_pages) as [x|] eqn:E; [|by vm_compute in E].
  intros (-> & s1 & s2 & rx & tx & Hr & _). split; [reflexivity|]. exists s1, rx, tx. exact Hr.
Defined.

Lemma rx_descriptors_misplaced_witness :
  wp (virt_mmio_net_virtq_init slot1) fresh_nic (λ v s', v = 0 ∧
    ∃ s1 rx, m_net s1 !! 0%nat = Some rx ∧ ∀ i, 0 <= i < 256 →
      split_desc (m_ram s1) (q_ring rx) i = (q_buffers rx + 2048 * i, 2048, 0, 2)).
Proof.
  eapply wp_mono.
  { eapply (rx_descriptors_misplaced slot1 fresh_nic fresh_pages); [exact fresh_nic_inv|reflexivity|by vm_compute]. }
  intros v s' (-> & s1 & s2 & rx & Hn & _ & _ & Hd). split; [reflexivity|]. exists s1, rx. split; [exact Hn|exact Hd].
Defined.

(** ** Starting the card *)

Lemma fresh_apart x : 0x80420000 <= x < 0x80420000 + 6 → ¬ in_pages fresh_pages x.
Proof.
  intros Hx (a & (i & -> & Hi%elem_of_seqZ)%list_elem_of_fmap & Ha). rewrite PAGE_SIZE_eq in Ha. lia.
Qed.

Definition rest_pages : list Z := (λ i, 0x80304000 + 4096 * i) <$> seqZ 0 40.

Lemma nic_dma_parts x : nic_dma x →
  device_part (fresh_queue rx_ring rx_bufs zero_nic_queue) x ∨ device_part (fresh_queue tx_ring tx_bufs zero_nic_queue) x.
Proof.
  intros [Hx|Hx]; [left|right]; left; revert Hx; cbn [q_ring fresh_queue];
    unfold used_idx, virtq_used, virtq_avail, sizeof_virtq, DESC_QUEUE_SIZE; lia.
Qed.

Lemma nic_posts_live L s :
  queues_live (fresh_queue rx_ring rx_bufs zero_nic_queue) (fresh_queue tx_ring tx_bufs zero_nic_queue) L s →
  posts fuel (fresh_queue rx_ring rx_bufs zero_nic_queue) s.
Proof.
  intros Hl. apply nic_posts; [pose proof fuel_min; lia|by left|]. by rewrite (ql_offered _ _ _ _ Hl).
Qed.

Lemma nic_card_ok : card_ok nic_dma 0x80420000
  (fresh_queue rx_ring rx_bufs zero_nic_queue) (fresh_queue tx_ring tx_bufs zero_nic_queue) fresh_pages.
Proof. split; [exact nic_dma_parts|done|exact fresh_apart]. Qed.

(** This card answers, so that starting it comes to an end. *)
Lemma net_device_starts_witness :
  wp (start_net_device 0x80420000 slot1) fresh_nic (λ _ s', ∃ s1 s2 v,
    queues_live (fresh_queue rx_ring rx_bufs zero_nic_queue) (fresh_queue tx_ring tx_bufs zero_nic_queue) rest_pages s1 ∧
    negotiated slot1 (fresh_queue rx_ring rx_bufs zero_nic_queue) (fresh_queue tx_ring tx_bufs zero_nic_queue) s1 v s2).
Proof.
  apply (wp_or_wp _ _ _ (λ s', ∃ s4, queues_live (fresh_queue rx_ring rx_bufs zero_nic_queue)
    (fresh_queue tx_ring tx_bufs zero_nic_queue) rest_pages s4 ∧
    nsteps (silent (fresh_queue rx_ring rx_bufs zero_nic_queue)) fuel s4 s')).
  2:{ intros s' (s4 & Hl & Hst). by eapply posts_not_silent; [eapply nic_posts_live|]. }
  eapply wp_or_mono.
  { apply (net_device_starts slot1 slot1_addr nic_dma 0x80420000 zero_nic_queue zero_nic_queue
      rx_ring rx_bufs tx_ring tx_bufs fresh_pages rest_pages fresh_nic).
    - exact fresh_nic_inv.
    - reflexivity.
    - reflexivity.
    - reflexivity.
    - by vm_compute.
    - exact nic_card_ok. }
  - intros _ s' ((s1 & Hl & s2 & v & Hn & _) & _). exists s1, s2, v. split; [exact Hl|exact Hn].
  - intros s' ((s1 & _ & s2 & _ & mac & s3 & s4 & _ & _ & Hl & Hst) & _). by exists s4.
Defined.
