(* ===== verification/TestbenchSplit.v ===== *)
(** * A concrete network card that follows the rules

    It writes to the used ring of the receive queue only if it finds a buffer it
    may write. *)

From S2P Require Import Prelude Globals Machine Utils Uart Heap HeapSpec Paging Packet Virtio VirtioSpec Virtq.
From S2P Require Import DeviceIo VirtioNet VirtioRx VirtioStart VirtioSplit TestbenchNet.

Definition strict_sync (d : gmap Z Z) (r : gmap Z Z) : list (Z * Z) * gmap Z Z :=
  (if Z.testbit (split_flags r rx_ring 0) 1 then [(used_idx rx_ring, 1)] else [], d).

#[refine] Instance strict : Platform := {|
  dev := gmap Z Z;
  dev_read := nic_read;
  dev_write := λ d a _ v, <[a := v]> d;
  dev_sync := strict_sync;
  dev_time := λ d, (1000, d);
  fuel := Z.to_nat (2 ^ 13);
|}.
Proof. lia. Defined.

#[global] Instance strict_tx : UartTx.
Proof.
  intros d. pose proof fuel_min as Hf. destruct fuel as [|n] eqn:E; [simpl in Hf; lia|]. by left.
Qed.

#[global] Instance strict_split : SplitDevice rx_ring.
Proof. intros d r Hf. cbn [dev_sync strict strict_sync]. unfold strict_sync. rewrite (Hf 0) by done. constructor. Qed.

(** The same memory and variables with this card. *)
Definition with_strict (s : @machine nic) : machine :=
  Machine strict (m_ram s) ∅ [] (m_csr s) (m_heap s) (m_net s) (m_sched s).

Lemma with_strict_inv s l : heap_inv s l → heap_inv (with_strict s) l.
Proof. intros [H1 H2 H3 H4 H5]. by split. Qed.

Definition fresh_strict : machine := with_strict fresh_nic.

Lemma fresh_strict_inv : heap_inv fresh_strict fresh_pages.
Proof. apply with_strict_inv, fresh_nic_inv. Qed.

Lemma split_card_hangs_witness :
  let rx := fresh_queue rx_ring rx_bufs zero_nic_queue in
  let tx := fresh_queue tx_ring tx_bufs zero_nic_queue in
  returns_or_hangs (start_net_device 0x80420000 slot1) fresh_strict
    (λ s', ∃ s1, starved rx_ring (m_ram s1) ∧ card_fails slot1 rx tx s1 s')
    (λ s', ∃ s1, starved rx_ring (m_ram s1) ∧ card_hangs slot1 0x80420000 rx tx s1 s').
Proof.
  intros rx tx.
  destruct (split_card_hangs slot1 slot1_addr 0x80420000 zero_nic_queue zero_nic_queue rx_ring rx_bufs tx_ring tx_bufs
    fresh_pages rest_pages fresh_strict fresh_strict_inv eq_refl eq_refl eq_refl ltac:(by vm_compute) eq_refl fresh_apart)
    as [Hw|Hs].
  - left. eapply wp_mono; [exact Hw|]. intros [] s' (s1 & _ & Hs & Hf). by exists s1.
  - right. eapply stops_mono; [exact Hs|]. intros s' (s1 & _ & Hs' & Hf). by exists s1.
Defined.
