(* ===== verification/TestbenchBoot.v ===== *)
(** * A concrete device tree, and a boot

    A small blob in the memory of a machine with a console and a network card: the
    theorems about dtb.c and main.c at concrete inputs. *)

From S2P Require Import Prelude Globals Machine Utils Uart Heap HeapSpec Paging PagingSpec KernelMap.
From S2P Require Import Packet Virtio VirtioSpec Virtq VirtioNet VirtioRx VirtioStart Dtb DtbSpec DtbTermination.
From S2P Require Import Process Trap Asm TrapVector Sched Interrupts Main Boot TestbenchNet.

(** The console is always ready, all other device registers read zero; [n]
    bounds the loops. *)
#[refine] Definition quiet (n : Z) (Hn : 2 ^ 13 <= n) : Platform := {|
  dev := unit;
  dev_read := λ d a _, (if a =? UART_LSR then 0x61 else 0, d);
  dev_write := λ d _ _ _, d;
  dev_sync := λ d _, ([], d);
  dev_time := λ d, (0, d);
  fuel := Z.to_nat n;
|}.
Proof. lia. Defined.

Definition quiet_machine (P : Platform) (d : dev) (r : gmap Z Z) : machine :=
  Machine P r d [] (Csrs 2 0 0 0 0 0 0 0 0) (HeapVars 0 0 0 0) []
    (SchedVars [] None (Context_ 0 0 0 0 0 0 0 0 0 0 0 0 0 0)).

(** A tree with a console and a device the callback does not know. *)
Definition tree : list item :=
  [Node []; Nop; Node (chars "uart@10000000"); Property 0 (zlit "ns16550a"); EndNode;
   Node (chars "rtc@101000"); Property 0 (chars "goldfish-rtc"); Property 9 []; EndNode; EndNode].

Definition blob_addr : Z := 0x82200000.

(** The header and the structure block behind it. *)
Definition blob : list Z :=
  be32 FDT_MAGIC ++ be32 200 ++ be32 40 ++ concat (replicate 6 (be32 0)) ++
  be32 (length (encode (tree ++ [End_]))) ++ encode (tree ++ [End_]).

Definition blob_ram : gmap Z Z := ram_write blob_addr blob ∅.

Definition blob_machine : machine := quiet_machine nic ∅ blob_ram.

Lemma bytes_in_blob a bs (i : nat) :
  a = blob_addr + i → take (length bs) (drop i blob) = bs → in_ram a (length bs) = true →
  forallb (λ b, (0 <=? b) && (b <? 2 ^ 8)) bs = true → bytes_at blob_ram a bs.
Proof.
  intros -> Hb Hr Hf. split; [done|]. intros j b Hj.
  assert (blob !! (i + j)%nat = Some b) as E.
  { rewrite <- Hb in Hj. apply lookup_take_Some in Hj as [Hj _]. by rewrite lookup_drop in Hj. }
  unfold blob_ram. replace (blob_addr + i + j) with (blob_addr + (i + j)%nat) by lia.
  rewrite (byte_at_write_in _ _ _ _ _ E). apply Z.mod_small. rewrite forallb_forall in Hf.
  specialize (Hf b (proj1 (list_elem_of_In _ _) (list_elem_of_lookup_2 _ _ _ Hj))). lia.
Qed.

Lemma tree_ok : Forall (item_ok (fuel : nat)) tree.
Proof. repeat constructor; by compute. Qed.

Lemma fdt_traverse_visits_witness :
  fdt_traverse blob_addr dtb_callback blob_machine =
  visit dtb_callback [(blob_addr + 40 + 44, 9); (blob_addr + 40 + 88, 12)] blob_machine.
Proof.
  change [(blob_addr + 40 + 44, 9); (blob_addr + 40 + 88, 12)] with (calls (blob_addr + 40) tree).
  apply (fdt_traverse_visits dtb_callback blob_addr (length (encode (tree ++ [End_]))) blob_ram 40 tree blob_machine).
  - reflexivity.
  - by apply (bytes_in_blob _ _ 0).
  - split; [by apply (bytes_in_blob _ _ 8)|lia].
  - by apply (bytes_in_blob _ _ 36).
  - reflexivity.
  - by compute.
  - by apply (bytes_in_blob _ _ 40).
  - reflexivity.
  - exact tree_ok.
  - by compute.
  - apply callback_keeps_memory.
Defined.

Lemma dtb_callback_witness :
  dtb_callback (lit "ns16550a") 9 blob_machine = Ok 1 blob_machine ∧
  dtb_callback (lit "virtio,mmio") 12 blob_machine = Ok 2 blob_machine.
Proof.
  split.
  - apply (dtb_callback_cases blob_machine (lit "ns16550a") (zlit "ns16550a")); [apply chars_at_zlit|done|by compute|done].
  - apply (dtb_callback_cases blob_machine (lit "virtio,mmio") (zlit "virtio,mmio"));
      [apply chars_at_zlit|done|by compute|done].
Defined.

Lemma unit_name_witness :
  wp (parse_dtb_unit_name (lit "uart@10000000")) blob_machine (λ v s', s' = blob_machine ∧ v = 0x10000000).
Proof.
  apply (unit_name_value blob_machine (lit "uart@10000000") (chars "uart") (chars "10000000") 0);
    [apply (chars_at_zlit _ "uart@10000000")|by repeat constructor|by repeat constructor|reflexivity|by compute|by compute].
Defined.

(** A bound above the number of readable addresses. *)
Lemma fdt_traverse_ends_witness :
  let P := quiet (2 ^ 28) ltac:(lia) in ends (fdt_traverse blob_addr dtb_callback) (quiet_machine P tt blob_ram).
Proof.
  intros P. apply (fdt_traverse_ends (H := P)). unfold P, fuel, quiet. lia.
Defined.

(** ** A boot *)

#[global] Instance nic_only : OnlyCard (Some slot1).
Proof.
  intros d device (i & Hi & ->) E. unfold VIRTIO_SLOTS, VIRTIO_SIZE, GPIO_BASE_ADDR in *. cbn [dev_read nic] in E.
  unfold nic_read, UART_LSR, UART_REG, UART0_BASE, slot1, VIRTIO_SIZE in *.
  rewrite 3!(proj2 (Z.eqb_neq _ _)) in E by lia. rewrite (proj2 (Z.eqb_eq _ 8)) in E by dlia.
  destruct (Z.eqb_spec (4096 * i + 268435456 + 8) (268439552 + 8)) as [E'|]; [f_equal; lia|done].
Qed.

(** A kernel image that ends at 0x801fa008, and addresses in its code. *)
#[global] Instance small_image : Image := {|
  __heap_start := KERNEL_BASE_VA + 0x1fa008;
  __stack_limit := KERNEL_BASE_VA + 0x8000000 - 0x4000;
  boot_page_table := 0x80008000;
|}.
#[global] Instance small_image_ok : ImageOk.
Proof. split; vm_compute; intuition congruence. Qed.
#[global] Instance small_boot_ok : BootTableOk.
Proof. split; vm_compute; intuition congruence. Qed.

#[global] Instance small_code : Code := {| forkret := 0x80001000; trap_vector := 0x80002000 |}.
#[refine] #[global] Instance small_ret : CodeRet := {| sched_ret := 0x80001100; yield_ret := 0x80001200 |}.
Proof. by apply (bool_decide_unpack _); vm_compute. Defined.

Lemma blob_in_memory : blob_at (m_ram blob_machine) blob_addr 40 tree.
Proof.
  split; [by apply (bytes_in_blob _ _ 0)|by apply (bytes_in_blob _ _ 8)|lia|by apply (bytes_in_blob _ _ 36)|by compute|
          by apply (bytes_in_blob _ _ 40)|done|exact tree_ok|by compute].
Qed.

Lemma tree_benign : Forall benign tree.
Proof.
  repeat (apply Forall_cons; split); try done; (split; [by compute|]); by intros str [-> | ->] [k E].
Qed.

Lemma blob_apart x : blob_part blob_addr 40 tree x → ¬ boot_writes 0x80007000 x.
Proof.
  assert (_ebss = 0x801fa008 ∧ init_heap_start = 0x801fb000 ∧ Z.of_nat (length init_pages) = 4096) as (E1 & E2 & E3)
    by (by vm_compute).
  intros Hx [Hb|(a & (i & Hi & ->)%elem_of_pages & Ha)].
  - unfold blob_part, blob_addr in Hx. lia.
  - unfold init_pages in E3. rewrite length_pages in E3. rewrite PAGE_SIZE_eq in *. unfold blob_part, blob_addr in Hx. lia.
Qed.

Lemma boot_queues : boot_rx = fresh_queue rx_ring rx_bufs zero_nic_queue ∧ boot_tx = fresh_queue tx_ring tx_bufs zero_nic_queue.
Proof. by vm_compute. Qed.

Lemma pages_4096 : Z.of_nat (length init_pages) = 4096.
Proof. by vm_compute. Qed.

Lemma nic_boots : boot_card nic_dma 0x87fff000.
Proof.
  assert (init_heap_start = 0x801fb000) as E by (by vm_compute). destruct boot_queues as [Er Et]. pose proof pages_4096 as E3.
  split; [lia|done| |rewrite Er, Et; exact nic_dma_parts].
  intros x Hx (a & (i & Hi & ->)%elem_of_pages & Ha).
  unfold init_pages in E3. rewrite length_pages in E3. rewrite E, PAGE_SIZE_eq in *. lia.
Qed.

Lemma boot_conditions : boot_ok (Some slot1) nic_dma 0x80007000 blob_addr 40 tree 0x87fff000 blob_machine.
Proof.
  split; [by vm_compute|pose proof pages_4096; lia|exact blob_in_memory|exact tree_benign|exact blob_apart|].
  intros _. exact nic_boots.
Qed.

(** This card answers. *)
Lemma nic_not_silent s' : ¬ card_silent (Some slot1) s'.
Proof.
  intros (_ & _ & _ & _ & s4 & Hl & Hst). destruct boot_queues as [Er Et]. rewrite Er, Et in Hl. rewrite Er in Hst.
  by eapply posts_not_silent; [eapply nic_posts_live|].
Qed.

Lemma kernel_boots_witness :
  wp (_start 0x80007000 blob_addr 0x87fff000 0x80003000 0x80003100) blob_machine (λ v s', v = true ∧
    kernel_up (Some slot1) 0x80003000 0x80003100 s').
Proof.
  eapply wp_or_wp; [|exact nic_not_silent].
  apply (kernel_boots (Some slot1) nic_dma 0x80007000 blob_addr 40 tree). exact boot_conditions.
Defined.

Lemma kernel_boots_interrupted_witness :
  wp (start_with 0x80007000 main_head) blob_machine (λ v s', v = true ∧
    safe (main_calls blob_addr 0x87fff000 0x80003000 0x80003100) s' (kernel_up (Some slot1) 0x80003000 0x80003100)
      (card_silent (Some slot1))).
Proof.
  refine (proj2 (kernel_boots_interrupted (Some slot1) nic_dma 0x80007000 blob_addr 40 tree 0x87fff000 0x80003000 0x80003100
    blob_machine boot_conditions _)).
  intros x Hx [Hs _]. assert (virt_to_phys __stack_limit = 0x87ffc000) as E by (by vm_compute).
  rewrite E in Hs. unfold blob_part, blob_addr in Hx. assert (length (encode (tree ++ [End_])) < 2 ^ 10) by (by vm_compute). lia.
Defined.

(** On this machine the timer can interrupt code whose stack pointer is 0x87ffe000. *)
Lemma interrupt_in_boot : ∃ s', taken blob_machine s'.
Proof.
  apply (taken_possible (Hart (λ r, if decide (r = Sp) then 0x87ffe000 else 0) (λ _, 0)) 0x80001234 0 IRQ_S_TIMER); [done|].
  split; [done|in_list|split; [intros r; by destruct r|split_and!; by vm_compute|done]|].
  intros x Hx. unfold in_frame, frame_at, on_stack in *. assert (virt_to_phys __stack_limit = 0x87ffc000) as -> by (by vm_compute).
  change (get_reg _ Sp) with 0x87ffe000 in Hx. unfold RAM_END. lia.
Qed.
